(* ===== verification/_CoqProject ===== *)
-Q . S2P
Prelude.v
Float32.v
Cpu.v
Offset.v
Hex.v
Packet.v
Lockfree.v
Database.v
Executor.v
Physics.v
QuadTree.v
Bezier.v
World.v
Reference.v
Cell.v
Cluster.v
Turn.v
Map.v
Grow.v
Operate.v
Life.v
Places.v
Motion.v
Server.v
Connection.v
Work.v
Debug.v
Update.v
Tick.v
Walk.v
Reach.v
SlowMap.v
SlowMerge.v
Examples.v
Scenario.v
Jobs.v
