(* ===== verification/Prelude.v ===== *)
(** * Shinzui: a verification library for the server core

    Shinzui is the core of a game server in C++: a world of hexagonal cells,
    the entities that move in it, their clients, and a loop that updates
    everything every 50 ms. This library is a shallow embedding of it, with the
    theorems that say what each part does, and where it goes wrong.

    ** The program, and the files that model it

    A turn of [Server::update] updates the map, runs the works of the server's
    executor, settles the clients that were accepted or closed, and cleans the
    map up. Updating the map executes the operations that were scheduled since
    the last turn (entities added to and removed from cells, cells destroyed)
    and then updates the cells of every component of the cluster's graph;
    cleaning it up executes the operations of the cluster (keepers), touches
    the cells that the keepers are in, and lets the others stall and die.

    - [Prelude.v]: failures, the state monad, weakest preconditions, machine
      integers, generic lemmas on lists.
    - [Float32.v]: [float] and [double], and [glm] as the class [Glm].
    - [Offset.v], [Hex.v]: [map/offset.hpp]; the neighbourhoods computed in
      [map/cell.cpp] ([ring], [inRadius]) and [map/map.cpp] ([createSiblings],
      [getCellsExcluding]).
    - [Packet.v]: [io/packet.hpp], [io/packet.cpp], [defs/intrusive.hpp].
    - [Lockfree.v]: the interface of [boost::lockfree::queue].
    - [Executor.v]: [executor/]. [Work.v]: the works of it, [executor/abstract_work.hpp].
    - [Database.v]: [database/], threads as interleaved steps.
    - [Cpu.v]: [debug/cpu.cpp]. [Debug.v]: [debug/debug.hpp], [debug/reactive.hpp],
      [debug/reactive.cpp].
    - [Physics.v]: [physics/]. [QuadTree.v]: [map/quadtree.hpp].
    - [Bezier.v]: the curves of [movement/movement_generator.hpp].
    - [World.v]: the state that cells, map, cluster, entities, clients and
      server share. Objects behind pointers live in finite maps from addresses
      ([positive]) to records; a pointer to an object that is gone is
      [UB Dangling]. [Runtime] is what the sources call and do not define,
      [RuntimeLaws] what they rely on. [Reference.v] is an instance of both.
    - [Cell.v]: [map/cell.cpp]. [Cluster.v]: [map/map-cluster/cluster.cpp], with
      the invariant [inv]. [Turn.v]: its [runScheduledOperations] as a whole.
    - [Map.v]: [map/map.cpp] and the callbacks of [map/map_aware_entity.cpp].
      [Grow.v]: the lookups that create cells. [Operate.v]: the operations and
      their loop. [Life.v]: the end of a turn, [Map::cleanup].
    - [Motion.v]: [movement/motion_master.cpp], [movement_generator.cpp], and
      what is left of [map/map_aware_entity.cpp].
    - [Server.v]: [server/server.cpp], and the life of a client.
      [Connection.v]: [server/client.cpp], clients on the network.
    - Executions. [Places.v]: the operations as moves of an abstract machine,
      whose state is where the entities are. [Update.v]: [Cluster::update], with
      the law [Civil] for what an application does in it. [Tick.v]:
      [Server::update] as a whole. [Walk.v]: entities that move in a turn.
      [Reach.v]: the worlds that the server reaches. [Jobs.v]: a turn with the
      works of its executor.
    - [SlowMap.v], [SlowMerge.v]: [map-slow-radius/], an earlier design of the
      map that is not built, with [debug/queue_with_size.hpp] ([Lockfree.v]).
    - [Examples.v], [Scenario.v]: worlds and an execution on which the theorems
      about the world are applied.

    Definitions have the names of the functions they model, with the class in
    front where two classes have a function of the same name ([cell_update],
    [cluster_update], [map_update], [server_update]). A member function that
    changes its object is a computation of the monad [ST], whose state is the
    object ([Packet], [Executor], [Net]) or the world; a failure ends the
    computation.

    ** What the theorems show

    - The server as a whole. [server_update_refines]: a turn is a step of the
      machine of places. [reachable_settled]: the invariant of the worlds that
      the server reaches, and that its turns run. [server_turn_runs]: so do they
      with the works of the executor, whatever packets the clients send.
      [entity_update_spec]: what an entity may do in a turn.
    - The map. [map_tick_refines]: a tick executes the waiting operations as a
      specification on sets of entities does. [run_add_spec] and
      [run_remove_spec] give all effects of one operation, [getOrCreate_spec]
      those of a lookup that creates, [onMove_schedules] what a move schedules,
      [map_runScheduledOperations_fifo] that every operation is executed once,
      in order, and that the loop ends, for any queue.
    - The cluster. [map_cleanup_spec]: the end of a tick, from the keepers to the
      cells that are destroyed. [group_cells_partition]: the components partition the touched
      cells and are those of the graph. [stall_two_minutes]: the countdown.
      [keepers_multiset]: KEEP and UNKEEP, with the one way to fail. The
      invariant [inv] of [Cluster.v] (the map and the heap of cells are inverse
      of each other, touched cells are the vertices, edges join neighbours, ...)
      is kept by touching, creating, adding and removing.
    - Cells. [broadcast_once]: the double queue. [radial_insert_spec] and
      [retrieve_sound]: the quadtree keeps what is inserted, and only that.
    - The server. [server_operations_spec], [close_once], [heart_beat].
      [net_guarded]: a client that is awaited never waits without a timeout,
      whatever the order of what happens on the network; [read_delivers]: what
      arrives in pieces is read whole.
    - The grid. [distance_shortest], [offsetOf_center], [ring_coords_spec],
      [inRadius_coords_spec], [excluding_coords_spec].
    - Packets. [wire_roundtrip]: what is streamed into a packet and sent is read
      back from the bytes received. [read_values_guarded]: reading never leaves
      the bytes received. [put_packet_payload], [refcount_exact].
    - The executor. [run_jobs_fifo], [executeJobs_error], [task_loop_all];
      [works_rounds]: works that own what they use are served, and deleted once;
      [malformed_packet_closes]: a packet that is too short closes its client.
    - The database. [queries_answered_once]: whatever the interleaving, no query
      is lost or served twice; [worker_drains]: a thread that is awake serves
      them all; [waiting_for_ever]: a thread that waits when no signal is left
      to come never ends, and the destructor does not either.
    - The debug screen. [screen_update_spec]: it is drawn in every turn without
      fail; [history_counted]: what the counters of clients count.
      [ram_usage_roundtrip]: the memory that the kernel reports is read back.
    - Geometry and motion. [asRect_extent], [collides_rects_sym],
      [map_length_spec], [path_step].
    - The earlier map. [slow_merge_spec]: merging clusters ends and moves the
      cells it should. [slow_getOrCreate_spec]: a cell that entities enter
      becomes the centre of a new cluster.
    - What goes wrong: [put_values_overflow] (writes past the buffer),
      [task_loop_blocked] (a max-heap of times), [rescheduling_task_dangles],
      [touch_pending_destroy], [close_while_adding], [components_touch] (cells
      updated in parallel that touch each other), [retrieve_incomplete],
      [collides_unrotated], [excluding_coords_far], [merged_ring_stale] (rings
      are cached and never invalidated), [timeout_dangles], [read_dangles] and
      [work_outlives_client] (what refers to a client that is destroyed),
      [timeout_too_late], [read_overflows].

    ** Bounds and fuel

    [int32_t] and [int] arithmetic is checked, and an overflow is [UB]; unsigned
    arithmetic wraps ([u16], [u32], [u64]). [in_grid] are the coordinates below
    2^29 in absolute value, for which nothing overflows, and [interior] those
    whose neighbours are in the grid. Loops that pop a queue take its length as
    fuel: nothing they execute pushes to the same queue
    ([keeps_run_operation]), or, in the executor, the theorems ask for any fuel
    above the number of works and state that the result does not depend on it.
    The insertion into the quadtree has fuel for its maximal depth; the
    bisection of a curve for the number of segments; the propagation of a
    cluster needs as many rings as there are cells ([slow_merge_spec]). In
    [server_turn_runs] any fuel from a bound on is enough.

    ** Not modelled

    - Threads, but for those of the database. The works of the thread pool are
      run one after the other, the callbacks of the network between the steps of
      the main thread; the queues are used by one thread at a time.
      [components_touch] shows that the works are not independent.
    - [boost::asio] itself: [Connection.v] has what its documentation promises
      of reads, timers and cancelling. The driver of the database; how a
      terminal draws the debug screen. The other components do not call the
      counters of the screen: [Debug.v] models them on their own.
    - What an application does in its virtual functions, handlers and tasks
      ([Behaviour], [Runtime], [handleRead], [invoke]), and boost, glm and the
      vendored [dep/]: parameters.
    - The normals that a rectangle caches are recomputed where the world reads
      a box ([rect_of]), and not written back; [Physics.v] models the cache.
    - [memcpy] of a NaN keeps one NaN only.
    - The works of a client that is destroyed stay in the executor
      ([work_outlives_client]): [server_turn_runs] asks at the beginning of
      each turn that the clients of the works are there, which no law of the
      sources gives. *)

From Stdlib Require Import ZArith Lia.
From stdpp Require Import base list gmap sets option numbers.

#[global] Set Default Goal Selector "!".

(** ** Failures

    A run of the program ends normally, throws a C++ exception, calls
    [abort()] (a failed [assert] or [LOG_ASSERT]) or has undefined behaviour;
    the reasons of undefined behaviour that the sources can reach are named. *)

Inductive ub :=
  | NullDeref        (* a null pointer is dereferenced *)
  | Dangling         (* a pointer to a destroyed object is dereferenced *)
  | OutOfBounds      (* an array or buffer is accessed outside its extent *)
  | EraseEnd         (* container.erase(end()) *)
  | IntOverflow      (* signed overflow, or float to int out of range *)
  | Uninitialised.   (* an indeterminate value is read *)

Inductive exn :=
  | ReadOutOfBounds
  | LengthError.     (* std::length_error *)

Inductive failure :=
  | Throw (e : exn)
  | Abort
  | UB (u : ub)
  | NoFuel.          (* the fuel of a loop of the model ran out *)

Inductive outcome (A : Type) :=
  | Ok (a : A)
  | Fail (f : failure).
Arguments Ok {_} _.
Arguments Fail {_} _.

#[export] Instance ub_eq_dec : EqDecision ub.
Proof. solve_decision. Defined.

#[export] Instance exn_eq_dec : EqDecision exn.
Proof. solve_decision. Defined.

#[export] Instance failure_eq_dec : EqDecision failure.
Proof. solve_decision. Defined.

#[export] Instance outcome_eq_dec `{EqDecision A} : EqDecision (outcome A).
Proof. solve_decision. Defined.

#[export] Instance outcome_ret : MRet outcome := λ A a, Ok a.
#[export] Instance outcome_bind : MBind outcome := λ A B f m,
  match m with Ok a => f a | Fail e => Fail e end.
#[export] Instance outcome_fmap : FMap outcome := λ A B f m,
  match m with Ok a => Ok (f a) | Fail e => Fail e end.

(** ** State with failure

    The state survives a failure, as it does in the program: what was written
    before an exception stays written. *)

Definition ST (S A : Type) : Type := S → outcome A * S.

#[export] Instance ST_ret {S} : MRet (ST S) := λ A a s, (Ok a, s).
#[export] Instance ST_bind {S} : MBind (ST S) := λ A B f m s,
  match m s with
  | (Ok a, s') => f a s'
  | (Fail e, s') => (Fail e, s')
  end.

Definition get {S} : ST S S := λ s, (Ok s, s).
Definition gets {S A} (f : S → A) : ST S A := λ s, (Ok (f s), s).
Definition put {S} (s : S) : ST S unit := λ _, (Ok tt, s).
Definition modify {S} (f : S → S) : ST S unit := λ s, (Ok tt, f s).
Definition fail {S A} (e : failure) : ST S A := λ s, (Fail e, s).
Definition lift {S A} (o : outcome A) : ST S A := λ s, (o, s).

(** [from_option e o] is the value of [o], or the failure [e]. *)
Definition from_option {S A} (e : failure) (o : option A) : ST S A :=
  match o with Some a => mret a | None => fail e end.

(** A range-based [for] loop over a fixed sequence. *)
Fixpoint for_each {S A} (f : A → ST S unit) (l : list A) : ST S unit :=
  match l with
  | [] => mret tt
  | x :: l => _ ← f x; for_each f l
  end.

(** A loop that collects a result per element (an initializer list, whose
    elements C++ evaluates from left to right). *)
Fixpoint map_each {S A B} (f : A → ST S B) (l : list A) : ST S (list B) :=
  match l with
  | [] => mret []
  | x :: l => y ← f x; ys ← map_each f l; mret (y :: ys)
  end.

(** ** Weakest preconditions (total: no failure of any kind) *)

Definition wp {S A} (m : ST S A) (s : S) (Q : A → S → Prop) : Prop :=
  match m s with
  | (Ok a, s') => Q a s'
  | (Fail _, _) => False
  end.

Section wp_rules.
Context {S : Type}.
Implicit Types (s : S).

Lemma wp_ret {A} (a : A) s Q : Q a s → wp (mret a : ST S A) s Q.
Proof. done. Qed.

Lemma wp_bind {A B} (m : ST S A) (f : A → ST S B) s Q :
  wp m s (λ a s', wp (f a) s' Q) → wp (m ≫= f) s Q.
Proof.
  unfold wp, mbind, ST_bind. destruct (m s) as [[a|e] s']; [done|done].
Qed.

Lemma wp_mono {A} (m : ST S A) s (P Q : A → S → Prop) :
  wp m s P → (∀ a s', P a s' → Q a s') → wp m s Q.
Proof. unfold wp. destruct (m s) as [[a|e] s']; eauto. Qed.

Lemma wp_get s (Q : S → S → Prop) : Q s s → wp get s Q.
Proof. done. Qed.

Lemma wp_gets {A} (f : S → A) s Q : Q (f s) s → wp (gets f) s Q.
Proof. done. Qed.

Lemma wp_put s s' Q : Q tt s' → wp (put s') s Q.
Proof. done. Qed.

Lemma wp_modify (f : S → S) s Q : Q tt (f s) → wp (modify f) s Q.
Proof. done. Qed.

Lemma wp_lift_ok {A} (o : outcome A) a s Q : o = Ok a → Q a s → wp (lift o) s Q.
Proof. by intros -> ?. Qed.

Lemma wp_from_option {A} e (o : option A) a s Q :
  o = Some a → Q a s → wp (from_option e o) s Q.
Proof. by intros -> ?. Qed.

(** The invariant rule of a range-based [for]. *)
Lemma wp_for_each {A} (f : A → ST S unit) (I : list A → S → Prop) l s :
  I l s →
  (∀ x l' s', I (x :: l') s' → wp (f x) s' (λ _ s'', I l' s'')) →
  wp (for_each f l) s (λ _ s', I [] s').
Proof.
  revert s. induction l as [|x l IH]; intros s HI Hstep; [by apply wp_ret|].
  cbn. apply wp_bind. eapply wp_mono; [by apply Hstep|]. auto.
Qed.

Lemma wp_map_each {A B} (f : A → ST S B) (I : list B → list A → S → Prop) l s :
  I [] l s →
  (∀ ys x l' s', I ys (x :: l') s' → wp (f x) s' (λ y s'', I (ys ++ [y]) l' s'')) →
  wp (map_each f l) s (λ ys s', I ys [] s').
Proof.
  intros HI Hstep.
  cut (∀ pre l s, I pre l s →
         wp (map_each f l) s (λ ys s', I (pre ++ ys) [] s')).
  { intros Hgen. by apply (Hgen []). }
  clear HI l s. intros pre l. revert pre.
  induction l as [|x l IH]; intros pre s HI; cbn.
  - apply wp_ret. by rewrite app_nil_r.
  - apply wp_bind. eapply wp_mono; [by apply Hstep|].
    intros y s' HI'. apply wp_bind. eapply wp_mono; [exact (IH _ _ HI')|].
    intros ys s'' HI''. apply wp_ret. cbn beta in HI''. by rewrite <-app_assoc in HI''.
Qed.

(** A successful run, from a weakest precondition. *)
Lemma wp_run {A} (m : ST S A) s Q :
  wp m s Q → ∃ a s', m s = (Ok a, s') ∧ Q a s'.
Proof. unfold wp. destruct (m s) as [[a|e] s']; [eauto|done]. Qed.

Lemma run_wp {A} (m : ST S A) s a s' Q :
  m s = (Ok a, s') → Q a s' → wp m s Q.
Proof. by unfold wp; intros -> ?. Qed.

Lemma wp_eq {A} (m : ST S A) s a s' :
  wp m s (λ b s1, b = a ∧ s1 = s') → m s = (Ok a, s').
Proof. unfold wp. destruct (m s) as [[b|e] s1]; naive_solver. Qed.

Lemma bind_ok_inv {A B} (m : ST S A) (f : A → ST S B) s b s' :
  (m ≫= f) s = (Ok b, s') →
  ∃ a s1, m s = (Ok a, s1) ∧ f a s1 = (Ok b, s').
Proof.
  unfold mbind, ST_bind. destruct (m s) as [[a|e] s1]; naive_solver.
Qed.

Lemma bind_fail {A B} (m : ST S A) (f : A → ST S B) s e :
  (m s).1 = Fail e → ((m ≫= f) s).1 = Fail e.
Proof. unfold mbind, ST_bind. destruct (m s) as [[a|e'] s']; cbn; congruence. Qed.

Lemma for_each_app {A} (f : A → ST S unit) l1 l2 s :
  for_each f (l1 ++ l2) s = (for_each f l1 ≫= λ _, for_each f l2) s.
Proof.
  revert s. induction l1 as [|x l1 IH]; intros s; [done|].
  cbn. unfold mbind, ST_bind. destruct (f x s) as [[[]|e] s']; [|done].
  apply IH.
Qed.
End wp_rules.

(** ** Preconditions up to some failures

    [wpe E m s Q]: [m] ends in [Q], or fails in a way that [E] excuses. *)

Definition wpe {S A} (E : failure → Prop) (m : ST S A) (s : S) (Q : A → S → Prop) : Prop :=
  match m s with
  | (Ok a, s') => Q a s'
  | (Fail f, _) => E f
  end.

Section wpe_rules.
Context {S : Type} (E : failure → Prop).
Implicit Types (s : S).

Lemma wp_wpe {A} (m : ST S A) s Q : wp m s Q → wpe E m s Q.
Proof. unfold wp, wpe. by destruct (m s) as [[a|f] s']. Qed.

Lemma wpe_bind {A B} (m : ST S A) (f : A → ST S B) s Q :
  wpe E m s (λ a s', wpe E (f a) s' Q) → wpe E (m ≫= f) s Q.
Proof. unfold wpe, mbind, ST_bind. by destruct (m s) as [[a|e] s']. Qed.

Lemma wpe_mono {A} (m : ST S A) s (P Q : A → S → Prop) :
  wpe E m s P → (∀ a s', P a s' → Q a s') → wpe E m s Q.
Proof. unfold wpe. destruct (m s) as [[a|e] s']; eauto. Qed.

(** A step that does not fail, and the rest. *)
Lemma wpe_wp_bind {A B} (m : ST S A) (f : A → ST S B) s P Q :
  wp m s P → (∀ a s', P a s' → wpe E (f a) s' Q) → wpe E (m ≫= f) s Q.
Proof. intros Hm Hf. apply wpe_bind, wp_wpe. eapply wp_mono; [exact Hm|exact Hf]. Qed.

(** A step that runs. *)
Lemma wpe_run_bind {A B} (m : ST S A) (f : A → ST S B) s a s' Q :
  m s = (Ok a, s') → wpe E (f a) s' Q → wpe E (m ≫= f) s Q.
Proof. intros Hm HQ. unfold wpe, mbind, ST_bind in *. by rewrite Hm. Qed.

Lemma wpe_lift {A} (o : outcome A) s (Q : A → S → Prop) :
  match o with Ok a => Q a s | Fail f => E f end → wpe E (lift o) s Q.
Proof. unfold wpe, lift. by destruct o. Qed.

(** A loop that keeps [I]. *)
Lemma wpe_for_each {A} (f : A → ST S unit) (I : S → Prop) l s :
  I s → (∀ x s', x ∈ l → I s' → wpe E (f x) s' (λ _, I)) → wpe E (for_each f l) s (λ _, I).
Proof.
  revert s. induction l as [|x l IH]; intros s Hs Hstep; [done|].
  cbn [for_each]. apply wpe_bind. eapply wpe_mono; [apply Hstep; [apply elem_of_cons; by left|done]|].
  intros [] s' Hs'. apply IH; [done|]. intros y s'' Hy. apply Hstep. apply elem_of_cons. by right.
Qed.
End wpe_rules.

Lemma wp_for_each_in {S A} (f : A → ST S unit) (I : S → Prop) l s :
  I s → (∀ x s', x ∈ l → I s' → wp (f x) s' (λ _, I)) → wp (for_each f l) s (λ _, I).
Proof. exact (wpe_for_each (λ _, False) f I l s). Qed.

Create HintDb shinzui.
#[export] Hint Resolve wp_ret wp_gets wp_get wp_modify wp_put : shinzui.

(** One step of symbolic execution of a goal [wp m s Q]. *)
Ltac wp_step :=
  lazymatch goal with
  | |- wp (mbind _ _) _ _ => apply wp_bind
  | |- wp (mret _) _ _ => apply wp_ret
  | |- wp (gets _) _ _ => apply wp_gets
  | |- wp get _ _ => apply wp_get
  | |- wp (modify _) _ _ => apply wp_modify
  | |- wp (put _) _ _ => apply wp_put
  | |- wp (λ _, _) _ _ => progress cbn
  | |- wp (if ?b then _ else _) _ _ => fail
  end.
Ltac wp_steps := repeat (wp_step; cbn beta).

(** Inverts a successful run of a sequence, and the equations it gives. *)
Ltac inv_run :=
  repeat match goal with
  | H : (mbind _ _) _ = (Ok _, _) |- _ =>
      apply bind_ok_inv in H as (? & ? & ? & H)
  | H : gets _ _ = (Ok _, _) |- _ => unfold gets in H; simplify_eq
  | H : get _ = (Ok _, _) |- _ => unfold get in H; simplify_eq
  | H : modify _ _ = (Ok _, _) |- _ => unfold modify in H; simplify_eq
  | H : mret _ _ = (Ok _, _) |- _ => unfold mret, ST_ret in H; simplify_eq
  | H : fail _ _ = (Ok _, _) |- _ => discriminate H
  | H : lift _ _ = (Ok _, _) |- _ => unfold lift in H; simplify_eq
  end.

(** ** Machine integers

    Unsigned integers are residues, as C++ defines; signed arithmetic that
    leaves the type's range is undefined behaviour. *)

Definition wrap (w : Z) (z : Z) : Z := z mod 2 ^ w.
Abbreviation u8 := (wrap 8).
Abbreviation u16 := (wrap 16).
Abbreviation u32 := (wrap 32).
Abbreviation u64 := (wrap 64).

Definition i32_min : Z := - 2 ^ 31.
Definition i32_max : Z := 2 ^ 31 - 1.
Definition in_i32 (z : Z) : bool := (i32_min <=? z)%Z && (z <=? i32_max)%Z.

(** The value [z] of an [int] expression, undefined when it overflows. *)
Definition i32 (z : Z) : outcome Z := if in_i32 z then Ok z else Fail (UB IntOverflow).

(** The [int32_t] with the bits of a [uint32_t] (two's complement). *)
Definition to_signed32 (z : Z) : Z := if (z <? 2 ^ 31)%Z then z else (z - 2 ^ 32)%Z.

Lemma wrap_range w z : (0 ≤ w)%Z → (0 ≤ wrap w z < 2 ^ w)%Z.
Proof. intros. apply Z.mod_pos_bound. lia. Qed.

Lemma wrap_small w z : (0 ≤ z < 2 ^ w)%Z → wrap w z = z.
Proof. apply Z.mod_small. Qed.

Lemma in_i32_spec z : in_i32 z = true ↔ (- 2 ^ 31 ≤ z < 2 ^ 31)%Z.
Proof. unfold in_i32, i32_min, i32_max. lia. Qed.

Lemma i32_ok z : (- 2 ^ 31 ≤ z < 2 ^ 31)%Z → i32 z = Ok z.
Proof. unfold i32. intros H. by rewrite (proj2 (in_i32_spec z) H). Qed.

Lemma i32_inv z z' : i32 z = Ok z' → z' = z ∧ (- 2 ^ 31 ≤ z < 2 ^ 31)%Z.
Proof.
  unfold i32. destruct (in_i32 z) eqn:E; [|done].
  intros [= <-]. split; [done|]. by apply in_i32_spec.
Qed.

Lemma to_signed32_wrap z : (- 2 ^ 31 ≤ z < 2 ^ 31)%Z → to_signed32 (u32 z) = z.
Proof.
  intros H. unfold to_signed32, wrap. destruct (decide (0 ≤ z)%Z).
  - rewrite Z.mod_small by lia. destruct (Z.ltb_spec z (2 ^ 31)); lia.
  - rewrite <-(Z.mod_unique z (2 ^ 32) (-1) (z + 2 ^ 32)) by lia.
    destruct (Z.ltb_spec (z + 2 ^ 32) (2 ^ 31)); lia.
Qed.

#[export] Hint Resolve wrap_range i32_ok : shinzui.

(** ** Lists *)

(** Grouping a list by a key loses and repeats nothing. *)
Lemma concat_add_one {K A} (g g' : K → list A) (ks : list K) (k : K) (x : A) :
  NoDup ks → k ∈ ks → g' k = x :: g k → (∀ k', k' ≠ k → g' k' = g k') →
  concat (g' <$> ks) ≡ₚ x :: concat (g <$> ks).
Proof.
  intros Hnd Hk Hx Hne. induction Hnd as [|k0 ks Hk0 _ IH]; [by apply elem_of_nil in Hk|].
  cbn. apply elem_of_cons in Hk as [<-|Hk].
  - rewrite Hx. cbn. apply perm_skip, Permutation_app_head.
    assert (∀ k', k' ∈ ks → g' k' = g k') as Hall by (intros k' Hk'; apply Hne; by intros ->).
    clear -Hall. induction ks as [|k1 ks IH]; [done|]. cbn.
    rewrite Hall by (apply elem_of_cons; by left). f_equiv. apply IH.
    intros k' Hk'. apply Hall, elem_of_cons. by right.
  - rewrite Hne by (intros ->; done). rewrite IH by done. by rewrite Permutation_middle.
Qed.

Lemma concat_groups {A} (f : A → option nat) (n : nat) (l : list A) :
  (∀ x, x ∈ l → ∃ k, f x = Some k ∧ k < n) →
  concat ((λ k, filter (λ x, f x = Some k) l) <$> seq 0 n) ≡ₚ l.
Proof.
  induction l as [|x l IH]; intros Hf.
  - induction (seq 0 n); [done|]. by cbn.
  - destruct (Hf x) as (k & Hk & Hn); [apply elem_of_cons; by left|].
    rewrite (concat_add_one (λ k, filter (λ x, f x = Some k) l) _ _ k x).
    + rewrite IH; [done|]. intros y Hy. apply Hf, elem_of_cons. by right.
    + apply NoDup_seq.
    + apply elem_of_seq. lia.
    + by rewrite filter_cons_True.
    + intros k' Hne. rewrite filter_cons_False; [done|]. congruence.
Qed.

(** The least positive number that a list has not. *)
Lemma least_missing (l : list nat) :
  ∃ n, (1 ≤ n ≤ S (length l)) ∧ n ∉ l ∧ (∀ i, 1 ≤ i < n → i ∈ l).
Proof.
  assert (∀ m, (∃ n, (1 ≤ n ≤ m) ∧ n ∉ l ∧ (∀ i, 1 ≤ i < n → i ∈ l)) ∨ (∀ i, i ∈ seq 1 m → i ∈ l)) as Hm.
  { induction m as [|m [(n & ? & ?)|IH]]; [right|left; exists n; split; [lia|done]|].
    { intros i Hi%elem_of_nil. done. }
    destruct (decide (S m ∈ l)).
    - right. intros i Hi%elem_of_seq. destruct (decide (i = S m)) as [->|]; [done|].
      apply IH, elem_of_seq. lia.
    - left. exists (S m). split_and!; [lia|lia|done|]. intros i Hi. apply IH, elem_of_seq. lia. }
  destruct (Hm (S (length l))) as [?|Hsub]; [done|].
  assert (seq 1 (S (length l)) ⊆+ l) as Hlen%submseteq_length by (apply NoDup_submseteq; [apply NoDup_seq|done]).
  rewrite length_seq in Hlen. lia.
Qed.

(** ** Options *)

Lemma fmap_same {A B} (f : A → B) (x y : option A) :
  f <$> x = f <$> y → ∀ a, y = Some a → ∃ b, x = Some b ∧ f b = f a.
Proof. intros Heq a ->. cbn in Heq. apply fmap_Some in Heq as (b & -> & Heq). by exists b. Qed.
