(* ===== verification/Float32.v ===== *)
(** * Single-precision arithmetic and the vectors of the program

    [float] is IEEE 754 binary32, rounded to nearest even: the executable
    specification of the standard library ([SpecFloat]) at precision 24 and
    maximal exponent 128; [double] is the same at 53 and 1024. The sources are
    compiled for a target that evaluates [float] expressions in single
    precision and does not contract products and sums.

    [glm] is not part of the sources. Its vectors are records of floats, its
    operations are the class [Glm]. *)

From Stdlib Require Import ZArith Lia Bool.
From Stdlib Require Import Floats.SpecFloat.
From stdpp Require Import base list option numbers.
From S2P Require Import Prelude.

Abbreviation f32 := spec_float (only parsing).
Abbreviation f64 := spec_float (only parsing).

Declare Scope f32_scope.
Delimit Scope f32_scope with f32.

Definition fadd : f32 → f32 → f32 := SFadd 24 128.
Definition fsub : f32 → f32 → f32 := SFsub 24 128.
Definition fmul : f32 → f32 → f32 := SFmul 24 128.
Definition fdiv : f32 → f32 → f32 := SFdiv 24 128.
Definition fsqrt : f32 → f32 := SFsqrt 24 128.
Definition fopp : f32 → f32 := SFopp.
Definition fabs : f32 → f32 := SFabs.
Definition flt : f32 → f32 → bool := SFltb.
Definition fle : f32 → f32 → bool := SFleb.
Definition feq : f32 → f32 → bool := SFeqb.

Infix "+" := fadd : f32_scope.
Infix "-" := fsub : f32_scope.
Infix "*" := fmul : f32_scope.
Infix "/" := fdiv : f32_scope.
Notation "- x" := (fopp x) : f32_scope.
Infix "<" := flt (only parsing) : f32_scope.
Infix "<=" := fle (only parsing) : f32_scope.
Infix "==" := feq (at level 70, only parsing) : f32_scope.
Notation "x > y" := (flt y x) (only parsing) : f32_scope.
Notation "x >= y" := (fle y x) (only parsing) : f32_scope.

(** Conversion of an integer, rounded to nearest even. *)
Definition f32_of_Z (z : Z) : f32 := binary_normalize 24 128 z 0 false.

(** [round]: to the nearest integer, halfway cases away from zero. *)
Definition fround (x : f32) : f32 :=
  match x with
  | S754_finite s m e =>
      if (0 <=? e)%Z then x
      else
        let n := ((Zpos m + 2 ^ (- e - 1)) / 2 ^ (- e))%Z in
        match n with
        | Z0 => S754_zero s
        | Zpos p => binary_normalize 24 128 (if s then Zneg p else Zpos p) 0 s
        | Zneg _ => S754_nan
        end
  | _ => x
  end.

(** Truncation toward zero of a finite value. *)
Definition ftrunc (x : f32) : option Z :=
  match x with
  | S754_zero _ => Some 0%Z
  | S754_finite s m e =>
      let n := if (0 <=? e)%Z then (Zpos m * 2 ^ e)%Z else (Zpos m / 2 ^ (- e))%Z in
      Some (if s then (- n)%Z else n)
  | _ => None
  end.

(** [static_cast<int>]: undefined when the truncated value is no [int]. *)
Definition f32_to_int (x : f32) : outcome Z :=
  match ftrunc x with
  | Some z => i32 z
  | None => Fail (UB IntOverflow)
  end.

(** A value of the type, i.e. a canonical finite number, a zero, an infinity
    or a NaN. *)
Definition f32_valid (x : f32) : bool := valid_binary 24 128 x.

Definition is_nan (x : f32) : bool := match x with S754_nan => true | _ => false end.

(** [float] to [double] is exact; [double] to [float] rounds. *)
Definition f64_of_f32 (x : f32) : f64 :=
  match x with
  | S754_finite s m e => binary_round 53 1024 s m e
  | _ => x
  end.
Definition f32_of_f64 (x : f64) : f32 :=
  match x with
  | S754_finite s m e => binary_round 24 128 s m e
  | _ => x
  end.
Definition dadd : f64 → f64 → f64 := SFadd 53 1024.
Definition dsub : f64 → f64 → f64 := SFsub 53 1024.
Definition dmul : f64 → f64 → f64 := SFmul 53 1024.
Definition dsqrt : f64 → f64 := SFsqrt 53 1024.

(** [std::pow(x, 2)] of a [float] and an [int] is computed in [double]. *)
Definition pow2 (x : f32) : f64 := dmul (f64_of_f32 x) (f64_of_f32 x).

Definition vec2 : Type := f32 * f32.
Record vec3 := Vec3 { v3x : f32; v3y : f32; v3z : f32 }.
Record vec4 := Vec4 { v4x : f32; v4y : f32; v4z : f32; v4w : f32 }.

#[export] Instance f32_eq_dec : EqDecision spec_float.
Proof. solve_decision. Defined.
#[export] Instance vec3_eq_dec : EqDecision vec3.
Proof. solve_decision. Defined.
#[export] Instance vec4_eq_dec : EqDecision vec4.
Proof. solve_decision. Defined.

(** ** Order of the comparisons

    The comparisons of IEEE 754 are a strict weak order away from NaN. *)

Lemma flt_irrefl x : flt x x = false.
Proof.
  unfold flt, SFltb. destruct x as [s|s| |s m e]; cbn; [done|by destruct s|done|].
  rewrite Z.compare_refl, Pos.compare_cont_refl. by destruct s.
Qed.

Lemma fcompare_antisym x y : SFcompare y x = CompOpp <$> SFcompare x y.
Proof.
  destruct x as [s|s| |s m e], y as [s'|s'| |s' m' e']; cbn;
    try (by destruct s); try (by destruct s'); try (by destruct s, s'); try done.
  assert (Pos.compare_cont Eq m' m = CompOpp (Pos.compare_cont Eq m m')) as Hm.
  { by rewrite Pos.compare_cont_antisym. }
  rewrite (Z.compare_antisym e e').
  by destruct s, s', (e ?= e')%Z; cbn; rewrite ?Hm.
Qed.

Lemma flt_asym x y : flt x y = true → flt y x = false.
Proof.
  unfold flt, SFltb. rewrite (fcompare_antisym x y).
  by destruct (SFcompare x y) as [[]|].
Qed.

Lemma fle_flt_total x y :
  is_nan x = false → is_nan y = false → flt y x = negb (fle x y).
Proof.
  intros Hx Hy. unfold flt, fle, SFltb, SFleb. rewrite (fcompare_antisym x y).
  destruct (SFcompare x y) as [[]|] eqn:E; try done.
  destruct x as [s|s| |s m e], y as [s'|s'| |s' m' e']; cbn in *; done.
Qed.

Lemma fle_trans x y z : fle x y = true → fle y z = true → fle x z = true.
Proof.
  unfold fle, SFleb.
  destruct x as [[]|[]| |[] m e], y as [[]|[]| |[] m' e'], z as [[]|[]| |[] m'' e'']; cbn; try done.
  all: change (Pos.compare_cont Eq) with Pos.compare.
  all: destruct (Z.compare_spec e e'), (Z.compare_spec e' e''), (Z.compare_spec e e''); try done; try lia.
  all: destruct (Pos.compare_spec m m'), (Pos.compare_spec m' m''), (Pos.compare_spec m m''); cbn; try done; lia.
Qed.
Lemma flt_fle x y : flt x y = true → fle x y = true.
Proof. unfold flt, fle, SFltb, SFleb. by destruct (SFcompare x y) as [[]|]. Qed.
Lemma fle_refl x : is_nan x = false → fle x x = true.
Proof.
  intros. unfold fle, SFleb. destruct x as [s|s| |s m e]; cbn in *; [done|by destruct s|done|].
  rewrite Z.compare_refl, Pos.compare_cont_refl. by destruct s.
Qed.
Lemma fle_not_nan x y : fle x y = true → is_nan x = false ∧ is_nan y = false.
Proof. unfold fle, SFleb. destruct x as [[]|[]| |], y as [[]|[]| |]; cbn; done. Qed.

Lemma flt_false_fle x y :
  is_nan x = false → is_nan y = false → flt x y = false → fle y x = true.
Proof. intros Hx Hy. rewrite (fle_flt_total y x) by done. by destruct (fle y x). Qed.

(** Numbers that compare equal are the same, but for the sign of zero. *)
Definition is_zero (x : f32) : bool := match x with S754_zero _ => true | _ => false end.

Definition is_finite (x : f32) : bool :=
  match x with S754_zero _ | S754_finite _ _ _ => true | _ => false end.

Lemma fcompare_eq x y :
  SFcompare x y = Some Eq → x = y ∨ is_zero x = true ∧ is_zero y = true.
Proof.
  destruct x as [[]|[]| |[] m e], y as [[]|[]| |[] m' e']; cbn; try tauto; try done;
    change (Pos.compare_cont Eq) with Pos.compare;
    destruct (Z.compare_spec e e'), (Pos.compare_spec m m'); try done; subst; tauto.
Qed.

Lemma flt_neither x y :
  is_nan x = false → is_nan y = false → flt x y = false → flt y x = false →
  x = y ∨ is_zero x = true ∧ is_zero y = true.
Proof.
  intros Hx Hy. unfold flt, SFltb. rewrite (fcompare_antisym x y). intros H1 H2. apply fcompare_eq.
  destruct (SFcompare x y) as [[]|] eqn:E; try done.
  by destruct x as [[]|[]| |], y as [[]|[]| |].
Qed.

Lemma fsub_zero_sign x x' y :
  is_zero x = true → is_zero x' = true → flt (fsub x y) (S754_zero false) = flt (fsub x' y) (S754_zero false).
Proof. destruct x as [[]|[]| |], x' as [[]|[]| |]; try done; intros _ _; by destruct y as [[]|[]| |]. Qed.

Lemma fsub_zero_sign_r x y y' :
  is_zero y = true → is_zero y' = true → flt (fsub x y) (S754_zero false) = flt (fsub x y') (S754_zero false).
Proof. destruct y as [[]|[]| |], y' as [[]|[]| |]; try done; intros _ _; by destruct x as [[]|[]| |]. Qed.

(** ** The vector library *)

(** The operations of [glm] the sources call, with what they rely on. *)
Class Glm := {
  glm_dot : vec2 → vec2 → f32;
  glm_add : vec2 → vec2 → vec2;
  glm_sub : vec2 → vec2 → vec2;
  glm_scale : vec2 → f32 → vec2;
  glm_length2 : vec2 → f32;
  glm_distance : vec2 → vec2 → f32;
  glm_rotate : vec2 → f32 → vec2;
  glm_length : vec2 → f32;
  glm_normalize : vec2 → vec2;
  glm_normalize3 : vec3 → vec3;
  glm_rotateY : vec3 → f32 → vec3;
  (* of the C library *)
  c_atan2 : f32 → f32 → f32;
}.

(** A [glm] to run examples on: products and sums in the order of the
    coordinates; a rotation by any angle is a quarter turn, and the angle of a
    vector is its slope. *)
Definition plane_glm : Glm := {|
  glm_dot a b := (a.1 * b.1 + a.2 * b.2)%f32;
  glm_add a b := ((a.1 + b.1)%f32, (a.2 + b.2)%f32);
  glm_sub a b := ((a.1 - b.1)%f32, (a.2 - b.2)%f32);
  glm_scale a k := ((a.1 * k)%f32, (a.2 * k)%f32);
  glm_length2 a := (a.1 * a.1 + a.2 * a.2)%f32;
  glm_distance a b := fsqrt ((a.1 - b.1) * (a.1 - b.1) + (a.2 - b.2) * (a.2 - b.2))%f32;
  glm_rotate v _ := (- v.2, v.1)%f32;
  glm_length a := fsqrt (a.1 * a.1 + a.2 * a.2)%f32;
  glm_normalize a := let l := fsqrt (a.1 * a.1 + a.2 * a.2)%f32 in ((a.1 / l)%f32, (a.2 / l)%f32);
  glm_normalize3 a :=
    let l := fsqrt (v3x a * v3x a + v3y a * v3y a + v3z a * v3z a)%f32 in
    Vec3 (v3x a / l)%f32 (v3y a / l)%f32 (v3z a / l)%f32;
  glm_rotateY v _ := Vec3 (v3z v) (v3y v) (- v3x v)%f32;
  c_atan2 y x := (y / x)%f32;
|}.
