(* ===== verification/Cpu.v ===== *)
(** * The load of the machine

    [debug/cpu.cpp] (its part for Linux): what the kernel writes under [/proc],
    read line by line with [fgets] and parsed by hand, and the share of the
    processors that the program has used. The contents of the files and the
    results of [times] are arguments. *)

From Stdlib Require Import ZArith Lia Ascii String.
From Stdlib Require Import Floats.SpecFloat.
From stdpp Require Import base list option.
From S2P Require Import Prelude Float32.

#[local] Open Scope Z_scope.

(** ** Text *)

Abbreviation text := (list ascii).

Definition of_string (s : string) : text := list_ascii_of_string s.
Definition NUL : ascii := Ascii.zero.
Definition newline : ascii := ascii_of_nat 10.

Definition code (c : ascii) : Z := Z.of_nat (nat_of_ascii c).
Definition is_digit (c : ascii) : bool := (48 <=? code c) && (code c <=? 57).
Definition digit_value (c : ascii) : Z := code c - 48.

(** The string that a buffer holds: what is before the terminator. *)
Fixpoint c_str (l : text) : text :=
  match l with
  | [] => []
  | c :: l => if decide (c = NUL) then [] else c :: c_str l
  end.

(** [strncmp(line, prefix, strlen(prefix)) == 0] *)
Fixpoint starts_with (prefix line : text) : bool :=
  match prefix, line with
  | [], _ => true
  | _, [] => false
  | c :: prefix, d :: line => bool_decide (c = d) && starts_with prefix line
  end.

(** [fgets(line, room + 1, file)]: the line, and what is left of the file. *)
Fixpoint fgets (room : nat) (file : text) : text * text :=
  match room, file with
  | O, _ => ([], file)
  | _, [] => ([], [])
  | S room, c :: file =>
      if decide (c = newline) then ([c], file)
      else let '(line, rest) := fgets room file in (c :: line, rest)
  end.

(** The lines that a loop on [fgets(line, 128, file)] sees; every one takes a
    character at least, so that there are not more of them than characters. *)
Fixpoint read_lines (fuel : nat) (file : text) : list text :=
  match fuel, file with
  | O, _ | _, [] => []
  | S fuel, _ => let '(line, rest) := fgets 127 file in line :: read_lines fuel rest
  end.
Definition file_lines (file : text) : list text := read_lines (length file) file.

(** [atoi], from a digit, or from the terminator: blanks and signs are never
    met. A value out of range is undefined. *)
Fixpoint leading_value (acc : Z) (l : text) : Z :=
  match l with
  | c :: l => if is_digit c then leading_value (10 * acc + digit_value c) l else acc
  | [] => acc
  end.
Definition atoi (l : text) : outcome Z := i32 (leading_value 0 l).

(** ** The memory *)

(** The first digit from the start of the buffer on. *)
Fixpoint find_digit (l : text) : option nat :=
  match l with
  | [] => None
  | c :: l => if is_digit c then Some O else S <$> find_digit l
  end.

(** [parseLine], of the buffer that the line is in. *)
Definition parseLine (buffer : text) : outcome Z :=
  let i := length (c_str buffer) in
  match find_digit buffer with
  | None => Fail (UB OutOfBounds)
  | Some p =>
      if decide (i < 3)%nat then Fail (UB OutOfBounds)
      else atoi (c_str (drop p (<[(i - 3)%nat := NUL]> buffer)))
  end.

(** What [line] holds after [fgets]. *)
Definition overwrite (line buffer : text) : text := line ++ NUL :: drop (S (length line)) buffer.

Fixpoint find_rss (lines : list text) (buffer : text) : outcome Z :=
  match lines with
  | [] => Ok (-1)
  | line :: lines =>
      let buffer := overwrite line buffer in
      if starts_with (of_string "VmRSS:") (c_str buffer) then parseLine buffer else find_rss lines buffer
  end.

(** [getCurrentRAMUsage], in kB. The file is missing where it cannot be opened;
    [junk] is what the array [line] holds at first. *)
Definition getCurrentRAMUsage (file : option text) (junk : text) : outcome Z :=
  match file with
  | None => Fail (UB NullDeref)
  | Some file => find_rss (file_lines file) junk
  end.

(** ** The processors *)

Record tms := mkTms { tms_utime : Z; tms_stime : Z }.

Record CPU := mkCPU { lastCPU : Z; lastSysCPU : Z; lastUserCPU : Z; numProcessors : Z }.

(** [initCPUDebugger] *)
Definition initCPUDebugger (now : Z) (timeSample : tms) (cpuinfo : option text) : outcome CPU :=
  match cpuinfo with
  | None => Fail (UB NullDeref)
  | Some file =>
      let processors := filter (λ line, starts_with (of_string "processor") (c_str line) = true) (file_lines file) in
      mret (mkCPU now (tms_stime timeSample) (tms_utime timeSample) (Z.of_nat (length processors)))
  end.

Definition f64_of_Z (z : Z) : f64 := binary_normalize 53 1024 z 0 false.
Definition ddiv : f64 → f64 → f64 := SFdiv 53 1024.

(** [getCurrentCPUUsage] *)
Definition getCurrentCPUUsage (now : Z) (timeSample : tms) (s : CPU) : f64 * CPU :=
  let percent :=
    if (now <=? lastCPU s) || (tms_stime timeSample <? lastSysCPU s) || (tms_utime timeSample <? lastUserCPU s)
    then f64_of_Z (-1)
    else
      let percent := f64_of_Z ((tms_stime timeSample - lastSysCPU s) + (tms_utime timeSample - lastUserCPU s)) in
      let percent := ddiv percent (f64_of_Z (now - lastCPU s)) in
      let percent := ddiv percent (f64_of_Z (numProcessors s)) in
      dmul percent (f64_of_Z 100) in
  (percent, mkCPU now (tms_stime timeSample) (tms_utime timeSample) (numProcessors s)).

(** ** Numbers in text *)

Definition digit (d : Z) : ascii := ascii_of_nat (Z.to_nat (48 + d)).

(** The decimal digits of a number below [10 ^ fuel]. *)
Fixpoint decimal (fuel : nat) (n : Z) : text :=
  match fuel with
  | O => []
  | S fuel => if n <? 10 then [digit n] else decimal fuel (n / 10) ++ [digit (n mod 10)]
  end.


(** ** Digits *)

Lemma digit_ok d : 0 ≤ d < 10 → is_digit (digit d) = true ∧ digit_value (digit d) = d ∧ digit d ≠ NUL.
Proof.
  intros Hd. assert (∃ k, d = Z.of_nat k ∧ (k < 10)%nat) as (k & -> & Hk) by (exists (Z.to_nat d); lia).
  do 10 (destruct k as [|k]; [by vm_compute|]). lia.
Qed.

Lemma leading_value_app acc l c l' :
  Forall (λ c, is_digit c = true) l →
  leading_value acc (l ++ c :: l') =
    if is_digit c then leading_value (10 * leading_value acc l + digit_value c) l' else leading_value acc l.
Proof.
  intros Hl. revert acc. induction Hl as [|d l Hd _ IH]; intros acc; [done|]. cbn [leading_value app]. rewrite Hd. apply IH.
Qed.

Lemma decimal_ok fuel n :
  0 ≤ n < 10 ^ Z.of_nat fuel → (0 < fuel)%nat →
  decimal fuel n ≠ [] ∧ Forall (λ c, is_digit c = true ∧ c ≠ NUL) (decimal fuel n) ∧ leading_value 0 (decimal fuel n) = n.
Proof.
  revert n. induction fuel as [|fuel IH]; intros n Hn Hf; [lia|]. cbn [decimal]. destruct (Z.ltb_spec n 10) as [Hlt|Hge].
  - destruct (digit_ok n) as (Hd & Hv & Hz); [lia|]. split; [done|]. split; [by repeat constructor|].
    cbn [leading_value]. rewrite Hd. cbn. lia.
  - rewrite Nat2Z.inj_succ, Z.pow_succ_r in Hn by lia.
    pose proof (Z.mod_pos_bound n 10 ltac:(lia)) as Hm. pose proof (Z.div_mod n 10 ltac:(lia)) as Hdm.
    assert (0 ≤ n / 10 < 10 ^ Z.of_nat fuel) as Hq by (split; [lia|]; apply Z.div_lt_upper_bound; lia).
    destruct fuel as [|fuel]; [cbn in Hq; lia|]. destruct (IH (n / 10) Hq ltac:(lia)) as (_ & Hall & Hval).
    destruct (digit_ok (n mod 10) Hm) as (Hd & Hv & Hz). split; [by destruct (decimal _ _)|]. split.
    + apply Forall_app. split; [done|]. by repeat constructor.
    + rewrite leading_value_app by (revert Hall; apply Forall_impl; naive_solver).
      rewrite Hd, Hval, Hv. cbn. lia.
Qed.

Lemma length_decimal fuel n : (length (decimal fuel n) ≤ fuel)%nat.
Proof.
  revert n. induction fuel as [|fuel IH]; intros n; [done|]. cbn. case_match; cbn; [lia|].
  rewrite length_app. cbn. specialize (IH (n / 10)). lia.
Qed.

(** ** Lines *)

(** Characters of a line: no terminator, no end of line. *)
Definition plain (c : ascii) : Prop := c ≠ NUL ∧ c ≠ newline.

Lemma c_str_app l stale : Forall (λ c, c ≠ NUL) l → c_str (l ++ NUL :: stale) = l.
Proof. induction 1 as [|c l Hc _ IH]; cbn; [done|]. rewrite decide_False by done. by rewrite IH. Qed.

Lemma c_str_plain l : Forall (λ c, c ≠ NUL) l → c_str l = l.
Proof. induction 1 as [|c l Hc _ IH]; cbn; [done|]. rewrite decide_False by done. by rewrite IH. Qed.

Lemma fgets_line room line rest :
  Forall plain line → (length line < room)%nat →
  fgets room (line ++ newline :: rest) = (line ++ [newline], rest).
Proof.
  intros Hl. revert room. induction Hl as [|c l [_ Hc] _ IH]; intros [|room] Hr; cbn [length] in Hr; try lia; [done|].
  cbn [fgets app]. rewrite decide_False by done. by rewrite IH by lia.
Qed.

Lemma read_lines_cons fuel line rest :
  Forall plain line → (length line < 127)%nat → (length (line ++ newline :: rest) ≤ fuel)%nat →
  ∃ fuel', (length rest ≤ fuel')%nat ∧ read_lines fuel (line ++ newline :: rest) = (line ++ [newline]) :: read_lines fuel' rest.
Proof.
  intros Hl Hlen Hf. rewrite length_app in Hf. cbn in Hf. destruct fuel as [|fuel]; [lia|]. exists fuel. split; [lia|].
  pose proof (fgets_line 127 line rest Hl Hlen) as Hg. destruct line as [|c line]; cbn [app] in *; cbn [read_lines];
    by rewrite Hg.
Qed.

(** Lines one after the other. *)
Definition file_of (lines : list text) : text := mjoin ((λ line, line ++ [newline]) <$> lines).

Definition short (line : text) : Prop := Forall plain line ∧ (length line < 127)%nat.

Lemma read_lines_of lines rest fuel :
  Forall short lines → (length (file_of lines ++ rest) ≤ fuel)%nat →
  ∃ fuel', (length rest ≤ fuel')%nat ∧
    read_lines fuel (file_of lines ++ rest) = ((λ line, line ++ [newline]) <$> lines) ++ read_lines fuel' rest.
Proof.
  intros Hl. revert fuel. induction Hl as [|line lines [Hp Hs] _ IH]; intros fuel Hf; [by exists fuel|].
  assert (file_of (line :: lines) ++ rest = line ++ newline :: (file_of lines ++ rest)) as Heq
    by (unfold file_of; cbn; by rewrite <-!app_assoc). rewrite Heq in *.
  destruct (read_lines_cons fuel line _ Hp Hs Hf) as (f1 & Hf1 & ->). destruct (IH f1 Hf1) as (f2 & Hf2 & ->).
  by exists f2.
Qed.

Lemma file_lines_of lines : Forall short lines → file_lines (file_of lines) = (λ line, line ++ [newline]) <$> lines.
Proof.
  intros Hl. unfold file_lines. destruct (read_lines_of lines [] (length (file_of lines)) Hl) as (f & _ & Hr).
  { by rewrite app_nil_r. }
  rewrite app_nil_r in Hr. rewrite Hr. assert (read_lines f [] = []) as -> by by destruct f. apply app_nil_r.
Qed.

(** ** The memory, as the kernel prints it *)

Lemma find_digit_skip l l' : Forall (λ c, is_digit c = false) l → find_digit (l ++ l') = (λ n, (length l + n)%nat) <$> find_digit l'.
Proof.
  induction 1 as [|c l Hc _ IH]; [cbn; by destruct (find_digit l')|]. cbn. rewrite Hc, IH. by destruct (find_digit l').
Qed.

Lemma atoi_digits n l : 0 ≤ n ≤ i32_max → atoi (decimal 10 n ++ " "%char :: l) = Ok n.
Proof.
  intros Hn. destruct (decimal_ok 10 n) as (_ & Hall & Hval); [unfold i32_max in Hn; lia|lia|].
  unfold atoi. rewrite leading_value_app by (revert Hall; apply Forall_impl; naive_solver). rewrite Hval. cbn.
  apply i32_ok. unfold i32_max in Hn. lia.
Qed.

(** Blanks are no digits, no ends of lines, and no terminators. *)
Definition blank (c : ascii) : Prop := plain c ∧ is_digit c = false.

(** The line for the memory, as the kernel prints it. *)
Definition rss (blanks : text) (n : Z) : text := of_string "VmRSS:" ++ blanks ++ decimal 10 n ++ of_string " kB".

Lemma decimal_head fuel n : 0 ≤ n < 10 ^ Z.of_nat fuel → (0 < fuel)%nat → find_digit (decimal fuel n) = Some O.
Proof.
  intros Hn Hf. destruct (decimal_ok fuel n Hn Hf) as (Hne & Hall & _). destruct (decimal fuel n) as [|c l]; [done|].
  inversion Hall as [|? ? [Hc _]]. cbn. by rewrite Hc.
Qed.

Lemma find_digit_app l l' p : find_digit l = Some p → find_digit (l ++ l') = Some p.
Proof.
  revert p. induction l as [|c l IH]; intros p; cbn; [done|]. destruct (is_digit c); [done|].
  destruct (find_digit l) as [q|]; [|done]. by rewrite (IH q eq_refl).
Qed.

Lemma rss_plain blanks n : Forall blank blanks → 0 ≤ n ≤ i32_max → Forall plain (rss blanks n).
Proof.
  intros Hb Hn. destruct (decimal_ok 10 n) as (_ & Hall & _); [unfold i32_max in Hn; lia|lia|].
  unfold rss. rewrite !Forall_app. split_and!.
  - repeat constructor; by vm_compute.
  - revert Hb. apply Forall_impl. by intros c [].
  - revert Hall. apply Forall_impl. intros c [Hd Hz]. split; [done|]. intros ->. by vm_compute in Hd.
  - repeat constructor; by vm_compute.
Qed.

Lemma parseLine_rss blanks n stale :
  Forall blank blanks → 0 ≤ n ≤ i32_max → parseLine (rss blanks n ++ newline :: NUL :: stale) = Ok n.
Proof.
  intros Hb Hn. set (head := of_string "VmRSS:" ++ blanks).
  assert (Forall (λ c, is_digit c = false) head) as Hhead.
  { apply Forall_app. split; [by repeat constructor|]. revert Hb. apply Forall_impl. by intros c []. }
  assert (rss blanks n ++ newline :: NUL :: stale = head ++ decimal 10 n ++ of_string " kB" ++ newline :: NUL :: stale) as Hline
    by (unfold rss, head; by rewrite <-!app_assoc).
  assert (c_str (rss blanks n ++ newline :: NUL :: stale) = rss blanks n ++ [newline]) as Hstr.
  { replace (rss blanks n ++ newline :: NUL :: stale) with ((rss blanks n ++ [newline]) ++ NUL :: stale) by by rewrite <-app_assoc.
    apply c_str_app, Forall_app. split; [|by repeat constructor]. pose proof (rss_plain blanks n Hb Hn) as Hp.
    revert Hp. apply Forall_impl. by intros c []. }
  unfold parseLine. rewrite Hstr.
  assert (find_digit (rss blanks n ++ newline :: NUL :: stale) = Some (length head)) as ->.
  { rewrite Hline, find_digit_skip by done. erewrite find_digit_app by (apply decimal_head; unfold i32_max in Hn; lia).
    cbn. f_equal. lia. }
  assert (length (rss blanks n ++ [newline]) = (length head + length (decimal 10 n) + 4)%nat) as Hlen.
  { unfold rss, head. rewrite !length_app. cbn. lia. }
  rewrite decide_False by lia. rewrite Hlen, Hline.
  replace (length head + length (decimal 10 n) + 4 - 3)%nat with (length head + (length (decimal 10 n) + 1))%nat by lia.
  rewrite insert_app_r, drop_app_length, insert_app_r. cbn [of_string list_ascii_of_string app insert list_insert].
  match goal with |- context [NUL :: ?l] => replace (decimal 10 n ++ " "%char :: NUL :: l)
    with ((decimal 10 n ++ [" "%char]) ++ NUL :: l) by by rewrite <-app_assoc end.
  rewrite c_str_app; [by apply (atoi_digits n [])|]. apply Forall_app. split; [|by repeat constructor].
  destruct (decimal_ok 10 n) as (_ & Hall & _); [unfold i32_max in Hn; lia|lia|]. revert Hall. apply Forall_impl. by intros c [].
Qed.

Lemma line_no_nul line : Forall plain line → Forall (λ c, c ≠ NUL) (line ++ [newline]).
Proof.
  intros Hl. apply Forall_app. split; [|by repeat constructor]. revert Hl. apply Forall_impl. by intros c [].
Qed.

Lemma c_str_overwrite line buffer : Forall plain line → c_str (overwrite (line ++ [newline]) buffer) = line ++ [newline].
Proof. intros Hl. by apply c_str_app, line_no_nul. Qed.

Lemma starts_with_newline prefix line : newline ∉ prefix → starts_with prefix (line ++ [newline]) = starts_with prefix line.
Proof.
  revert line. induction prefix as [|c prefix IH]; intros [|d line] Hn; [done..| |].
  - cbn. rewrite bool_decide_false; [done|]. intros ->. apply Hn. by left.
  - cbn. rewrite IH; [done|]. intros Hin. apply Hn. by right.
Qed.

Lemma rss_no_newline : newline ∉ of_string "VmRSS:".
Proof. apply (bool_decide_unpack _). by vm_compute. Qed.

Lemma starts_with_app prefix line : starts_with prefix (prefix ++ line) = true.
Proof. induction prefix as [|c prefix IH]; [done|]. cbn. by rewrite bool_decide_true, IH. Qed.

(** C20. [getCurrentRAMUsage] reads back what the kernel has written: in a file
    of lines that fit into the buffer, of which the first that starts with
    VmRSS: has a number of kilobytes behind some blanks, the result is the
    number. *)
Theorem ram_usage_roundtrip (before after : list text) (blanks : text) (n : Z) (junk : text)
    (Hbefore : Forall (λ line, short line ∧ starts_with (of_string "VmRSS:") line = false) before)
    (Hafter : Forall short after) (Hblanks : Forall blank blanks) (Hlength : (length blanks < 100)%nat)
    (Hn : 0 ≤ n ≤ i32_max) :
  getCurrentRAMUsage (Some (file_of (before ++ rss blanks n :: after))) junk = Ok n.
Proof.
  assert (short (rss blanks n)) as Hshort.
  { split; [by apply rss_plain|]. unfold rss. rewrite !length_app. pose proof (length_decimal 10 n).
    change (length (of_string "VmRSS:")) with 6%nat. change (length (of_string " kB")) with 3%nat. lia. }
  unfold getCurrentRAMUsage. rewrite file_lines_of.
  2: { apply Forall_app. split; [revert Hbefore; apply Forall_impl; by intros line []|]. by constructor. }
  rewrite fmap_app, fmap_cons. revert junk.
  induction Hbefore as [|line before [[Hp _] Hs] _ IH]; intros junk; cbn [fmap list_fmap app find_rss].
  - rewrite c_str_overwrite by apply Hshort. rewrite starts_with_newline by apply rss_no_newline.
    unfold rss at 1. rewrite starts_with_app. unfold overwrite. rewrite <-app_assoc. by apply parseLine_rss.
  - rewrite c_str_overwrite by done. rewrite starts_with_newline by apply rss_no_newline. rewrite Hs. apply IH.
Qed.

Lemma ram_usage_absent lines junk :
  Forall (λ line, short line ∧ starts_with (of_string "VmRSS:") line = false) lines →
  getCurrentRAMUsage (Some (file_of lines)) junk = Ok (-1).
Proof.
  intros Hl. unfold getCurrentRAMUsage. rewrite file_lines_of by (revert Hl; apply Forall_impl; by intros line []).
  revert junk. induction Hl as [|line lines [[Hp _] Hs] _ IH]; intros junk; [done|]. cbn [fmap list_fmap find_rss].
  rewrite c_str_overwrite by done. rewrite starts_with_newline by apply rss_no_newline. rewrite Hs. apply IH.
Qed.

(** ** The processors *)

Lemma count_lines prefix lines :
  newline ∉ prefix → Forall short lines →
  length (filter (λ line, starts_with prefix (c_str line) = true) ((λ line, line ++ [newline]) <$> lines)) =
  length (filter (λ line, starts_with prefix line = true) lines).
Proof.
  intros Hn. induction 1 as [|line lines [Hp _] _ IH]; [done|]. rewrite fmap_cons, !filter_cons.
  assert (starts_with prefix (c_str (line ++ [newline])) = starts_with prefix line) as Heq.
  { rewrite c_str_plain by by apply line_no_nul. by apply starts_with_newline. }
  repeat case_decide; cbn [length]; congruence.
Qed.

(** The processors are the lines that start with their name. *)
Lemma processors_counted now timeSample lines :
  Forall short lines →
  initCPUDebugger now timeSample (Some (file_of lines)) =
    Ok (mkCPU now (tms_stime timeSample) (tms_utime timeSample)
      (Z.of_nat (length (filter (λ line, starts_with (of_string "processor") line = true) lines)))).
Proof.
  intros Hl. unfold initCPUDebugger. rewrite file_lines_of, count_lines by (done || apply (bool_decide_unpack _); by vm_compute).
  done.
Qed.

(** A clock that has not moved, or has gone backwards, is skipped. *)
Lemma cpu_skipped now timeSample s :
  now ≤ lastCPU s → (getCurrentCPUUsage now timeSample s).1 = f64_of_Z (-1).
Proof. intros Hn. unfold getCurrentCPUUsage. by rewrite (proj2 (Z.leb_le _ _) Hn). Qed.

(** ** A file *)

Definition status_before : list text := [of_string "Name:   shinzui"; of_string "VmPeak:   61440 kB"].
Definition status_after : list text := [of_string "RssAnon:   4096 kB"].

Lemma ram_usage_roundtrip_witness :
  getCurrentRAMUsage (Some (file_of (status_before ++ rss (of_string "   ") 51234 :: status_after))) [] = Ok 51234.
Proof.
  apply ram_usage_roundtrip.
  - repeat constructor; by vm_compute.
  - repeat constructor; by vm_compute.
  - repeat constructor; by vm_compute.
  - vm_compute. lia.
  - unfold i32_max. lia.
Defined.
