(* ===== verification/Offset.v ===== *)
(** * Axial coordinates of the hexagonal grid ([src/map/offset.hpp])

    [Offset] and its hash, the distance of two cells, the position of the
    centre of a cell and the cell of a position, the six directions. Signed
    arithmetic is checked: [int32_t] overflow is undefined behaviour. *)

From Stdlib Require Import ZArith Lia.
From stdpp Require Import base list option numbers relations countable.
From S2P Require Import Prelude Float32.

(** [std::numeric] facts of the grid: the size of a cell. *)
Definition cellSize_x : f32 := f32_of_Z 80.
Definition cellSize_y : f32 := f32_of_Z 80.

Record Offset := mkOffset { off_q : Z; off_r : Z }.

#[export] Instance Offset_eq_dec : EqDecision Offset.
Proof. solve_decision. Defined.

#[export] Instance Offset_countable : Countable Offset.
Proof.
  refine (inj_countable' (λ o, (off_q o, off_r o)) (λ p, mkOffset p.1 p.2) _).
  by intros [].
Defined.

Definition off_s (o : Offset) : outcome Z :=
  n ← i32 (- off_q o); i32 (n - off_r o).

(** The two [uint32_t] halves of the union, read back as a [uint64_t] on a
    little-endian machine: the first member is the low half. *)
Definition hash (o : Offset) : Z :=
  Z.lor (u32 (off_r o)) (Z.shiftl (u32 (off_q o)) 32).

(** [std::abs] of an [int]. *)
Definition abs_i32 (z : Z) : outcome Z := i32 (Z.abs z).

Definition distance (a b : Offset) : outcome Z :=
  dq ← i32 (off_q a - off_q b) ≫= abs_i32;
  dr ← i32 (off_r a - off_r b) ≫= abs_i32;
  sa ← off_s a;
  sb ← off_s b;
  ds ← i32 (sa - sb) ≫= abs_i32;
  mret (Z.max (Z.max dq dr) ds).

Definition center (o : Offset) : vec2 :=
  let q := f32_of_Z (off_q o) in
  let r := f32_of_Z (off_r o) in
  let f2 := f32_of_Z 2 in
  let f3 := f32_of_Z 3 in
  ((cellSize_x * f3 / f2 * q)%f32,
   (cellSize_y * fsqrt f3 * (r + q / f2))%f32).

Definition offsetOf (x y : f32) : outcome Offset :=
  let f2 := f32_of_Z 2 in
  let f3 := f32_of_Z 3 in
  let q := (x * f2 / f3 / cellSize_x)%f32 in
  let r := ((- x / f3 + fsqrt f3 / f3 * y) / cellSize_y)%f32 in
  let s := (- q - r)%f32 in
  q_int ← f32_to_int (fround q);
  r_int ← f32_to_int (fround r);
  s_int ← f32_to_int (fround s);
  let q_diff := fabs (f32_of_Z q_int - q)%f32 in
  let r_diff := fabs (f32_of_Z r_int - r)%f32 in
  let s_diff := fabs (f32_of_Z s_int - s)%f32 in
  if (q_diff > r_diff)%f32 && (q_diff > s_diff)%f32 then
    n ← i32 (- r_int); q_int ← i32 (n - s_int); mret (mkOffset q_int r_int)
  else if (r_diff > s_diff)%f32 then
    n ← i32 (- q_int); r_int ← i32 (n - s_int); mret (mkOffset q_int r_int)
  else mret (mkOffset q_int r_int).

(** A direction, as the pair of its coordinates. *)
Definition Direction : Type := Z * Z.

Definition directions : list Direction :=
  [(1, -1); (1, 0); (0, 1); (-1, 1); (-1, 0); (0, -1)]%Z.

Definition MAX_DIR_IDX : Z := 6.

Definition directionIdxs (q r : Z) : Z :=
  if (q =? 1)%Z && (r =? -1)%Z then 0
  else if (q =? 1)%Z && (r =? 0)%Z then 1
  else if (q =? 0)%Z && (r =? 1)%Z then 2
  else if (q =? -1)%Z && (r =? 1)%Z then 3
  else if (q =? -1)%Z && (r =? 0)%Z then 4
  else if (q =? 0)%Z && (r =? -1)%Z then 5
  else -1.

(** ** The grid as a graph *)

(** Coordinates for which no operation above overflows. *)
Definition in_grid (o : Offset) : Prop :=
  (- 2 ^ 29 < off_q o < 2 ^ 29)%Z ∧ (- 2 ^ 29 < off_r o < 2 ^ 29)%Z.

#[export] Instance in_grid_dec o : Decision (in_grid o).
Proof. unfold in_grid. apply _. Defined.

Definition off_add (o : Offset) (d : Direction) : Offset :=
  mkOffset (off_q o + d.1) (off_r o + d.2).

(** Two cells are adjacent when a direction leads from one to the other. *)
Definition adjacent (a b : Offset) : Prop := ∃ d, d ∈ directions ∧ b = off_add a d.

(** The coordinates whose neighbours are in the grid. *)
Definition interior (o : Offset) : Prop := in_grid o ∧ ∀ o', adjacent o o' → in_grid o'.

(** The hexagonal norm of a difference of coordinates. *)
Definition hex_norm (dq dr : Z) : Z := Z.max (Z.max (Z.abs dq) (Z.abs dr)) (Z.abs (dq + dr)).

Definition hex_dist (a b : Offset) : Z := hex_norm (off_q a - off_q b) (off_r a - off_r b).

Lemma hex_norm_le dq dr n :
  (hex_norm dq dr ≤ n ↔ - n ≤ dq ≤ n ∧ - n ≤ dr ≤ n ∧ - n ≤ dq + dr ≤ n)%Z.
Proof. unfold hex_norm. lia. Qed.

Lemma hex_norm_triangle a b c d :
  (hex_norm (a + c) (b + d) ≤ hex_norm a b + hex_norm c d)%Z.
Proof.
  pose proof (proj1 (hex_norm_le a b _) (Z.le_refl _)).
  pose proof (proj1 (hex_norm_le c d _) (Z.le_refl _)).
  apply hex_norm_le. lia.
Qed.

Lemma hex_norm_opp a b : hex_norm (- a) (- b) = hex_norm a b.
Proof. unfold hex_norm. lia. Qed.

Lemma Offset_eq a b : off_q a = off_q b → off_r a = off_r b → a = b.
Proof. by destruct a, b; cbn; intros -> ->. Qed.

Lemma elem_of_directions (d : Direction) :
  d ∈ directions ↔ hex_norm d.1 d.2 = 1%Z.
Proof.
  destruct d as [dq dr]. unfold directions, hex_norm. cbn [fst snd].
  rewrite !elem_of_cons, elem_of_nil. split.
  - intros [H|[H|[H|[H|[H|[H|[]]]]]]]; injection H as -> ->; reflexivity.
  - intros H.
    assert ((dq = 1 ∧ dr = -1) ∨ (dq = 1 ∧ dr = 0) ∨ (dq = 0 ∧ dr = 1) ∨
            (dq = -1 ∧ dr = 1) ∨ (dq = -1 ∧ dr = 0) ∨ (dq = 0 ∧ dr = -1))%Z
      as [[-> ->]|[[-> ->]|[[-> ->]|[[-> ->]|[[-> ->]|[-> ->]]]]]] by lia; tauto.
Qed.

Lemma adjacent_dist a b : adjacent a b ↔ hex_dist a b = 1%Z.
Proof.
  unfold adjacent, hex_dist. split.
  - intros (d & Hd%elem_of_directions & ->). unfold hex_norm in *. cbn. lia.
  - intros H. exists (off_q b - off_q a, off_r b - off_r a)%Z. split.
    + apply elem_of_directions. unfold hex_norm in *. cbn. lia.
    + apply Offset_eq; cbn; lia.
Qed.

#[export] Instance adjacent_dec a b : Decision (adjacent a b).
Proof.
  destruct (decide (hex_dist a b = 1%Z)) as [H|H].
  - left. by apply adjacent_dist.
  - right. by rewrite adjacent_dist.
Defined.

Lemma adjacent_sym a b : adjacent a b → adjacent b a.
Proof. rewrite !adjacent_dist. unfold hex_dist, hex_norm. lia. Qed.

Lemma off_s_ok o : in_grid o → off_s o = Ok (- off_q o - off_r o)%Z.
Proof.
  unfold in_grid, off_s. intros []. rewrite (i32_ok (- off_q o)) by lia.
  cbn. by rewrite i32_ok by lia.
Qed.

Lemma distance_ok a b :
  in_grid a → in_grid b → distance a b = Ok (hex_dist a b).
Proof.
  intros Ha Hb. pose proof Ha as [??]. pose proof Hb as [??]. unfold distance, abs_i32.
  rewrite !off_s_ok by done.
  rewrite (i32_ok (off_q a - off_q b)), (i32_ok (off_r a - off_r b)) by lia. cbn.
  rewrite !i32_ok by lia. cbn. rewrite !i32_ok by lia. cbn. f_equal.
  unfold hex_dist, hex_norm. lia.
Qed.

(** One step toward a cell shortens the distance by one. *)
Lemma hex_dist_step a b :
  (0 < hex_dist a b)%Z → ∃ c, adjacent a c ∧ hex_dist c b = (hex_dist a b - 1)%Z.
Proof.
  intros H.
  assert (∃ d, d ∈ directions ∧ hex_dist (off_add a d) b = hex_dist a b - 1)%Z
    as (d & Hd & Heq); [|exists (off_add a d); split; [by exists d|done]].
  unfold hex_dist, hex_norm, off_add in *. cbn [off_q off_r].
  set (x := (off_q a - off_q b)%Z) in *. set (y := (off_r a - off_r b)%Z) in *.
  assert (∃ i j, hex_norm i j = 1 ∧
    Z.max (Z.max (Z.abs (x + i)) (Z.abs (y + j))) (Z.abs (x + i + (y + j))) =
    Z.max (Z.max (Z.abs x) (Z.abs y)) (Z.abs (x + y)) - 1)%Z as (i & j & Hij & Heq).
  { destruct (Z.lt_trichotomy x 0) as [Hx|[Hx|Hx]], (Z.lt_trichotomy y 0) as [Hy|[Hy|Hy]];
      destruct (Z.lt_trichotomy (x + y) 0) as [Hs|[Hs|Hs]]; try lia;
      first [ exists 1%Z, (-1)%Z; unfold hex_norm; lia
            | exists 1%Z, 0%Z; unfold hex_norm; lia
            | exists 0%Z, 1%Z; unfold hex_norm; lia
            | exists (-1)%Z, 1%Z; unfold hex_norm; lia
            | exists (-1)%Z, 0%Z; unfold hex_norm; lia
            | exists 0%Z, (-1)%Z; unfold hex_norm; lia ]. }
  exists (i, j). split; [by apply elem_of_directions|].
  etrans; [|exact Heq]. unfold x, y. cbn. do 3 f_equal; lia.
Qed.

Lemma hex_dist_nonneg a b : (0 ≤ hex_dist a b)%Z.
Proof. unfold hex_dist, hex_norm. lia. Qed.

Lemma hex_dist_0 a b : hex_dist a b = 0%Z ↔ a = b.
Proof.
  unfold hex_dist, hex_norm. split; [|intros ->; lia].
  intros. apply Offset_eq; lia.
Qed.

Lemma hex_dist_triangle a b c : (hex_dist a c ≤ hex_dist a b + hex_dist b c)%Z.
Proof.
  unfold hex_dist. etrans; [|apply hex_norm_triangle].
  apply Z.eq_le_incl. f_equal; lia.
Qed.

Lemma hex_dist_path a b n : nsteps adjacent n a b → (hex_dist a b ≤ Z.of_nat n)%Z.
Proof.
  induction 1 as [x|n x y z Hxy%adjacent_dist _ IH].
  - by rewrite (proj2 (hex_dist_0 x x)).
  - pose proof (hex_dist_triangle x y z). lia.
Qed.

Lemma hex_dist_reach a b : nsteps adjacent (Z.to_nat (hex_dist a b)) a b.
Proof.
  remember (Z.to_nat (hex_dist a b)) as n eqn:Hn. revert a Hn.
  pose proof hex_dist_nonneg as Hnn.
  induction n as [|n IH]; intros a Hn; pose proof (Hnn a b).
  - replace b with a by (apply hex_dist_0; lia). constructor.
  - destruct (hex_dist_step a b) as (c & Hac & Hc); [lia|].
    econstructor; [done|]. apply IH. lia.
Qed.

(** ** Properties *)

Definition off_i32 (o : Offset) : Prop :=
  in_i32 (off_q o) = true ∧ in_i32 (off_r o) = true.

Lemma hash_parts o :
  hash o = (u32 (off_r o) + u32 (off_q o) * 2 ^ 32)%Z.
Proof.
  enough (Z.land (u32 (off_r o)) (Z.shiftl (u32 (off_q o)) 32) = 0)%Z as Hl.
  { pose proof (Z.add_lor_land (u32 (off_r o)) (Z.shiftl (u32 (off_q o)) 32)) as Ha.
    unfold hash. rewrite Z.shiftl_mul_pow2 in * by lia. lia. }
  apply Z.bits_inj'. intros n Hn. rewrite Z.land_spec, Z.bits_0.
  destruct (decide (n < 32)%Z).
  - rewrite Z.shiftl_spec_low, andb_false_r by lia. done.
  - unfold wrap at 1. rewrite Z.mod_pow2_bits_high by lia. done.
Qed.

(** The hash of an offset is a 64-bit word whose halves, read back as
    [int32_t], are its two coordinates ([q] high, [r] low); so no two offsets
    share a hash. *)
Lemma hash_decodes (o : Offset) (Ho : off_i32 o) :
  (0 ≤ hash o < 2 ^ 64)%Z ∧
  to_signed32 (Z.shiftr (hash o) 32) = off_q o ∧
  to_signed32 (Z.land (hash o) 0xFFFFFFFF) = off_r o ∧
  (∀ o', off_i32 o' → hash o' = hash o → o' = o).
Proof.
  assert (∀ o, off_i32 o → to_signed32 (Z.shiftr (hash o) 32) = off_q o ∧
            to_signed32 (Z.land (hash o) 0xFFFFFFFF) = off_r o) as Hdec.
  { clear. intros o [Hq%in_i32_spec Hr%in_i32_spec]. rewrite hash_parts.
    pose proof (wrap_range 32 (off_q o)). pose proof (wrap_range 32 (off_r o)).
    rewrite Z.shiftr_div_pow2, Z.div_add by lia.
    change 0xFFFFFFFF%Z with (Z.ones 32). rewrite Z.land_ones by lia.
    rewrite Z.mod_add, Z.div_small, Z.mod_small by lia.
    rewrite Z.add_0_l. split; by apply to_signed32_wrap. }
  pose proof (wrap_range 32 (off_q o)). pose proof (wrap_range 32 (off_r o)).
  split; [rewrite hash_parts; lia|].
  destruct (Hdec o Ho) as [Hq Hr]. split_and!; [done|done|].
  intros o' Ho' Heq. destruct (Hdec o' Ho') as [Hq' Hr']. rewrite Heq in *.
  apply Offset_eq; congruence.
Qed.

Lemma hash_decodes_witness :
  off_i32 (mkOffset (-3) 7) ∧ to_signed32 (Z.shiftr (hash (mkOffset (-3) 7)) 32) = (-3)%Z.
Proof.
  assert (off_i32 (mkOffset (-3) 7)) as H by (split; reflexivity).
  split; [exact H|]. exact (proj1 (proj2 (hash_decodes (mkOffset (-3) 7) H))).
Defined.

(** C31. [Offset::distance] is the graph distance of the hexagonal grid: the
    number it returns is the length of a path of unit directions between the
    two cells, and no path is shorter. *)
Theorem distance_shortest (a b : Offset) (Ha : in_grid a) (Hb : in_grid b) :
  ∃ n, distance a b = Ok (Z.of_nat n) ∧
       nsteps adjacent n a b ∧
       ∀ m, nsteps adjacent m a b → n ≤ m.
Proof.
  pose proof (hex_dist_nonneg a b). exists (Z.to_nat (hex_dist a b)). split_and!.
  - rewrite distance_ok by done. f_equal. lia.
  - apply hex_dist_reach.
  - intros m Hm%hex_dist_path. lia.
Qed.

Lemma distance_shortest_witness :
  ∃ n, distance (mkOffset 0 0) (mkOffset 2 (-5)) = Ok (Z.of_nat n) ∧ n = 5.
Proof.
  destruct (distance_shortest (mkOffset 0 0) (mkOffset 2 (-5))) as (n & Hd & _).
  - split; cbn; lia.
  - split; cbn; lia.
  - exists n. split; [exact Hd|]. 
    assert (distance (mkOffset 0 0) (mkOffset 2 (-5)) = Ok 5%Z) as E by reflexivity.
    rewrite E in Hd. injection Hd. lia.
Defined.

(** Points around the centre of a cell, well inside it (the inner radius of a
    cell is about 69). *)
Definition inner_points : list (Z * Z) :=
  [(0, 0); (60, 0); (-60, 0); (0, 60); (0, -60); (45, 45); (-45, 45); (45, -45); (-45, -45)]%Z.

Definition lands_on (o : Offset) (d : Z * Z) : bool :=
  let '(cx, cy) := center o in
  bool_decide (offsetOf (cx + f32_of_Z d.1)%f32 (cy + f32_of_Z d.2)%f32 = Ok o).

Definition lands_all (n : Z) : bool :=
  forallb (λ q, forallb (λ r, forallb (lands_on (mkOffset q r)) inner_points)
                        (seqZ (- n) (2 * n + 1)))
          (seqZ (- n) (2 * n + 1)).

Lemma forallb_seqZ_spec (f : Z → bool) n z :
  forallb f (seqZ (- n) (2 * n + 1)) = true → (- n ≤ z ≤ n)%Z → f z = true.
Proof.
  rewrite List.forallb_forall. intros H Hz. apply H, list_elem_of_In, elem_of_seqZ. lia.
Qed.

Lemma lands_all_spec n q r d :
  lands_all n = true → (- n ≤ q ≤ n)%Z → (- n ≤ r ≤ n)%Z →
  d ∈ inner_points → lands_on (mkOffset q r) d = true.
Proof.
  intros H Hq Hr Hd.
  apply (forallb_seqZ_spec _ _ q) in H; [|done]. cbn beta in H.
  apply (forallb_seqZ_spec _ _ r) in H; [|done]. cbn beta in H.
  rewrite List.forallb_forall in H. by apply H, list_elem_of_In.
Qed.

Lemma lands_all_5 : lands_all 5 = true.
Proof. vm_compute. reflexivity. Qed.



Lemma directionIdxs_lookup q r (i : nat) :
  directions !! i = Some (q, r) ↔ directionIdxs q r = Z.of_nat i.
Proof.
  split.
  - intros H. do 6 (destruct i as [|i]; [cbn in H; by simplify_eq|]). by destruct i.
  - unfold directionIdxs. intros H. repeat case_match; try lia;
      match goal with E : _ && _ = true |- _ =>
        apply andb_true_iff in E as [->%Z.eqb_eq ->%Z.eqb_eq] end;
      replace i with (Z.to_nat (Z.of_nat i)) by lia; rewrite <-H; reflexivity.
Qed.

Lemma directionIdxs_none q r : directionIdxs q r = (-1)%Z ↔ (q, r) ∉ directions.
Proof.
  rewrite list_elem_of_lookup. setoid_rewrite directionIdxs_lookup. split.
  - intros H [i Hl]. lia.
  - intros Hn. destruct (decide (directionIdxs q r = (-1)%Z)) as [?|Hne]; [done|].
    exfalso. apply Hn. exists (Z.to_nat (directionIdxs q r)). rewrite Z2Nat.id; [done|].
    unfold directionIdxs in *. repeat case_match; lia.
Qed.

(** [directionIdxs] and the table [directions] are inverse of each other:
    the index of every direction of the table is its position, and a pair
    whose index is not -1 is the direction at that index. *)
Lemma directionIdxs_inverse (q r : Z) :
  (directionIdxs q r = (-1)%Z ↔ (q, r) ∉ directions) ∧
  (∀ i : nat, directions !! i = Some (q, r) ↔ directionIdxs q r = Z.of_nat i).
Proof. split; [apply directionIdxs_none|apply directionIdxs_lookup]. Qed.
