(* ===== verification/Hex.v ===== *)
(** * Neighbourhoods of a cell

    The coordinates visited by [Cell::ring], [Cell::inRadius]
    ([src/map/cell.cpp]), [Map::createSiblings], [Map::getSiblings] and
    [Map::getCellsExcluding] ([src/map/map.cpp]), in the order in which they
    are visited, with their [int32_t] arithmetic; what the map holds at these
    coordinates is the business of [Map.v]. *)

From Stdlib Require Import ZArith Lia.
From stdpp Require Import base list option numbers sets.
From S2P Require Import Prelude Float32 Offset.

(** [{ o.q() + d.q, o.r() + d.r }] *)
Definition off_shift (o : Offset) (d : Direction) : outcome Offset :=
  q ← i32 (off_q o + d.1);
  r ← i32 (off_r o + d.2);
  mret (mkOffset q r).

Fixpoint shift_all (o : Offset) (ds : list Direction) : outcome (list Offset) :=
  match ds with
  | [] => mret []
  | d :: ds => p ← off_shift o d; ps ← shift_all o ds; mret (p :: ps)
  end.

(** The inner loop of [ring]: [n] steps in the direction [d] from [pos]; the
    cells left behind and the position reached. *)
Fixpoint ring_side (n : nat) (d : Direction) (pos : Offset) : outcome (list Offset * Offset) :=
  match n with
  | O => mret ([], pos)
  | S n =>
      next ← off_shift pos d;
      '(l, last) ← ring_side n d next;
      mret (pos :: l, last)
  end.

Fixpoint ring_sides (n : nat) (ds : list Direction) (pos : Offset) : outcome (list Offset) :=
  match ds with
  | [] => mret []
  | d :: ds =>
      '(l, last) ← ring_side n d pos;
      rest ← ring_sides n ds last;
      mret (l ++ rest)
  end.

(** [ring] starts [radius] steps away in direction 4, [{-1, 0}]. *)
Definition ring_coords (radius : nat) (o : Offset) : outcome (list Offset) :=
  start ← off_shift o (- Z.of_nat radius, 0)%Z;
  ring_sides radius directions start.

(** The two nested loops of [inRadius], as displacements. *)
Definition inRadius_dirs (radius : Z) : list Direction :=
  dx ← seqZ (- radius) (2 * radius + 1);
  let rmin := Z.min radius (- dx + radius) in
  let dy0 := Z.max (- radius) (- dx - radius) in
  dy ← seqZ dy0 (rmin - dy0 + 1);
  mret (dx, dy).

Definition inRadius_coords (radius : Z) (o : Offset) : outcome (list Offset) :=
  shift_all o (inRadius_dirs radius).

(** The displacements of [createSiblings] and [getSiblings]. *)
Definition sibling_dirs : list Direction :=
  [(0, -1); (1, -1); (1, 0); (0, 1); (-1, 1); (-1, 0)]%Z.

Definition siblings_coords (o : Offset) : outcome (list Offset) := shift_all o sibling_dirs.

(** [directions[i]], undefined outside the array. *)
Definition direction_at (i : Z) : outcome Direction :=
  if (0 <=? i)%Z then
    match directions !! Z.to_nat i with
    | Some d => mret d
    | None => Fail (UB OutOfBounds)
    end
  else Fail (UB OutOfBounds).

(** The neighbours of [directions[idx]] in the table, as
    [getCellsExcluding] computes them ([%] is the remainder of C++, which is
    [Z.rem]). *)
Definition dir_before (idx : Z) : Z := if (idx =? 0)%Z then MAX_DIR_IDX - 1 else idx - 1.
Definition dir_after (idx : Z) : Z := Z.rem (idx + 1) MAX_DIR_IDX.

(** The three coordinates of [getCellsExcluding] for two cells. *)
Definition excluding_coords (cell exclude : Offset) : outcome (list Offset) :=
  directionQ ← i32 (off_q cell - off_q exclude);
  directionR ← i32 (off_r cell - off_r exclude);
  let idx := directionIdxs directionQ directionR in
  cell1 ← off_shift cell (directionQ, directionR);
  di ← direction_at (dir_before idx);
  cell2 ← off_shift cell di;
  dj ← direction_at (dir_after idx);
  cell3 ← off_shift cell dj;
  mret [cell1; cell2; cell3].

(** ** Arithmetic *)

(** Displacements that stay in the range of the coordinates of the grid. *)
Definition small_dir (d : Direction) : Prop :=
  (- 2 ^ 18 < d.1 < 2 ^ 18)%Z ∧ (- 2 ^ 18 < d.2 < 2 ^ 18)%Z.

(** Range conditions are linear arithmetic on the coordinates. *)
Ltac grid_lia :=
  unfold in_grid, off_i32, small_dir in *;
  rewrite ?in_i32_spec in *;
  cbn [off_add off_q off_r fst snd] in *; destruct_and?; lia.

Lemma off_shift_ok o (d : Direction) :
  in_i32 (off_q o + d.1) = true → in_i32 (off_r o + d.2) = true →
  off_shift o d = Ok (off_add o d).
Proof. unfold off_shift, i32. by intros -> ->. Qed.

Lemma off_shift_grid o d : in_grid o → small_dir d → off_shift o d = Ok (off_add o d).
Proof.
  unfold in_grid, small_dir. intros. apply off_shift_ok; apply in_i32_spec; lia.
Qed.

Lemma shift_all_grid o ds :
  in_grid o → Forall small_dir ds → shift_all o ds = Ok (off_add o <$> ds).
Proof.
  intros Ho. induction 1 as [|d ds Hd _ IH]; [done|].
  cbn [shift_all]. by rewrite off_shift_grid, IH.
Qed.

Lemma off_add_inj o : Inj (=) (=) (off_add o).
Proof.
  intros [a b] [c d] H. unfold off_add in H. injection H as H1 H2. cbn in *. f_equal; lia.
Qed.

Lemma elem_of_shift o (ds : list Direction) p :
  p ∈ off_add o <$> ds ↔ (off_q p - off_q o, off_r p - off_r o)%Z ∈ ds.
Proof.
  rewrite list_elem_of_fmap. split.
  - intros ([a b] & -> & Hin). cbn. by replace (_ - _)%Z with a by lia; replace (_ - _)%Z with b by lia.
  - intros Hin. eexists; split; [|done]. apply Offset_eq; cbn; lia.
Qed.

Lemma NoDup_shift o (ds : list Direction) : NoDup ds → NoDup (off_add o <$> ds).
Proof. apply NoDup_fmap_2. apply off_add_inj. Qed.

(** ** The ring *)

(** [n] positions from [pos] in direction [d]. *)
Definition ray (n : nat) (d : Direction) (pos : Offset) : list Offset :=
  (λ k, off_add pos (Z.of_nat k * d.1, Z.of_nat k * d.2)%Z) <$> seq 0 n.

Lemma ring_side_ok n d pos :
  (∀ k, k ≤ n → off_i32 (off_add pos (Z.of_nat k * d.1, Z.of_nat k * d.2)%Z)) →
  ring_side n d pos = Ok (ray n d pos, off_add pos (Z.of_nat n * d.1, Z.of_nat n * d.2)%Z).
Proof.
  revert pos. induction n as [|n IH]; intros pos Hk.
  - cbn. do 2 f_equal. apply Offset_eq; cbn; lia.
  - cbn [ring_side].
    assert (off_shift pos d = Ok (off_add pos d)) as ->.
    { pose proof (Hk 1 ltac:(lia)). apply off_shift_ok; grid_lia. }
    cbn [mbind outcome_bind]. rewrite IH.
    + cbn. unfold ray. do 2 f_equal; [|apply Offset_eq; cbn; lia]. cbn. f_equal.
      * apply Offset_eq; cbn; lia.
      * rewrite <-fmap_S_seq, <-list_fmap_compose. apply list_fmap_ext.
        intros i k _. apply Offset_eq; cbn; lia.
    + intros k Hle. pose proof (Hk (S k) ltac:(lia)). grid_lia.
Qed.

(** The six corners of the ring of radius [n], each the start of a side. *)
Definition corners (n : Z) : list Direction :=
  [(- n, 0); (0, - n); (n, - n); (n, 0); (0, n); (- n, n)]%Z.

Definition ring_rays (n : nat) (o : Offset) : list Offset :=
  concat (zip_with (λ c d, ray n d (off_add o c)) (corners (Z.of_nat n)) directions).

Lemma elem_of_ray n d pos p :
  p ∈ ray n d pos ↔ ∃ k : Z, (0 ≤ k < Z.of_nat n)%Z ∧
    off_q p = (off_q pos + k * d.1)%Z ∧ off_r p = (off_r pos + k * d.2)%Z.
Proof.
  unfold ray. rewrite list_elem_of_fmap. split.
  - intros (k & -> & Hk%elem_of_seq). exists (Z.of_nat k). cbn. lia.
  - intros (k & Hk & Hq & Hr). exists (Z.to_nat k). rewrite elem_of_seq.
    split; [|lia]. apply Offset_eq; cbn; rewrite Z2Nat.id by lia; lia.
Qed.

Lemma ring_coords_rays n o :
  in_grid o → (Z.of_nat n < 2 ^ 16)%Z → ring_coords n o = Ok (ring_rays n o).
Proof.
  intros Ho Hn. unfold ring_coords.
  rewrite off_shift_grid; [|done|unfold small_dir; cbn; lia].
  unfold in_grid in Ho. cbn [mbind outcome_bind].
  assert (∀ (d c : Direction), (d.1 = 1 ∨ d.1 = 0 ∨ d.1 = -1)%Z → (d.2 = 1 ∨ d.2 = 0 ∨ d.2 = -1)%Z →
     (- 2 ^ 17 < c.1 < 2 ^ 17)%Z → (- 2 ^ 17 < c.2 < 2 ^ 17)%Z →
     ring_side n d (off_add o c) = Ok (ray n d (off_add o c),
       off_add o (c.1 + Z.of_nat n * d.1, c.2 + Z.of_nat n * d.2)%Z)) as Hside.
  { intros d c H1 H2 H3 H4. rewrite ring_side_ok.
    - do 2 f_equal. apply Offset_eq; cbn; lia.
    - intros k Hk. split; apply in_i32_spec; cbn; nia. }
  unfold directions. cbn [ring_sides].
  do 6 (rewrite Hside by (cbn; lia); cbn [mbind outcome_bind fst snd]).
  unfold ring_rays, corners, directions. cbn [mret outcome_ret zip_with concat].
  cbv [mbind mret outcome_bind outcome_ret]. repeat f_equal; lia.
Qed.

Lemma hex_norm_ring (n x y : Z) : (0 < n)%Z → hex_norm x y = n ↔
  (x + y = - n ∧ 0 ≤ - y < n ∨ y = - n ∧ 0 ≤ x < n ∨ x = n ∧ 0 ≤ y + n < n ∨
   x + y = n ∧ 0 ≤ y < n ∨ y = n ∧ 0 ≤ - x < n ∨ x = - n ∧ 0 ≤ n - y < n)%Z.
Proof.
  intros Hn. pose proof (hex_norm_le x y n). pose proof (hex_norm_le x y (n - 1)).
  transitivity (hex_norm x y ≤ n ∧ ¬ hex_norm x y ≤ n - 1)%Z; [lia|]. rewrite H, H0.
  clear H H0. split.
  - intros [(? & ? & ?) ?].
    assert (x + y = - n ∨ y = - n ∨ x = n ∨ x + y = n ∨ y = n ∨ x = - n)%Z
      as [?|[?|[?|[?|[?|?]]]]] by lia; lia.
  - intros [?|[?|[?|[?|[?|?]]]]]; split; lia.
Qed.

Lemma hex_dist_delta o p :
  hex_dist o p = hex_norm (off_q p - off_q o) (off_r p - off_r o).
Proof.
  unfold hex_dist. rewrite <-(hex_norm_opp (off_q p - off_q o)). f_equal; lia.
Qed.

Lemma elem_of_ring_rays n o p : n ≠ 0 →
  p ∈ ring_rays n o ↔ hex_dist o p = Z.of_nat n.
Proof.
  intros Hn. unfold ring_rays, corners, directions. cbn [zip_with concat].
  rewrite !elem_of_app, !elem_of_ray, elem_of_nil, hex_dist_delta, hex_norm_ring by lia.
  cbn [off_add off_q off_r fst snd]. split.
  - intros [H|[H|[H|[H|[H|[H|[]]]]]]]; destruct H as (k & ? & -> & ->); lia.
  - intros [H|[H|[H|[H|[H|H]]]]];
      [left|right;left|do 2 right;left|do 3 right;left|do 4 right;left|do 5 right;left].
    + exists (off_r o - off_r p)%Z. lia.
    + exists (off_q p - off_q o)%Z. lia.
    + exists (off_r p - off_r o + Z.of_nat n)%Z. lia.
    + exists (off_r p - off_r o)%Z. lia.
    + exists (off_q o - off_q p)%Z. lia.
    + exists (Z.of_nat n - (off_r p - off_r o))%Z. lia.
Qed.

Lemma NoDup_ray n d pos : d ∈ directions → NoDup (ray n d pos).
Proof.
  intros Hd%elem_of_directions. apply NoDup_fmap_2; [|apply NoDup_seq].
  intros i j H. unfold off_add in H. injection H as H1 H2. cbn in *.
  unfold hex_norm in Hd. nia.
Qed.

Lemma length_ring_rays n o : length (ring_rays n o) = 6 * n.
Proof.
  unfold ring_rays, corners, directions, ray. cbn [zip_with concat].
  rewrite !length_app, !length_fmap, !length_seq. cbn. lia.
Qed.

Lemma NoDup_ring_rays n o : NoDup (ring_rays n o).
Proof.
  unfold ring_rays, corners, directions. cbn [zip_with concat].
  repeat (apply NoDup_app; split_and!;
    [ apply NoDup_ray; apply (bool_decide_unpack _); by vm_compute
    | intros p Hp Hq; rewrite ?elem_of_app in Hq; rewrite ?elem_of_nil in Hq;
      rewrite !elem_of_ray in *; cbn [off_add off_q off_r fst snd] in *;
      destruct_or?; try done; destruct_and?;
      repeat match goal with H : ∃ _, _ |- _ => destruct H as (? & ? & ? & ?) end; lia
    | ]).
  constructor.
Qed.

(** C32. [Cell::ring(radius)] visits, for every radius from 1 up, exactly the
    coordinates at distance [radius] of the cell: [6 * radius] of them, each
    once. *)
Theorem ring_coords_spec (radius : nat) (o : Offset)
    (Ho : in_grid o) (Hr : 1 ≤ radius) (Hr16 : (Z.of_nat radius < 2 ^ 16)%Z) :
  ∃ l, ring_coords radius o = Ok l ∧ length l = 6 * radius ∧ NoDup l ∧
       ∀ p, p ∈ l ↔ hex_dist o p = Z.of_nat radius.
Proof.
  exists (ring_rays radius o). split_and!.
  - by apply ring_coords_rays.
  - apply length_ring_rays.
  - apply NoDup_ring_rays.
  - intros p. apply elem_of_ring_rays. lia.
Qed.

Lemma ring_coords_spec_witness :
  ∃ l, ring_coords 2 (mkOffset 4 (-1)) = Ok l ∧ length l = 12.
Proof.
  destruct (ring_coords_spec 2 (mkOffset 4 (-1))) as (l & Hl & Hlen & _).
  - split; cbn; lia.
  - lia.
  - lia.
  - exists l. split; [exact Hl|exact Hlen].
Defined.

(** ** The filled hexagon *)

Lemma elem_of_inRadius_dirs (n : Z) (d : Direction) :
  d ∈ inRadius_dirs n ↔ (hex_norm d.1 d.2 ≤ n)%Z.
Proof.
  destruct d as [dx dy]. unfold inRadius_dirs. cbn [fst snd].
  rewrite hex_norm_le, list_elem_of_bind. split.
  - intros (x & Hin & Hx%elem_of_seqZ). apply list_elem_of_bind in Hin as (y & Hin & Hy%elem_of_seqZ).
    apply list_elem_of_singleton in Hin as [= -> ->]. lia.
  - intros H. exists dx. split; [|apply elem_of_seqZ; lia].
    apply list_elem_of_bind. exists dy. split; [by apply list_elem_of_singleton|].
    apply elem_of_seqZ. lia.
Qed.

Lemma NoDup_inRadius_dirs n : NoDup (inRadius_dirs n).
Proof.
  unfold inRadius_dirs. apply NoDup_bind; [| |apply NoDup_seqZ].
  - intros x1 x2 [a b] _ _ H1 H2.
    apply list_elem_of_bind in H1 as (? & [= -> ->]%list_elem_of_singleton & _).
    by apply list_elem_of_bind in H2 as (? & [= -> ->]%list_elem_of_singleton & _).
  - intros x _. apply NoDup_bind; [| |apply NoDup_seqZ].
    + intros y1 y2 [a b] _ _ [= -> ->]%list_elem_of_singleton.
      by intros [= ->]%list_elem_of_singleton.
    + intros y _. apply NoDup_singleton.
Qed.

Lemma small_dir_norm (d : Direction) : (hex_norm d.1 d.2 < 2 ^ 18)%Z → small_dir d.
Proof.
  intros H. unfold small_dir.
  pose proof (proj1 (hex_norm_le d.1 d.2 (2 ^ 18 - 1)) ltac:(lia)). lia.
Qed.

Lemma inRadius_coords_ok n o :
  in_grid o → (n < 2 ^ 16)%Z → inRadius_coords n o = Ok (off_add o <$> inRadius_dirs n).
Proof.
  intros Ho Hn. apply shift_all_grid; [done|].
  apply Forall_forall. intros d Hd%elem_of_inRadius_dirs. apply small_dir_norm. lia.
Qed.

(** [Cell::inRadius(radius)] visits exactly the coordinates at distance at
    most [radius] of the cell, the cell included, each once. *)
Lemma inRadius_coords_spec (radius : Z) (o : Offset)
    (Ho : in_grid o) (Hr : (0 ≤ radius < 2 ^ 16)%Z) :
  ∃ l, inRadius_coords radius o = Ok l ∧ NoDup l ∧
       ∀ p, p ∈ l ↔ (hex_dist o p ≤ radius)%Z.
Proof.
  exists (off_add o <$> inRadius_dirs radius). split_and!.
  - apply inRadius_coords_ok; [done|lia].
  - apply NoDup_shift, NoDup_inRadius_dirs.
  - intros p. rewrite elem_of_shift, elem_of_inRadius_dirs. by rewrite hex_dist_delta.
Qed.

Lemma inRadius_coords_spec_witness :
  ∃ l, inRadius_coords 2 (mkOffset 4 (-1)) = Ok l ∧ mkOffset 4 (-1) ∈ l.
Proof.
  destruct (inRadius_coords_spec 2 (mkOffset 4 (-1))) as (l & Hl & _ & Hin).
  - split; cbn; lia.
  - lia.
  - exists l. split; [exact Hl|]. apply Hin. vm_compute. discriminate.
Defined.

(** ** Siblings *)

Lemma elem_of_sibling_dirs (d : Direction) : d ∈ sibling_dirs ↔ hex_norm d.1 d.2 = 1%Z.
Proof.
  rewrite <-elem_of_directions. unfold sibling_dirs, directions.
  rewrite !elem_of_cons, elem_of_nil. tauto.
Qed.

Lemma Forall_small_dirs (ds : list Direction) :
  Forall (λ d, hex_norm d.1 d.2 ≤ 1)%Z ds → Forall small_dir ds.
Proof. intros H. eapply Forall_impl; [exact H|]. intros d Hd. apply small_dir_norm. cbn beta in Hd. lia. Qed.

Lemma siblings_coords_ok o :
  in_grid o → siblings_coords o = Ok (off_add o <$> sibling_dirs).
Proof.
  intros Ho. apply shift_all_grid; [done|]. apply Forall_small_dirs, Forall_forall.
  intros d ->%elem_of_sibling_dirs. done.
Qed.

Lemma elem_of_siblings o p : p ∈ off_add o <$> sibling_dirs ↔ adjacent o p.
Proof.
  rewrite elem_of_shift, elem_of_sibling_dirs, adjacent_dist. by rewrite hex_dist_delta.
Qed.

(** ** Neighbours of a cell that are not neighbours of another *)

Lemma in_grid_sub_i32 a b :
  in_grid a → in_grid b →
  i32 (off_q a - off_q b) = Ok (off_q a - off_q b)%Z ∧
  i32 (off_r a - off_r b) = Ok (off_r a - off_r b)%Z.
Proof. unfold in_grid. intros. split; apply i32_ok; lia. Qed.

(** The indices around a direction, and the three coordinates they give. *)
Lemma directionIdxs_around (d : Direction) :
  d ∈ directions →
  ∃ di dj, direction_at (dir_before (directionIdxs d.1 d.2)) = Ok di ∧
           direction_at (dir_after (directionIdxs d.1 d.2)) = Ok dj ∧
           NoDup [d; di; dj] ∧
           ∀ e, e ∈ [d; di; dj] ↔ hex_norm e.1 e.2 = 1%Z ∧ (1 < hex_norm (d.1 + e.1) (d.2 + e.2))%Z.
Proof.
  unfold directions. rewrite !elem_of_cons, elem_of_nil.
  intros [->|[->|[->|[->|[->|[->|[]]]]]]]; cbn [fst snd];
    (do 2 eexists; split_and!; [reflexivity|reflexivity| |];
     [apply (bool_decide_unpack _); by vm_compute|]);
    intros [x y]; rewrite !elem_of_cons, elem_of_nil, <-elem_of_directions;
    unfold directions; rewrite !elem_of_cons, elem_of_nil; cbn [fst snd];
    (split;
     [ intros [[= -> ->]|[[= -> ->]|[[= -> ->]|[]]]]; (split; [tauto|done])
     | intros [[[= -> ->]|[[= -> ->]|[[= -> ->]|[[= -> ->]|[[= -> ->]|[[= -> ->]|[]]]]]]] Hlt];
       first [tauto | exfalso; by vm_compute in Hlt] ]).
Qed.

Lemma excluding_coords_adjacent (cell exclude : Offset)
    (Hc : in_grid cell) (He : in_grid exclude) (Hadj : adjacent exclude cell) :
  ∃ l, excluding_coords cell exclude = Ok l ∧ NoDup l ∧ length l = 3 ∧
       ∀ p, p ∈ l ↔ adjacent cell p ∧ (1 < hex_dist exclude p)%Z.
Proof.
  destruct Hadj as (d & Hd & Heq).
  destruct (directionIdxs_around d Hd) as (di & dj & Hi & Hj & Hnd & Hspec).
  destruct (in_grid_sub_i32 cell exclude) as [Hq Hr]; [done|done|].
  assert (off_q cell - off_q exclude = d.1 ∧ off_r cell - off_r exclude = d.2)%Z
    as [Hdq Hdr] by (subst cell; cbn; lia).
  assert (Forall small_dir [d; di; dj]) as Hsmall.
  { apply Forall_small_dirs, Forall_forall. intros e [-> _]%Hspec. done. }
  exists (off_add cell <$> [d; di; dj]). split_and!.
  - unfold excluding_coords. rewrite Hq, Hr. cbn [mbind outcome_bind].
    rewrite Hdq, Hdr, Hi, Hj, <-surjective_pairing. cbn [mbind outcome_bind].
    decompose_Forall. by rewrite !off_shift_grid.
  - by apply NoDup_shift.
  - done.
  - intros p. rewrite elem_of_shift, Hspec, adjacent_dist, !hex_dist_delta.
    cbn [fst snd].
    replace (d.1 + (off_q p - off_q cell))%Z with (off_q p - off_q exclude)%Z by lia.
    by replace (d.2 + (off_r p - off_r cell))%Z with (off_r p - off_r exclude)%Z by lia.
Qed.

(** C33. [Map::getCellsExcluding(cell, exclude)] of two adjacent cells names
    exactly the neighbours of [cell] that are neither [exclude] nor one of its
    neighbours: three coordinates, each once. These are the cells that come
    into (or fall out of) sight when an entity crosses from one to the other. *)
Theorem excluding_coords_spec (cell exclude : Offset)
    (Hc : in_grid cell) (He : in_grid exclude) (Hadj : adjacent exclude cell) :
  ∃ l, excluding_coords cell exclude = Ok l ∧ NoDup l ∧ length l = 3 ∧
       ∀ p, p ∈ l ↔ adjacent cell p ∧ (1 < hex_dist exclude p)%Z.
Proof. exact (excluding_coords_adjacent cell exclude Hc He Hadj). Qed.

Lemma excluding_coords_spec_witness :
  ∃ l, excluding_coords (mkOffset 1 0) (mkOffset 0 0) = Ok l ∧ length l = 3.
Proof.
  destruct (excluding_coords_spec (mkOffset 1 0) (mkOffset 0 0)) as (l & Hl & _ & Hlen & _).
  - split; cbn; lia.
  - split; cbn; lia.
  - apply adjacent_dist. reflexivity.
  - exists l. split; [exact Hl|exact Hlen].
Defined.

(** Of two cells that are not adjacent (an entity that jumps over a cell,
    or whose two cells are the same), [getCellsExcluding] reads [directions]
    outside its bounds: the index of the missing direction, -1, is decremented
    to -2. *)
Lemma excluding_coords_far (cell exclude : Offset)
    (Hc : in_grid cell) (He : in_grid exclude) (Hfar : ¬ adjacent exclude cell) :
  excluding_coords cell exclude = Fail (UB OutOfBounds).
Proof.
  destruct (in_grid_sub_i32 cell exclude) as [Hq Hr]; [done|done|].
  assert (directionIdxs (off_q cell - off_q exclude) (off_r cell - off_r exclude) = -1)%Z as Hidx.
  { apply directionIdxs_none. intros Hin. apply Hfar. eexists; split; [exact Hin|].
    apply Offset_eq; cbn; lia. }
  unfold excluding_coords. rewrite Hq, Hr. cbn [mbind outcome_bind].
  rewrite Hidx, off_shift_ok by grid_lia. done.
Qed.

Lemma excluding_coords_far_witness :
  excluding_coords (mkOffset 5 0) (mkOffset 0 0) = Fail (UB OutOfBounds).
Proof.
  apply (excluding_coords_far (mkOffset 5 0) (mkOffset 0 0)).
  - split; cbn; lia.
  - split; cbn; lia.
  - rewrite adjacent_dist. by vm_compute.
Defined.
