(* ===== verification/Packet.v ===== *)
(** * Packets ([src/io/packet.hpp], [src/io/packet.cpp], [src/defs/intrusive.hpp])

    The byte buffer of a packet with its three cursors, the stream operators
    that append values, [peek] and [read] with their bounds check, the header
    written by [create] and [sendBuffer], and the intrusive reference count.
    Bytes are integers below 256; the machine is little-endian. *)

From Stdlib Require Import ZArith Lia.
From Stdlib Require Import Floats.SpecFloat.
From stdpp Require Import base list option numbers.
From S2P Require Import Prelude Float32.

Definition buffer_size : nat := 1024.

Record Packet := mkPacket {
  p_read : Z;            (* uint16_t _read *)
  p_size : Z;            (* uint16_t _size *)
  p_write : Z;           (* uint16_t _write *)
  p_refs : Z;            (* uint16_t _refs *)
  p_buffer : list Z;     (* uint8_t _buffer[1024] *)
}.

(** The constructor leaves the buffer as it finds it: [junk]. *)
Definition Packet_new (junk : list Z) : Packet := mkPacket 0 0 0 0 junk.

Definition set_read (r : Z) (p : Packet) : Packet :=
  mkPacket r (p_size p) (p_write p) (p_refs p) (p_buffer p).
Definition set_size (n : Z) (p : Packet) : Packet :=
  mkPacket (p_read p) n (p_write p) (p_refs p) (p_buffer p).
Definition set_write (w : Z) (p : Packet) : Packet :=
  mkPacket (p_read p) (p_size p) w (p_refs p) (p_buffer p).
Definition set_refs (n : Z) (p : Packet) : Packet :=
  mkPacket (p_read p) (p_size p) (p_write p) n (p_buffer p).
Definition set_buffer (b : list Z) (p : Packet) : Packet :=
  mkPacket (p_read p) (p_size p) (p_write p) (p_refs p) b.

Definition bufferLen (p : Packet) : Z := Z.max (p_size p) (p_write p).

(** ** Bytes *)

Fixpoint le_bytes (n : nat) (z : Z) : list Z :=
  match n with
  | O => []
  | S n => Z.land z 255 :: le_bytes n (Z.shiftr z 8)
  end.

Fixpoint le_value (bs : list Z) : Z :=
  match bs with
  | [] => 0
  | b :: bs => Z.lor b (Z.shiftl (le_value bs) 8)
  end.

(** [bs] written over [buf] at [off]. *)
Definition splice (off : nat) (bs buf : list Z) : list Z :=
  take off buf ++ bs ++ drop (off + length bs) buf.

(** A write of bytes into the buffer, and a read: undefined outside it. *)
Definition store (off : Z) (bs : list Z) : ST Packet unit :=
  p ← get;
  if bool_decide (Z.to_nat off + length bs ≤ buffer_size)
  then put (set_buffer (splice (Z.to_nat off) bs (p_buffer p)) p)
  else fail (UB OutOfBounds).

Definition load (off : Z) (n : nat) : ST Packet (list Z) :=
  p ← get;
  if bool_decide (Z.to_nat off + n ≤ buffer_size)
  then mret (take n (drop (Z.to_nat off) (p_buffer p)))
  else fail (UB OutOfBounds).

(** ** The bits of a [float]

    [union f2u] and [memcpy]: the interchange format of binary32, with one
    NaN. *)
Definition float_to_bits (x : f32) : Z :=
  let sign (s : bool) := (if s then 2 ^ 31 else 0)%Z in
  match x with
  | S754_zero s => sign s
  | S754_infinity s => (sign s + 255 * 2 ^ 23)%Z
  | S754_nan => (255 * 2 ^ 23 + 2 ^ 22)%Z
  | S754_finite s m e =>
      if (Zpos m <? 2 ^ 23)%Z then (sign s + Zpos m)%Z
      else (sign s + (e + 150) * 2 ^ 23 + (Zpos m - 2 ^ 23))%Z
  end.

Definition float_of_bits (u : Z) : f32 :=
  let s := (2 ^ 31 <=? u)%Z in
  let ex := ((u / 2 ^ 23) mod 2 ^ 8)%Z in
  let ma := (u mod 2 ^ 23)%Z in
  if (ex =? 255)%Z then (if (ma =? 0)%Z then S754_infinity s else S754_nan)
  else if (ex =? 0)%Z then
    match ma with Zpos m => S754_finite s m (-149) | _ => S754_zero s end
  else
    match (ma + 2 ^ 23)%Z with Zpos m => S754_finite s m (ex - 150) | _ => S754_nan end.

(** ** Writing *)

(** [operator<<] of an integer of [n] bytes. *)
Definition put_int (n : nat) (v : Z) : ST Packet unit :=
  p ← get;
  _ ← store (p_write p) (le_bytes n v);
  modify (λ p, set_write (u16 (p_write p + Z.of_nat n)) p).

Definition put_float (v : f32) : ST Packet unit := put_int 4 (float_to_bits v).

Definition put_vec2 (v : vec2) : ST Packet unit :=
  _ ← put_float v.1; put_float v.2.

Definition put_vec3 (v : vec3) : ST Packet unit :=
  _ ← put_float (v3x v); _ ← put_float (v3y v); put_float (v3z v).

(** The length is truncated to 16 bits, and so is the text. *)
Definition put_string (str : list Z) : ST Packet unit :=
  let len := u16 (Z.of_nat (length str)) in
  _ ← put_int 2 len;
  for_each (λ c, put_int 1 c) (take (Z.to_nat len) str).

(** [operator<<(Packet* packet)] for another packet: its payload, that is what
    follows its first four bytes. *)
Definition put_packet (from : Packet) : ST Packet unit :=
  let last := u16 (Z.max (Z.max (p_read from) (p_size from)) (p_write from)) in
  for_each (λ i,
    match p_buffer from !! Z.to_nat i with
    | Some b => put_int 1 b
    | None => fail (UB OutOfBounds)
    end) (seqZ 4 (last - 4)).

(** ** Reading *)

Definition peek_int (n : nat) (offset : Z) : ST Packet Z :=
  p ← get;
  if (bufferLen p <? offset + Z.of_nat n)%Z then fail (Throw ReadOutOfBounds)
  else bs ← load offset n; mret (le_value bs).

Definition read_int (n : nat) : ST Packet Z :=
  p ← get;
  v ← peek_int n (p_read p);
  _ ← modify (λ p, set_read (u16 (p_read p + Z.of_nat n)) p);
  mret v.

(** [void* read(uint16_t length)]: the offset of the block in the buffer. *)
Definition read_block (len : Z) : ST Packet Z :=
  p ← get;
  if (bufferLen p <? p_read p + len)%Z then fail (Throw ReadOutOfBounds)
  else
    _ ← put (set_read (u16 (p_read p + len)) p);
    mret (p_read p).

Definition read_float : ST Packet f32 := u ← read_int 4; mret (float_of_bits u).

Definition read_vec2 : ST Packet vec2 := x ← read_float; y ← read_float; mret (x, y).

Definition read_vec3 : ST Packet vec3 :=
  x ← read_float; y ← read_float; z ← read_float; mret (Vec3 x y z).

Definition read_string : ST Packet (list Z) :=
  len ← read_int 2;
  str ← read_block len;
  load str (Z.to_nat len).

(** ** Whole packets *)

Definition reset (p : Packet) : Packet := mkPacket 0 0 0 (p_refs p) (p_buffer p).

Definition addSize (offset : Z) (p : Packet) : Packet := set_size (u16 (p_size p + offset)) p.

(** [Packet::create(opcode)]: the opcode and room for the length. *)
Definition create (junk : list Z) (opcode : Z) : outcome unit * Packet :=
  (_ ← put_int 2 opcode; put_int 2 0) (Packet_new junk).

(** [Packet::copy]: [memcpy] of [size] bytes between the buffers. *)
Definition copy (junk : list Z) (from : Packet) (size : Z) : outcome unit * Packet :=
  (bs ← lift (load 0 (Z.to_nat size) from).1;
   _ ← store 0 bs;
   modify (set_size size)) (Packet_new junk).

(** [sendBuffer] writes the length of the payload in the header; the bytes of
    the buffer it returns are the first [_write] ones. *)
Definition sendBuffer : ST Packet (list Z) :=
  p ← get;
  _ ← store 2 (le_bytes 2 (u16 (p_write p - 4)));
  load 0 (Z.to_nat (p_write p)).

(** [recvBuffer(len)]: offset and length of the window to receive into. *)
Definition recvBuffer (len : Z) (p : Packet) : Z * Z := (p_size p, len).

(** What a completed [async_read] of [scheduleRead] does to the packet: the
    bytes received are in the window, and [addSize] counts them. *)
Definition receive (bs : list Z) : ST Packet unit :=
  p ← get;
  _ ← store (recvBuffer (Z.of_nat (length bs)) p).1 bs;
  modify (addSize (u16 (Z.of_nat (length bs)))).

(** The destructor, with the opcode that it reports. *)
Definition Packet_dtor : ST Packet Z :=
  p ← get; if (2 <=? bufferLen p)%Z then peek_int 2 0 else mret 0%Z.

(** ** Reference counting ([intrusive_ptr_add_ref], [intrusive_ptr_release]) *)

Definition intrusive_ptr_add_ref (p : Packet) : Packet := set_refs (u16 (p_refs p + 1)) p.

(** The boolean tells that the packet has been destroyed. *)
Definition intrusive_ptr_release (p : Packet) : bool * Packet :=
  let p := set_refs (u16 (p_refs p - 1)) p in
  ((p_refs p =? 0)%Z, p).

(** The life of a packet as its [intrusive_ptr]s are copied and destroyed; it
    ends when the packet is destroyed. *)
Inductive ref_op := Acquire | Release.

Fixpoint run_refs (ops : list ref_op) (p : Packet) : bool * Packet :=
  match ops with
  | [] => (false, p)
  | Acquire :: ops => run_refs ops (intrusive_ptr_add_ref p)
  | Release :: ops =>
      match intrusive_ptr_release p with
      | (true, p) => (true, p)
      | (false, p) => run_refs ops p
      end
  end.

(** The references that exist after [ops]. *)
Fixpoint live_refs (ops : list ref_op) : Z :=
  match ops with
  | [] => 0
  | Acquire :: ops => live_refs ops + 1
  | Release :: ops => live_refs ops - 1
  end.

(** ** Values of a stream *)

Inductive value :=
  | VInt (n : nat) (v : Z)
  | VFloat (x : f32)
  | VVec2 (v : vec2)
  | VVec3 (v : vec3)
  | VString (s : list Z).

Inductive value_type := TInt (n : nat) | TFloat | TVec2 | TVec3 | TString.

Definition type_of (v : value) : value_type :=
  match v with
  | VInt n _ => TInt n
  | VFloat _ => TFloat
  | VVec2 _ => TVec2
  | VVec3 _ => TVec3
  | VString _ => TString
  end.

Definition put_value (v : value) : ST Packet unit :=
  match v with
  | VInt n v => put_int n v
  | VFloat x => put_float x
  | VVec2 v => put_vec2 v
  | VVec3 v => put_vec3 v
  | VString s => put_string s
  end.

Definition read_value (t : value_type) : ST Packet value :=
  match t with
  | TInt n => v ← read_int n; mret (VInt n v)
  | TFloat => v ← read_float; mret (VFloat v)
  | TVec2 => v ← read_vec2; mret (VVec2 v)
  | TVec3 => v ← read_vec3; mret (VVec3 v)
  | TString => v ← read_string; mret (VString v)
  end.

(** The guard of the destructor is that of [peek], which does not throw. *)
Lemma Packet_dtor_ok p : ∃ opcode, Packet_dtor p = (Ok opcode, p).
Proof.
  unfold Packet_dtor, mbind, ST_bind, get. destruct (Z.leb_spec 2 (bufferLen p)); [|by eexists].
  unfold peek_int, mbind, ST_bind, get. rewrite (proj2 (Z.ltb_ge _ _)) by lia. by eexists.
Qed.

(** ** Byte strings *)

Lemma length_le_bytes n z : length (le_bytes n z) = n.
Proof. revert z. by induction n as [|n IH]; intros z; cbn; [|rewrite IH]. Qed.

Lemma le_value_bytes n z : le_value (le_bytes n z) = (z mod 2 ^ (8 * Z.of_nat n))%Z.
Proof.
  revert z. induction n as [|n IH]; intros z; [cbn; by rewrite Z.mod_1_r|].
  cbn [le_bytes le_value]. rewrite IH. change 255%Z with (Z.ones 8).
  rewrite Z.land_ones by lia. apply Z.bits_inj'. intros i Hi.
  rewrite Z.lor_spec, Z.shiftl_spec by done.
  replace (8 * Z.of_nat (S n))%Z with (8 + 8 * Z.of_nat n)%Z by lia.
  destruct (decide (i < 8)%Z).
  - rewrite Z.mod_pow2_bits_low by lia. rewrite (Z.testbit_neg_r _ (i - 8)) by lia.
    by rewrite orb_false_r, Z.mod_pow2_bits_low by lia.
  - rewrite (Z.mod_pow2_bits_high z 8) by lia. cbn [orb].
    destruct (decide (i < 8 + 8 * Z.of_nat n)%Z).
    + rewrite !Z.mod_pow2_bits_low, Z.shiftr_spec by lia. f_equal. lia.
    + by rewrite !Z.mod_pow2_bits_high by lia.
Qed.

Lemma le_bytes_1 b : (0 ≤ b < 256)%Z → le_bytes 1 b = [b].
Proof.
  intros. cbn [le_bytes]. change 255%Z with (Z.ones 8). rewrite Z.land_ones by lia.
  by rewrite Z.mod_small.
Qed.

Lemma length_splice off bs buf :
  off + length bs ≤ length buf → length (splice off bs buf) = length buf.
Proof. intros. unfold splice. rewrite !length_app, length_take, length_drop. lia. Qed.

Lemma take_splice off bs buf :
  off + length bs ≤ length buf → take (off + length bs) (splice off bs buf) = take off buf ++ bs.
Proof.
  intros. unfold splice. rewrite app_assoc, take_app_length'; [done|].
  rewrite length_app, length_take. lia.
Qed.

Lemma splice_splice off a b buf :
  off + length a + length b ≤ length buf →
  splice (off + length a) b (splice off a buf) = splice off (a ++ b) buf.
Proof.
  intros. unfold splice at 1. rewrite take_splice by lia.
  unfold splice. rewrite <-!app_assoc. do 3 f_equal.
  rewrite drop_app_ge by (rewrite length_take; lia).
  rewrite length_take, drop_app_ge by lia. rewrite drop_drop. f_equal.
  rewrite length_app. lia.
Qed.

(** ** The bits of a float *)

Lemma digits2_pos_spec m :
  (2 ^ (Zpos (digits2_pos m) - 1) ≤ Zpos m < 2 ^ Zpos (digits2_pos m))%Z.
Proof.
  induction m as [m IH|m IH|]; cbn [digits2_pos]; [| |cbn; lia];
    rewrite Pos2Z.inj_succ, Z.pow_succ_r by lia;
    replace (Z.succ (Zpos (digits2_pos m)) - 1)%Z with (Z.succ (Zpos (digits2_pos m) - 1)) by lia;
    rewrite Z.pow_succ_r by lia; lia.
Qed.

Lemma f32_finite_valid s m e :
  f32_valid (S754_finite s m e) = true →
  (- 149 ≤ e ≤ 104)%Z ∧ (Zpos m < 2 ^ 24)%Z ∧ (Zpos m < 2 ^ 23 → e = -149)%Z.
Proof.
  unfold f32_valid, valid_binary, bounded, canonical_mantissa, fexp, emin.
  intros [Hc%Z.eqb_eq He%Z.leb_le]%andb_true_iff.
  pose proof (digits2_pos_spec m) as [Hlo Hhi]. set (d := Zpos (digits2_pos m)) in *.
  assert (d ≤ 24)%Z as Hd by lia.
  split; [lia|]. split.
  - apply Z.lt_le_trans with (2 ^ d)%Z; [done|]. apply Z.pow_le_mono_r; lia.
  - intros Hm. assert (d ≤ 23)%Z; [|lia].
    apply Z.lt_succ_r. destruct (decide (d < Z.succ 23)%Z) as [|Hge]; [done|].
    assert (2 ^ 23 ≤ 2 ^ (d - 1))%Z; [apply Z.pow_le_mono_r; lia|lia].
Qed.

Lemma float_to_bits_range x :
  f32_valid x = true → (0 ≤ float_to_bits x < 2 ^ 32)%Z.
Proof.
  destruct x as [[]|[]| |s m e]; intros Hv; try (cbn; lia).
  apply f32_finite_valid in Hv as (? & ? & ?). unfold float_to_bits.
  destruct (Z.ltb_spec (Zpos m) (2 ^ 23)), s; lia.
Qed.

Lemma float_bits_roundtrip x : f32_valid x = true → float_of_bits (float_to_bits x) = x.
Proof.
  destruct x as [[]|[]| |s m e]; intros Hv; try reflexivity.
  apply f32_finite_valid in Hv as (He & Hm & Hsub). unfold float_to_bits, float_of_bits.
  set (sg := (if s then 2 ^ 31 else 0)%Z).
  assert (∀ E M, 0 ≤ E < 2 ^ 8 → 0 ≤ M < 2 ^ 23 → let u := sg + E * 2 ^ 23 + M in
    (2 ^ 31 <=? u) = s ∧ (u / 2 ^ 23) mod 2 ^ 8 = E ∧ u mod 2 ^ 23 = M)%Z as Hu.
  { intros E M HE HM u. unfold u, sg. split_and!.
    - destruct s; lia.
    - replace ((if s then 2 ^ 31 else 0) + E * 2 ^ 23 + M)%Z
        with (((if s then 2 ^ 8 else 0) + E) * 2 ^ 23 + M)%Z by (destruct s; lia).
      rewrite Z.div_add_l, (Z.div_small M), Z.add_0_r by lia.
      destruct s; [|by rewrite Z.mod_small].
      replace (2 ^ 8 + E)%Z with (E + 1 * 2 ^ 8)%Z by lia.
      rewrite Z.mod_add by lia. by rewrite Z.mod_small.
    - replace ((if s then 2 ^ 31 else 0) + E * 2 ^ 23 + M)%Z
        with (M + ((if s then 2 ^ 8 else 0) + E) * 2 ^ 23)%Z by (destruct s; lia).
      rewrite Z.mod_add by lia. by rewrite Z.mod_small. }
  destruct (Z.ltb_spec (Zpos m) (2 ^ 23)).
  - destruct (Hu 0 (Zpos m))%Z as (Hs & HE & HM); [lia|lia|].
    rewrite Z.mul_0_l, Z.add_0_r in *. rewrite Hs, HE, HM. cbn. f_equal. lia.
  - destruct (Hu (e + 150) (Zpos m - 2 ^ 23))%Z as (Hs & HE & HM); [lia|lia|].
    rewrite Hs, HE, HM.
    destruct (Z.eqb_spec (e + 150) 255); [lia|]. destruct (Z.eqb_spec (e + 150) 0); [lia|].
    replace (Zpos m - 2 ^ 23 + 2 ^ 23)%Z with (Zpos m) by lia. f_equal. lia.
Qed.

(** ** Appending *)

(** The invariant of a packet: the buffer has its size, the cursors their width. *)
Definition packet_ok (p : Packet) : Prop :=
  length (p_buffer p) = buffer_size ∧ (0 ≤ p_read p)%Z ∧
  (0 ≤ p_size p < 2 ^ 16)%Z ∧ (0 ≤ p_write p < 2 ^ 16)%Z.

(** The packet after [bs] has been written at its cursor. *)
Definition append_bytes (bs : list Z) (p : Packet) : Packet :=
  mkPacket (p_read p) (p_size p) (u16 (p_write p + Z.of_nat (length bs))) (p_refs p)
    (splice (Z.to_nat (p_write p)) bs (p_buffer p)).

Definition room (n : nat) (p : Packet) : Prop :=
  packet_ok p ∧ (p_write p + Z.of_nat n ≤ Z.of_nat buffer_size)%Z.

Lemma u16_small z : (0 ≤ z < 2 ^ 16)%Z → u16 z = z.
Proof. apply wrap_small. Qed.

Lemma room_weaken n m p : n ≤ m → room m p → room n p.
Proof. intros ? [? ?]. split; [done|lia]. Qed.

Lemma append_bytes_ok bs p : room (length bs) p → packet_ok (append_bytes bs p).
Proof.
  unfold room, packet_ok, append_bytes, buffer_size. intros [(? & ? & ? & ?) ?].
  cbn [p_read p_size p_write p_refs p_buffer]. rewrite u16_small by lia.
  rewrite length_splice by lia. lia.
Qed.

Lemma append_bytes_app a b p :
  room (length a + length b) p → append_bytes b (append_bytes a p) = append_bytes (a ++ b) p.
Proof.
  unfold room, packet_ok, append_bytes, buffer_size. intros [(? & ? & ? & ?) ?].
  cbn [p_read p_size p_write p_refs p_buffer]. rewrite length_app.
  rewrite (u16_small (p_write p + Z.of_nat (length a))), !u16_small by lia. f_equal; [lia|].
  replace (Z.to_nat (p_write p + Z.of_nat (length a))) with (Z.to_nat (p_write p) + length a) by lia.
  apply splice_splice. lia.
Qed.

Lemma append_bytes_write bs p :
  room (length bs) p → p_write (append_bytes bs p) = (p_write p + Z.of_nat (length bs))%Z.
Proof.
  unfold room, packet_ok, buffer_size. intros [(? & ? & ? & ?) ?]. cbn. apply u16_small. lia.
Qed.

Lemma room_append a n p : room (length a + n) p → room n (append_bytes a p).
Proof.
  intros Hr. assert (room (length a) p) as Ha by (eapply room_weaken; [|exact Hr]; lia).
  split; [by apply append_bytes_ok|]. rewrite append_bytes_write by done.
  destruct Hr. lia.
Qed.

Lemma append_bytes_take bs p :
  room (length bs) p →
  take (Z.to_nat (p_write (append_bytes bs p))) (p_buffer (append_bytes bs p)) =
  take (Z.to_nat (p_write p)) (p_buffer p) ++ bs.
Proof.
  intros Hr. rewrite append_bytes_write by done.
  unfold room, packet_ok, buffer_size in Hr. destruct Hr as [(? & ? & ? & ?) ?].
  cbn [append_bytes p_buffer].
  replace (Z.to_nat (p_write p + Z.of_nat (length bs))) with (Z.to_nat (p_write p) + length bs) by lia.
  apply take_splice. lia.
Qed.

#[export] Instance room_dec n p : Decision (room n p).
Proof. unfold room, packet_ok. apply _. Defined.

(** [m] appends [bs] to every packet that has room for it, and writes outside
    the buffer of the others. *)
Definition appends (m : ST Packet unit) (bs : list Z) : Prop :=
  ∀ p, room 0 p →
    (room (length bs) p → m p = (Ok tt, append_bytes bs p)) ∧
    (¬ room (length bs) p → (m p).1 = Fail (UB OutOfBounds)).

Lemma appends_nil : appends (mret tt) [].
Proof.
  intros p Hp. split; [|done]. intros _. destruct Hp as [(? & ? & ? & ?) ?].
  unfold mret, ST_ret, append_bytes, splice. cbn [app length].
  rewrite u16_small by lia. rewrite Nat.add_0_r, take_drop, Z.add_0_r. by destruct p.
Qed.

Lemma appends_bind m m' a b :
  appends m a → appends m' b → appends (_ ← m; m') (a ++ b).
Proof.
  intros Hm Hm' p H0. rewrite length_app. unfold mbind, ST_bind.
  destruct (Hm p H0) as [Hok Hub]. destruct (decide (room (length a) p)) as [Ha|Ha].
  - rewrite (Hok Ha). assert (room 0 (append_bytes a p)) as H0'.
    { apply room_append. by rewrite Nat.add_0_r. }
    destruct (Hm' _ H0') as [Hok' Hub']. split; intros Hr.
    + rewrite Hok' by (by apply room_append). by rewrite append_bytes_app.
    + apply Hub'. intros [_ Hb]. apply Hr. rewrite append_bytes_write in Hb by done.
      destruct Ha. split; [done|lia].
  - specialize (Hub Ha). split; intros Hr.
    + exfalso. apply Ha. eapply room_weaken; [|exact Hr]. lia.
    + destruct (m p) as [[[]|] ?]; cbn in *; congruence.
Qed.

Lemma appends_int n v : appends (put_int n v) (le_bytes n v).
Proof.
  intros p H0. rewrite length_le_bytes.
  unfold put_int, mbind, ST_bind, get, store. cbn beta iota.
  unfold mbind, ST_bind, get. rewrite length_le_bytes. split; intros Hr.
  - destruct Hr as [(? & ? & ? & ?) ?]. rewrite bool_decide_true by lia.
    cbn. unfold append_bytes. by rewrite length_le_bytes.
  - destruct H0 as [(? & ? & ? & ?) ?]. rewrite bool_decide_false; [done|].
    intros Hle. apply Hr. split; [done|lia].
Qed.

Lemma appends_for_each {A} (f : A → ST Packet unit) (g : A → list Z) l :
  Forall (λ x, appends (f x) (g x)) l → appends (for_each f l) (l ≫= g).
Proof.
  induction 1 as [|x l Hx _ IH]; [apply appends_nil|]. by apply appends_bind.
Qed.

(** The bytes of a value on the wire. *)
Definition encode (v : value) : list Z :=
  let fl x := le_bytes 4 (float_to_bits x) in
  match v with
  | VInt n v => le_bytes n v
  | VFloat x => fl x
  | VVec2 v => fl v.1 ++ fl v.2
  | VVec3 v => fl (v3x v) ++ fl (v3y v) ++ fl (v3z v)
  | VString s => le_bytes 2 (Z.of_nat (length s)) ++ s
  end.

Definition value_ok (v : value) : Prop :=
  match v with
  | VInt n v => (0 ≤ v < 2 ^ (8 * Z.of_nat n))%Z
  | VFloat x => f32_valid x = true
  | VVec2 v => f32_valid v.1 = true ∧ f32_valid v.2 = true
  | VVec3 v => f32_valid (v3x v) = true ∧ f32_valid (v3y v) = true ∧ f32_valid (v3z v) = true
  | VString s => (Z.of_nat (length s) < 2 ^ 16)%Z ∧ Forall (λ b, 0 ≤ b < 256)%Z s
  end.

Lemma bind_le_bytes_1 s : Forall (λ b, 0 ≤ b < 256)%Z s → s ≫= (λ c, le_bytes 1 c) = s.
Proof.
  induction 1 as [|b s Hb _ IH]; [done|].
  change (le_bytes 1 b ++ (s ≫= (λ c, le_bytes 1 c)) = b :: s).
  by rewrite IH, le_bytes_1.
Qed.

Lemma appends_value v : value_ok v → appends (put_value v) (encode v).
Proof.
  destruct v as [n v|x|v|v|s]; cbn [put_value encode value_ok]; intros Hv.
  - apply appends_int.
  - apply appends_int.
  - apply appends_bind; apply appends_int.
  - repeat apply appends_bind; apply appends_int.
  - destruct Hv as [Hlen Hs]. unfold put_string. rewrite u16_small by lia.
    apply appends_bind; [apply appends_int|].
    rewrite Nat2Z.id, take_ge by lia.
    replace (appends _ s) with (appends (for_each (λ c, put_int 1 c) s) (s ≫= le_bytes 1))
      by (f_equal; by apply bind_le_bytes_1).
    apply appends_for_each, Forall_forall. intros. apply appends_int.
Qed.

Lemma appends_values vs :
  Forall value_ok vs → appends (for_each put_value vs) (vs ≫= encode).
Proof.
  intros Hvs. apply appends_for_each.
  rewrite Forall_forall in Hvs |- *. intros v Hv. by apply appends_value, Hvs.
Qed.

(** ** Reading back *)

(** The bytes that are still to be read. *)
Definition window (p : Packet) : list Z :=
  drop (Z.to_nat (p_read p)) (take (Z.to_nat (bufferLen p)) (p_buffer p)).

Definition readable (p : Packet) : Prop :=
  packet_ok p ∧ (p_read p ≤ bufferLen p ≤ Z.of_nat buffer_size)%Z.

Definition advance (n : nat) (p : Packet) : Packet := set_read (p_read p + Z.of_nat n) p.

(** [m] consumes the bytes [bs] and gives [a]. *)
Definition consumes {A} (m : ST Packet A) (bs : list Z) (a : A) : Prop :=
  ∀ p rest, readable p → window p = bs ++ rest → m p = (Ok a, advance (length bs) p).

Lemma window_length p :
  readable p → length (window p) = Z.to_nat (bufferLen p) - Z.to_nat (p_read p).
Proof.
  unfold readable, packet_ok, buffer_size. intros [(Hl & ? & ? & ?) ?].
  unfold window. rewrite length_drop, length_take. lia.
Qed.

Lemma window_advance p bs rest :
  readable p → window p = bs ++ rest → window (advance (length bs) p) = rest.
Proof.
  intros [(? & ? & ? & ?) ?] Hw. unfold window, advance, bufferLen in *. cbn [set_read p_read p_size p_write p_buffer].
  replace (Z.to_nat (p_read p + Z.of_nat (length bs))) with (Z.to_nat (p_read p) + length bs) by lia.
  rewrite <-drop_drop, Hw. by rewrite drop_app_length.
Qed.

Lemma window_fits p bs rest :
  readable p → window p = bs ++ rest → (p_read p + Z.of_nat (length bs) ≤ bufferLen p)%Z.
Proof.
  intros Hr Hw. pose proof (window_length p Hr) as Hlen. rewrite Hw, length_app in Hlen.
  destruct Hr as [(? & ? & ? & ?) ?]. lia.
Qed.

Lemma readable_advance p bs rest :
  readable p → window p = bs ++ rest → readable (advance (length bs) p).
Proof.
  intros Hr Hw. pose proof (window_fits p bs rest Hr Hw).
  unfold readable, packet_ok, advance, bufferLen in *. cbn. lia.
Qed.

Lemma load_window p bs rest :
  readable p → window p = bs ++ rest → load (p_read p) (length bs) p = (Ok bs, p).
Proof.
  intros Hr Hw. pose proof (window_fits p bs rest Hr Hw).
  destruct Hr as [(Hl & ? & ? & ?) ?]. unfold buffer_size in *.
  unfold load, mbind, ST_bind, get, buffer_size.
  rewrite bool_decide_true by lia. unfold mret, ST_ret. do 2 f_equal.
  transitivity (take (length bs) (window p)); [|by rewrite Hw, take_app_length].
  unfold window. rewrite List.skipn_firstn_comm, List.firstn_firstn. f_equal. lia.
Qed.

Lemma consumes_ret {A} (a : A) : consumes (mret a) [] a.
Proof.
  intros p rest _ _. unfold mret, ST_ret, advance, set_read. cbn. rewrite Z.add_0_r. by destruct p.
Qed.

Lemma consumes_bind {A B} (m : ST Packet A) (f : A → ST Packet B) bs1 bs2 a b :
  consumes m bs1 a → consumes (f a) bs2 b → consumes (m ≫= f) (bs1 ++ bs2) b.
Proof.
  intros Hm Hf p rest Hr Hw. rewrite <-app_assoc in Hw. unfold mbind, ST_bind.
  rewrite (Hm p (bs2 ++ rest)) by done. rewrite (Hf _ rest).
  - unfold advance, set_read. cbn. rewrite length_app, Nat2Z.inj_add. by rewrite Z.add_assoc.
  - by eapply readable_advance.
  - by eapply window_advance.
Qed.

Lemma consumes_fmap {A B} (m : ST Packet A) (f : A → B) bs a :
  consumes m bs a → consumes (x ← m; mret (f x)) bs (f a).
Proof.
  intros Hm. rewrite <-(app_nil_r bs). eapply consumes_bind; [exact Hm|apply consumes_ret].
Qed.

Lemma consumes_int n v :
  (0 ≤ v < 2 ^ (8 * Z.of_nat n))%Z → consumes (read_int n) (le_bytes n v) v.
Proof.
  intros Hv p rest Hr Hw. pose proof (window_fits _ _ _ Hr Hw) as Hfit.
  pose proof (load_window _ _ _ Hr Hw) as Hload. rewrite length_le_bytes in *.
  unfold read_int, peek_int, mbind, ST_bind, get.
  destruct (Z.ltb_spec (bufferLen p) (p_read p + Z.of_nat n)); [lia|].
  rewrite Hload. cbn. unfold modify, mret, ST_ret, advance.
  rewrite le_value_bytes, Z.mod_small by done. do 2 f_equal.
  apply u16_small. destruct Hr as [(? & ? & ? & ?) ?]. unfold buffer_size in *. lia.
Qed.

Lemma consumes_float x :
  f32_valid x = true → consumes read_float (le_bytes 4 (float_to_bits x)) x.
Proof.
  intros Hx. pose proof (float_to_bits_range x Hx). unfold read_float.
  rewrite <-(float_bits_roundtrip x Hx) at 2.
  apply consumes_fmap, consumes_int. cbn. lia.
Qed.

Lemma consumes_string s :
  (Z.of_nat (length s) < 2 ^ 16)%Z → consumes read_string (le_bytes 2 (Z.of_nat (length s)) ++ s) s.
Proof.
  intros Hs. unfold read_string. eapply consumes_bind; [apply consumes_int; cbn; lia|].
  intros p rest Hr Hw. pose proof (window_fits _ _ _ Hr Hw) as Hfit.
  pose proof (load_window _ _ _ Hr Hw) as Hload.
  unfold read_block, mbind, ST_bind, get, put, mret, ST_ret.
  destruct (Z.ltb_spec (bufferLen p) (p_read p + Z.of_nat (length s))); [lia|].
  rewrite Nat2Z.id, u16_small.
  - unfold load, mbind, ST_bind, get in *.
    case_bool_decide; [|discriminate]. unfold mret, ST_ret in *.
    injection Hload as Heq. cbn [set_read p_buffer]. by rewrite Heq.
  - destruct Hr as [(? & ? & ? & ?) ?]. unfold buffer_size in *. lia.
Qed.

Lemma consumes_value v : value_ok v → consumes (read_value (type_of v)) (encode v) v.
Proof.
  destruct v as [n v|x|[x y]|[x y z]|s]; cbn [read_value type_of encode value_ok fst snd v3x v3y v3z].
  - intros. by apply (consumes_fmap _ (VInt n)), consumes_int.
  - intros. by apply (consumes_fmap _ VFloat), consumes_float.
  - intros [? ?]. apply (consumes_fmap _ VVec2). unfold read_vec2.
    eapply consumes_bind; [by apply consumes_float|]. cbn beta.
    by apply (consumes_fmap _ (pair x)), consumes_float.
  - intros (? & ? & ?). apply (consumes_fmap _ VVec3). unfold read_vec3.
    do 2 (eapply consumes_bind; [by apply consumes_float|]; cbn beta).
    by apply (consumes_fmap _ (Vec3 x y)), consumes_float.
  - intros [? _]. by apply (consumes_fmap _ VString), consumes_string.
Qed.

Lemma consumes_map_each {A B} (f : A → ST Packet B) (l : list A) (bs : A → list Z) (r : A → B) :
  Forall (λ x, consumes (f x) (bs x) (r x)) l → consumes (map_each f l) (l ≫= bs) (r <$> l).
Proof.
  induction 1 as [|x l Hx _ IH]; [apply consumes_ret|].
  change ((x :: l) ≫= bs) with (bs x ++ (l ≫= bs)). cbn [map_each fmap list_fmap].
  eapply consumes_bind; [exact Hx|]. by apply (consumes_fmap _ (cons (r x))).
Qed.

(** ** Properties *)

Lemma Packet_new_room junk n :
  length junk = buffer_size → n ≤ buffer_size → room n (Packet_new junk).
Proof. unfold room, packet_ok, buffer_size. cbn. lia. Qed.

(** A header field, overwritten in a written prefix. *)
Lemma take_splice_header w a z b c buf :
  take w buf = a ++ z ++ c → length b = length z → w ≤ length buf →
  take w (splice (length a) b buf) = a ++ b ++ c.
Proof.
  intros Htake Hlen Hw.
  assert (w = length (a ++ z ++ c)) as Hwl by (rewrite <-Htake, length_take; lia).
  rewrite !length_app in Hwl.
  rewrite <-(take_drop w buf), Htake. unfold splice.
  rewrite <-!app_assoc, take_app_length, (app_assoc a z).
  rewrite drop_app_length' by (rewrite length_app; lia).
  replace (a ++ b ++ c ++ drop w buf) with ((a ++ b ++ c) ++ drop w buf)
    by (by rewrite <-!app_assoc).
  rewrite take_app_length'; [done|]. rewrite !length_app. lia.
Qed.

Lemma create_ok junk opcode :
  length junk = buffer_size →
  create junk opcode = (Ok tt, append_bytes (le_bytes 2 opcode ++ le_bytes 2 0) (Packet_new junk)).
Proof.
  intros Hj. apply (appends_bind _ _ (le_bytes 2 opcode) (le_bytes 2 0)).
  - apply appends_int.
  - apply appends_int.
  - apply Packet_new_room; [done|lia].
  - apply Packet_new_room; [done|]. unfold buffer_size. cbn. lia.
Qed.

Lemma sendBuffer_ok p a payload :
  room 0 p → take (Z.to_nat (p_write p)) (p_buffer p) = a ++ le_bytes 2 0 ++ payload →
  length a = 2 →
  ∃ p', sendBuffer p = (Ok (a ++ le_bytes 2 (Z.of_nat (length payload)) ++ payload), p').
Proof.
  intros [(Hl & ? & ? & ?) ?] Htake Ha. unfold buffer_size in *.
  assert (Z.to_nat (p_write p) = 4 + length payload) as Hw.
  { pose proof (f_equal length Htake) as Hlen.
    rewrite length_take, !length_app, length_le_bytes in Hlen. lia. }
  unfold sendBuffer, store, load, mbind, ST_bind, get, put, buffer_size. cbn beta iota.
  change (Z.to_nat 2) with 2. rewrite length_le_bytes, bool_decide_true by lia.
  cbn [Z.to_nat p_buffer set_buffer]. rewrite bool_decide_true by lia.
  eexists. unfold mret, ST_ret. do 2 f_equal. cbn [drop Z.to_nat].
  rewrite u16_small by lia.
  replace (p_write p - 4)%Z with (Z.of_nat (length payload)) by lia.
  rewrite <-Ha at 1.
  by apply (take_splice_header _ a (le_bytes 2 0)); [done|by rewrite !length_le_bytes|lia].
Qed.

Lemma receive_ok junk bs :
  length junk = buffer_size → length bs ≤ buffer_size →
  ∃ q, receive bs (Packet_new junk) = (Ok tt, q) ∧ readable q ∧ window q = bs ∧ p_read q = 0%Z ∧
       bufferLen q = Z.of_nat (length bs).
Proof.
  intros Hj Hb. unfold buffer_size in *.
  unfold receive, recvBuffer, store, mbind, ST_bind, get, put. cbn beta iota.
  cbn [fst Packet_new p_size]. change (Z.to_nat 0) with 0.
  rewrite bool_decide_true by (unfold buffer_size; lia). cbn beta iota.
  eexists. split; [reflexivity|]. unfold addSize.
  cbn [set_size set_buffer Packet_new p_size]. rewrite Z.add_0_l, !u16_small by (rewrite ?u16_small; lia).
  set (q := set_size _ _).
  assert (bufferLen q = Z.of_nat (length bs)) as Hlen by (unfold bufferLen; cbn; lia).
  split_and!; [| |done|done].
  - unfold readable, packet_ok. rewrite Hlen. cbn -[splice].
    unfold buffer_size. rewrite length_splice by (cbn; lia). lia.
  - unfold window. rewrite Hlen, Nat2Z.id. cbn -[splice].
    exact (take_splice 0 bs junk ltac:(cbn; lia)).
Qed.

(** C14. What is streamed into a packet (integers, floats, vectors, strings)
    and sent with [sendBuffer] is read back from the bytes received: the
    opcode, the length of the payload and the same values, down to the last
    byte. *)
Theorem wire_roundtrip (junk junk' : list Z) (opcode : Z) (vs : list value)
    (Hj : length junk = buffer_size) (Hj' : length junk' = buffer_size)
    (Hop : (0 ≤ opcode < 2 ^ 16)%Z) (Hvs : Forall value_ok vs)
    (Hfit : 4 + length (vs ≫= encode) ≤ buffer_size) :
  ∃ p0 p1 p2 bytes q0 q,
    create junk opcode = (Ok tt, p0) ∧
    for_each put_value vs p0 = (Ok tt, p1) ∧
    sendBuffer p1 = (Ok bytes, p2) ∧
    receive bytes (Packet_new junk') = (Ok tt, q0) ∧
    (op ← read_int 2; len ← read_int 2; ws ← map_each read_value (type_of <$> vs);
     mret (op, len, ws)) q0
    = (Ok (opcode, Z.of_nat (length (vs ≫= encode)), vs), q) ∧
    p_read q = bufferLen q.
Proof.
  set (payload := vs ≫= encode) in *. set (hd := le_bytes 2 opcode ++ le_bytes 2 0).
  unfold buffer_size in Hfit.
  assert (room (length hd + length payload) (Packet_new junk)) as Hroom
    by (apply Packet_new_room; [done|unfold buffer_size; cbn; lia]).
  assert (room (length payload) (append_bytes hd (Packet_new junk))) as Hroom'
    by (by apply room_append).
  assert (room 0 (append_bytes hd (Packet_new junk))) as Hroom0
    by (eapply room_weaken; [|exact Hroom']; lia).
  destruct (appends_values vs Hvs _ Hroom0) as [Happ _]. specialize (Happ Hroom').
  rewrite append_bytes_app in Happ by done.
  destruct (sendBuffer_ok (append_bytes (hd ++ payload) (Packet_new junk))
              (le_bytes 2 opcode) payload) as (p2 & Hsend).
  { apply room_append. rewrite length_app, Nat.add_0_r. done. }
  { rewrite append_bytes_take by (by rewrite length_app). unfold hd. by rewrite <-app_assoc. }
  { done. }
  destruct (receive_ok junk' (le_bytes 2 opcode ++ le_bytes 2 (Z.of_nat (length payload)) ++ payload))
    as (q0 & Hrecv & Hq0 & Hwin & Hread & Hlen); [done|unfold buffer_size; rewrite !length_app; cbn; lia|].
  assert (consumes (op ← read_int 2; len ← read_int 2; ws ← map_each read_value (type_of <$> vs);
            mret (op, len, ws))
            (le_bytes 2 opcode ++ le_bytes 2 (Z.of_nat (length payload)) ++ payload)
            (opcode, Z.of_nat (length payload), vs)) as Hcons.
  { eapply consumes_bind; [apply consumes_int; cbn; lia|].
    eapply consumes_bind; [apply consumes_int; cbn; lia|]. cbn beta.
    apply (consumes_fmap _ (λ ws, (opcode, Z.of_nat (length payload), ws))).
    unfold payload. clear -Hvs. induction Hvs as [|v vs Hv _ IH]; [apply consumes_ret|].
    change ((v :: vs) ≫= encode) with (encode v ++ (vs ≫= encode)).
    cbn [map_each fmap list_fmap]. eapply consumes_bind; [by apply consumes_value|].
    by apply (consumes_fmap _ (cons v)). }
  do 6 eexists. split; [by apply create_ok|]. split; [exact Happ|]. split; [exact Hsend|].
  split; [exact Hrecv|]. split.
  - apply (Hcons q0 []); [done|by rewrite app_nil_r].
  - unfold advance. cbn [set_read p_read]. rewrite Hread. unfold bufferLen in *.
    cbn [set_read p_size p_write]. rewrite Hlen. lia.
Qed.

Definition sample_values : list value :=
  [VInt 8 77; VFloat (f32_of_Z 5); VVec2 (f32_of_Z 1, f32_of_Z (-2)); VString [104; 105]%Z].

Lemma wire_roundtrip_witness :
  Forall value_ok sample_values ∧
  ∃ q0 q,
    (op ← read_int 2; len ← read_int 2; ws ← map_each read_value (type_of <$> sample_values);
     mret (op, len, ws)) q0 = (Ok (0x0A05, 24, sample_values)%Z, q) ∧
    p_read q = bufferLen q.
Proof.
  assert (Forall value_ok sample_values) as Hvs.
  { repeat constructor; cbn; lia. }
  split; [exact Hvs|].
  destruct (wire_roundtrip (replicate buffer_size 0%Z) (replicate buffer_size 0%Z) 0x0A05 sample_values)
    as (p0 & p1 & p2 & bytes & q0 & q & _ & _ & _ & _ & Hr & Hend).
  - by rewrite length_replicate.
  - by rewrite length_replicate.
  - lia.
  - exact Hvs.
  - apply Nat.leb_le. reflexivity.
  - exists q0, q. split; [exact Hr|exact Hend].
Defined.

(** ** Bounds *)

(** The buffer holds bytes. *)
Definition bytes_ok (p : Packet) : Prop := Forall (λ b, 0 ≤ b < 256)%Z (p_buffer p).

(** [m] never leaves the bytes received: it succeeds inside them, or throws;
    either way the buffer is untouched and the cursor stays in range. *)
Definition guarded {A} (m : ST Packet A) : Prop :=
  ∀ p, readable p → bytes_ok p →
    let '(r, p') := m p in
    (r = Fail (Throw ReadOutOfBounds) ∨ ∃ a, r = Ok a) ∧
    readable p' ∧ p_buffer p' = p_buffer p ∧ bufferLen p' = bufferLen p ∧ (p_read p ≤ p_read p')%Z.

Lemma guarded_ret {A} (a : A) : guarded (mret a).
Proof. intros p Hp _. cbn. split_and!; eauto; lia. Qed.

Lemma guarded_bind {A B} (m : ST Packet A) (f : A → ST Packet B) :
  guarded m → (∀ a, guarded (f a)) → guarded (m ≫= f).
Proof.
  intros Hm Hf p Hp Hb. specialize (Hm p Hp Hb). unfold mbind, ST_bind.
  destruct (m p) as [[a|e] p1].
  - destruct Hm as (_ & Hp1 & Hb1 & Hl1 & Hr1).
    specialize (Hf a p1 Hp1 ltac:(unfold bytes_ok; by rewrite Hb1)).
    destruct (f a p1) as [r p2]. destruct Hf as (? & ? & ? & ? & ?).
    split_and!; [done|done|congruence|congruence|lia].
  - destruct Hm as ([|[? ?]] & ? & ? & ? & ?); [|congruence].
    simplify_eq. split_and!; eauto.
Qed.

Lemma le_value_range bs :
  Forall (λ b, 0 ≤ b < 256)%Z bs → (0 ≤ le_value bs < 2 ^ (8 * Z.of_nat (length bs)))%Z.
Proof.
  induction 1 as [|b bs Hb _ IH]; [cbn; lia|]. cbn [le_value length].
  enough (Z.land b (Z.shiftl (le_value bs) 8) = 0)%Z as Hl.
  { pose proof (Z.add_lor_land b (Z.shiftl (le_value bs) 8)) as Ha.
    rewrite Z.shiftl_mul_pow2 in * by lia.
    replace (8 * Z.of_nat (S (length bs)))%Z with (8 * Z.of_nat (length bs) + 8)%Z by lia.
    rewrite Z.pow_add_r by lia. nia. }
  apply Z.bits_inj'. intros i Hi. rewrite Z.land_spec, Z.bits_0.
  destruct (decide (i < 8)%Z).
  - by rewrite Z.shiftl_spec_low, andb_false_r by lia.
  - rewrite <-(Z.mod_small b (2 ^ 8)) by lia. by rewrite Z.mod_pow2_bits_high by lia.
Qed.

(** A read of [n] bytes: it succeeds exactly when they are there. *)
Lemma read_int_cases n p :
  readable p → bytes_ok p →
  if (bufferLen p <? p_read p + Z.of_nat n)%Z
  then read_int n p = (Fail (Throw ReadOutOfBounds), p)
  else ∃ v, read_int n p = (Ok v, advance n p) ∧ (0 ≤ v < 2 ^ (8 * Z.of_nat n))%Z.
Proof.
  intros [(Hl & ? & ? & ?) ?] Hb. unfold buffer_size in *.
  unfold read_int, peek_int, load, mbind, ST_bind, get, buffer_size.
  destruct (Z.ltb_spec (bufferLen p) (p_read p + Z.of_nat n)); [done|].
  rewrite bool_decide_true by lia. eexists. unfold modify, mret, ST_ret, advance.
  rewrite u16_small by lia. split; [done|].
  set (bs := take n (drop (Z.to_nat (p_read p)) (p_buffer p))).
  assert (length bs = n) as Hn by (unfold bs; rewrite length_take, length_drop; lia).
  rewrite <-Hn.
  by apply le_value_range, Forall_take, Forall_drop.
Qed.

Lemma advance_readable n p :
  readable p → (p_read p + Z.of_nat n ≤ bufferLen p)%Z → readable (advance n p).
Proof. unfold readable, packet_ok, advance, bufferLen. cbn. lia. Qed.

Lemma guarded_int n : guarded (read_int n).
Proof.
  intros p Hp Hb. pose proof (read_int_cases n p Hp Hb) as Hc.
  destruct (Z.ltb_spec (bufferLen p) (p_read p + Z.of_nat n)).
  - rewrite Hc. split_and!; eauto. lia.
  - destruct Hc as (v & -> & _). split_and!; eauto using advance_readable. cbn. lia.
Qed.

Lemma guarded_float : guarded read_float.
Proof. apply guarded_bind; [apply guarded_int|]. intros. apply guarded_ret. Qed.

(** A block that [read_block] has admitted is inside the buffer. *)
Lemma guarded_block len :
  (0 ≤ len)%Z → guarded (str ← read_block len; load str (Z.to_nat len)).
Proof.
  intros Hlen p Hp Hb. pose proof Hp as [(Hl & ? & ? & ?) ?]. unfold buffer_size in *.
  unfold read_block, load, mbind, ST_bind, get, put, mret, ST_ret, buffer_size.
  destruct (Z.ltb_spec (bufferLen p) (p_read p + len)); [split_and!; eauto; lia|].
  rewrite u16_small, bool_decide_true by lia.
  split_and!; eauto; [|cbn; lia].
  unfold readable, packet_ok, bufferLen, buffer_size in *. cbn. lia.
Qed.

Lemma guarded_string : guarded read_string.
Proof.
  intros p Hp Hb. pose proof (read_int_cases 2 p Hp Hb) as Hc. unfold read_string, mbind at 1, ST_bind at 1.
  destruct (Z.ltb_spec (bufferLen p) (p_read p + Z.of_nat 2)).
  - rewrite Hc. split_and!; eauto. lia.
  - destruct Hc as (v & -> & Hv).
    pose proof (guarded_block v (proj1 Hv) (advance 2 p) (advance_readable 2 p Hp ltac:(lia)) Hb) as Hg.
    destruct ((str ← read_block v; load str (Z.to_nat v)) (advance 2 p)) as [r p'].
    destruct Hg as (? & ? & ? & ? & Hle). cbn in Hle. split_and!; [done|done|done|done|lia].
Qed.

#[export] Hint Resolve guarded_ret guarded_int guarded_float guarded_string : shinzui.

Lemma guarded_value t : guarded (read_value t).
Proof.
  destruct t; cbn [read_value]; unfold read_vec2, read_vec3;
    repeat first [solve [auto with shinzui] | apply guarded_bind; [|intros ?]].
Qed.

Lemma guarded_values ts : guarded (map_each read_value ts).
Proof.
  induction ts as [|t ts IH]; [apply guarded_ret|]. apply guarded_bind; [apply guarded_value|]. intros v.
  apply guarded_bind; [done|]. intros. apply guarded_ret.
Qed.

(** [m] reads at least [n] bytes. *)
Definition takes {A} (n : nat) (m : ST Packet A) : Prop :=
  ∀ p a p', readable p → bytes_ok p → m p = (Ok a, p') → (p_read p + Z.of_nat n ≤ p_read p')%Z.

Lemma takes_guarded {A} (m : ST Packet A) : guarded m → takes 0 m.
Proof. intros Hg p a p' Hp Hb Hm. specialize (Hg p Hp Hb). rewrite Hm in Hg. lia. Qed.

Lemma takes_bind {A B} n k (m : ST Packet A) (f : A → ST Packet B) :
  guarded m → takes n m → (∀ a, takes k (f a)) → takes (n + k) (m ≫= f).
Proof.
  intros Hg Hm Hf p b p2 Hp Hb Hrun. apply bind_ok_inv in Hrun as (a & p1 & H1 & H2).
  pose proof (Hg p Hp Hb) as Hg1. rewrite H1 in Hg1. destruct Hg1 as (_ & Hp1 & Hb1 & _).
  specialize (Hm p a p1 Hp Hb H1). specialize (Hf a p1 b p2 Hp1 ltac:(unfold bytes_ok; by rewrite Hb1) H2). lia.
Qed.

Lemma takes_int n : takes n (read_int n).
Proof.
  intros p a p' Hp Hb Hm. pose proof (read_int_cases n p Hp Hb) as Hc. destruct (_ <? _)%Z; [congruence|].
  destruct Hc as (v & Hv & _). rewrite Hv in Hm. injection Hm as _ <-. cbn. lia.
Qed.

Lemma takes_float : takes 4 read_float.
Proof. apply (takes_bind 4 0); [apply guarded_int|apply takes_int|]. intros. apply takes_guarded, guarded_ret. Qed.

Lemma guarded_vec2 : guarded read_vec2.
Proof. unfold read_vec2. repeat first [solve [auto with shinzui] | apply guarded_bind; [|intros ?]]. Qed.

Lemma guarded_vec3 : guarded read_vec3.
Proof. unfold read_vec3. repeat first [solve [auto with shinzui] | apply guarded_bind; [|intros ?]]. Qed.

Lemma takes_floats n {A} (f : f32 → ST Packet A) : (∀ x, takes n (f x)) → takes (4 + n) (x ← read_float; f x).
Proof. intros Hf. by apply takes_bind; [apply guarded_float|apply takes_float|]. Qed.

(** A string has its length in front. *)
Lemma takes_string : takes 2 read_string.
Proof.
  intros p a p' Hp Hb Hm. unfold read_string in Hm. apply bind_ok_inv in Hm as (len & p1 & H1 & H2).
  pose proof (takes_int 2 p len p1 Hp Hb H1). pose proof (read_int_cases 2 p Hp Hb) as Hc.
  destruct (Z.ltb_spec (bufferLen p) (p_read p + Z.of_nat 2)); [congruence|]. destruct Hc as (v & Hv & Hr).
  rewrite Hv in H1. injection H1 as <- <-.
  pose proof (takes_guarded _ (guarded_block v (proj1 Hr)) _ _ _ (advance_readable 2 p Hp ltac:(lia)) Hb H2). lia.
Qed.

(** The bytes that a value has at least. *)
Definition least_size (t : value_type) : nat :=
  match t with TInt n => n | TFloat => 4 | TVec2 => 8 | TVec3 => 12 | TString => 2 end.

Lemma takes_value t : takes (least_size t) (read_value t).
Proof.
  assert (∀ A (a : A), takes 0 (mret a)) as Hret by (intros; apply takes_guarded, guarded_ret).
  destruct t as [n| | | |]; cbn [read_value least_size].
  - replace n with (n + 0) at 1 by lia. by apply takes_bind; [apply guarded_int|apply takes_int|].
  - by apply (takes_floats 0).
  - apply (takes_bind 8 0); [apply guarded_vec2| |done]. by apply (takes_floats 4); intros; apply (takes_floats 0).
  - apply (takes_bind 12 0); [apply guarded_vec3| |done].
    by apply (takes_floats 8); intros; apply (takes_floats 4); intros; apply (takes_floats 0).
  - by apply (takes_bind 2 0); [apply guarded_string|apply takes_string|].
Qed.

Lemma takes_values ts : takes (sum_list (least_size <$> ts)) (map_each read_value ts).
Proof.
  induction ts as [|t ts IH]; [apply takes_guarded, guarded_ret|].
  change (sum_list (least_size <$> t :: ts)) with (least_size t + sum_list (least_size <$> ts)).
  apply takes_bind; [apply guarded_value|apply takes_value|]. intros v. rewrite <-(Nat.add_0_r (sum_list _)).
  apply takes_bind; [apply guarded_values|done|]. intros. apply takes_guarded, guarded_ret.
Qed.

(** Values that do not fit into what is left of a packet are not read. *)
Lemma short_throws ts p :
  readable p → bytes_ok p → (bufferLen p < p_read p + Z.of_nat (sum_list (least_size <$> ts)))%Z →
  (map_each read_value ts p).1 = Fail (Throw ReadOutOfBounds).
Proof.
  intros Hp Hb Hshort. pose proof (guarded_values ts p Hp Hb) as Hg. pose proof (takes_values ts p) as Ht.
  destruct (map_each read_value ts p) as [r p']. destruct Hg as ([->|[a ->]] & [_ ?] & _ & Hl & _); [done|].
  specialize (Ht a p' Hp Hb eq_refl). lia.
Qed.

(** C29. Reading is memory safe whatever bytes were received: any sequence of
    typed reads either succeeds or throws [ReadOutOfBounds]; it never leaves the
    received bytes, never changes the buffer, and keeps the cursor in range. *)
Theorem read_values_guarded (ts : list value_type) (p : Packet)
    (Hp : readable p) (Hb : bytes_ok p) :
  let '(r, p') := map_each read_value ts p in
  (r = Fail (Throw ReadOutOfBounds) ∨ ∃ vs, r = Ok vs ∧ type_of <$> vs = ts) ∧
  p_buffer p' = p_buffer p ∧ (p_read p ≤ p_read p' ≤ bufferLen p)%Z.
Proof.
  revert p Hp Hb. induction ts as [|t ts IH]; intros p Hp Hb.
  - cbn. destruct Hp as [? ?]. split_and!; eauto; lia.
  - cbn [map_each]. pose proof (guarded_value t p Hp Hb) as Hg.
    assert (∀ v p', read_value t p = (Ok v, p') → type_of v = t) as Hty.
    { destruct t; cbn [read_value]; intros v p' Hrun; inv_run; done. }
    unfold mbind at 1, ST_bind at 1.
    destruct (read_value t p) as [[v|e] p1].
    + destruct Hg as (_ & Hp1 & Hb1 & Hl1 & Hr1).
      specialize (IH p1 Hp1 ltac:(unfold bytes_ok; by rewrite Hb1)).
      unfold mbind, ST_bind, mret, ST_ret.
      destruct (map_each read_value ts p1) as [[vs|e] p2]; destruct IH as (Hr & ? & ?);
        (split_and!; [|congruence|lia|lia]).
      * right. destruct Hr as [|(vs' & [= <-] & <-)]; [done|].
        exists (v :: vs). split; [done|]. cbn. f_equal. by eapply Hty.
      * left. destruct Hr as [|(? & ? & ?)]; [done|congruence].
    + destruct Hg as ([|[? ?]] & [_ ?] & ? & Hl & ?); [|congruence].
      simplify_eq. split_and!; eauto; lia.
Qed.

Definition received_packet (bs : list Z) : Packet :=
  set_size (Z.of_nat (length bs)) (Packet_new (bs ++ replicate (buffer_size - length bs) 0%Z)).

Lemma read_values_guarded_witness :
  (map_each read_value [TInt 2; TString] (received_packet [1; 2; 200; 0; 5]%Z)).1
    = Fail (Throw ReadOutOfBounds).
Proof.
  pose proof (read_values_guarded [TInt 2; TString] (received_packet [1; 2; 200; 0; 5]%Z)) as H.
  destruct (map_each _ _ _) as [r p'] eqn:E in H. rewrite E. destruct H as [[H|(vs & H & _)] _].
  - unfold readable, packet_ok, bufferLen. vm_compute. repeat split; discriminate.
  - unfold bytes_ok, received_packet. cbn [Packet_new set_size p_buffer].
    apply Forall_app. split; [repeat constructor; lia|]. apply Forall_replicate. lia.
  - exact H.
  - exfalso. rewrite H in E. vm_compute in E. discriminate.
Defined.

(** ** Overflow, forwarding and lifetime *)

(** The stream operators have no bounds check: a sequence of values is
    appended exactly when it fits into the 1024 bytes of the buffer; the first
    value that does not fit is written outside of it. *)
Theorem put_values_overflow (vs : list value) (p : Packet)
    (Hvs : Forall value_ok vs) (Hp : room 0 p) :
  if (p_write p + Z.of_nat (length (vs ≫= encode)) <=? 1024)%Z
  then for_each put_value vs p = (Ok tt, append_bytes (vs ≫= encode) p)
  else (for_each put_value vs p).1 = Fail (UB OutOfBounds).
Proof.
  destruct (appends_values vs Hvs p Hp) as [Hok Hub]. pose proof Hp as [? _].
  destruct (Z.leb_spec (p_write p + Z.of_nat (length (vs ≫= encode))) 1024).
  - apply Hok. by split.
  - apply Hub. intros [_ Hr]. unfold buffer_size in Hr. lia.
Qed.

Definition large_string : value := VString (replicate 1100 65%Z).

Lemma put_values_overflow_witness :
  (for_each put_value [VInt 2 7; large_string] (Packet_new (replicate buffer_size 0%Z))).1
    = Fail (UB OutOfBounds).
Proof.
  assert (Forall value_ok [VInt 2 7; large_string]%Z) as Hvs.
  { repeat constructor; try (cbn; lia). }
  assert (room 0 (Packet_new (replicate buffer_size 0%Z))) as Hr.
  { apply (bool_decide_unpack _). vm_compute. exact I. }
  exact (put_values_overflow _ _ Hvs Hr).
Defined.

(** What is streamed when a packet is streamed into another one. *)
Definition forwarded (from : Packet) : list Z :=
  drop 4 (take (Z.to_nat (Z.max (Z.max (p_read from) (p_size from)) (p_write from))) (p_buffer from)).

Lemma seqZ_lookup_bytes (f : Z → ST Packet unit) (bs : list Z) k :
  (0 ≤ k)%Z →
  (∀ i b, bs !! i = Some b → appends (f (k + Z.of_nat i)%Z) [b]) →
  appends (for_each f (seqZ k (Z.of_nat (length bs)))) bs.
Proof.
  revert k. induction bs as [|b bs IH]; intros k Hk Hf; [apply appends_nil|].
  rewrite seqZ_cons by (cbn; lia). cbn [for_each].
  apply (appends_bind _ _ [b]).
  - rewrite <-(Z.add_0_r k). by apply (Hf 0).
  - replace (Z.pred (Z.of_nat (length (b :: bs)))) with (Z.of_nat (length bs)) by (cbn; lia).
    apply IH; [lia|]. intros i b' Hi. replace (Z.succ k + Z.of_nat i)%Z with (k + Z.of_nat (S i))%Z by lia.
    by apply Hf.
Qed.

(** Streaming a packet into another one appends its payload, all that it
    holds after the four bytes of its header, and nothing else. *)
Theorem put_packet_payload (from p : Packet)
    (Hfrom : packet_ok from) (Hbytes : bytes_ok from)
    (Hin : (p_read from ≤ 1024 ∧ p_size from ≤ 1024 ∧ p_write from ≤ 1024)%Z)
    (Hroom : room (length (forwarded from)) p) :
  put_packet from p = (Ok tt, append_bytes (forwarded from) p).
Proof.
  assert (room 0 p) as H0 by (eapply room_weaken; [|exact Hroom]; lia).
  cut (appends (put_packet from) (forwarded from)).
  { intros Happ. by destruct (Happ p H0) as [Hok _]; apply Hok. }
  destruct Hfrom as (Hl & ? & ? & ?). unfold buffer_size in *.
  unfold put_packet, forwarded. set (last := Z.max _ _) in *.
  rewrite u16_small by lia. set (bs := drop 4 _).
  assert (length bs = Z.to_nat last - 4) as Hlen
    by (unfold bs; rewrite length_drop, length_take; lia).
  assert (seqZ 4 (last - 4) = seqZ 4 (Z.of_nat (length bs))) as ->.
  { destruct (decide (4 ≤ last)%Z); [f_equal; lia|]. by rewrite !seqZ_nil by lia. }
  apply seqZ_lookup_bytes; [lia|]. intros i b Hi.
  unfold bs in Hi. rewrite lookup_drop in Hi. apply lookup_take_Some in Hi as [Hi _].
  replace (Z.to_nat (4 + Z.of_nat i)) with (4 + i) by lia. rewrite Hi.
  rewrite <-(le_bytes_1 b); [apply appends_int|].
  by apply (Forall_lookup_1 _ _ _ _ Hbytes Hi).
Qed.

Lemma put_packet_payload_witness :
  forwarded (received_packet [1; 2; 3; 4; 5; 6]%Z) = [5; 6]%Z ∧
  (put_packet (received_packet [1; 2; 3; 4; 5; 6]%Z) (received_packet [])).2
    = append_bytes [5; 6]%Z (received_packet []).
Proof.
  split; [reflexivity|]. rewrite put_packet_payload; [reflexivity|..].
  - unfold packet_ok. vm_compute. repeat split; discriminate.
  - unfold bytes_ok, received_packet. cbn [Packet_new set_size p_buffer].
    apply Forall_app. split; [repeat constructor; lia|]. apply Forall_replicate. lia.
  - vm_compute. repeat split; discriminate.
  - apply (bool_decide_unpack _). vm_compute. exact I.
Defined.

Lemma set_refs_twice a b p : set_refs a (set_refs b p) = set_refs a p.
Proof. done. Qed.

(** The references counted after any prefix that starts from [n]. *)
Lemma run_refs_alive ops p n :
  p_refs p = n →
  (∀ k, 0 < k ≤ length ops → (0 < n + live_refs (take k ops) < 2 ^ 16)%Z) →
  run_refs ops p = (false, set_refs (n + live_refs ops) p).
Proof.
  revert p n. induction ops as [|o ops IH]; intros p n Hn Hk.
  { cbn. f_equal. rewrite Z.add_0_r, <-Hn. by destruct p. }
  assert (0 < n + live_refs [o] < 2 ^ 16)%Z as Ho by (apply (Hk 1); cbn; lia).
  assert (∀ k, 0 < k ≤ length ops → (0 < n + live_refs [o] + live_refs (take k ops) < 2 ^ 16)%Z) as Hk'.
  { intros k ?. specialize (Hk (S k) ltac:(cbn; lia)). destruct o; cbn in Hk |- *; lia. }
  destruct o; cbn [run_refs live_refs] in *.
  - rewrite (IH _ (n + 1)%Z); [unfold intrusive_ptr_add_ref; rewrite set_refs_twice; do 2 f_equal; lia| |].
    + unfold intrusive_ptr_add_ref. cbn [set_refs p_refs]. rewrite Hn. apply u16_small. lia.
    + intros k ?. specialize (Hk' k ltac:(done)). lia.
  - unfold intrusive_ptr_release. cbn [set_refs p_refs]. rewrite Hn, u16_small by lia.
    destruct (Z.eqb_spec (n - 1) 0); [lia|].
    rewrite (IH _ (n - 1)%Z); [rewrite set_refs_twice; do 2 f_equal; lia|done|].
    intros k ?. specialize (Hk' k ltac:(done)). lia.
Qed.

(** The 16-bit reference count is exact: a packet stays alive as long as
    one of its (fewer than 65536) references exists, and the release of the
    last one destroys it. *)
Lemma refcount_exact (junk : list Z) (ops : list ref_op)
    (Hlive : ∀ k, 0 < k ≤ length ops → (0 < live_refs (take k ops) < 2 ^ 16)%Z) :
  run_refs ops (Packet_new junk) = (false, set_refs (live_refs ops) (Packet_new junk)) ∧
  (live_refs ops = 1%Z → (run_refs (ops ++ [Release]) (Packet_new junk)).1 = true).
Proof.
  assert (run_refs ops (Packet_new junk) = (false, set_refs (live_refs ops) (Packet_new junk))) as Hrun.
  { apply (run_refs_alive ops (Packet_new junk) 0); [done|exact Hlive]. }
  split; [exact Hrun|]. intros H1.
  cut (∀ p, run_refs ops p = (false, set_refs 1 (Packet_new junk)) →
         (run_refs (ops ++ [Release]) p).1 = true).
  { intros Hc. apply Hc. by rewrite Hrun, H1. }
  clear. induction ops as [|[] ops IH]; intros p; cbn [run_refs app].
  - intros [= ->]. done.
  - apply IH.
  - destruct (intrusive_ptr_release p) as [[] q]; [done|apply IH].
Qed.

Lemma refcount_exact_witness :
  (run_refs ([Acquire; Acquire; Release] ++ [Release]) (Packet_new [])).1 = true.
Proof.
  apply (refcount_exact [] [Acquire; Acquire; Release]); [|reflexivity].
  intros k Hk. destruct k as [|[|[|[|k]]]]; cbn in Hk |- *; lia.
Defined.
