(* ===== verification/Lockfree.v ===== *)
(** * The queues of [boost::lockfree]

    The sources only call [boost::lockfree::queue]; the development takes it as
    a parameter. [Lockfree] gives the operations, [LockfreeLaws] what its
    documentation promises when one thread pushes or pops at a time: elements
    come out in the order they went in, a queue with [capacity<N>] accepts an
    element when it holds fewer than [N], a queue without it always does, and a
    refused element leaves the queue as it was. [list_queue] is the instance
    that the witnesses run. [QueueWithSize] is the queue with a counter of
    [debug/queue_with_size.hpp]. *)

From Stdlib Require Import ZArith Lia.
From stdpp Require Import base list option.
From S2P Require Import Prelude.

Class Lockfree (A : Type) := {
  lf_queue : Type;
  lf_empty : lf_queue;
  lf_push : A → lf_queue → bool * lf_queue;
  lf_pop : lf_queue → option (A * lf_queue);
  lf_contents : lf_queue → list A;
}.
Arguments lf_queue _ {_}.

(** [free cap n]: a queue of [n] elements accepts one more. *)
Definition free (cap : option nat) (n : nat) : Prop :=
  match cap with Some c => n < c | None => True end.

Class LockfreeLaws (A : Type) `{Lockfree A} (cap : option nat) := {
  lf_empty_contents : lf_contents lf_empty = [];
  lf_pop_empty q : lf_contents q = [] → lf_pop q = None;
  lf_pop_cons q a l : lf_contents q = a :: l → ∃ q', lf_pop q = Some (a, q') ∧ lf_contents q' = l;
  lf_push_free a q :
    free cap (length (lf_contents q)) → lf_contents (lf_push a q).2 = lf_contents q ++ [a];
  lf_push_full a q :
    ¬ free cap (length (lf_contents q)) → lf_contents (lf_push a q).2 = lf_contents q;
  lf_push_result a q : (lf_push a q).1 = true ↔ free cap (length (lf_contents q));
}.

Section pushes.
Context {A : Type} `{Hlf : Lockfree A} {cap : option nat} `{!LockfreeLaws A cap}.

(** The queue after several pushes whose results are ignored. *)
Definition push_all (l : list A) (q : lf_queue A) : lf_queue A :=
  foldl (λ q a, (lf_push a q).2) q l.

Lemma push_all_contents l q :
  (match cap with Some c => length (lf_contents q) + length l ≤ c | None => True end) →
  lf_contents (push_all l q) = lf_contents q ++ l.
Proof.
  revert q. induction l as [|a l IH]; intros q Hc; cbn [push_all foldl].
  { by rewrite app_nil_r. }
  assert (lf_contents (lf_push a q).2 = lf_contents q ++ [a]) as Hp.
  { apply lf_push_free. unfold free. destruct cap; [cbn in Hc; lia|done]. }
  fold (push_all l (lf_push a q).2). rewrite IH, Hp.
  - by rewrite <-app_assoc.
  - destruct cap; [|done]. rewrite Hp, length_app. cbn in *. lia.
Qed.

Lemma lf_pop_contents q :
  match lf_contents q with
  | [] => lf_pop q = None
  | a :: l => ∃ q', lf_pop q = Some (a, q') ∧ lf_contents q' = l
  end.
Proof.
  destruct (lf_contents q) eqn:E; [by apply lf_pop_empty|by apply lf_pop_cons].
Qed.
End pushes.

Definition list_queue (A : Type) (cap : option nat) : Lockfree A := {|
  lf_queue := list A;
  lf_empty := [];
  lf_push a q :=
    match cap with
    | Some c => if bool_decide (length q < c) then (true, q ++ [a]) else (false, q)
    | None => (true, q ++ [a])
    end;
  lf_pop q := match q with a :: q => Some (a, q) | [] => None end;
  lf_contents q := q;
|}.

Lemma list_queue_laws A cap : @LockfreeLaws A (list_queue A cap) cap.
Proof.
  split; [done|by intros q Hq; cbn in *; rewrite Hq|by intros q a l Hq; cbn in *; rewrite Hq; eauto| | |];
    intros a q; unfold free; destruct cap as [c|]; cbn -[lt]; try tauto;
    intros; case_bool_decide; done.
Qed.

(** ** [QueueWithSize] ([src/debug/queue_with_size.hpp])

    A queue without capacity and a [uint32_t] counter of its elements. *)

Section with_size.
Context {A : Type} `{Hlf : Lockfree A}.

Record QueueWithSize := mkQueueWithSize { qs_queue : lf_queue A; qs_counter : Z }.

Definition QueueWithSize_new : QueueWithSize := mkQueueWithSize lf_empty 0.

Definition qs_push (t : A) (q : QueueWithSize) : bool * QueueWithSize :=
  let '(pushed, queue) := lf_push t (qs_queue q) in
  if pushed : bool then (true, mkQueueWithSize queue (u32 (qs_counter q + 1)))
  else (false, mkQueueWithSize queue (qs_counter q)).

Definition qs_pop (q : QueueWithSize) : option (A * QueueWithSize) :=
  match lf_pop (qs_queue q) with
  | Some (t, queue) => Some (t, mkQueueWithSize queue (u32 (qs_counter q - 1)))
  | None => None
  end.

Definition qs_contents (q : QueueWithSize) : list A := lf_contents (qs_queue q).

Context `{!LockfreeLaws A None}.

(** The counter is the number of elements, modulo 2^32. *)
Definition counted (q : QueueWithSize) : Prop := qs_counter q = u32 (Z.of_nat (length (qs_contents q))).

Lemma counted_new : counted QueueWithSize_new.
Proof. unfold counted, qs_contents. cbn. by rewrite lf_empty_contents. Qed.

Lemma qs_push_contents t q : qs_contents (qs_push t q).2 = qs_contents q ++ [t].
Proof.
  unfold qs_contents, qs_push.
  pose proof (lf_push_free (cap := None) t (qs_queue q) I) as Hc.
  pose proof (proj2 (lf_push_result (cap := None) t (qs_queue q)) I) as Hr.
  destruct (lf_push t (qs_queue q)) as [b queue]. cbn in Hc, Hr. by subst b.
Qed.

Lemma qs_push_ok t q : counted q → counted (qs_push t q).2 ∧ (qs_push t q).1 = true.
Proof.
  unfold counted. rewrite qs_push_contents, length_app. unfold qs_push. intros Hq.
  pose proof (proj2 (lf_push_result (cap := None) t (qs_queue q)) I) as Hr.
  destruct (lf_push t (qs_queue q)) as [b queue]. cbn in Hr. subst b. cbn. split; [|done].
  rewrite Hq. unfold u32, wrap. rewrite Z.add_mod_idemp_l by lia. f_equal. lia.
Qed.

Lemma qs_pop_ok q :
  counted q →
  match qs_contents q with
  | [] => qs_pop q = None
  | t :: l => ∃ q', qs_pop q = Some (t, q') ∧ qs_contents q' = l ∧ counted q'
  end.
Proof.
  unfold counted, qs_contents, qs_pop. intros Hq. pose proof (lf_pop_contents (cap := None) (qs_queue q)) as Hp.
  destruct (lf_contents (qs_queue q)) as [|t l] eqn:E; [by rewrite Hp|].
  destruct Hp as (queue & -> & Hl). eexists. split; [done|]. cbn. split; [done|]. rewrite Hq, Hl. cbn [length].
  unfold u32, wrap. rewrite Zminus_mod_idemp_l. f_equal. lia.
Qed.
End with_size.
Arguments QueueWithSize _ {_}.
