(* ===== verification/Database.v ===== *)
(** * The database and its threads

    [database/database.hpp], [database/database.cpp]: threads that serve a queue
    of queries. The driver of MongoDB is a parameter: [answer] is what a query
    returns when it is applied to the client of a thread, or nothing where it
    throws, which ends the program, since nothing in the thread catches it.

    Threads are interleaved: a state gives each thread the place it is at, and a
    move lets one of them take its next step, which is atomic (an operation on
    the lock-free queue, on the atomic flag, on the mutex, or on the condition
    variable). A thread that cannot go on, because the mutex is taken or because
    it waits for a signal, has no step. Waiting may end without a signal, as the
    standard allows; such a move has a name of its own, as nothing that relies
    on it is certain to come. *)

From Stdlib Require Import Lia.
From stdpp Require Import base list option relations.
From S2P Require Import Prelude Lockfree.

(** Where a thread of [Database::run] is. *)
Inductive worker (A : Type) :=
  | AtStop             (* while (!_stop) *)
  | AtEmpty            (* while (!_queue.empty()) *)
  | AtPop              (* if (_queue.pop(work)) *)
  | AtWork (work : A)  (* ( *work)( *client); delete work; *)
  | AtLock             (* std::unique_lock work_signal_lock(...); *)
  | AtWait             (* _work_signal.wait(...), the mutex is held *)
  | Waiting            (* in wait, the mutex is free *)
  | Woken              (* in wait, after a signal *)
  | AtUnlock           (* the lock goes out of scope *)
  | Ended.
Arguments AtStop {A}.
Arguments AtEmpty {A}.
Arguments AtPop {A}.
Arguments AtWork {A} _.
Arguments AtLock {A}.
Arguments AtWait {A}.
Arguments Waiting {A}.
Arguments Woken {A}.
Arguments AtUnlock {A}.
Arguments Ended {A}.

(** Where a thread that calls [Database::query] is. *)
Inductive caller := CallPush | CallLock | CallNotify | CallUnlock | Returned.

(** Where the thread that destroys the database is; it joins the thread [i]. *)
Inductive destructor := Alive | Stopping | Joining (i : nat) | Destroyed.

Inductive thread := Worker (i : nat) | Caller (j : nat).

#[export] Instance worker_eq_dec `{EqDecision A} : EqDecision (worker A).
Proof. solve_decision. Defined.
#[export] Instance caller_eq_dec : EqDecision caller.
Proof. solve_decision. Defined.
#[export] Instance destructor_eq_dec : EqDecision destructor.
Proof. solve_decision. Defined.
#[export] Instance thread_eq_dec : EqDecision thread.
Proof. solve_decision. Defined.

Inductive move (A : Type) :=
  | Run (i : nat)      (* the thread [i] of the database *)
  | Call (work : A)    (* a thread calls [query] *)
  | Go (j : nat)       (* the caller [j] *)
  | Stop               (* a thread calls [stop] *)
  | Destroy            (* the thread that destroys the database *)
  | Spurious (i : nat) (* the thread [i] wakes up without a signal *).
Arguments Run {A} _.
Arguments Call {A} _.
Arguments Go {A} _.
Arguments Stop {A}.
Arguments Destroy {A}.
Arguments Spurious {A} _.

Section database.
Context {A R : Type} `{Hlf : Lockfree A} (answer : A → option R) (ndebug : bool).

(** The members, the places of the threads, and the values that the promises
    were given. *)
Record Database := mkDatabase {
  _queue : lf_queue A;
  _stop : bool;
  _work_signal_mutex : option thread;
  _databaseThreads : list (worker A);
  db_callers : list (A * caller);
  db_destructor : destructor;
  db_answers : list (A * R);
}.

Definition set_queue q d :=
  mkDatabase q (_stop d) (_work_signal_mutex d) (_databaseThreads d) (db_callers d) (db_destructor d) (db_answers d).
Definition set_stop d :=
  mkDatabase (_queue d) true (_work_signal_mutex d) (_databaseThreads d) (db_callers d) (db_destructor d) (db_answers d).
Definition set_mutex m d :=
  mkDatabase (_queue d) (_stop d) m (_databaseThreads d) (db_callers d) (db_destructor d) (db_answers d).
Definition set_workers l d :=
  mkDatabase (_queue d) (_stop d) (_work_signal_mutex d) l (db_callers d) (db_destructor d) (db_answers d).
Definition set_callers l d :=
  mkDatabase (_queue d) (_stop d) (_work_signal_mutex d) (_databaseThreads d) l (db_destructor d) (db_answers d).
Definition set_destructor c d :=
  mkDatabase (_queue d) (_stop d) (_work_signal_mutex d) (_databaseThreads d) (db_callers d) c (db_answers d).
Definition add_answer x r d :=
  mkDatabase (_queue d) (_stop d) (_work_signal_mutex d) (_databaseThreads d) (db_callers d) (db_destructor d)
    (db_answers d ++ [(x, r)]).

(** [Database::Database]: the threads are started. *)
Definition Database_new (numThreads : nat) : Database :=
  mkDatabase lf_empty false None (replicate numThreads AtStop) [] Alive [].

(** The thread [i] is at [pc] now. *)
Definition at_ (i : nat) (pc : worker A) (d : Database) : Database := set_workers (<[i := pc]> (_databaseThreads d)) d.
Definition caller_at (j : nat) (work : A) (pc : caller) (d : Database) : Database :=
  set_callers (<[j := (work, pc)]> (db_callers d)) d.

(** Taking the mutex, which has to be free. *)
Definition lock (t : thread) (d : Database) : option Database :=
  if decide (_work_signal_mutex d = None) then Some (set_mutex (Some t) d) else None.

(** [notify_all] *)
Definition wake (pc : worker A) : worker A := match pc with Waiting => Woken | pc => pc end.
Definition notify_all (d : Database) : Database := set_workers (wake <$> _databaseThreads d) d.

(** [Database::run], one step. *)
Definition run (i : nat) (d : Database) : option (outcome Database) :=
  pc ← _databaseThreads d !! i;
  match pc with
  | AtStop => Some (Ok (at_ i (if _stop d then Ended else AtEmpty) d))
  | AtEmpty => Some (Ok (at_ i (match lf_contents (_queue d) with [] => AtLock | _ => AtPop end) d))
  | AtPop =>
      match lf_pop (_queue d) with
      | Some (work, queue) => Some (Ok (at_ i (AtWork work) (set_queue queue d)))
      | None => Some (Ok (at_ i AtEmpty d))
      end
  | AtWork work =>
      match answer work with
      | Some value => Some (Ok (at_ i AtEmpty (add_answer work value d)))
      | None => Some (Fail Abort)
      end
  | AtLock => d ← lock (Worker i) d; Some (Ok (at_ i AtWait d))
  | AtWait => Some (Ok (at_ i Waiting (set_mutex None d)))
  | Waiting => None
  | Woken => d ← lock (Worker i) d; Some (Ok (at_ i AtUnlock d))
  | AtUnlock => Some (Ok (at_ i AtStop (set_mutex None d)))
  | Ended => None
  end.

(** [Database::query], one step. *)
Definition query (j : nat) (d : Database) : option (outcome Database) :=
  '(work, pc) ← db_callers d !! j;
  match pc with
  | CallPush =>
      let '(result, queue) := lf_push work (_queue d) in
      Some (if (ndebug || result)%bool then Ok (caller_at j work CallLock (set_queue queue d)) else Fail Abort)
  | CallLock => d ← lock (Caller j) d; Some (Ok (caller_at j work CallNotify d))
  | CallNotify => Some (Ok (caller_at j work CallUnlock (notify_all d)))
  | CallUnlock => Some (Ok (caller_at j work Returned (set_mutex None d)))
  | Returned => None
  end.

(** [Database::~Database], one step: the threads are joined in turn. *)
Definition destroy (d : Database) : option (outcome Database) :=
  match db_destructor d with
  | Alive => Some (Ok (set_destructor Stopping d))
  | Stopping => Some (Ok (set_destructor (Joining 0) (set_stop d)))
  | Joining i =>
      match _databaseThreads d !! i with
      | None => Some (Ok (set_destructor Destroyed d))
      | Some Ended => Some (Ok (set_destructor (Joining (S i)) d))
      | Some _ => None
      end
  | Destroyed => None
  end.

Definition do_move (m : move A) (d : Database) : option (outcome Database) :=
  match m with
  | Run i => run i d
  | Call work => Some (Ok (set_callers (db_callers d ++ [(work, CallPush)]) d))
  | Go j => query j d
  | Stop => Some (Ok (set_stop d))
  | Destroy => destroy d
  | Spurious i =>
      match _databaseThreads d !! i with
      | Some Waiting => Some (Ok (at_ i Woken d))
      | _ => None
      end
  end.

(** A schedule: the threads that move, in order. *)
Fixpoint moves (ms : list (move A)) (d : Database) : option (outcome Database) :=
  match ms with
  | [] => Some (Ok d)
  | m :: ms => o ← do_move m d; match o with Ok d => moves ms d | Fail f => Some (Fail f) end
  end.

Inductive reaches (n : nat) : Database → Prop :=
  | rs_new : reaches n (Database_new n)
  | rs_move d d' m : reaches n d → do_move m d = Some (Ok d') → reaches n d'.

(** ** What happens to the works *)

Definition held (pc : worker A) : option A := match pc with AtWork work => Some work | _ => None end.
Definition pushed (c : A * caller) : option A := match c.2 with CallPush => None | _ => Some c.1 end.

(** The threads that hold the mutex. *)
Definition worker_locks (pc : worker A) : bool := match pc with AtWait | AtUnlock => true | _ => false end.
Definition caller_locks (pc : caller) : bool := match pc with CallNotify | CallUnlock => true | _ => false end.
Definition holds (t : thread) (d : Database) : Prop :=
  match t with
  | Worker i => worker_locks <$> _databaseThreads d !! i = Some true
  | Caller j => caller_locks ∘ snd <$> db_callers d !! j = Some true
  end.

(** The threads that the destructor has joined are over. *)
Definition joined (d : Database) : Prop :=
  match db_destructor d with
  | Joining n => ∀ i, i < n → _databaseThreads d !! i = Some Ended
  | Destroyed => Forall (λ pc, pc = Ended) (_databaseThreads d)
  | _ => True
  end.

Record served (d : Database) : Prop := {
  sd_works : omap pushed (db_callers d) ≡ₚ
    lf_contents (_queue d) ++ omap held (_databaseThreads d) ++ (db_answers d).*1;
  sd_answers : Forall (λ '(work, value), answer work = Some value) (db_answers d);
  sd_mutex t : holds t d ↔ _work_signal_mutex d = Some t;
  sd_joined : joined d;
}.

Context `{!LockfreeLaws A None}.

(** One element of a list changes. *)
Lemma omap_insert_perm {B} (f : B → option A) l i x y :
  l !! i = Some x → option_list (f x) ++ omap f (<[i := y]> l) ≡ₚ option_list (f y) ++ omap f l.
Proof.
  revert i. induction l as [|z l IH]; intros [|i] Hi; [done..| |].
  - injection Hi as ->. cbn. destruct (f x), (f y); cbn; [apply Permutation_swap|done..].
  - cbn in Hi |- *. specialize (IH i Hi). destruct (f z); [|done]. cbn. rewrite <-!Permutation_middle. by f_equiv.
Qed.

Lemma exchange {B} (h h' l l' q q' a a' : list B) :
  h ++ l' ≡ₚ h' ++ l → q ++ h ++ a ≡ₚ q' ++ h' ++ a' → q ++ l ++ a ≡ₚ q' ++ l' ++ a'.
Proof.
  intros Hl Hq. apply (Permutation_app_inv_l h').
  rewrite (Permutation_app_swap_app q l), (app_assoc h' l), <-Hl, <-!app_assoc, (Permutation_app_swap_app h l').
  rewrite (Permutation_app_swap_app h q), Hq, (Permutation_app_swap_app l' q'), (Permutation_app_swap_app l' h').
  apply Permutation_app_swap_app.
Qed.

Lemma omap_insert_same {B} (f : B → option A) l i x y :
  l !! i = Some x → f x = f y → omap f (<[i := y]> l) ≡ₚ omap f l.
Proof.
  intros Hi Hf. pose proof (omap_insert_perm f l i x y Hi) as Hp. rewrite Hf in Hp. by apply Permutation_app_inv_l in Hp.
Qed.

(** The mutex goes from [m] to [m'] as the thread [t], which held it or not,
    then holds it or not. *)
Definition passes (t : thread) (b b' : bool) (m m' : option thread) : Prop :=
  b' = b ∧ m' = m ∨ b = false ∧ b' = true ∧ m = None ∧ m' = Some t ∨ b = true ∧ b' = false ∧ m' = None.

Lemma passes_holds t b b' m m' (P P' : thread → Prop) :
  (∀ u, P u ↔ m = Some u) → (P t ↔ b = true) → (P' t ↔ b' = true) → (∀ u, u ≠ t → P' u ↔ P u) →
  passes t b b' m m' → ∀ u, P' u ↔ m' = Some u.
Proof.
  intros HP Ht Ht' Hu Hp u. destruct (decide (u = t)) as [->|Hne].
  - rewrite Ht'. rewrite HP in Ht. destruct Hp as [[-> ->]|[(-> & -> & -> & ->)|(-> & -> & ->)]]; naive_solver.
  - rewrite Hu, HP by done. destruct Hp as [[-> ->]|[(-> & -> & -> & ->)|(-> & -> & ->)]]; [done|naive_solver|].
    rewrite (proj1 (HP t) (proj2 Ht eq_refl)). naive_solver.
Qed.

(** A thread of the database takes a step. *)
Lemma worker_served d i pc pc' q m a :
  served d → _databaseThreads d !! i = Some pc → pc ≠ Ended →
  lf_contents (_queue d) ++ option_list (held pc) ++ (db_answers d).*1 ≡ₚ lf_contents q ++ option_list (held pc') ++ a.*1 →
  Forall (λ '(work, value), answer work = Some value) a →
  passes (Worker i) (worker_locks pc) (worker_locks pc') (_work_signal_mutex d) m →
  served (mkDatabase q (_stop d) m (<[i := pc']> (_databaseThreads d)) (db_callers d) (db_destructor d) a).
Proof.
  intros [Hw Ha Hm Hj] Hi Hpc Hperm Ha' Hp. split; cbn; [|done| |].
  - rewrite Hw. by apply (exchange (option_list (held pc)) (option_list (held pc'))); [apply omap_insert_perm|].
  - apply (passes_holds (Worker i) _ _ (_work_signal_mutex d) m (λ t, holds t d)) with (5 := Hp); [done| | |].
    + cbn. rewrite Hi. cbn. split; congruence.
    + cbn. rewrite list_lookup_insert_eq by (by eapply lookup_lt_Some). cbn. split; congruence.
    + intros [k|k] Hk; cbn; [|done]. by rewrite list_lookup_insert_ne by congruence.
  - unfold joined in *. cbn. destruct (db_destructor d); [done|done| |].
    + intros k Hk. rewrite list_lookup_insert_ne; [by apply Hj|]. intros ->. specialize (Hj k Hk). congruence.
    + rewrite Forall_lookup in Hj. specialize (Hj i pc Hi). congruence.
Qed.

(** A caller takes a step. *)
Lemma caller_served d j work pc pc' q m :
  served d → db_callers d !! j = Some (work, pc) →
  lf_contents (_queue d) ++ option_list (pushed (work, pc')) ≡ₚ lf_contents q ++ option_list (pushed (work, pc)) →
  passes (Caller j) (caller_locks pc) (caller_locks pc') (_work_signal_mutex d) m →
  served (mkDatabase q (_stop d) m (_databaseThreads d) (<[j := (work, pc')]> (db_callers d)) (db_destructor d) (db_answers d)).
Proof.
  intros [Hw Ha Hm Hj] Hi Hq Hp. split; cbn; [|done| |done].
  - pose proof (omap_insert_perm pushed _ j _ (work, pc') Hi) as Ho. rewrite Hw in Ho.
    apply (Permutation_app_inv_l (option_list (pushed (work, pc)))). rewrite Ho, !(app_assoc (option_list _) (lf_contents _)).
    by rewrite !(Permutation_app_comm (option_list _) (lf_contents _)), Hq.
  - apply (passes_holds (Caller j) _ _ (_work_signal_mutex d) m (λ t, holds t d)) with (5 := Hp); [done| | |].
    + cbn. rewrite Hi. cbn. split; congruence.
    + cbn. rewrite list_lookup_insert_eq by (by eapply lookup_lt_Some). cbn. split; congruence.
    + intros [k|k] Hk; cbn; [done|]. by rewrite list_lookup_insert_ne by congruence.
Qed.

(** Waking threads up changes nothing that counts. *)
Lemma woken_served d l :
  served d → length l = length (_databaseThreads d) →
  (∀ i pc, l !! i = Some pc → ∃ pc0, _databaseThreads d !! i = Some pc0 ∧ (pc = pc0 ∨ pc0 = Waiting ∧ pc = Woken)) →
  served (set_workers l d).
Proof.
  intros [Hw Ha Hm Hj] Hlen Hl.
  assert (∀ i, held <$> l !! i = held <$> _databaseThreads d !! i ∧ worker_locks <$> l !! i = worker_locks <$> _databaseThreads d !! i ∧
    (_databaseThreads d !! i = Some Ended → l !! i = Some Ended)) as Hsame.
  { intros i. destruct (l !! i) as [pc|] eqn:E.
    - destruct (Hl i pc E) as (pc0 & -> & [->|[-> ->]]); [done|]. split_and!; [done..|congruence].
    - apply lookup_ge_None in E. rewrite (proj2 (lookup_ge_None (_databaseThreads d) i)) by lia. done. }
  split; cbn; [|done| |].
  - rewrite Hw. do 2 f_equiv. assert (held <$> l = held <$> _databaseThreads d) as Heq
      by (apply list_eq; intros i; rewrite !list_lookup_fmap; apply Hsame).
    clear -Heq. revert Heq. generalize (_databaseThreads d). induction l as [|pc l IH]; intros [|pc' l'] Heq; [done..|].
    injection Heq as Hpc Heq. cbn. specialize (IH l' Heq). rewrite Hpc. destruct (held pc'); by rewrite IH.
  - intros [k|k]; rewrite <-Hm; cbn; [|done]. by rewrite (proj1 (proj2 (Hsame k))).
  - unfold joined in *. cbn. destruct (db_destructor d); [done|done| |].
    + intros k Hk. by apply Hsame, Hj.
    + rewrite Forall_lookup in Hj. apply Forall_lookup. intros k pc Hk. destruct (Hl k pc Hk) as (pc0 & Hk0 & Hpc).
      specialize (Hj k pc0 Hk0). destruct Hpc as [->|[-> ?]]; congruence.
Qed.

Lemma notify_served d : served d → served (notify_all d).
Proof.
  intros Hs. apply woken_served; [done|by rewrite length_fmap|]. intros i pc. rewrite list_lookup_fmap.
  intros (pc0 & -> & Hi)%fmap_Some. exists pc0. split; [done|]. destruct pc0; auto.
Qed.

Lemma lock_some t d d' : lock t d = Some d' → _work_signal_mutex d = None ∧ d' = set_mutex (Some t) d.
Proof. unfold lock. case_decide; [|done]. by intros [= <-]. Qed.

Lemma run_served d d' i : served d → run i d = Some (Ok d') → served d'.
Proof.
  intros Hs Hrun. unfold run in Hrun. apply bind_Some in Hrun as (pc & Hi & Hrun).
  assert (∀ pc' q m a, pc ≠ Ended →
    lf_contents (_queue d) ++ option_list (held pc) ++ (db_answers d).*1 ≡ₚ lf_contents q ++ option_list (held pc') ++ a.*1 →
    Forall (λ '(work, value), answer work = Some value) a →
    passes (Worker i) (worker_locks pc) (worker_locks pc') (_work_signal_mutex d) m →
    served (mkDatabase q (_stop d) m (<[i := pc']> (_databaseThreads d)) (db_callers d) (db_destructor d) a)) as Hstep
    by (intros; by eapply worker_served).
  pose proof (sd_answers _ Hs) as Ha. destruct pc as [| | |work| | | | | |]; try done.
  - injection Hrun as <-. apply Hstep; [done| |done|]; [by destruct (_stop d)|left; by destruct (_stop d)].
  - injection Hrun as <-. apply Hstep; [done| |done|]; [by destruct (lf_contents (_queue d))|left; by destruct (lf_contents (_queue d))].
  - pose proof (lf_pop_contents (cap := None) (_queue d)) as Hpop. destruct (lf_contents (_queue d)) as [|x l] eqn:Hq.
    + rewrite Hpop in Hrun. injection Hrun as <-. apply Hstep; [done|by rewrite Hq|done|by left].
    + destruct Hpop as (q & Hpop & Hql). rewrite Hpop in Hrun. injection Hrun as <-.
      apply Hstep; [done| |done|by left]. cbn. by rewrite Hql, Permutation_middle.
  - destruct (answer work) as [value|] eqn:Hw; [|done]. injection Hrun as <-. apply Hstep; [done| | |by left].
    + cbn. rewrite fmap_app. cbn. f_equiv. apply (Permutation_app_comm [work]).
    + apply Forall_app. split; [done|]. by constructor.
  - apply bind_Some in Hrun as (d1 & [Hm ->]%lock_some & [= <-]). apply Hstep; [done..|]. right. by left.
  - injection Hrun as <-. apply Hstep; [done..|]. by right; right.
  - apply bind_Some in Hrun as (d1 & [Hm ->]%lock_some & [= <-]). apply Hstep; [done..|]. right. by left.
  - injection Hrun as <-. apply Hstep; [done..|]. by right; right.
Qed.

Lemma query_served d d' j : served d → query j d = Some (Ok d') → served d'.
Proof.
  intros Hs Hrun. unfold query in Hrun. apply bind_Some in Hrun as ([work pc] & Hj & Hrun).
  assert (∀ pc' q m, lf_contents (_queue d) ++ option_list (pushed (work, pc')) ≡ₚ lf_contents q ++ option_list (pushed (work, pc)) →
    passes (Caller j) (caller_locks pc) (caller_locks pc') (_work_signal_mutex d) m →
    served (mkDatabase q (_stop d) m (_databaseThreads d) (<[j := (work, pc')]> (db_callers d)) (db_destructor d) (db_answers d)))
    as Hstep by (intros; by eapply caller_served).
  destruct pc; try done.
  - pose proof (lf_push_free (cap := None) work (_queue d) I) as Hpush.
    destruct (lf_push work (_queue d)) as [result q]. destruct (ndebug || result); [|done]. injection Hrun as <-.
    apply Hstep; [|by left]. cbn in Hpush |- *. by rewrite Hpush, app_nil_r.
  - apply bind_Some in Hrun as (d1 & [Hm ->]%lock_some & [= <-]). apply Hstep; [done|]. right. by left.
  - injection Hrun as <-. apply (caller_served (notify_all d) j work CallNotify CallUnlock); [by apply notify_served|done|done|by left].
  - injection Hrun as <-. apply Hstep; [done|]. by right; right.
Qed.

Lemma destroy_served d d' : served d → destroy d = Some (Ok d') → served d'.
Proof.
  intros [Hw Ha Hm Hj] Hrun. unfold destroy in Hrun. unfold joined in Hj.
  destruct (db_destructor d) as [| |i|] eqn:Hd; [injection Hrun as <-..| |done].
  - by split.
  - split; [done..|]. unfold joined. cbn. lia.
  - destruct (_databaseThreads d !! i) as [pc|] eqn:Hi.
    + destruct pc; try done. injection Hrun as <-. split; [done..|]. unfold joined. cbn. intros k Hk.
      destruct (decide (k = i)) as [->|]; [done|]. apply Hj. lia.
    + injection Hrun as <-. split; [done..|]. unfold joined. cbn. apply Forall_lookup. intros k pc Hk.
      apply lookup_ge_None in Hi. pose proof (lookup_lt_Some _ _ _ Hk). rewrite (Hj k) in Hk by lia. by injection Hk.
Qed.

Lemma move_served d d' m : served d → do_move m d = Some (Ok d') → served d'.
Proof.
  intros Hs. destruct m as [i|work|j| | |i]; cbn.
  - by apply run_served.
  - intros [= <-]. destruct Hs as [Hw Ha Hm Hj]. split; [|done| |done].
    + cbn. rewrite omap_app. cbn. by rewrite app_nil_r.
    + intros [i|j]; rewrite <-Hm; cbn; [done|]. destruct (decide (j < length (db_callers d))) as [Hl|Hl].
      * by rewrite lookup_app_l.
      * rewrite lookup_app_r by lia. rewrite (proj2 (lookup_ge_None (db_callers d) j)) by lia.
        destruct (j - length (db_callers d)) as [|[]]; done.
  - by apply query_served.
  - intros [= <-]. by destruct Hs.
  - by apply destroy_served.
  - intros Hrun. destruct (_databaseThreads d !! i) as [pc|] eqn:Hi; [|done]. destruct pc; try done. injection Hrun as <-.
    destruct d. eapply (worker_served _ i Waiting Woken); [done|done|done|done|apply Hs|by left].
Qed.

Lemma new_served n : served (Database_new n).
Proof.
  split; cbn; [|done| |done].
  - rewrite (lf_empty_contents (cap := None)). induction n as [|n IH]; [done|]. by cbn.
  - intros [i|j]; cbn; [|done]. split; [|done]. intros (pc & Hi & Hpc)%fmap_Some. apply lookup_replicate in Hi as [-> _]. done.
Qed.

Lemma reaches_served n d : reaches n d → served d.
Proof. induction 1; [apply new_served|by eapply move_served]. Qed.

(** C17. Every query is answered at most once. However the threads are
    interleaved, the works that were pushed are those that wait in the queue,
    those that a thread runs and those whose promise has its value, which is the
    answer to the query; nothing is lost or served twice. At most one thread
    holds the mutex. Where the database is destroyed its threads are over. *)
Theorem queries_answered_once (n : nat) (d : Database) (Hd : reaches n d) :
  omap pushed (db_callers d) ≡ₚ
    lf_contents (_queue d) ++ omap held (_databaseThreads d) ++ (db_answers d).*1 ∧
  Forall (λ '(work, value), answer work = Some value) (db_answers d) ∧
  (∀ t u, holds t d → holds u d → t = u) ∧
  (db_destructor d = Destroyed → Forall (λ pc, pc = Ended) (_databaseThreads d)).
Proof.
  pose proof (reaches_served n d Hd) as [Hw Ha Hm Hj]. split_and!; [done|done| |].
  - intros t u Ht%Hm Hu%Hm. congruence.
  - intros Hdes. unfold joined in Hj. by rewrite Hdes in Hj.
Qed.

(** ** Signals that nobody hears *)

(** All callers have returned, and the thread [i] waits. *)
Record asleep (i : nat) (d : Database) : Prop := {
  as_callers : Forall (λ c, c.2 = Returned) (db_callers d);
  as_waiting : _databaseThreads d !! i = Some Waiting;
  as_joined : joined d;
}.

(** Moves that are certain to come, and are no new queries. *)
Definition certain (m : move A) : Prop := match m with Call _ | Spurious _ => False | _ => True end.

Definition all_waiting (d : Database) : Prop := Forall (λ pc, pc = Waiting) (_databaseThreads d).

Lemma query_returned d j : Forall (λ c, c.2 = Returned) (db_callers d) → query j d = None.
Proof.
  intros Hc. unfold query. destruct (db_callers d !! j) as [[work pc]|] eqn:Hj; [|done].
  rewrite Forall_lookup in Hc. specialize (Hc j _ Hj). cbn in Hc. by subst pc.
Qed.

(** The steps of a thread change no other thread, and wake nobody. *)
Lemma run_shape k d d' : run k d = Some (Ok d') →
  db_callers d' = db_callers d ∧ db_destructor d' = db_destructor d ∧
  ∃ pc pc', _databaseThreads d !! k = Some pc ∧ pc ≠ Waiting ∧ pc ≠ Ended ∧
    _databaseThreads d' = <[k := pc']> (_databaseThreads d).
Proof.
  unfold run. intros (pc & Hk & Hrun)%bind_Some.
  destruct pc; [..|done]; try done;
    try (apply bind_Some in Hrun as (? & [_ ->]%lock_some & Hrun)); repeat case_match; try done;
    injection Hrun as <-; (split_and!; [done..|]); eexists _, _; split_and!; [exact Hk|done..|reflexivity].
Qed.

Lemma certain_asleep i m d d' :
  certain m → served d → asleep i d → do_move m d = Some (Ok d') →
  asleep i d' ∧ (all_waiting d → all_waiting d' ∧ _queue d' = _queue d ∧ db_answers d' = db_answers d).
Proof.
  intros Hm Hs Ha Hrun. pose proof (move_served d d' m Hs Hrun) as [_ _ _ Hj']. destruct Ha as [Hc Hi Hj].
  destruct m as [k|work|j| | |k]; cbn in Hm, Hrun; try done.
  - destruct (run_shape k d d' Hrun) as (Hc' & _ & pc & pc' & Hk & Hpc & _ & Hl). split.
    + split; [by rewrite Hc'| |done]. rewrite Hl, list_lookup_insert_ne; [done|]. intros ->. congruence.
    + intros Hall. exfalso. unfold all_waiting in Hall. rewrite Forall_lookup in Hall. by specialize (Hall k pc Hk).
  - by rewrite query_returned in Hrun.
  - injection Hrun as <-. by split.
  - assert (_databaseThreads d' = _databaseThreads d ∧ db_callers d' = db_callers d ∧ _queue d' = _queue d ∧
      db_answers d' = db_answers d) as (Hl & Hc' & Hq & Ha).
    { unfold destroy in Hrun. repeat case_match; try done; by injection Hrun as <-. }
    unfold all_waiting. rewrite Hl, Hq, Ha. split; [|done]. split; [by rewrite Hc'|by rewrite Hl|done].
Qed.

(** C18. A thread that waits when the last signal has been given waits for ever:
    nothing wakes it up, neither [stop] nor the destructor, which joins it and
    never ends. And where all threads wait, the queries that are still in the
    queue are never answered. Only another query, or a wake-up without a signal,
    could help. *)
Theorem waiting_for_ever (n i : nat) (d d' : Database) (ms : list (move A))
    (Hd : reaches n d) (Hcallers : Forall (λ c, c.2 = Returned) (db_callers d))
    (Hi : _databaseThreads d !! i = Some Waiting)
    (Hms : Forall certain ms) (Hrun : moves ms d = Some (Ok d')) :
  _databaseThreads d' !! i = Some Waiting ∧ db_destructor d' ≠ Destroyed ∧
  (all_waiting d → _queue d' = _queue d ∧ db_answers d' = db_answers d).
Proof.
  pose proof (reaches_served n d Hd) as Hs. assert (asleep i d) as Ha by by (split; [| |apply Hs]).
  cut (asleep i d' ∧ (all_waiting d → _queue d' = _queue d ∧ db_answers d' = db_answers d)).
  { intros [[_ Hi' Hj'] Hq]. split_and!; [done| |done]. intros Hdes. unfold joined in Hj'. rewrite Hdes, Forall_lookup in Hj'.
    by specialize (Hj' i _ Hi'). }
  clear Hd Hcallers Hi. revert d Hs Ha Hrun. induction Hms as [|m ms Hm _ IH]; intros d Hs Ha Hrun.
  { cbn in Hrun. injection Hrun as <-. by split. }
  cbn in Hrun. apply bind_Some in Hrun as ([d1|f] & Hm1 & Hrun); [|done].
  destruct (certain_asleep i m d d1 Hm Hs Ha Hm1) as [Ha1 Hq1].
  destruct (IH d1 (move_served _ _ _ Hs Hm1) Ha1 Hrun) as [Ha' Hq']. split; [done|].
  intros Hall. destruct (Hq1 Hall) as (Hall1 & <- & <-). by apply Hq'.
Qed.

(** ** A thread that is awake *)

Lemma moves_app ms1 ms2 d d1 : moves ms1 d = Some (Ok d1) → moves (ms1 ++ ms2) d = moves ms2 d1.
Proof.
  revert d. induction ms1 as [|m ms1 IH]; intros d; cbn; [by intros [= ->]|].
  intros ([d2|f] & -> & Hr)%bind_Some; [|done]. cbn. by apply IH.
Qed.

Lemma moves_run i ms d d1 : run i d = Some (Ok d1) → moves (Run i :: ms) d = moves ms d1.
Proof. intros Hr. cbn [moves do_move]. by rewrite Hr. Qed.

Section steps.
Context (i : nat) (d : Database).

Lemma run_idle : _databaseThreads d !! i = Some AtEmpty → lf_contents (_queue d) = [] → _work_signal_mutex d = None →
  ∀ ms, moves (Run i :: Run i :: Run i :: ms) d = moves ms (at_ i Waiting d).
Proof.
  intros Hi Hq Hm ms. pose proof (lookup_lt_Some _ _ _ Hi) as Hlt.
  rewrite (moves_run _ _ _ (at_ i AtLock d)) by by (unfold run; rewrite Hi; cbn; rewrite Hq).
  rewrite (moves_run _ _ _ (at_ i AtWait (set_mutex (Some (Worker i)) (at_ i AtLock d)))).
  { rewrite (moves_run _ _ _ (at_ i Waiting (set_mutex None (at_ i AtWait (set_mutex (Some (Worker i)) (at_ i AtLock d)))))).
    - unfold at_, set_workers, set_mutex. cbn. rewrite !list_insert_insert_eq. by destruct d; cbn in *; subst.
    - unfold run. cbn. rewrite list_lookup_insert_eq by by rewrite length_insert. done. }
  unfold run. cbn. rewrite list_lookup_insert_eq by done. cbn. unfold lock. cbn. by rewrite decide_True.
Qed.

Lemma run_work work value works : _databaseThreads d !! i = Some AtEmpty → lf_contents (_queue d) = work :: works →
  answer work = Some value →
  ∃ q, lf_contents q = works ∧ ∀ ms, moves (Run i :: Run i :: Run i :: ms) d = moves ms (add_answer work value (set_queue q d)).
Proof.
  intros Hi Hq Hw. pose proof (lookup_lt_Some _ _ _ Hi) as Hlt.
  destruct (lf_pop_cons (cap := None) (_queue d) work works Hq) as (q & Hpop & Hql). exists q. split; [done|]. intros ms.
  rewrite (moves_run _ _ _ (at_ i AtPop d)) by by (unfold run; rewrite Hi; cbn; rewrite Hq).
  rewrite (moves_run _ _ _ (at_ i (AtWork work) (set_queue q (at_ i AtPop d)))).
  { rewrite (moves_run _ _ _ (at_ i AtEmpty (add_answer work value (at_ i (AtWork work) (set_queue q (at_ i AtPop d)))))).
    - unfold at_, set_workers, set_queue, add_answer. cbn. rewrite !list_insert_insert_eq, list_insert_id; done.
    - unfold run. cbn. rewrite list_lookup_insert_eq by by rewrite length_insert. cbn. by rewrite Hw. }
  unfold run. cbn. rewrite list_lookup_insert_eq by done. cbn. by rewrite Hpop.
Qed.
End steps.

(** C19. A thread that is awake serves the queue: alone, in three steps for each
    work it runs all of them in the order they were pushed, gives each promise
    its value, and then waits; if no callable throws. *)
Theorem worker_drains (i : nat) (d : Database) (values : list R)
    (Hi : _databaseThreads d !! i = Some AtEmpty) (Hm : _work_signal_mutex d = None)
    (Hvalues : Forall2 (λ work value, answer work = Some value) (lf_contents (_queue d)) values) :
  ∃ d', moves (replicate (3 * length values + 3) (Run i)) d = Some (Ok d') ∧
    lf_contents (_queue d') = [] ∧ db_answers d' = db_answers d ++ zip (lf_contents (_queue d)) values ∧
    _databaseThreads d' = <[i := Waiting]> (_databaseThreads d) ∧ _work_signal_mutex d' = None.
Proof.
  remember (lf_contents (_queue d)) as works eqn:Hq. symmetry in Hq. revert d Hi Hm Hq.
  induction Hvalues as [|work value works values Hw _ IH]; intros d Hi Hm Hq.
  - exists (at_ i Waiting d). rewrite app_nil_r. split; [by apply (run_idle i d Hi Hq Hm [])|done].
  - destruct (run_work i d work value works Hi Hq Hw) as (q & Hql & Hmoves).
    destruct (IH (add_answer work value (set_queue q d))) as (d' & Hrun & Hq' & Ha & Hl & Hm'); [done..|]. exists d'.
    replace (3 * length (value :: values) + 3) with (S (S (S (3 * length values + 3)))) by (cbn; lia).
    split; [by rewrite !replicate_S, Hmoves|]. split_and!; [done| |done|done]. rewrite Ha. cbn. by rewrite <-app_assoc.
Qed.
End database.
Arguments Database _ _ {_}.

(** ** One thread, one query *)

Section example.
#[local] Instance db_queue : Lockfree nat := list_queue nat None.
#[local] Instance db_queue_laws : LockfreeLaws nat None := list_queue_laws nat None.

Definition double (work : nat) : option nat := Some (2 * work).
Definition after (ms : list (move nat)) : Database nat nat :=
  match moves double false ms (Database_new 1) with Some (Ok d) => d | _ => Database_new 1 end.

Lemma after_reaches ms : reaches double false 1 (after ms).
Proof.
  unfold after. assert (∀ d, reaches double false 1 d → match moves double false ms d with
    | Some (Ok d') => reaches double false 1 d' | _ => True end) as Hr.
  { induction ms as [|m ms IH]; intros d Hd; [done|]. cbn [moves]. destruct (do_move double false m d) as [[d1|f]|] eqn:Hm; [|done..].
    cbn. apply IH. by eapply rs_move. }
  specialize (Hr _ (rs_new double false 1)). destruct (moves _ _ _ _) as [[d|f]|]; [done|constructor..].
Qed.

(** The thread finds the queue empty; then the query comes, with its signal;
    then the thread waits. *)
Definition missed : list (move nat) :=
  [Run 0; Run 0; Call 21; Go 0; Go 0; Go 0; Go 0; Run 0; Run 0].

Definition ending : list (move nat) := [Stop; Destroy; Destroy].

Lemma missed_queue : lf_contents (_queue (after missed)) = [21].
Proof. by vm_compute. Qed.
Lemma missed_callers : Forall (λ c, c.2 = Returned) (db_callers (after missed)).
Proof. vm_compute. by repeat constructor. Qed.
Lemma missed_threads : _databaseThreads (after missed) = [Waiting].
Proof. by vm_compute. Qed.
Lemma missed_answers : db_answers (after missed) = [].
Proof. by vm_compute. Qed.
Lemma missed_ending : moves double false ending (after missed) = Some (Ok (after (missed ++ ending))).
Proof. by vm_compute. Qed.

Lemma queries_answered_once_witness :
  reaches double false 1 (after missed) ∧ omap pushed (db_callers (after missed)) ≡ₚ [21].
Proof.
  split; [apply after_reaches|].
  destruct (queries_answered_once double false 1 (after missed) (after_reaches missed)) as [Hw _].
  by rewrite Hw, missed_queue, missed_threads, missed_answers.
Defined.

Lemma waiting_for_ever_witness :
  reaches double false 1 (after missed) ∧
  moves double false ending (after missed) = Some (Ok (after (missed ++ ending))) ∧
  _databaseThreads (after (missed ++ ending)) !! 0 = Some Waiting ∧ db_answers (after (missed ++ ending)) = [].
Proof.
  split; [apply after_reaches|]. split; [exact missed_ending|].
  assert (_databaseThreads (after missed) !! 0 = Some Waiting) as Hi by by rewrite missed_threads.
  assert (Forall certain ending) as Hms by repeat constructor.
  destruct (waiting_for_ever double false 1 0 (after missed) _ ending (after_reaches missed) missed_callers Hi Hms missed_ending)
    as (Hi' & _ & Hq).
  split; [exact Hi'|]. destruct Hq as [_ ->]; [unfold all_waiting; rewrite missed_threads; by constructor|exact missed_answers].
Defined.

(** Two queries that come while the thread runs. *)
Definition in_time : list (move nat) := [Call 21; Call 4; Go 0; Go 1; Run 0].

Lemma worker_drains_witness :
  ∃ d', moves double false (replicate 9 (Run 0)) (after in_time) = Some (Ok d') ∧ db_answers d' = [(21, 42); (4, 8)].
Proof.
  assert (_databaseThreads (after in_time) !! 0 = Some AtEmpty) as Hi by by vm_compute.
  assert (_work_signal_mutex (after in_time) = None) as Hm by by vm_compute.
  assert (lf_contents (_queue (after in_time)) = [21; 4]) as Hq by by vm_compute.
  assert (db_answers (after in_time) = []) as Ha0 by by vm_compute.
  assert (Forall2 (λ work value, double work = Some value) (lf_contents (_queue (after in_time))) [42; 8]) as Hv
    by (rewrite Hq; by repeat constructor).
  destruct (worker_drains double false 0 (after in_time) [42; 8] Hi Hm Hv) as (d' & Hrun & _ & Ha & _).
  exists d'. split; [exact Hrun|]. by rewrite Ha, Hq, Ha0.
Defined.
End example.
