(* ===== verification/Executor.v ===== *)
(** * The executor ([src/executor/])

    [Executor<MaxQueued>]: a bounded queue of works, run in order by
    [executeJobs], and a priority queue of timestamped tasks. The handlers of
    the works and the tasks are the application's: they are parameters, which
    return what they schedule on the executor, how they end and what they do
    to the rest of the program, [W]. Works and [Schedulable]s are pointers;
    [delete] is modelled, and so is the use of a deleted object. *)

From Stdlib Require Import ZArith Lia.
From stdpp Require Import base list gmap option sorting.
From S2P Require Import Prelude Lockfree.

Section executor.
Context {job task W : Type} `{EqDecision job} `{Hlf : Lockfree job}.

(** What a handler or a task schedules on the executor. *)
Inductive request :=
  | ScheduleJob (j : job)
  | ScheduleTask (t : task) (when : Z).

(** [bool AbstractWork::ready()], false only for a [FutureWork] whose future
    is not there yet; the handler of a work, with the work it returns; the
    tasks; [Server::onWorkError] and the destructor of a work, which may fail;
    and [Server::now]. *)
Context (ready : job → W → bool).
Context (handler : job → W → list request * outcome (option job) * W).
Context (run_task : task → W → list request * W).
Context (onWorkError destroy : job → ST W unit).
Context (now : W → Z).

Record Schedulable := mkSchedulable { s_task : task; s_when : Z }.

Record Executor := mkExecutor {
  _jobs : lf_queue job;
  _scheduledTasks : list positive;
  e_heap : gmap positive Schedulable;     (* the live [Schedulable]s *)
  e_next : positive;                      (* the next address *)
  e_freed : list job;                     (* the works deleted *)
  e_world : W;
}.

Definition set_jobs q (s : Executor) :=
  mkExecutor q (_scheduledTasks s) (e_heap s) (e_next s) (e_freed s) (e_world s).
Definition set_tasks l (s : Executor) :=
  mkExecutor (_jobs s) l (e_heap s) (e_next s) (e_freed s) (e_world s).
Definition set_heap h (s : Executor) :=
  mkExecutor (_jobs s) (_scheduledTasks s) h (e_next s) (e_freed s) (e_world s).
Definition set_world w (s : Executor) :=
  mkExecutor (_jobs s) (_scheduledTasks s) (e_heap s) (e_next s) (e_freed s) w.
Definition set_freed l (s : Executor) :=
  mkExecutor (_jobs s) (_scheduledTasks s) (e_heap s) (e_next s) l (e_world s).

(** A step of the rest of the program. *)
Definition outside {A} (m : ST W A) : ST Executor A := λ s,
  let '(r, w) := m (e_world s) in (r, set_world w s).

(** [delete job] *)
Definition free_job (j : job) : ST Executor unit :=
  _ ← outside (destroy j); modify (λ s, set_freed (j :: e_freed s) s).

Definition Executor_new (w : W) : Executor := mkExecutor lf_empty [] ∅ 1 [] w.

(** [schedule(AbstractWork* job)]: the result of [push] is ignored. *)
Definition schedule_job (j : job) : ST Executor unit :=
  modify (λ s, set_jobs (lf_push j (_jobs s)).2 s).

(** [schedule(SchedulableTask&& task, TimePoint when)] *)
Definition schedule_task (t : task) (when : Z) : ST Executor unit :=
  modify (λ s, mkExecutor (_jobs s) (_scheduledTasks s ++ [e_next s])
                 (<[e_next s := mkSchedulable t when]> (e_heap s)) (Pos.succ (e_next s))
                 (e_freed s) (e_world s)).

Definition run_request (r : request) : ST Executor unit :=
  match r with
  | ScheduleJob j => schedule_job j
  | ScheduleTask t when => schedule_task t when
  end.

(** [AbstractWork::call]: a [ReadOutOfBounds] of the handler is caught. *)
Definition call (j : job) : ST Executor (bool * option job) :=
  s ← get;
  let '(reqs, res, w) := handler j (e_world s) in
  _ ← modify (set_world w);
  _ ← for_each run_request reqs;
  match res with
  | Ok next => mret (true, next)
  | Fail (Throw ReadOutOfBounds) =>
      _ ← outside (onWorkError j);
      mret (false, None)
  | Fail e => fail e
  end.

(** The loop over the works: whether all succeeded, and what to reschedule. *)
Fixpoint job_loop (fuel : nat) (reschedule : list job) : ST Executor (bool * list job) :=
  match fuel with
  | O => fail NoFuel
  | S fuel =>
      s ← get;
      match lf_pop (_jobs s) with
      | None => mret (true, reschedule)
      | Some (j, q) =>
          _ ← put (set_jobs q s);
          if bool_decide (j ∈ e_freed s) then fail (UB Dangling)
          else if ready j (e_world s) then
            '(success, next) ← call j;
            _ ← free_job j;
            if success : bool then job_loop fuel (reschedule ++ option_list next)
            else mret (false, reschedule)
          else job_loop fuel (reschedule ++ [j])
      end
  end.

(** [st->when] *)
Definition when_of (p : positive) : ST Executor Z :=
  s ← get;
  match e_heap s !! p with
  | Some st => mret (s_when st)
  | None => fail (UB Dangling)
  end.

(** [SchedulableComparator]: [a] goes below [b]. *)
Definition before (a b : Z) : bool := (a <? b)%Z.

(** The element that no other is above: the first of the greatest ones. *)
Fixpoint greatest (l : list (positive * Z)) : option (positive * Z) :=
  match l with
  | [] => None
  | x :: l =>
      match greatest l with
      | Some y => Some (if before x.2 y.2 then y else x)
      | None => Some x
      end
  end.

(** [_scheduledTasks.top()] with its [when]; the order compares the [when]s
    of the elements, so none may be dangling. *)
Definition top : ST Executor (option (positive * Z)) :=
  s ← get;
  whens ← map_each (λ p, w ← when_of p; mret (p, w)) (_scheduledTasks s);
  mret (greatest whens).

(** [_scheduledTasks.pop()] *)
Definition pop_task : ST Executor unit :=
  t ← top;
  match t with
  | Some (p, _) => modify (λ s, set_tasks (filter (λ p', p' ≠ p) (_scheduledTasks s)) s)
  | None => mret tt
  end.

Fixpoint task_loop (fuel : nat) : ST Executor unit :=
  match fuel with
  | O => fail NoFuel
  | S fuel =>
      t ← top;
      s ← get;
      match t with
      | None => mret tt
      | Some (p, when) =>
          if (when <? now (e_world s))%Z then
            match e_heap s !! p with
            | None => fail (UB Dangling)
            | Some st =>
                let '(reqs, w) := run_task (s_task st) (e_world s) in
                _ ← modify (set_world w);
                _ ← for_each run_request reqs;
                _ ← pop_task;
                _ ← modify (λ s, set_heap (delete p (e_heap s)) s);
                task_loop fuel
            end
          else mret tt
      end
  end.

(** The works, and whether to go on: an error ends [executeJobs]. *)
Definition run_jobs (fuel : nat) : ST Executor bool :=
  '(success, reschedule) ← job_loop fuel [];
  if success : bool then _ ← for_each schedule_job reschedule; mret true else mret false.

Definition executeJobs (fuel : nat) : ST Executor unit :=
  success ← run_jobs fuel;
  if success : bool then task_loop fuel else mret tt.

(** The destructor deletes the works and the tasks that are left. *)
Fixpoint delete_jobs (fuel : nat) : ST Executor unit :=
  match fuel with
  | O => fail NoFuel
  | S fuel =>
      s ← get;
      match lf_pop (_jobs s) with
      | None => mret tt
      | Some (j, q) =>
          _ ← put (set_jobs q s);
          if bool_decide (j ∈ e_freed s) then fail (UB Dangling)
          else _ ← free_job j; delete_jobs fuel
      end
  end.

Fixpoint delete_tasks (fuel : nat) : ST Executor unit :=
  match fuel with
  | O => fail NoFuel
  | S fuel =>
      t ← top;
      match t with
      | None => mret tt
      | Some (p, _) =>
          _ ← pop_task;
          _ ← modify (λ s, set_heap (delete p (e_heap s)) s);
          delete_tasks fuel
      end
  end.

Definition Executor_dtor (fuel : nat) : ST Executor unit :=
  _ ← delete_jobs fuel; delete_tasks fuel.

(** ** The works are served in order *)

(** One work, as the loop treats it: what it leaves for the next round. *)
Definition serve (j : job) (w : W) : list job * W :=
  if ready j w then
    match handler j w with
    | (_, Ok next, w') => (option_list next, (destroy j w').2)
    | (_, Fail _, w') => ([], w')
    end
  else ([j], w).

Fixpoint serve_all (js : list job) (w : W) : list job * W :=
  match js with
  | [] => ([], w)
  | j :: js => let '(l, w1) := serve j w in let '(l', w2) := serve_all js w1 in (l ++ l', w2)
  end.

(** The works among [js] that are deleted. *)
Definition gone (j : job) (w : W) : list job := if ready j w then [j] else [].

Fixpoint gone_all (js : list job) (w : W) : list job :=
  match js with
  | [] => []
  | j :: js => gone j w ++ gone_all js (serve j w).2
  end.

Definition is_task (r : request) : bool :=
  match r with ScheduleTask _ _ => true | ScheduleJob _ => false end.

(** The handlers of [js] succeed, and put no work in the queue meanwhile; the
    works can be deleted. *)
Fixpoint serves (js : list job) (w : W) : Prop :=
  match js with
  | [] => True
  | j :: js =>
      (ready j w = true → ∃ reqs next w', handler j w = (reqs, Ok next, w') ∧ Forall is_task reqs ∧
        (destroy j w').1 = Ok tt) ∧
      serves js (serve j w).2
  end.

Lemma run_tasks_requests reqs s :
  Forall is_task reqs →
  ∃ s', for_each run_request reqs s = (Ok tt, s') ∧ _jobs s' = _jobs s ∧
        e_freed s' = e_freed s ∧ e_world s' = e_world s.
Proof.
  intros Hr. revert s. induction Hr as [|r reqs Hr _ IH]; intros s; [by eexists|].
  destruct r as [|t when]; [done|]. cbn [for_each]. unfold mbind, ST_bind. cbn [run_request].
  unfold schedule_task, modify. cbn beta iota. set (s1 := mkExecutor _ _ _ _ _ _).
  destruct (IH s1) as (s' & Hrun & Hj & Hf & Hw). exists s'. by rewrite Hrun, Hj, Hf, Hw.
Qed.

Lemma gone_elem j j' w : j' ∈ gone j w → j' = j.
Proof. unfold gone. destruct (ready j w); [by intros ?%list_elem_of_singleton|by intros ?%elem_of_nil]. Qed.

Lemma gone_all_elem js j w : j ∈ gone_all js w → j ∈ js.
Proof.
  revert w. induction js as [|j' js IH]; intros w; [done|]. cbn. intros [->%gone_elem|Hin]%elem_of_app; [by left|].
  right. by eapply IH.
Qed.

Context {cap : nat} `{!LockfreeLaws job (Some cap)}.

(** One turn of the loop, for a work that does not fail. *)
Lemma job_loop_serve j js s :
  lf_contents (_jobs s) = j :: js → j ∉ e_freed s → serves [j] (e_world s) →
  ∃ s', (∀ fuel resched, job_loop (S fuel) resched s
                         = job_loop fuel (resched ++ (serve j (e_world s)).1) s') ∧
    lf_contents (_jobs s') = js ∧ e_world s' = (serve j (e_world s)).2 ∧
    e_freed s' ⊆ gone j (e_world s) ++ e_freed s.
Proof.
  intros Hc Hf [Hs _]. destruct (lf_pop_cons _ _ _ Hc) as (q & Hq & Hq').
  cbn [job_loop]. unfold mbind at 1, ST_bind at 1, get at 1. rewrite Hq. cbn beta iota.
  unfold mbind at 1, ST_bind at 1, put at 1. rewrite bool_decide_false by done.
  unfold serve, gone. destruct (ready j (e_world s)) eqn:Er.
  - destruct (Hs eq_refl) as (reqs & next & w' & Hh & Hr & Hd).
    unfold call, mbind, ST_bind, get, modify. cbn [set_jobs e_world]. rewrite Hh. cbn beta iota.
    set (s1 := set_world w' _).
    destruct (run_tasks_requests reqs s1 Hr) as (s2 & -> & Hj & Hfr & Hw).
    unfold mret, ST_ret. cbn beta iota.
    unfold free_job, outside, mbind, ST_bind. rewrite Hw. cbn [e_world set_world s1].
    destruct (destroy j w') as [r w2]. cbn in Hd. subst r.
    eexists. split; [done|]. cbn. rewrite Hj, Hfr. done.
  - exists (set_jobs q s). split; [done|]. cbn. split_and!; [done|done|]. set_solver.
Qed.

Lemma job_loop_prefix js1 js2 s :
  lf_contents (_jobs s) = js1 ++ js2 → NoDup js1 → Forall (λ j, j ∉ e_freed s) js1 →
  serves js1 (e_world s) →
  ∃ s', (∀ fuel resched, job_loop (length js1 + fuel) resched s
                         = job_loop fuel (resched ++ (serve_all js1 (e_world s)).1) s') ∧
    lf_contents (_jobs s') = js2 ∧ e_world s' = (serve_all js1 (e_world s)).2 ∧
    e_freed s' ⊆ gone_all js1 (e_world s) ++ e_freed s.
Proof.
  revert s. induction js1 as [|j js1 IH]; intros s Hc Hnd Hf Hs.
  { exists s. split; [|done]. intros. cbn. by rewrite app_nil_r. }
  apply NoDup_cons in Hnd as [Hj Hnd]. apply Forall_cons_1 in Hf as [Hfj Hf].
  destruct Hs as [Hs1 Hs].
  destruct (job_loop_serve j (js1 ++ js2) s) as (s1 & Hrun1 & Hc1 & Hw1 & Hf1); [done|done|by split|].
  destruct (IH s1) as (s' & Hrun & Hc' & Hw' & Hf'); [done|done| |by rewrite Hw1|].
  { rewrite Forall_forall in Hf |- *. intros j' Hj' Hin. apply Hf1 in Hin.
    apply elem_of_app in Hin as [->%gone_elem|Hin]; [done|]. by eapply Hf. }
  exists s'. cbn [serve_all gone_all]. rewrite Hw1 in *.
  destruct (serve j (e_world s)) as [l w1]. cbn [fst snd] in *.
  destruct (serve_all js1 w1) as [l' w2]. cbn [fst snd] in *.
  split_and!; [|done|done|set_solver].
  intros fuel resched. cbn [length Nat.add]. by rewrite Hrun1, Hrun, app_assoc.
Qed.

Lemma serve_all_length js w : length (serve_all js w).1 ≤ length js.
Proof.
  revert w. induction js as [|j js IH]; intros w; [done|]. cbn [serve_all].
  assert (length (serve j w).1 ≤ 1) as Hj.
  { unfold serve. destruct (ready j w); [|done].
    destruct (handler j w) as [[? [[?|]|?]] ?]; cbn; lia. }
  destruct (serve j w) as [l w1]. specialize (IH w1). destruct (serve_all js w1) as [l' w2].
  cbn in *. rewrite length_app. lia.
Qed.

Lemma reschedule_all l s :
  for_each schedule_job l s = (Ok tt, set_jobs (push_all l (_jobs s)) s).
Proof.
  revert s. induction l as [|j l IH]; intros s; [by destruct s|].
  cbn [for_each]. unfold mbind, ST_bind, schedule_job, modify at 1. cbn beta iota.
  by rewrite IH.
Qed.

(** One round of [executeJobs] serves every work of the queue exactly
    once, in the order they were scheduled: a work that is ready is run and
    replaced by the one its handler returns, if any, a work that is not is
    kept; what is kept is in the queue again, in order, and none is lost to
    the capacity of the queue. The round ends. *)
Lemma run_jobs_fifo (js : list job) (s : Executor)
    (Hq : lf_contents (_jobs s) = js) (Hcap : length js ≤ cap)
    (Hnd : NoDup js) (Hlive : Forall (λ j, j ∉ e_freed s) js)
    (Hs : serves js (e_world s)) :
  ∃ s', (∀ fuel, length js < fuel → run_jobs fuel s = (Ok true, s')) ∧
    lf_contents (_jobs s') = (serve_all js (e_world s)).1 ∧
    e_world s' = (serve_all js (e_world s)).2 ∧ e_freed s' ⊆ gone_all js (e_world s) ++ e_freed s.
Proof.
  destruct (job_loop_prefix js [] s) as (s1 & Hrun & Hc & Hw & Hf); [by rewrite app_nil_r|done..|].
  set (l := (serve_all js (e_world s)).1) in *.
  exists (set_jobs (push_all l (_jobs s1)) s1). split_and!; [|cbn|done|exact Hf].
  - intros fuel Hfuel. unfold run_jobs, mbind, ST_bind.
    replace fuel with (length js + S (fuel - length js - 1)) by lia. rewrite Hrun.
    cbn [job_loop app]. unfold mbind, ST_bind, get, mret, ST_ret.
    rewrite (lf_pop_empty _ Hc). by rewrite reschedule_all.
  - rewrite push_all_contents, Hc; [done|]. rewrite Hc. cbn.
    pose proof (serve_all_length js (e_world s)). unfold l. lia.
Qed.

(** The handler of [j] throws [ReadOutOfBounds]. *)
Definition throws (j : job) (w : W) : Prop :=
  ready j w = true ∧ ∃ reqs, (handler j w).1 = (reqs, Fail (Throw ReadOutOfBounds)) ∧ Forall is_task reqs.

(** What happens to the program then: the server is told, the work deleted. *)
Definition errored (j : job) (w : W) : outcome unit * W := (_ ← onWorkError j; destroy j) (handler j w).2.

(** A handler that reads past the end of its packet ends the round: its
    client is told ([onWorkError]), the work is deleted, the works behind it
    stay in the queue, no task runs, and what the round wanted to reschedule
    is lost (neither queued nor deleted). *)
Lemma executeJobs_error (js1 js2 : list job) (j : job) (s : Executor)
    (Hq : lf_contents (_jobs s) = js1 ++ j :: js2)
    (Hnd : NoDup (js1 ++ [j])) (Hlive : Forall (λ j, j ∉ e_freed s) (js1 ++ [j]))
    (Hs : serves js1 (e_world s)) (Herr : throws j (serve_all js1 (e_world s)).2)
    (Hok : (errored j (serve_all js1 (e_world s)).2).1 = Ok tt) :
  ∃ s', (∀ fuel, length js1 < fuel → executeJobs fuel s = (Ok tt, s')) ∧
    lf_contents (_jobs s') = js2 ∧ j ∈ e_freed s' ∧
    e_world s' = (errored j (serve_all js1 (e_world s)).2).2.
Proof.
  apply NoDup_app in Hnd as (Hnd & Hj & _). apply Forall_app in Hlive as [Hl1 Hlj].
  apply Forall_cons_1 in Hlj as [Hlj _].
  destruct (job_loop_prefix js1 (j :: js2) s) as (s1 & Hrun & Hc & Hw & Hf); [done..|].
  destruct (lf_pop_cons _ _ _ Hc) as (q & Hpop & Hq').
  rewrite <-Hw in *. destruct Herr as (Hr & reqs & Hh & Hreqs).
  destruct (handler j (e_world s1)) as [[reqs' res] w'] eqn:Eh. cbn in Hh. simplify_eq.
  destruct (run_tasks_requests reqs (set_world w' (set_jobs q s1)) Hreqs)
    as (s2 & Hreq & Hj2 & Hf2 & Hw2).
  unfold errored, mbind, ST_bind in Hok. rewrite Eh in Hok. cbn [snd] in Hok.
  destruct (onWorkError j w') as [[[]|e] w1] eqn:Eo; [|done].
  destruct (destroy j w1) as [[[]|e] w2] eqn:Ed; [|done].
  exists (set_freed (j :: e_freed s2) (set_world w2 s2)). split_and!; [|cbn; by rewrite Hj2|cbn; set_solver|].
  2: { unfold errored, mbind, ST_bind. rewrite Eh. cbn [snd]. by rewrite Eo, Ed. }
  intros fuel Hfuel. unfold executeJobs, run_jobs, mbind, ST_bind.
  replace fuel with (length js1 + S (fuel - length js1 - 1)) by lia. rewrite Hrun.
  cbn [job_loop]. unfold mbind at 1, ST_bind at 1, get at 1. rewrite Hpop.
  unfold mbind at 1, ST_bind at 1, put at 1. cbn beta iota.
  assert (j ∉ e_freed s1) as Hnf.
  { intros Hin%Hf. apply elem_of_app in Hin as [Hin%gone_all_elem|Hin]; [|done].
    apply (Hj j Hin). by apply list_elem_of_singleton. }
  rewrite bool_decide_false, Hr by done.
  unfold call, mbind, ST_bind, get, modify. cbn [set_jobs e_world]. rewrite Eh. cbn beta iota.
  rewrite Hreq. unfold outside. rewrite Hw2. cbn [e_world set_world]. rewrite Eo. unfold mret at 1, ST_ret at 1.
  cbn beta iota. unfold free_job, outside, mbind, ST_bind. cbn [e_world set_world]. by rewrite Ed.
Qed.

(** ** The timestamped tasks *)

(** Every element of the priority queue is alive, and there once. *)
Definition tasks_ok (s : Executor) : Prop :=
  NoDup (_scheduledTasks s) ∧ ∀ p, p ∈ _scheduledTasks s → is_Some (e_heap s !! p).

Definition when_at (s : Executor) (p : positive) : Z :=
  default 0%Z (s_when <$> e_heap s !! p).

Lemma greatest_spec l :
  match greatest l with
  | None => l = []
  | Some y => y ∈ l ∧ Forall (λ x, x.2 ≤ y.2)%Z l
  end.
Proof.
  induction l as [|x l IH]; [done|]. cbn [greatest].
  destruct (greatest l) as [y|].
  - destruct IH as [Hy Hl]. unfold before. destruct (Z.ltb_spec x.2 y.2).
    + split; [by apply elem_of_cons; right|]. constructor; [lia|done].
    + split; [by apply elem_of_cons; left|]. constructor; [lia|].
      eapply Forall_impl; [exact Hl|]. cbn. lia.
  - subst l. split; [by apply elem_of_cons; left|]. by repeat constructor.
Qed.

Lemma top_run s :
  tasks_ok s → top s = (Ok (greatest ((λ p, (p, when_at s p)) <$> _scheduledTasks s)), s).
Proof.
  intros [_ Hok]. unfold top, mbind, ST_bind, get. cbn beta iota.
  enough (map_each (λ p, w ← when_of p; mret (p, w)) (_scheduledTasks s) s
          = (Ok ((λ p, (p, when_at s p)) <$> _scheduledTasks s), s)) as Hm.
  { unfold mbind, ST_bind in Hm. by rewrite Hm. }
  induction (_scheduledTasks s) as [|p l IH]; [done|].
  cbn [map_each fmap list_fmap]. unfold mbind, ST_bind.
  destruct (Hok p) as [st Hst]; [by apply elem_of_cons; left|].
  unfold when_of, mbind, ST_bind, get, when_at at 1. rewrite Hst. cbn.
  assert (Hl := IH ltac:(intros; apply Hok, elem_of_cons; by right)).
  unfold mbind, ST_bind, when_of, get in Hl. unfold mbind, ST_bind, get in Hl.
  rewrite Hl. done.
Qed.

(** The task that [top] yields: queued, and no other has a greater [when]. *)
Lemma top_spec s :
  tasks_ok s →
  (_scheduledTasks s = [] ∧ top s = (Ok None, s)) ∨
  ∃ p st, top s = (Ok (Some (p, s_when st)), s) ∧ p ∈ _scheduledTasks s ∧
    e_heap s !! p = Some st ∧ ∀ p', p' ∈ _scheduledTasks s → (when_at s p' ≤ s_when st)%Z.
Proof.
  intros Hok. rewrite top_run by done.
  pose proof (greatest_spec ((λ p, (p, when_at s p)) <$> _scheduledTasks s)) as Hg.
  destruct (greatest _) as [[p w]|].
  - right. destruct Hg as [Hin Hle]. apply list_elem_of_fmap in Hin as (p' & [= -> ->] & Hin).
    destruct (proj2 Hok _ Hin) as [st Hst]. exists p', st.
    assert (when_at s p' = s_when st) as Hw by (unfold when_at; by rewrite Hst).
    rewrite Hw in *. split_and!; [done..|]. intros p Hp.
    rewrite Forall_forall in Hle. apply (Hle (p, when_at s p)), list_elem_of_fmap. eauto.
  - left. split; [|done]. by eapply fmap_nil_inv.
Qed.

(** The priority queue yields the task with the latest time first
    ([SchedulableComparator] puts the smaller [when] below), so a task that
    is not due yet blocks all those that are: nothing runs. *)
Theorem task_loop_blocked (s : Executor) (p : positive) (fuel : nat)
    (Hok : tasks_ok s) (Hp : p ∈ _scheduledTasks s) (Hdue : (now (e_world s) ≤ when_at s p)%Z) :
  task_loop (S fuel) s = (Ok tt, s).
Proof.
  destruct (top_spec s Hok) as [[Hnil _]|(p' & st & Htop & _ & _ & Hle)].
  { rewrite Hnil in Hp. by apply elem_of_nil in Hp. }
  cbn [task_loop]. unfold mbind at 1, ST_bind at 1. rewrite Htop.
  unfold mbind, ST_bind, get. specialize (Hle p Hp).
  destruct (Z.ltb_spec (s_when st) (now (e_world s))); [lia|done].
Qed.

(** The state after the task at [p] has run, been popped and deleted. *)
Definition task_done (p : positive) (st : Schedulable) (s : Executor) : Executor :=
  set_heap (delete p (e_heap s))
    (set_tasks (filter (λ p', p' ≠ p) (_scheduledTasks s))
      (set_world (run_task (s_task st) (e_world s)).2 s)).

Lemma task_loop_step s fuel p st :
  tasks_ok s → top s = (Ok (Some (p, s_when st)), s) → e_heap s !! p = Some st →
  (s_when st < now (e_world s))%Z → (run_task (s_task st) (e_world s)).1 = [] →
  task_loop (S fuel) s = task_loop fuel (task_done p st s).
Proof.
  intros Hok Htop Hst Hdue Hreq. cbn [task_loop]. unfold mbind at 1, ST_bind at 1. rewrite Htop.
  unfold mbind, ST_bind, get. destruct (Z.ltb_spec (s_when st) (now (e_world s))); [|lia].
  rewrite Hst. destruct (run_task (s_task st) (e_world s)) as [reqs w] eqn:Er.
  cbn in Hreq. subst reqs. unfold modify at 1. cbn [for_each]. unfold mret at 1, ST_ret at 1.
  cbn beta iota. unfold pop_task, mbind, ST_bind.
  rewrite (top_run (set_world w s)) by exact Hok.
  rewrite (top_run s Hok) in Htop. injection Htop as Htop.
  change (greatest _) with (greatest ((λ p, (p, when_at s p)) <$> _scheduledTasks s)) at 1.
  rewrite Htop. unfold modify. cbn beta iota. unfold task_done. by rewrite Er.
Qed.

Lemma task_done_ok p st s : tasks_ok s → tasks_ok (task_done p st s).
Proof.
  intros [Hnd Hok]. split; cbn [task_done set_heap set_tasks set_world _scheduledTasks e_heap].
  - by apply NoDup_filter.
  - intros p' [Hne Hin]%list_elem_of_filter. rewrite lookup_delete_ne by done. by apply Hok.
Qed.

(** The world after the tasks of [l], in order. *)
Definition run_tasks_of (s : Executor) (l : list positive) (w : W) : W :=
  foldl (λ w p, match e_heap s !! p with
                | Some st => (run_task (s_task st) w).2
                | None => w
                end) w l.

Lemma run_tasks_of_ext s s' l w :
  (∀ p, p ∈ l → e_heap s !! p = e_heap s' !! p) → run_tasks_of s l w = run_tasks_of s' l w.
Proof.
  unfold run_tasks_of. revert w. induction l as [|p l IH]; intros w Heq; [done|]. cbn [foldl].
  rewrite Heq by (apply elem_of_cons; by left). apply IH. intros q Hq. apply Heq, elem_of_cons. by right.
Qed.

Lemma filter_ne_perm (p : positive) l :
  NoDup l → p ∈ l → l ≡ₚ p :: filter (λ p', p' ≠ p) l.
Proof.
  induction l as [|x l IH]; intros Hnd Hp; [by apply elem_of_nil in Hp|].
  apply NoDup_cons in Hnd as [Hx Hnd]. destruct (decide (x = p)) as [->|Hne].
  - rewrite filter_cons_False by tauto. f_equiv.
    clear IH Hnd Hp. induction l as [|y l IH]; [done|].
    rewrite filter_cons_True by set_solver. f_equiv. apply IH. set_solver.
  - rewrite filter_cons_True by done. apply elem_of_cons in Hp as [->|Hp]; [done|].
    rewrite IH at 1 by done. apply Permutation_swap.
Qed.

(** When every queued task is due, and the tasks schedule nothing, the
    loop runs each exactly once, the latest first, and ends with an empty
    queue, the tasks deleted. *)
Lemma task_loop_all (s : Executor) (Hok : tasks_ok s)
    (Hdue : ∀ p, p ∈ _scheduledTasks s → (when_at s p < now (e_world s))%Z)
    (Hnow : ∀ t w, now (run_task t w).2 = now w) (Hquiet : ∀ t w, (run_task t w).1 = []) :
  ∃ order s', order ≡ₚ _scheduledTasks s ∧
    StronglySorted (λ p p', (when_at s p' ≤ when_at s p)%Z) order ∧
    (∀ fuel, length (_scheduledTasks s) < fuel → task_loop fuel s = (Ok tt, s')) ∧
    _scheduledTasks s' = [] ∧ (∀ p, e_heap s' !! p = if decide (p ∈ order) then None else e_heap s !! p) ∧
    e_world s' = run_tasks_of s order (e_world s).
Proof.
  remember (length (_scheduledTasks s)) as n eqn:Hn. revert s Hok Hdue Hn.
  induction n as [|n IH]; intros s Hok Hdue Hn;
    destruct (top_spec s Hok) as [[Hnil Htop]|(p & st & Htop & Hp & Hst & Hle)].
  1, 3: exists [], s; rewrite Hnil; (split_and!; [done|constructor| |done|done|done]);
    intros [|fuel] ?; [lia|]; cbn [task_loop]; unfold mbind at 1, ST_bind at 1; by rewrite Htop.
  { destruct (_scheduledTasks s); [by apply elem_of_nil in Hp|done]. }
  pose proof (filter_ne_perm p _ (proj1 Hok) Hp) as Hperm.
  set (rest := filter _ _) in Hperm.
  assert (∀ p', p' ∈ rest → p' ≠ p ∧ p' ∈ _scheduledTasks s) as Hrest
    by (intros p' Hp'; by apply list_elem_of_filter in Hp').
  assert (∀ p', p' ≠ p → when_at (task_done p st s) p' = when_at s p') as Hwhen.
  { intros p' Hne. unfold when_at, task_done. cbn [set_heap e_heap]. by rewrite lookup_delete_ne. }
  destruct (IH (task_done p st s)) as (order & s' & Ho & Hsort & Hrun & Hempty & Hfree & Hw).
  { by apply task_done_ok. }
  { intros p' [Hne Hin]%Hrest. rewrite Hwhen by done. cbn. rewrite Hnow. by apply Hdue. }
  { apply Permutation_length in Hperm. cbn in Hperm |- *. fold rest. lia. }
  assert (∀ p', p' ∈ order → p' ≠ p) as Hne.
  { intros p' Hin. rewrite Ho in Hin. by apply Hrest in Hin as [? _]. }
  exists (p :: order), s'. split_and!.
  - rewrite Ho. by rewrite Hperm.
  - constructor.
    + clear -Hsort Hwhen Hne. induction Hsort as [|q l Hs IH Hall]; constructor.
      * apply IH. intros ? Hin. apply Hne, elem_of_cons. by right.
      * rewrite Forall_forall in Hall |- *. intros r Hr. specialize (Hall r Hr).
        rewrite !Hwhen in Hall by (apply Hne, elem_of_cons; eauto). done.
    + apply Forall_forall. intros p' Hin. rewrite Ho in Hin. apply Hrest in Hin as [_ Hin].
      specialize (Hle p' Hin). unfold when_at at 2. by rewrite Hst.
  - intros [|fuel] Hfuel; [lia|]. rewrite (task_loop_step s fuel p st); [|done..| |done].
    + apply Hrun. lia.
    + specialize (Hdue p Hp). unfold when_at in Hdue. by rewrite Hst in Hdue.
  - done.
  - intros p'. rewrite Hfree. cbn [task_done set_heap e_heap].
    destruct (decide (p' = p)) as [->|Hne'].
    + rewrite (decide_True (P := p ∈ p :: order)) by (apply elem_of_cons; by left).
      rewrite lookup_delete_eq. by destruct (decide _).
    + rewrite lookup_delete_ne by done.
      destruct (decide (p' ∈ order)) as [Hin|Hin].
      * by rewrite decide_True by (apply elem_of_cons; by right).
      * rewrite decide_False; [done|]. by intros [?|?]%elem_of_cons.
  - rewrite Hw. cbn [run_tasks_of foldl task_done set_heap set_tasks set_world e_world]. rewrite Hst.
    apply run_tasks_of_ext. intros q Hq. apply lookup_delete_ne. by intros <-; apply (Hne p).
Qed.

(** The addresses in use are below the next one. *)
Definition heap_ok (s : Executor) : Prop :=
  ∀ p, is_Some (e_heap s !! p) → (p < e_next s)%positive.

(** The state in which a task has put another one in the queue. *)
Definition with_task (t : task) (when : Z) (w : W) (s : Executor) : Executor :=
  mkExecutor (_jobs s) (_scheduledTasks s ++ [e_next s])
    (<[e_next s := mkSchedulable t when]> (e_heap s)) (Pos.succ (e_next s)) (e_freed s) w.

Lemma next_not_queued s p : tasks_ok s → heap_ok s → p ∈ _scheduledTasks s → p ≠ e_next s.
Proof. intros [_ Hok] Hh Hp ->. apply Hok, Hh in Hp. lia. Qed.

Lemma with_task_ok t when w s : tasks_ok s → heap_ok s → tasks_ok (with_task t when w s).
Proof.
  intros Hok Hh. pose proof (next_not_queued s) as Hne. split; cbn.
  - apply NoDup_app. split_and!; [apply Hok| |apply NoDup_singleton].
    intros p Hp ->%list_elem_of_singleton. by apply (Hne _ Hok Hh Hp).
  - intros p [Hin| ->%list_elem_of_singleton]%elem_of_app; [|by rewrite lookup_insert_eq].
    rewrite lookup_insert_ne; [by apply Hok|]. intros <-. by apply (Hne _ Hok Hh Hin).
Qed.

(** A task later than all those of the queue is on top. *)
Lemma with_task_top t when w s :
  tasks_ok s → heap_ok s → (∀ p, p ∈ _scheduledTasks s → (when_at s p < when)%Z) →
  top (with_task t when w s) = (Ok (Some (e_next s, when)), with_task t when w s).
Proof.
  intros Hok Hh Hlt.
  destruct (top_spec _ (with_task_ok t when w s Hok Hh)) as [[Hnil _]|(p & st & -> & Hin & Hst & Hle)].
  { cbn in Hnil. by destruct (_scheduledTasks s). }
  cbn in Hst, Hin. apply elem_of_app in Hin as [Hin| ->%list_elem_of_singleton].
  - exfalso. specialize (Hle (e_next s) ltac:(apply elem_of_app; right; by apply list_elem_of_singleton)).
    unfold when_at in Hle. cbn in Hle. rewrite lookup_insert_eq in Hle. cbn in Hle.
    specialize (Hlt p Hin). unfold when_at in Hlt.
    rewrite lookup_insert_ne in Hst by (intros <-; by apply (next_not_queued s _ Hok Hh Hin)).
    rewrite Hst in Hlt. cbn in Hlt. lia.
  - rewrite lookup_insert_eq in Hst. by simplify_eq.
Qed.

Lemma map_each_dangling s p l :
  p ∈ l → e_heap s !! p = None →
  (map_each (λ p, w ← when_of p; mret (p, w)) l s).1 = Fail (UB Dangling).
Proof.
  intros Hp Hn. induction l as [|q l IH]; [by apply elem_of_nil in Hp|]. cbn [map_each].
  unfold when_of, mbind, ST_bind, get. destruct (e_heap s !! q) as [st|] eqn:Hq; [|done].
  apply elem_of_cons in Hp as [->|Hp]; [congruence|]. specialize (IH Hp).
  unfold when_of, mbind, ST_bind, get in IH. cbn.
  by destruct (map_each _ l s) as [[?|?] ?].
Qed.

Lemma top_dangling s p :
  p ∈ _scheduledTasks s → e_heap s !! p = None → (top s).1 = Fail (UB Dangling).
Proof.
  intros. unfold top, mbind at 1, ST_bind at 1, get. cbn beta iota.
  by apply bind_fail, (map_each_dangling _ p).
Qed.

(** A task that schedules another one for a later time destroys the
    queue: the new task is now on top, so it is the one that is popped, and
    lost, while the one that ran is deleted but still queued; the next look
    at the queue reads a deleted object. *)
Theorem rescheduling_task_dangles (s : Executor) (p : positive) (st : Schedulable)
    (t : task) (when : Z) (w : W) (fuel : nat)
    (Hok : tasks_ok s) (Hheap : heap_ok s)
    (Htop : top s = (Ok (Some (p, s_when st)), s)) (Hst : e_heap s !! p = Some st)
    (Hdue : (s_when st < now (e_world s))%Z)
    (Hrun : run_task (s_task st) (e_world s) = ([ScheduleTask t when], w))
    (Hlater : (s_when st < when)%Z) :
  (task_loop (S (S fuel)) s).1 = Fail (UB Dangling).
Proof.
  destruct (top_spec s Hok) as [[_ Ht]|(p2 & st2 & Ht & Hp & Hst2 & Hle)]; [congruence|].
  rewrite Htop in Ht. injection Ht as <- Hw. rewrite <-Hw in Hle. clear st2 Hst2 Hw.
  assert (∀ q, q ∈ _scheduledTasks s → (when_at s q < when)%Z) as Hlt.
  { intros q Hq%Hle. lia. }
  cbn [task_loop]. unfold mbind at 1, ST_bind at 1. rewrite Htop.
  unfold mbind at 1, ST_bind at 1, get. destruct (Z.ltb_spec (s_when st) (now (e_world s))); [|lia].
  rewrite Hst, Hrun. unfold mbind at 1, ST_bind at 1, modify at 1. cbn [for_each run_request].
  unfold mbind at 1, ST_bind at 1, mbind at 1, ST_bind at 1, schedule_task, modify at 1. cbn beta iota.
  unfold mret at 1, ST_ret at 1. cbn [set_world _jobs _scheduledTasks e_heap e_next e_freed e_world].
  fold (with_task t when w s).
  unfold mbind at 1, ST_bind at 1, pop_task at 1, mbind at 1, ST_bind at 1.
  rewrite with_task_top by done. unfold mbind at 1, ST_bind at 1, modify. cbn beta iota.
  apply bind_fail, (top_dangling _ p).
  - cbn. apply list_elem_of_filter. split; [by apply next_not_queued|].
    apply elem_of_app. by left.
  - cbn. by rewrite lookup_delete_eq.
Qed.
End executor.

(** ** A concrete executor

    Works and tasks are numbers, a work appends its number to the world, a
    ready one is replaced by its successor until 9; the tasks do the same, and
    task 100 schedules itself again. The time is 50. *)
Section example.
#[local] Instance ex_queue : Lockfree Z := list_queue Z (Some 4).
#[local] Instance ex_laws : LockfreeLaws Z (Some 4) := list_queue_laws Z (Some 4).

Definition ex_ready (j : Z) (w : list Z) : bool := Z.even j.
Definition ex_handler (j : Z) (w : list Z) : list (@request Z Z) * outcome (option Z) * list Z :=
  if (j =? 6)%Z then ([], Fail (Throw ReadOutOfBounds), w)
  else ([], Ok (if (j <? 3)%Z then Some (j + 1)%Z else None), w ++ [j]).
Definition ex_task (t : Z) (w : list Z) : list (@request Z Z) * list Z :=
  (if (t =? 100)%Z then [ScheduleTask 100 60] else [], w ++ [t])%Z.
Definition ex_error (j : Z) : ST (list Z) unit := modify (λ w, w ++ [-1]%Z).
Definition ex_destroy (j : Z) : ST (list Z) unit := mret tt.
Definition ex_now (w : list Z) : Z := 50.

Definition ex_state (js : list Z) (tasks : list (Z * Z)) : @Executor Z Z (list Z) ex_queue :=
  (for_each (λ t, schedule_task t.1 t.2) tasks (mkExecutor (js : @lf_queue Z ex_queue) [] ∅ 1 [] [])).2.

Definition ex_run_jobs := run_jobs ex_ready ex_handler ex_error ex_destroy.
Definition ex_execute := executeJobs ex_ready ex_handler ex_task ex_error ex_destroy ex_now.
Definition ex_tasks := task_loop (job := Z) ex_task ex_now.

Lemma run_jobs_fifo_witness :
  ∃ s', ex_run_jobs 5 (ex_state [1; 2; 3; 4]%Z []) = (Ok true, s') ∧
    lf_contents (_jobs s') = [1; 3; 3]%Z ∧ e_world s' = [2; 4]%Z.
Proof.
  destruct (run_jobs_fifo ex_ready ex_handler ex_error ex_destroy (cap := 4) [1; 2; 3; 4]%Z
              (ex_state [1; 2; 3; 4]%Z [])) as (s' & Hrun & Hc & Hw & _).
  - reflexivity.
  - cbn. lia.
  - apply (bool_decide_unpack _). vm_compute. exact I.
  - apply (bool_decide_unpack _). vm_compute. exact I.
  - cbn. split_and!; try done; intros; by do 3 eexists.
  - exists s'. split; [apply Hrun; cbn; lia|]. by rewrite Hc, Hw.
Defined.

Lemma executeJobs_error_witness :
  ∃ s', ex_execute 4 (ex_state [1; 2; 6; 4]%Z [(7, 10)]%Z) = (Ok tt, s') ∧
    lf_contents (_jobs s') = [4]%Z ∧ e_world s' = [2; -1]%Z.
Proof.
  destruct (executeJobs_error ex_ready ex_handler ex_task ex_error ex_destroy ex_now (cap := 4)
              [1; 2]%Z [4]%Z 6%Z (ex_state [1; 2; 6; 4]%Z [(7, 10)]%Z)) as (s' & Hrun & Hc & _ & Hw).
  - reflexivity.
  - apply (bool_decide_unpack _). vm_compute. exact I.
  - apply (bool_decide_unpack _). vm_compute. exact I.
  - cbn. split_and!; try done; intros; by do 3 eexists.
  - split; [reflexivity|]. exists []. by split; [reflexivity|].
  - reflexivity.
  - exists s'. split; [apply Hrun; cbn; lia|]. by rewrite Hc, Hw.
Defined.

Lemma ex_tasks_ok tasks :
  (∀ s, s = ex_state [] tasks →
     bool_decide (NoDup (_scheduledTasks s)) = true ∧
     forallb (λ p, bool_decide (is_Some (e_heap s !! p))) (_scheduledTasks s) = true) →
  tasks_ok (ex_state [] tasks).
Proof.
  intros H. destruct (H _ eq_refl) as [Hnd Hall]. apply bool_decide_eq_true in Hnd.
  split; [done|]. intros p Hp. rewrite forallb_forall in Hall.
  by apply list_elem_of_In, Hall, bool_decide_eq_true in Hp.
Qed.

Lemma task_loop_blocked_witness :
  ex_tasks 3 (ex_state [] [(7, 10); (8, 60)]%Z) = (Ok tt, ex_state [] [(7, 10); (8, 60)]%Z).
Proof.
  apply (task_loop_blocked ex_task ex_now _ 2%positive).
  - apply ex_tasks_ok. intros s ->. split; vm_compute; reflexivity.
  - apply (bool_decide_unpack _). vm_compute. exact I.
  - vm_compute. discriminate.
Defined.

Definition ex_quiet (t : Z) (w : list Z) : list (@request Z Z) * list Z := ([], w ++ [t]).

Lemma task_loop_all_witness :
  ∃ order s', order ≡ₚ [1; 2; 3]%positive ∧
    task_loop (job := Z) ex_quiet ex_now 4 (ex_state [] [(7, 10); (8, 30); (9, 20)]%Z) = (Ok tt, s') ∧
    _scheduledTasks s' = [].
Proof.
  destruct (task_loop_all ex_quiet ex_now (ex_state [] [(7, 10); (8, 30); (9, 20)]%Z))
    as (order & s' & Hperm & _ & Hrun & Hnil & _).
  - apply ex_tasks_ok. intros s ->. split; vm_compute; reflexivity.
  - intros p Hp. change (p ∈ [1; 2; 3]%positive) in Hp. rewrite !elem_of_cons, elem_of_nil in Hp.
    destruct Hp as [-> |[-> |[-> |[]]]]; vm_compute; reflexivity.
  - reflexivity.
  - reflexivity.
  - exists order, s'. split; [exact Hperm|]. split; [apply Hrun, Nat.ltb_lt; reflexivity|exact Hnil].
Defined.

Lemma rescheduling_task_dangles_witness :
  (ex_tasks 2 (ex_state [] [(100, 10)]%Z)).1 = Fail (UB Dangling).
Proof.
  apply (rescheduling_task_dangles ex_task ex_now _ 1 (mkSchedulable 100%Z 10) 100%Z 60 [100]%Z 0).
  - apply ex_tasks_ok. intros s ->. split; vm_compute; reflexivity.
  - intros p [st Hst].
    change ((<[1 := mkSchedulable 100%Z 10%Z]> ∅ : gmap positive (@Schedulable Z)) !! p = Some st)%positive in Hst.
    apply lookup_insert_Some in Hst as [[<- _]|[_ Hst]]; [done|].
    by rewrite lookup_empty in Hst.
  - reflexivity.
  - reflexivity.
  - reflexivity.
  - reflexivity.
  - reflexivity.
Defined.
End example.
