(* ===== verification/Physics.v ===== *)
(** * Collision detection ([src/physics/])

    Segment intersection ([methods.cpp]), the rectangular and circular
    bounding boxes, the projections ([collisions_framework.cpp]) and the
    separating axis test ([sat_collisions.cpp]). Arithmetic is that of
    [float] and [double]; [glm] is the parameter [Glm]. A bounding box reads
    the position of its entity through a reference: here, an argument. *)

From Stdlib Require Import ZArith Lia Bool.
From Stdlib Require Import Floats.SpecFloat.
From stdpp Require Import base list option numbers.
From S2P Require Import Prelude Float32.

(** ** Segments *)

Definition ccw (A B C : vec2) : bool :=
  ((C.2 - A.2) * (B.1 - A.1) > (B.2 - A.2) * (C.1 - A.1))%f32.

Definition intersects (A B C D : vec2) : bool :=
  negb (eqb (ccw A C D) (ccw B C D)) && negb (eqb (ccw A B C) (ccw A B D)).

(** ** Bounding boxes *)

(** [_min] and [_max] are not initialised by the constructor. *)
Record RectBoundingBox := mkRect {
  _recalcNormals : bool;
  _vertices : list vec2;
  _normals : list vec2;
  _min : option vec2;
  _max : option vec2;
}.

Record CircularBoundingBox := mkCircle { _center : vec3; _radius : f32 }.

Inductive BoundingBox := RECT (r : RectBoundingBox) | CIRCULAR (c : CircularBoundingBox).

Definition zero2 : vec2 := (S754_zero false, S754_zero false).

(** [_normals.resize(2)] creates two null vectors. *)
Definition RectBoundingBox_new (vertices : list vec2) : RectBoundingBox :=
  mkRect false vertices [zero2; zero2] None None.

Definition position2D (p : vec3) : vec2 := (v3x p, v3z p).
Definition center2D (c : CircularBoundingBox) : vec2 := position2D (_center c).

Definition vertex (r : RectBoundingBox) (i : nat) : outcome vec2 :=
  match _vertices r !! i with Some v => Ok v | None => Fail (UB OutOfBounds) end.

Definition defined {A} (o : option A) : outcome A :=
  match o with Some a => Ok a | None => Fail (UB Uninitialised) end.

Section physics.
Context `{Glm}.

Definition rect_rotate (angle : f32) (r : RectBoundingBox) : RectBoundingBox :=
  mkRect true ((λ v, glm_rotate v angle) <$> _vertices r) (_normals r) (_min r) (_max r).

(** One coordinate of the running minimum and maximum. *)
Definition widen (x lo hi : f32) : f32 * f32 :=
  if (x < lo)%f32 then (x, hi) else if (x > hi)%f32 then (lo, x) else (lo, hi).

Definition widen2 (mm : vec2 * vec2) (v : vec2) : vec2 * vec2 :=
  let '(lo, hi) := mm in
  let '(lx, hx) := widen v.1 lo.1 hi.1 in
  let '(ly, hy) := widen v.2 lo.2 hi.2 in
  ((lx, ly), (hx, hy)).

Definition edge_normal (a b : vec2) : vec2 := let tmp := glm_sub a b in (- tmp.2, tmp.1)%f32.

(** [normals()] recomputes the normals of the first two edges and the extent
    of the four vertices, when they are stale. *)
Definition rect_normals (r : RectBoundingBox) : outcome (list vec2 * RectBoundingBox) :=
  if _recalcNormals r then
    v0 ← vertex r 0; v1 ← vertex r 1; v2 ← vertex r 2; v3 ← vertex r 3;
    let normals := [edge_normal v0 v1; edge_normal v1 v2] in
    let '(lo, hi) := foldl widen2 (v0, v0) [v1; v2; v3] in
    mret (normals, mkRect false (_vertices r) normals (Some lo) (Some hi))
  else mret (_normals r, r).

Definition rect_asRect (pos : vec3) (r : RectBoundingBox) : outcome (vec4 * RectBoundingBox) :=
  let p := position2D pos in
  '(_, r) ← rect_normals r;
  lo ← defined (_min r); hi ← defined (_max r);
  mret (Vec4 (lo.1 + p.1)%f32 (lo.2 + p.2)%f32 (hi.1 + p.1)%f32 (hi.2 + p.2)%f32, r).

Definition circle_asRect (pos : vec3) (c : CircularBoundingBox) : vec4 :=
  let p := position2D pos in
  Vec4 (v3x (_center c) + p.1 - _radius c)%f32 (v3y (_center c) + p.2 - _radius c)%f32
       (v3x (_center c) + p.1 + _radius c)%f32 (v3y (_center c) + p.2 + _radius c)%f32.

Definition asRect (pos : vec3) (b : BoundingBox) : outcome (vec4 * BoundingBox) :=
  match b with
  | RECT r => '(v, r) ← rect_asRect pos r; mret (v, RECT r)
  | CIRCULAR c => mret (circle_asRect pos c, CIRCULAR c)
  end.

(** [glm::epsilon<float>()] is 2^-23. *)
Definition epsilon : f32 := S754_finite false 8388608 (-46).

(** One edge of [RectBoundingBox::intersects], with [dist] not null: the new
    [check] and [*dist]. *)
Definition rect_edge (p0 p1 s0_s s0_e : vec2) (st : bool * f32) : bool * f32 :=
  let '(check, dist) := st in
  if Physics.intersects s0_s s0_e p0 p1 then
    let d := f32_of_f64 (dsqrt (dadd (pow2 (s0_e.2 - s0_s.2)%f32) (pow2 (s0_e.1 - s0_s.1)%f32))) in
    if (fabs d > epsilon)%f32 then
      let tmp := (((s0_e.2 - s0_s.2) * p0.1 - (s0_e.1 - s0_s.1) * p0.2
                   + s0_e.1 * s0_s.2 - s0_e.2 * s0_s.1) / d)%f32 in
      (true, if negb check || (tmp < dist)%f32 then tmp else dist)
    else (true, S754_zero false)
  else (check, dist).

(** The edges, from vertex to vertex and back to the first. *)
Definition edges (pos : vec3) (vs : list vec2) : list (vec2 * vec2) :=
  let vs := (λ v, glm_add v (position2D pos)) <$> vs in
  zip vs (drop 1 vs ++ take 1 vs).

Definition rect_intersects (pos : vec3) (r : RectBoundingBox) (p0 p1 : vec2) : bool * f32 :=
  foldl (λ st e, rect_edge p0 p1 e.1 e.2 st) (false, S754_zero false) (edges pos (_vertices r)).

(** With [dist] null the first edge that intersects ends the search. *)
Definition rect_intersects_any (pos : vec3) (r : RectBoundingBox) (p0 p1 : vec2) : bool :=
  existsb (λ e, Physics.intersects e.1 e.2 p0 p1) (edges pos (_vertices r)).

Definition circle_intersects (pos : vec3) (c : CircularBoundingBox) (p0 p1 : vec2) : bool :=
  let dx := (p1.1 - p0.1)%f32 in
  let dy := (p1.2 - p0.2)%f32 in
  let A := f32_of_f64 (dadd (pow2 dx) (pow2 dy)) in
  if (fabs A <= epsilon)%f32 then false
  else
    let cx := ((position2D pos).1 + v3x (_center c))%f32 in
    let cy := ((position2D pos).2 + v3y (_center c))%f32 in
    let B := (f32_of_Z 2 * (dx * (p0.1 - cx) + dy * (p0.2 - cy)))%f32 in
    let C := f32_of_f64 (dsub (dadd (pow2 (p0.1 - cx)%f32) (pow2 (p0.2 - cy)%f32)) (pow2 (_radius c))) in
    let det := f32_of_f64 (dsub (pow2 B) (f64_of_f32 (f32_of_Z 4 * A * C)%f32)) in
    negb (det < S754_zero false)%f32.

(** ** Projections *)

Definition project_rect (pos : vec3) (r : RectBoundingBox) (axis : vec2) : outcome vec2 :=
  match _vertices r with
  | [] => Fail (UB OutOfBounds)
  | v0 :: vs =>
      let at_axis v := glm_dot axis (glm_add v (position2D pos)) in
      Ok (foldl (λ mm v, widen (at_axis v) mm.1 mm.2) (at_axis v0, at_axis v0) vs)
  end.

Definition project_circle (pos : vec3) (c : CircularBoundingBox) (axis : vec2) : vec2 :=
  let o := glm_add (center2D c) (position2D pos) in
  let r0 := glm_dot axis (glm_sub o (glm_scale axis (_radius c))) in
  let r1 := glm_dot axis (glm_add o (glm_scale axis (_radius c))) in
  if (r0 < r1)%f32 then (r0, r1) else (r1, r0).

Definition project (pos : vec3) (b : BoundingBox) (axis : vec2) : outcome vec2 :=
  match b with
  | RECT r => project_rect pos r axis
  | CIRCULAR c => Ok (project_circle pos c axis)
  end.

(** [std::min] and [std::max]: the first argument unless the second is better. *)
Definition std_min (a b : f32) : f32 := if (b < a)%f32 then b else a.
Definition std_max (a b : f32) : f32 := if (a < b)%f32 then b else a.

(** The projections leave a gap. *)
Definition gap (p1 p2 : vec2) : bool :=
  (std_min p1.2 p2.2 - std_max p1.1 p2.1 < S754_zero false)%f32.

(** [collides(axes, a, b)] *)
Fixpoint collides_axes (axes : list vec2) (pa : vec3) (a : BoundingBox) (pb : vec3) (b : BoundingBox)
    : outcome bool :=
  match axes with
  | [] => mret true
  | axis :: axes =>
      p1 ← project pa a axis;
      p2 ← project pb b axis;
      if gap p1 p2 then mret false else collides_axes axes pa a pb b
  end.

(** The boxes come back, with their normals up to date. *)
Definition collides_rects (pa : vec3) (a : RectBoundingBox) (pb : vec3) (b : RectBoundingBox)
    : outcome (bool * RectBoundingBox * RectBoundingBox) :=
  '(na, a) ← rect_normals a;
  c ← collides_axes na pa (RECT a) pb (RECT b);
  if c : bool then
    '(nb, b) ← rect_normals b;
    c ← collides_axes nb pa (RECT a) pb (RECT b);
    mret (c, a, b)
  else mret (false, a, b).

(** The vertex of the rectangle that is closest to the centre of the circle,
    neither of them at its position in the world. *)
Definition closest (c : vec2) (v0 : vec2) (vs : list vec2) : vec2 :=
  (foldl (λ best v, let tmp := glm_length2 (glm_sub v c) in
                    if (tmp < best.2)%f32 then (v, tmp) else best)
     (v0, glm_length2 (glm_sub v0 c)) vs).1.

Definition collides_rect_circle (pa : vec3) (a : RectBoundingBox) (pb : vec3) (b : CircularBoundingBox)
    : outcome (bool * RectBoundingBox) :=
  match _vertices a with
  | [] => Fail (UB OutOfBounds)
  | v0 :: vs =>
      c ← collides_axes [glm_sub (closest (center2D b) v0 vs) (center2D b)] pa (RECT a) pb (CIRCULAR b);
      if c : bool then
        '(na, a) ← rect_normals a;
        c ← collides_axes na pa (RECT a) pb (CIRCULAR b);
        mret (c, a)
      else mret (false, a)
  end.

Definition collides_circles (pa : vec3) (a : CircularBoundingBox) (pb : vec3) (b : CircularBoundingBox)
    : outcome bool :=
  collides_axes [glm_sub (center2D a) (center2D b)] pa (CIRCULAR a) pb (CIRCULAR b).

(** [SAT::collides(BoundingBox* a, BoundingBox* b)] *)
Definition collides (pa : vec3) (a : BoundingBox) (pb : vec3) (b : BoundingBox)
    : outcome (bool * BoundingBox * BoundingBox) :=
  match a, b with
  | RECT ra, RECT rb => '(c, ra, rb) ← collides_rects pa ra pb rb; mret (c, RECT ra, RECT rb)
  | RECT ra, CIRCULAR cb => '(c, ra) ← collides_rect_circle pa ra pb cb; mret (c, RECT ra, b)
  | CIRCULAR ca, RECT rb => '(c, rb) ← collides_rect_circle pb rb pa ca; mret (c, a, RECT rb)
  | CIRCULAR ca, CIRCULAR cb => c ← collides_circles pa ca pb cb; mret (c, a, b)
  end.

(** ** Boxes that are ready

    A rectangle has four vertices; its extent is known, or will be computed
    because it has been rotated. *)

Definition solid_rect (r : RectBoundingBox) : Prop :=
  4 ≤ length (_vertices r) ∧ (_recalcNormals r = true ∨ is_Some (_min r) ∧ is_Some (_max r)).
Definition solid (b : BoundingBox) : Prop := match b with RECT r => solid_rect r | CIRCULAR _ => True end.

Lemma solid_normals r : solid_rect r → ∃ n r' lo hi, rect_normals r = Ok (n, r') ∧
  _vertices r' = _vertices r ∧ _min r' = Some lo ∧ _max r' = Some hi.
Proof.
  intros [Hlen Hor]. unfold rect_normals. destruct (_recalcNormals r) eqn:Hr.
  - destruct r as [rec vs ns mn mx]. cbn in *. do 4 (destruct vs as [|? vs]; [cbn in Hlen; lia|]). unfold vertex. cbn -[foldl].
    destruct (widen2 (widen2 _ v1) v2) as [lo hi]. cbn. by eexists _, _, lo, hi.
  - destruct Hor as [|[[lo Hlo] [hi Hhi]]]; [done|]. by eexists _, r, lo, hi.
Qed.

Lemma solid_asRect pos b : solid b → ∃ v b', asRect pos b = Ok (v, b').
Proof.
  destruct b as [r|c]; [|by eexists _, _]. intros (n & r' & lo & hi & Hn & _ & Hlo & Hhi)%solid_normals.
  unfold asRect, rect_asRect. rewrite Hn. cbn. rewrite Hlo, Hhi. by eexists _, _.
Qed.

(** A box has a projection on every axis. *)
Definition projected (b : BoundingBox) : Prop := match b with RECT r => _vertices r ≠ [] | CIRCULAR _ => True end.

Lemma solid_projected b : solid b → projected b.
Proof. destruct b as [r|c]; [|done]. intros [Hlen _]. cbn. by destruct (_vertices r); [cbn in Hlen; lia|]. Qed.

Lemma projected_ok pos b axis : projected b → ∃ v, project pos b axis = Ok v.
Proof.
  destruct b as [r|c]; cbn; [|by eexists]. unfold project_rect. by destruct (_vertices r); [|eexists].
Qed.

Lemma collides_axes_ok axes pa a pb b : projected a → projected b → ∃ c, collides_axes axes pa a pb b = Ok c.
Proof.
  intros Ha Hb. induction axes as [|axis axes [c IH]]; [by eexists|]. cbn.
  destruct (projected_ok pa a axis Ha) as [v ->], (projected_ok pb b axis Hb) as [v' ->]. cbn.
  destruct (gap _ _); [by eexists|]. rewrite IH. by eexists.
Qed.

Lemma collides_rect_circle_ok pa r pb c : solid_rect r → ∃ x, collides_rect_circle pa r pb c = Ok x.
Proof.
  intros Hr. pose proof (solid_projected (RECT r) Hr) as Hp. pose proof (solid_normals r Hr) as (n & r' & _ & _ & Hn & Hv & _).
  unfold collides_rect_circle. cbn in Hp. destruct (_vertices r) as [|v0 vs] eqn:Hvs; [done|].
  destruct (collides_axes_ok [glm_sub (closest (center2D c) v0 vs) (center2D c)] pa (RECT r) pb (CIRCULAR c))
    as [b ->]; [by cbn; rewrite Hvs|done|]. cbn. destruct b; [|by eexists]. rewrite Hn. cbn.
  destruct (collides_axes_ok n pa (RECT r') pb (CIRCULAR c)) as [b ->]; [by cbn; rewrite Hv|done|]. by eexists.
Qed.

(** Any two boxes that are ready can be tested. *)
Lemma solid_collides pa a pb b : solid a → solid b → ∃ x, collides pa a pb b = Ok x.
Proof.
  intros Ha Hb. destruct a as [ra|ca], b as [rb|cb]; unfold collides.
  - destruct (solid_normals ra Ha) as (na & ra' & _ & _ & Hna & Hva & _).
    destruct (solid_normals rb Hb) as (nb & rb' & _ & _ & Hnb & Hvb & _).
    pose proof (solid_projected _ Ha) as Pa. pose proof (solid_projected _ Hb) as Pb.
    assert (projected (RECT ra')) as Pa' by (cbn in *; by rewrite Hva).
    assert (projected (RECT rb')) as Pb' by (cbn in *; by rewrite Hvb).
    unfold collides_rects. rewrite Hna. cbn.
    destruct (collides_axes_ok na pa (RECT ra') pb (RECT rb) Pa' Pb) as [c ->]. cbn.
    destruct c; [|by eexists]. rewrite Hnb. cbn.
    destruct (collides_axes_ok nb pa (RECT ra') pb (RECT rb') Pa' Pb') as [c ->]. by eexists.
  - destruct (collides_rect_circle_ok pa ra pb cb Ha) as [[c r] ->]. by eexists.
  - destruct (collides_rect_circle_ok pb rb pa ca Hb) as [[c r] ->]. by eexists.
  - unfold collides_circles. destruct (collides_axes_ok [glm_sub (center2D ca) (center2D cb)] pa (CIRCULAR ca) pb (CIRCULAR cb))
      as [c ->]; [done..|]. by eexists.
Qed.

(** Rotating a box makes it ready. *)
Lemma rotate_solid angle r : 4 ≤ length (_vertices r) → solid_rect (rect_rotate angle r).
Proof. intros Hlen. split; [by unfold rect_rotate; cbn; rewrite length_fmap|by left]. Qed.

(** ** The extent of a rectangle *)

Lemma widen_spec x lo hi :
  is_nan x = false → fle lo hi = true →
  let '(lo', hi') := widen x lo hi in
  fle lo' lo = true ∧ fle hi hi' = true ∧ fle lo' x = true ∧ fle x hi' = true ∧
  (lo' = lo ∨ lo' = x) ∧ (hi' = hi ∨ hi' = x).
Proof.
  intros Hx Hlh. destruct (fle_not_nan lo hi Hlh) as [Hlo Hhi]. unfold widen.
  destruct (x < lo)%f32 eqn:E1; [|destruct (x > hi)%f32 eqn:E2].
  - apply flt_fle in E1. split_and!; auto using fle_refl. eauto using fle_trans.
  - apply flt_fle in E2. apply flt_false_fle in E1; [|done..]. split_and!; auto using fle_refl.
  - apply flt_false_fle in E1; [|done..]. apply flt_false_fle in E2; [|done..].
    split_and!; auto using fle_refl.
Qed.

(** [lo] and [hi] are the least and the greatest coordinate [c] of [vs]. *)
Definition extent (c : vec2 → f32) (vs : list vec2) (lo hi : f32) : Prop :=
  Forall (λ v, fle lo (c v) = true ∧ fle (c v) hi = true) vs ∧
  lo ∈ c <$> vs ∧ hi ∈ c <$> vs.

Lemma widen_extent c vs lo hi v :
  is_nan (c v) = false → vs ≠ [] → extent c vs lo hi →
  extent c (v :: vs) (widen (c v) lo hi).1 (widen (c v) lo hi).2.
Proof.
  intros Hv Hne (Hall & Hlo & Hhi). assert (fle lo hi = true) as Hlh.
  { destruct vs as [|w vs]; [done|]. apply Forall_cons_1 in Hall as [[? ?] _]. eauto using fle_trans. }
  pose proof (widen_spec (c v) lo hi Hv Hlh) as Hw.
  destruct (widen (c v) lo hi) as [lo' hi']. destruct Hw as (H1 & H2 & H3 & H4 & H5 & H6).
  cbn [fst snd]. split_and!.
  - constructor; [done|]. rewrite Forall_forall in Hall |- *. intros w Hw.
    destruct (Hall w Hw). eauto using fle_trans.
  - cbn. apply elem_of_cons. destruct H5 as [-> | ->]; auto.
  - cbn. apply elem_of_cons. destruct H6 as [-> | ->]; auto.
Qed.

Definition no_nan (v : vec2) : Prop := is_nan v.1 = false ∧ is_nan v.2 = false.

Lemma widen2_extent vs seen mm :
  seen ≠ [] → Forall no_nan vs →
  extent fst seen mm.1.1 mm.2.1 → extent snd seen mm.1.2 mm.2.2 →
  let '(lo, hi) := foldl widen2 mm vs in
  extent fst (reverse vs ++ seen) lo.1 hi.1 ∧ extent snd (reverse vs ++ seen) lo.2 hi.2.
Proof.
  revert seen mm. induction vs as [|v vs IH]; intros seen mm Hne Hvs Hx Hy.
  { cbn. by destruct mm. }
  apply Forall_cons_1 in Hvs as [[Hv1 Hv2] Hvs]. rewrite reverse_cons, <-app_assoc. cbn [app foldl].
  apply (IH (v :: seen)); [done|done| |];
    [pose proof (widen_extent fst seen _ _ v Hv1 Hne Hx) as He
    |pose proof (widen_extent snd seen _ _ v Hv2 Hne Hy) as He];
    destruct mm as [lo hi]; unfold widen2; cbn [fst snd] in *;
    destruct (widen v.1 lo.1 hi.1), (widen v.2 lo.2 hi.2); exact He.
Qed.

Lemma extent_perm c vs vs' lo hi : vs ≡ₚ vs' → extent c vs lo hi → extent c vs' lo hi.
Proof. intros Hp (? & ? & ?). unfold extent. by rewrite <-Hp. Qed.

(** C36. After a rotation [asRect] is the least box, with sides parallel to
    the axes, that contains the four vertices, moved to the position of the
    entity: its sides are reached by vertices, and no vertex is outside. *)
Theorem asRect_extent (pos : vec3) (r : RectBoundingBox) (angle : f32) (v0 v1 v2 v3 : vec2)
    (Hr : _vertices (rect_rotate angle r) = [v0; v1; v2; v3])
    (Hnan : Forall no_nan [v0; v1; v2; v3]) :
  ∃ lo hi : vec2, ∃ r',
    rect_asRect pos (rect_rotate angle r) =
      Ok (Vec4 (lo.1 + v3x pos)%f32 (lo.2 + v3z pos)%f32 (hi.1 + v3x pos)%f32 (hi.2 + v3z pos)%f32, r') ∧
    extent fst [v0; v1; v2; v3] lo.1 hi.1 ∧ extent snd [v0; v1; v2; v3] lo.2 hi.2.
Proof.
  apply Forall_cons_1 in Hnan as [[Hx Hy] Hvs].
  pose proof (widen2_extent [v1; v2; v3] [v0] (v0, v0) ltac:(done) Hvs) as He.
  assert (∀ c : vec2 → f32, is_nan (c v0) = false → extent c [v0] (c v0) (c v0)) as H0.
  { intros c Hc. split_and!; [|by left..]. repeat constructor; by apply fle_refl. }
  specialize (He (H0 fst Hx) (H0 snd Hy)).
  destruct (foldl widen2 (v0, v0) [v1; v2; v3]) as [lo hi] eqn:Ef. destruct He as [He1 He2].
  exists lo, hi. eexists. split.
  - unfold rect_asRect, rect_normals. cbn [rect_rotate _recalcNormals] in *.
    unfold vertex. rewrite Hr. cbn [lookup list_lookup mbind outcome_bind].
    rewrite Ef. cbn. done.
  - assert (reverse [v1; v2; v3] ++ [v0] ≡ₚ [v0; v1; v2; v3]) as Hp.
    { rewrite reverse_Permutation. by rewrite (Permutation_app_comm _ [v0]). }
    split; by eapply extent_perm.
Qed.

(** ** The separating axis test *)

Lemma std_min_comm a b :
  is_nan a = false → is_nan b = false →
  std_min a b = std_min b a ∨ is_zero (std_min a b) = true ∧ is_zero (std_min b a) = true.
Proof.
  intros Ha Hb. unfold std_min. destruct (flt b a) eqn:E1, (flt a b) eqn:E2; auto.
  - rewrite (flt_asym _ _ E1) in E2. done.
  - destruct (flt_neither a b) as [->|]; auto.
Qed.

Lemma std_max_comm a b :
  is_nan a = false → is_nan b = false →
  std_max a b = std_max b a ∨ is_zero (std_max a b) = true ∧ is_zero (std_max b a) = true.
Proof.
  intros Ha Hb. unfold std_max. destruct (flt a b) eqn:E1, (flt b a) eqn:E2; auto.
  - rewrite (flt_asym _ _ E1) in E2. done.
  - destruct (flt_neither a b) as [->|]; auto.
Qed.

Lemma gap_sym p1 p2 : no_nan p1 → no_nan p2 → gap p1 p2 = gap p2 p1.
Proof.
  intros [H1 H2] [H3 H4]. unfold gap.
  trans (flt (std_min p2.2 p1.2 - std_max p1.1 p2.1)%f32 (S754_zero false)).
  - destruct (std_min_comm p1.2 p2.2) as [->|[]]; auto using fsub_zero_sign.
  - destruct (std_max_comm p1.1 p2.1) as [->|[]]; auto using fsub_zero_sign_r.
Qed.

(** The projections of [b] on [axes] are numbers. *)
Definition projects (axes : list vec2) (p : vec3) (b : BoundingBox) : Prop :=
  Forall (λ axis, ∃ v, project p b axis = Ok v ∧ no_nan v) axes.

Lemma collides_axes_sym axes pa a pb b :
  projects axes pa a → projects axes pb b →
  ∃ c, collides_axes axes pa a pb b = Ok c ∧ collides_axes axes pb b pa a = Ok c.
Proof.
  induction axes as [|axis axes IH]; intros Ha Hb; [by exists true|].
  apply Forall_cons_1 in Ha as [(va & Hva & Hna) Ha].
  apply Forall_cons_1 in Hb as [(vb & Hvb & Hnb) Hb]. cbn [collides_axes].
  rewrite Hva, Hvb. cbn [mbind outcome_bind]. rewrite (gap_sym vb va) by done.
  destruct (gap va vb); [by exists false|by apply IH].
Qed.

Lemma collides_axes_vertices axes pa a a' pb b b' :
  _vertices a = _vertices a' → _vertices b = _vertices b' →
  collides_axes axes pa (RECT a) pb (RECT b) = collides_axes axes pa (RECT a') pb (RECT b').
Proof.
  intros Ha Hb. induction axes as [|axis axes IH]; [done|]. cbn [collides_axes project].
  unfold project_rect. by rewrite Ha, Hb, IH.
Qed.

Lemma rect_normals_vertices r n r' : rect_normals r = Ok (n, r') → _vertices r' = _vertices r.
Proof.
  unfold rect_normals. destruct (_recalcNormals r); [|by intros [= _ <-]].
  destruct (vertex r 0) as [v0|], (vertex r 1) as [v1|], (vertex r 2) as [v2|], (vertex r 3) as [v3|];
    cbn [mbind outcome_bind]; try done.
  destruct (foldl widen2 (v0, v0) [v1; v2; v3]). cbn. by intros [= _ <-].
Qed.

(** C37. The separating axis test of two rectangles does not depend on their
    order: whenever the normals can be computed and the projections are
    numbers, both orders succeed with the same answer. *)
Theorem collides_rects_sym (pa pb : vec3) (a b a' b' : RectBoundingBox) (na nb : list vec2)
    (Ha : rect_normals a = Ok (na, a')) (Hb : rect_normals b = Ok (nb, b'))
    (Hpa : projects (na ++ nb) pa (RECT a)) (Hpb : projects (na ++ nb) pb (RECT b)) :
  ∃ c r1 r2, collides pa (RECT a) pb (RECT b) = Ok (c, r1, r2) ∧
    ∃ r3 r4, collides pb (RECT b) pa (RECT a) = Ok (c, r3, r4).
Proof.
  apply Forall_app in Hpa as [Hpa1 Hpa2]. apply Forall_app in Hpb as [Hpb1 Hpb2].
  destruct (collides_axes_sym na pa (RECT a) pb (RECT b)) as (c1 & H1 & H1'); [done..|].
  destruct (collides_axes_sym nb pa (RECT a) pb (RECT b)) as (c2 & H2 & H2'); [done..|].
  pose proof (rect_normals_vertices _ _ _ Ha) as Va.
  pose proof (rect_normals_vertices _ _ _ Hb) as Vb.
  exists (c1 && c2). cbn [collides]. unfold collides_rects. rewrite Ha, Hb. cbn [mbind outcome_bind].
  rewrite (collides_axes_vertices na pa a' a pb b b), H1 by done.
  rewrite (collides_axes_vertices nb pb b' b pa a a), H2' by done.
  destruct c1, c2; cbn [mbind outcome_bind].
  all: repeat (rewrite ?Ha, ?Hb; cbn [mbind outcome_bind]);
    rewrite ?(collides_axes_vertices nb pa a' a pb b' b), ?(collides_axes_vertices na pb b' b pa a' a) by done;
    rewrite ?H2, ?H1'; cbn; eauto 10.
Qed.

(** What [glm::dot] gives on the null vector. *)
Context (dot_zero : ∀ v, is_finite v.1 = true → is_finite v.2 = true → is_zero (glm_dot zero2 v) = true).

Lemma widen_zero x lo hi :
  is_zero x = true → is_zero lo = true → is_zero hi = true → widen x lo hi = (lo, hi).
Proof. by destruct x as [[]| | |], lo as [[]| | |], hi as [[]| | |]. Qed.

Definition placed (pos : vec3) (r : RectBoundingBox) : Prop :=
  _vertices r ≠ [] ∧ Forall (λ v, let w := glm_add v (position2D pos) in
                              is_finite w.1 = true ∧ is_finite w.2 = true) (_vertices r).

Lemma project_zero pos r :
  placed pos r → ∃ v, project_rect pos r zero2 = Ok v ∧ is_zero v.1 = true ∧ is_zero v.2 = true.
Proof.
  intros [Hne Hv]. unfold project_rect. destruct (_vertices r) as [|v0 vs]; [done|].
  apply Forall_cons_1 in Hv as [[? ?] Hvs]. eexists. split; [done|].
  set (d0 := glm_dot _ _). assert (is_zero d0 = true) as Hd0 by (by apply dot_zero).
  assert (∀ mm : vec2, is_zero mm.1 = true → is_zero mm.2 = true →
    foldl (λ mm v, widen (glm_dot zero2 (glm_add v (position2D pos))) mm.1 mm.2) mm vs = mm) as Hf.
  { induction Hvs as [|v vs [? ?] _ IH]; intros mm Hm1 Hm2; [done|]. cbn [foldl].
    rewrite widen_zero by (auto using dot_zero). destruct mm. by apply IH. }
  rewrite (Hf (d0, d0) Hd0 Hd0). done.
Qed.

Lemma gap_zero u v :
  is_zero u.1 = true → is_zero u.2 = true → is_zero v.1 = true → is_zero v.2 = true → gap u v = false.
Proof.
  destruct u as [[[]| | |] [[]| | |]], v as [[[]| | |] [[]| | |]]; cbn; intros; done.
Qed.

(** Two rectangles that have not been rotated since they were built
    always collide, wherever they are: the constructor leaves their normals
    null, and they are only computed when a rotation makes them stale. *)
Theorem collides_unrotated (pa pb : vec3) (va vb : list vec2)
    (Ha : placed pa (RectBoundingBox_new va)) (Hb : placed pb (RectBoundingBox_new vb)) :
  collides pa (RECT (RectBoundingBox_new va)) pb (RECT (RectBoundingBox_new vb)) =
    Ok (true, RECT (RectBoundingBox_new va), RECT (RectBoundingBox_new vb)).
Proof.
  destruct (project_zero _ _ Ha) as (ua & Hua & ? & ?).
  destruct (project_zero _ _ Hb) as (ub & Hub & ? & ?).
  assert (collides_axes [zero2; zero2] pa (RECT (RectBoundingBox_new va)) pb (RECT (RectBoundingBox_new vb))
          = Ok true) as Hc.
  { cbn [collides_axes project]. rewrite Hua, Hub. cbn [mbind outcome_bind].
    by rewrite gap_zero. }
  unfold RectBoundingBox_new in *. cbn [collides]. unfold collides_rects, rect_normals.
  cbn -[collides_axes zero2]. by rewrite Hc.
Qed.
End physics.

(** ** Examples *)
Section example.
#[local] Existing Instance plane_glm.

Definition ex_point (x y : Z) : vec2 := (f32_of_Z x, f32_of_Z y).
Definition ex_pos (x z : Z) : vec3 := Vec3 (f32_of_Z x) (f32_of_Z 0) (f32_of_Z z).
Definition ex_square : list vec2 := [ex_point (-1) (-1); ex_point (-1) 1; ex_point 1 1; ex_point 1 (-1)].
Definition ex_box : RectBoundingBox := rect_rotate (f32_of_Z 1) (RectBoundingBox_new ex_square).

Lemma asRect_extent_witness :
  ∃ lo hi : vec2, extent fst (_vertices ex_box) lo.1 hi.1 ∧ extent snd (_vertices ex_box) lo.2 hi.2.
Proof.
  destruct (asRect_extent (ex_pos 3 4) (RectBoundingBox_new ex_square) (f32_of_Z 1)
              (ex_point 1 (-1)) (ex_point (-1) (-1)) (ex_point (-1) 1) (ex_point 1 1))
    as (lo & hi & _ & _ & H1 & H2).
  - reflexivity.
  - repeat constructor.
  - exists lo, hi. split; [exact H1|exact H2].
Defined.

Lemma ex_box_normals :
  ∃ n r, rect_normals ex_box = Ok (n, r) ∧ projects (n ++ n) (ex_pos 0 0) (RECT ex_box) ∧
    projects (n ++ n) (ex_pos 5 0) (RECT ex_box).
Proof.
  eexists _, _. split; [vm_compute; reflexivity|].
  split; repeat constructor; (eexists; split; [vm_compute; reflexivity|split; reflexivity]).
Qed.

Lemma collides_rects_sym_witness :
  ∃ c r1 r2, collides (ex_pos 0 0) (RECT ex_box) (ex_pos 5 0) (RECT ex_box) = Ok (c, r1, r2) ∧
    ∃ r3 r4, collides (ex_pos 5 0) (RECT ex_box) (ex_pos 0 0) (RECT ex_box) = Ok (c, r3, r4).
Proof.
  destruct ex_box_normals as (n & r & Hn & H0 & H5).
  exact (collides_rects_sym (ex_pos 0 0) (ex_pos 5 0) ex_box ex_box r r n n Hn Hn H0 H5).
Defined.

Lemma collides_unrotated_witness :
  collides (ex_pos 0 0) (RECT (RectBoundingBox_new ex_square))
           (ex_pos 1000 0) (RECT (RectBoundingBox_new ex_square)) =
    Ok (true, RECT (RectBoundingBox_new ex_square), RECT (RectBoundingBox_new ex_square)).
Proof.
  apply collides_unrotated.
  - intros [[[]|[]| |[] ? ?] [[]|[]| |[] ? ?]]; try discriminate; try reflexivity.
  - split; [done|]. repeat constructor.
  - split; [done|]. repeat constructor.
Defined.
End example.
