(* ===== verification/QuadTree.v ===== *)
(** * The quadtree of a cell ([src/map/quadtree.hpp])

    [QuadTree] and [RadialQuadTree]: insertion with splitting, retrieval,
    tracing and clearing. The rectangle of an entity,
    [entity->boundingBox()->asRect()], is a parameter here ([rect_of], which
    can fail); [World.v] passes the entity's. The member [_vertices] of the
    class is written once and never read: it has no counterpart. *)

From Stdlib Require Import ZArith Lia Bool.
From Stdlib Require Import Floats.SpecFloat.
From stdpp Require Import base list option numbers sets.
From S2P Require Import Prelude Float32 Physics.

Inductive QTree (A : Type) :=
  | QNode (depth : Z) (bounds : vec4) (nodes : list (QTree A)) (entities : list A).
Arguments QNode {_} _ _ _ _.

Section quadtree.
Context {A : Type} (MaxEntities : nat) (MaxDepth : Z).
Context (rect_of : A → outcome vec4).

Implicit Types (t : QTree A) (b rect : vec4) (e : A).

Definition q_depth t : Z := let '(QNode d _ _ _) := t in d.
Definition q_bounds t : vec4 := let '(QNode _ b _ _) := t in b.
Definition q_nodes t : list (QTree A) := let '(QNode _ _ ns _) := t in ns.
Definition q_entities t : list A := let '(QNode _ _ _ es) := t in es.

Definition QuadTree_new (depth : Z) (bounds : vec4) : QTree A := QNode depth bounds [] [].

Definition getIndex b rect : Z :=
  let two := f32_of_Z 2 in
  let verticalMidpoint := (v4x b + (v4z b - v4x b) / two)%f32 in
  let horizontalMidpoint := (v4y b + (v4w b - v4y b) / two)%f32 in
  let topQuadrant := ((v4y rect < horizontalMidpoint)%f32 &&
                      (v4y rect + (v4w rect - v4y rect) < horizontalMidpoint)%f32) in
  let bottomQuadrant := (v4y rect > horizontalMidpoint)%f32 in
  if (v4x rect < verticalMidpoint)%f32 &&
     (v4x rect + (v4z rect - v4x rect) < verticalMidpoint)%f32 then
    if topQuadrant then 1 else if bottomQuadrant then 2 else -1
  else if (v4x rect > verticalMidpoint)%f32 then
    if topQuadrant then 0 else if bottomQuadrant then 3 else -1
  else -1.

(** [QuadTree::intersects], with the bounds. *)
Definition bounds_intersects b (start stop : vec2) : bool :=
  if (start.1 > v4x b)%f32 && (start.2 > v4y b)%f32 &&
     (stop.1 < v4z b)%f32 && (stop.2 < v4w b)%f32 then true
  else
    let width := (v4z b - v4x b)%f32 in
    let height := (v4w b - v4y b)%f32 in
    if Physics.intersects (v4x b, v4y b) (v4x b, v4y b + height)%f32 start stop then true
    else if Physics.intersects (v4x b, v4y b + height)%f32 (v4x b + width, v4y b + height)%f32 start stop
    then true
    else if Physics.intersects (v4x b + width, v4y b + height)%f32 (v4x b + width, v4y b)%f32 start stop
    then true
    else if Physics.intersects (v4x b + width, v4y b)%f32 (v4x b, v4y b) start stop then true
    else false.

(** The bounds of the four nodes that [split] creates. The arguments are
    [int]s, converted to [float]. *)
Definition split (depth : Z) b : outcome (list (QTree A)) :=
  subWidth ← f32_to_int ((v4z b - v4x b) / f32_of_Z 2)%f32;
  subHeight ← f32_to_int ((v4w b - v4y b) / f32_of_Z 2)%f32;
  x ← f32_to_int (v4x b);
  y ← f32_to_int (v4y b);
  x' ← i32 (x + subWidth);
  y' ← i32 (y + subHeight);
  let node px py :=
    QuadTree_new (depth + 1)
      (Vec4 (f32_of_Z px) (f32_of_Z py) (f32_of_Z subWidth) (f32_of_Z subHeight)) in
  mret [node x' y; node x y; node x y'; node x' y'].

(** [_nodes[index]->insert(entity)] *)
Definition insert_at (ins : A → QTree A → outcome (QTree A)) (i : Z) e (nodes : list (QTree A))
    : outcome (list (QTree A)) :=
  match nodes !! Z.to_nat i with
  | Some n => n ← ins e n; mret (<[Z.to_nat i := n]> nodes)
  | None => Fail (UB OutOfBounds)
  end.

(** The loop that moves the entities which fit into a node: the nodes, and
    the entities that stay. *)
Fixpoint redistribute (ins : A → QTree A → outcome (QTree A)) b (es : list A) (nodes : list (QTree A))
    : outcome (list (QTree A) * list A) :=
  match es with
  | [] => mret (nodes, [])
  | e :: es =>
      rect ← rect_of e;
      let index := getIndex b rect in
      if (index =? -1)%Z then
        '(nodes, rest) ← redistribute ins b es nodes;
        mret (nodes, e :: rest)
      else
        nodes ← insert_at ins index e nodes;
        redistribute ins b es nodes
  end.

Fixpoint insert (fuel : nat) e t : outcome (QTree A) :=
  match fuel with
  | O => Fail NoFuel
  | S fuel =>
      let '(QNode depth b nodes es) := t in
      index ← (match nodes with
               | [] => mret (-1)%Z
               | _ => rect ← rect_of e; mret (getIndex b rect)
               end);
      if (index =? -1)%Z then
        let es := es ++ [e] in
        if (MaxEntities <? length es) && (depth <? MaxDepth)%Z then
          nodes ← (match nodes with [] => split depth b | _ => mret nodes end);
          '(nodes, rest) ← redistribute (insert fuel) b es nodes;
          mret (QNode depth b nodes rest)
        else mret (QNode depth b nodes es)
      else
        nodes ← insert_at (insert fuel) index e nodes;
        mret (QNode depth b nodes es)
  end.

Definition start_of rect : vec2 := (v4x rect, v4y rect).

(** The four calls of [retrieve], the last of which repeats the first. *)
Definition retrieve_enters b rect : bool :=
  bounds_intersects b (v4x rect, v4y rect) (v4z rect, v4y rect) ||
  bounds_intersects b (v4x rect, v4y rect) (v4z rect, v4w rect) ||
  bounds_intersects b (v4z rect, v4y rect) (v4z rect, v4w rect) ||
  bounds_intersects b (v4x rect, v4y rect) (v4z rect, v4y rect).

(** The list that [retrieve] appends to [entities]. *)
Fixpoint retrieve rect t : list A :=
  let '(QNode _ b nodes es) := t in
  if retrieve_enters b rect then concat (retrieve rect <$> nodes) ++ es else [].

Fixpoint trace (start stop : vec2) t : list A :=
  let '(QNode _ b nodes es) := t in
  if bounds_intersects b start stop then concat (trace start stop <$> nodes) ++ es else [].

Fixpoint clear t : QTree A :=
  let '(QNode depth b nodes _) := t in QNode depth b (clear <$> nodes) [].

(** ** [RadialQuadTree] *)

Record RadialQuadTree := mkRadial { rq_tree : QTree A; rq_center : vec2; rq_radiusSqr : f32 }.

Definition RadialQuadTree_new (center : vec2) (radius : f32) : RadialQuadTree :=
  mkRadial
    (QuadTree_new 0 (Vec4 (center.1 - radius)%f32 (center.2 - radius)%f32
                          (center.1 + radius)%f32 (center.2 + radius)%f32))
    center (f32_of_f64 (pow2 radius)).

Definition contains (pos : vec2) (q : RadialQuadTree) : bool :=
  let distSqr := dadd (pow2 (pos.1 - (rq_center q).1)%f32) (pow2 (pos.2 - (rq_center q).2)%f32) in
  fle distSqr (f64_of_f32 (rq_radiusSqr q)).

(** Fuel for a tree whose root has depth 0. *)
Definition radial_insert e (q : RadialQuadTree) : outcome RadialQuadTree :=
  t ← insert (S (Z.to_nat MaxDepth)) e (rq_tree q);
  mret (mkRadial t (rq_center q) (rq_radiusSqr q)).

Definition radial_retrieve rect (q : RadialQuadTree) : list A := retrieve rect (rq_tree q).

Definition radial_clear (q : RadialQuadTree) : RadialQuadTree :=
  mkRadial (clear (rq_tree q)) (rq_center q) (rq_radiusSqr q).

(** ** Contents and well-formedness *)

Fixpoint contents t : list A :=
  let '(QNode _ _ nodes es) := t in es ++ concat (contents <$> nodes).

(** [e] fits into node [i] of a node with bounds [b]. *)
Definition fits b (i : nat) e : Prop := ∃ rect, rect_of e = Ok rect ∧ getIndex b rect = Z.of_nat i.

(** Where entities may be: at least where they fit. An entity that moves after
    it was inserted does not fit any more; [F] is then weaker than [fits]. *)
Context (F : vec4 → nat → A → Prop) (Hfits : ∀ b i e, fits b i e → F b i e).

(** A node is a leaf or has four nodes one level deeper, each of which holds
    entities that may be in it. *)
Inductive wf : Z → QTree A → Prop :=
  | wf_leaf d b es : (d ≤ MaxDepth)%Z → wf d (QNode d b [] es)
  | wf_node d b nodes es :
      (d < MaxDepth)%Z → length nodes = 4 →
      (∀ i n, nodes !! i = Some n → wf (d + 1) n ∧ ∀ e, e ∈ contents n → F b i e) →
      wf d (QNode d b nodes es).

(** ** Insertion *)

Lemma getIndex_range b rect : (-1 ≤ getIndex b rect < 4)%Z.
Proof. unfold getIndex. repeat case_match; lia. Qed.

Lemma wf_depth d t : wf d t → q_depth t = d ∧ (d ≤ MaxDepth)%Z.
Proof. intros []; cbn; lia. Qed.

(** The nodes of a node of depth [d] with bounds [b]. *)
Definition nodes_ok (d : Z) b (nodes : list (QTree A)) : Prop :=
  length nodes = 4 ∧
  ∀ i n, nodes !! i = Some n → wf (d + 1) n ∧ ∀ e, e ∈ contents n → F b i e.

Definition all_contents (nodes : list (QTree A)) : list A := concat (contents <$> nodes).

Lemma all_contents_insert nodes i n n' e :
  nodes !! i = Some n → contents n' ≡ₚ e :: contents n →
  all_contents (<[i := n']> nodes) ≡ₚ e :: all_contents nodes.
Proof.
  intros Hn Hp. unfold all_contents. revert i Hn. induction nodes as [|m nodes IH]; intros i Hn; [done|].
  destruct i as [|i]; cbn in Hn |- *.
  - simplify_eq. by rewrite Hp.
  - rewrite (IH i Hn). by rewrite Permutation_middle.
Qed.

(** What fails comes from the rectangle of an entity, or from a coordinate
    that is no [int]. *)
Definition excused (es : list A) (f : failure) : Prop :=
  f = UB IntOverflow ∨ ∃ e, e ∈ es ∧ rect_of e = Fail f.

(** [r] is the tree [t] with [e] inserted. *)
Definition inserted (d : Z) e t (r : outcome (QTree A)) : Prop :=
  match r with
  | Ok t' => wf d t' ∧ contents t' ≡ₚ e :: contents t
  | Fail f => excused (e :: contents t) f
  end.

(** [ins] inserts into the trees of depth [d]. *)
Definition inserter (d : Z) (ins : A → QTree A → outcome (QTree A)) : Prop :=
  ∀ e t, wf d t → inserted d e t (ins e t).

Lemma excused_mono es es' f : es ⊆ es' → excused es f → excused es' f.
Proof. intros Hs [->|(e & He & Hr)]; [by left|right; eauto]. Qed.

Lemma insert_at_ok ins d b i e nodes :
  inserter (d + 1) ins → nodes_ok d b nodes → (0 ≤ i < 4)%Z → fits b (Z.to_nat i) e →
  match insert_at ins i e nodes with
  | Ok nodes' => nodes_ok d b nodes' ∧ all_contents nodes' ≡ₚ e :: all_contents nodes
  | Fail f => excused (e :: all_contents nodes) f
  end.
Proof.
  intros Hins [Hlen Hok] Hi Hfit. unfold insert_at.
  destruct (lookup_lt_is_Some_2 nodes (Z.to_nat i)) as [n Hn]; [lia|]. rewrite Hn.
  destruct (Hok _ _ Hn) as [Hwf HF]. specialize (Hins e n Hwf). unfold inserted in Hins.
  destruct (ins e n) as [n'|f]; cbn.
  - destruct Hins as [Hwf' Hp]. split; [|by eapply all_contents_insert].
    split; [by rewrite length_insert|]. intros j m Hj.
    apply list_lookup_insert_Some in Hj as [(Hj1 & Hj2 & _)|[_ Hj]]; [subst j m|by apply Hok].
    split; [done|]. intros e'. rewrite Hp. by intros [->|?]%elem_of_cons; [apply Hfits|apply HF].
  - eapply excused_mono; [|exact Hins]. intros e' [->|He]%elem_of_cons; [by left|right].
    apply list_elem_of_In, in_concat. exists (contents n). split; [|by apply list_elem_of_In].
    apply list_elem_of_In, list_elem_of_fmap. exists n. split; [done|]. by eapply list_elem_of_lookup_2.
Qed.

Lemma redistribute_ok ins d b es nodes :
  inserter (d + 1) ins → nodes_ok d b nodes →
  match redistribute ins b es nodes with
  | Ok (nodes', rest) => nodes_ok d b nodes' ∧ rest ++ all_contents nodes' ≡ₚ es ++ all_contents nodes
  | Fail f => excused (es ++ all_contents nodes) f
  end.
Proof.
  intros Hins. revert nodes. induction es as [|e es IH]; intros nodes Hok; [done|].
  cbn [redistribute]. destruct (rect_of e) as [rect|f] eqn:Er; cbn [mbind outcome_bind].
  2: { right. exists e. split; [by left|done]. }
  destruct (Z.eqb_spec (getIndex b rect) (-1)) as [Hi|Hi].
  - specialize (IH nodes Hok). destruct (redistribute ins b es nodes) as [[nodes' rest]|f]; cbn.
    + destruct IH as [? IH]. split; [done|]. by rewrite IH.
    + eapply excused_mono; [|exact IH]. set_solver.
  - pose proof (getIndex_range b rect) as Hr.
    assert (fits b (Z.to_nat (getIndex b rect)) e) as Hfit.
    { exists rect. split; [done|]. lia. }
    pose proof (insert_at_ok ins d b (getIndex b rect) e nodes Hins Hok ltac:(lia) Hfit) as Hat.
    destruct (insert_at _ _ e nodes) as [nodes1|f]; cbn [mbind outcome_bind].
    + destruct Hat as [Hok1 Hp1]. specialize (IH nodes1 Hok1).
      destruct (redistribute ins b es nodes1) as [[nodes' rest]|f].
      * destruct IH as [? IH]. split; [done|]. rewrite IH, Hp1. by rewrite <-Permutation_middle.
      * eapply excused_mono; [|exact IH]. intros x. rewrite elem_of_app, Hp1. set_solver.
    + eapply excused_mono; [|exact Hat]. set_solver.
Qed.

Lemma wf_node_intro d b nodes es :
  (d < MaxDepth)%Z → nodes_ok d b nodes → wf d (QNode d b nodes es).
Proof. intros ? [? ?]. by constructor. Qed.

(** The nodes of [split] are four empty leaves. *)
Lemma split_ok d b :
  (d < MaxDepth)%Z →
  match split d b with
  | Ok nodes => nodes_ok d b nodes ∧ all_contents nodes = []
  | Fail f => f = UB IntOverflow
  end.
Proof.
  intros Hd.
  assert (∀ z f, i32 z = Fail f → f = UB IntOverflow) as Hi.
  { intros z f. unfold i32. destruct (in_i32 z); congruence. }
  assert (∀ x f, f32_to_int x = Fail f → f = UB IntOverflow) as Hf.
  { intros x f. unfold f32_to_int. destruct (ftrunc x); [apply Hi|congruence]. }
  unfold split.
  destruct (f32_to_int ((v4z b - v4x b) / f32_of_Z 2)%f32) as [sw|f] eqn:E1; [|exact (Hf _ _ E1)].
  destruct (f32_to_int ((v4w b - v4y b) / f32_of_Z 2)%f32) as [sh|f] eqn:E2; [|exact (Hf _ _ E2)].
  destruct (f32_to_int (v4x b)) as [x|f] eqn:E3; [|exact (Hf _ _ E3)].
  destruct (f32_to_int (v4y b)) as [y|f] eqn:E4; [|exact (Hf _ _ E4)]. cbn [mbind outcome_bind].
  destruct (i32 (x + sw)) as [x'|f] eqn:E5; [|exact (Hi _ _ E5)].
  destruct (i32 (y + sh)) as [y'|f] eqn:E6; [|exact (Hi _ _ E6)]. cbn [mbind outcome_bind].
  cbn [mret outcome_ret]. split; [|done]. split; [done|]. intros i n Hn.
  do 4 (destruct i as [|i]; [cbn in Hn; simplify_eq; split;
    [constructor; lia|by intros ? []%elem_of_nil]|]). done.
Qed.

Lemma insert_ok fuel d :
  (MaxDepth - d < Z.of_nat fuel)%Z → inserter d (insert fuel).
Proof.
  revert d. induction fuel as [|fuel IH]; intros d Hfuel e t Hwf.
  { apply wf_depth in Hwf. lia. }
  destruct Hwf as [d b es Hd|d b nodes es Hd Hlen Hok]; cbn [insert].
  - cbn [mret outcome_ret mbind outcome_bind]. rewrite Z.eqb_refl.
    destruct (_ && _) eqn:Hsplit.
    + apply andb_true_iff in Hsplit as [_ Hd'%Z.ltb_lt].
      pose proof (split_ok d b Hd') as Hs. destruct (split d b) as [nodes|f]; [|by left].
      destruct Hs as [Hok Hnil]. cbn [mbind outcome_bind].
      pose proof (redistribute_ok (insert fuel) d b (es ++ [e]) nodes (IH (d + 1)%Z ltac:(lia)) Hok) as Hr.
      rewrite Hnil, app_nil_r in Hr.
      destruct (redistribute _ b (es ++ [e]) nodes) as [[nodes' rest]|f]; cbn.
      * destruct Hr as [Hok' Hp]. split; [by apply wf_node_intro|].
        fold (all_contents nodes'). rewrite Hp. by rewrite app_nil_r, Permutation_app_comm.
      * eapply excused_mono; [|exact Hr]. cbn. set_solver.
    + split; [by constructor|]. cbn. rewrite !app_nil_r. by rewrite Permutation_app_comm.
  - assert (nodes_ok d b nodes) as Hnodes by done.
    destruct nodes as [|n0 nodes]; [done|]. remember (n0 :: nodes) as ns eqn:Hns. clear Hns n0 nodes Hok.
    destruct (rect_of e) as [rect|f] eqn:Er; cbn [mbind outcome_bind mret outcome_ret].
    2: { right. exists e. split; [by left|done]. }
    destruct (Z.eqb_spec (getIndex b rect) (-1)) as [Hi|Hi].
    + destruct (_ && _).
      * pose proof (redistribute_ok (insert fuel) d b (es ++ [e]) ns (IH (d + 1)%Z ltac:(lia)) Hnodes) as Hr.
        destruct (redistribute _ b (es ++ [e]) ns) as [[nodes' rest]|f]; cbn.
        -- destruct Hr as [Hok' Hp]. split; [by apply wf_node_intro|].
           fold (all_contents nodes') (all_contents ns). rewrite Hp.
           by rewrite (Permutation_app_comm es [e]).
        -- eapply excused_mono; [|exact Hr]. cbn. fold (all_contents ns). set_solver.
      * split; [by apply wf_node_intro|]. cbn. fold (all_contents ns).
        by rewrite (Permutation_app_comm es [e]).
    + pose proof (getIndex_range b rect).
      pose proof (insert_at_ok (insert fuel) d b (getIndex b rect) e ns (IH (d + 1)%Z ltac:(lia)) Hnodes
                    ltac:(lia)) as Hat.
      specialize (Hat ltac:(exists rect; split; [done|lia])).
      destruct (insert_at _ _ e ns) as [nodes'|f]; cbn.
      * destruct Hat as [Hok' Hp]. split; [by apply wf_node_intro|].
        fold (all_contents nodes') (all_contents ns). rewrite Hp. by rewrite Permutation_middle.
      * eapply excused_mono; [|exact Hat]. cbn. fold (all_contents ns). set_solver.
Qed.

(** What [radial_insert] returns. *)
Definition radially_inserted (e : A) (q : RadialQuadTree) (r : outcome RadialQuadTree) : Prop :=
  match r with
  | Ok q' => wf 0 (rq_tree q') ∧ contents (rq_tree q') ≡ₚ e :: contents (rq_tree q) ∧
             rq_center q' = rq_center q ∧ rq_radiusSqr q' = rq_radiusSqr q
  | Fail f => excused (e :: contents (rq_tree q)) f
  end.

Lemma radial_insert_ok e q : wf 0 (rq_tree q) → radially_inserted e q (radial_insert e q).
Proof.
  intros Hwf. pose proof (insert_ok (S (Z.to_nat MaxDepth)) 0 ltac:(lia) e (rq_tree q) Hwf) as Hi.
  unfold radially_inserted, radial_insert, inserted in *. destruct (insert _ e (rq_tree q)) as [t|f]; cbn; [|done].
  by destruct Hi.
Qed.

(** Induction over a well-formed tree. *)
Lemma wf_rect (P : Z → QTree A → Prop) :
  (∀ d b nodes es, wf d (QNode d b nodes es) → Forall (P (d + 1)%Z) nodes → P d (QNode d b nodes es)) →
  ∀ d t, wf d t → P d t.
Proof.
  intros Hnode. cut (∀ k d t, (MaxDepth - d < Z.of_nat k)%Z → wf d t → P d t).
  { intros Hk d t. apply (Hk (S (Z.to_nat (MaxDepth - d)))). lia. }
  induction k as [|k IH]; intros d t Hd Hwf.
  { apply wf_depth in Hwf. lia. }
  pose proof Hwf as Hwf'. destruct Hwf as [d b es ?|d b nodes es ? _ Hok]; (apply Hnode; [done|]); [done|].
  apply Forall_lookup. intros i n Hn. apply IH; [lia|]. by destruct (Hok i n Hn).
Qed.

Lemma concat_submseteq (f g : QTree A → list A) (nodes : list (QTree A)) :
  Forall (λ n, f n ⊆+ g n) nodes → concat (f <$> nodes) ⊆+ concat (g <$> nodes).
Proof. induction 1 as [|n nodes Hn _ IH]; [done|]. cbn. by apply submseteq_app. Qed.

Lemma retrieve_ok rect start stop d t : wf d t →
  retrieve rect t ⊆+ contents t ∧ trace start stop t ⊆+ contents t ∧
  wf d (clear t) ∧ contents (clear t) = [].
Proof.
  revert d t. apply wf_rect. intros d b nodes es Hwf Hn.
  assert (concat (contents <$> (clear <$> nodes)) = []) as Hc.
  { clear Hwf. induction Hn as [|n nodes (_ & _ & _ & Hn) _ IH]; [done|]. cbn. by rewrite Hn, IH. }
  split_and!.
  - cbn. destruct (retrieve_enters b rect); [|apply submseteq_nil_l].
    rewrite (Permutation_app_comm es). apply submseteq_app; [|done].
    apply concat_submseteq. eapply Forall_impl; [exact Hn|]. by intros n [? _].
  - cbn. destruct (bounds_intersects b start stop); [|apply submseteq_nil_l].
    rewrite (Permutation_app_comm es). apply submseteq_app; [|done].
    apply concat_submseteq. eapply Forall_impl; [exact Hn|]. by intros n (_ & ? & _).
  - rewrite Forall_lookup in Hn. inversion_clear Hwf as [|? ? ? ? Hd Hlen Hok]; [by constructor|].
    cbn. constructor; [done|by rewrite length_fmap|]. intros i n Hi.
    apply list_lookup_fmap_Some in Hi as (m & -> & Hm).
    destruct (Hn i m Hm) as (_ & _ & Hwf & Hnil). split; [done|].
    rewrite Hnil. by intros ? []%elem_of_nil.
  - done.
Qed.

End quadtree.

(** C15. Inserting an entity into the quadtree of a cell terminates (the depth
    is bounded) and loses nothing: the entities of the new tree are those of
    the old one and the new one, each in a node into whose quadrant it fits.
    It fails only if a rectangle cannot be computed or a coordinate is no
    [int]. *)
Theorem radial_insert_spec {A : Type} (MaxEntities : nat) (MaxDepth : Z) (rect_of : A → outcome vec4)
    (e : A) (q : RadialQuadTree) (Hwf : wf MaxDepth (fits rect_of) 0 (rq_tree q)) :
  match radial_insert MaxEntities MaxDepth rect_of e q with
  | Ok q' => wf MaxDepth (fits rect_of) 0 (rq_tree q') ∧ contents (rq_tree q') ≡ₚ e :: contents (rq_tree q) ∧
             rq_center q' = rq_center q ∧ rq_radiusSqr q' = rq_radiusSqr q
  | Fail f => excused rect_of (e :: contents (rq_tree q)) f
  end.
Proof. by apply (radial_insert_ok _ _ _ (fits rect_of)). Qed.

(** ** An example: entities are their rectangles *)

Definition ex_rect (x0 y0 x1 y1 : Z) : vec4 := Vec4 (f32_of_Z x0) (f32_of_Z y0) (f32_of_Z x1) (f32_of_Z y1).

Definition ex_insert : vec4 → @RadialQuadTree vec4 → outcome (@RadialQuadTree vec4) :=
  radial_insert 5 10 Ok.

(** A cell around (50, 50) with five entities in one corner, and a sixth. *)
Definition ex_empty : @RadialQuadTree vec4 := RadialQuadTree_new (f32_of_Z 50, f32_of_Z 50) (f32_of_Z 50).
Definition ex_corner : list vec4 :=
  [ex_rect 1 1 2 2; ex_rect 3 1 4 2; ex_rect 5 1 6 2; ex_rect 7 1 8 2; ex_rect 9 1 10 2].
Definition ex_sixth : vec4 := ex_rect 70 70 80 80.

Fixpoint insert_each (es : list vec4) (q : @RadialQuadTree vec4) : outcome (@RadialQuadTree vec4) :=
  match es with
  | [] => Ok q
  | e :: es => q ← ex_insert e q; insert_each es q
  end.

Lemma radial_insert_spec_witness :
  ∃ q, ex_insert ex_sixth ex_empty = Ok q ∧ contents (rq_tree q) ≡ₚ [ex_sixth].
Proof.
  pose proof (radial_insert_spec 5 10 Ok ex_sixth ex_empty) as H.
  unfold ex_insert. destruct (radial_insert 5 10 Ok ex_sixth ex_empty) as [q|f] eqn:E.
  - exists q. split; [reflexivity|]. apply H. constructor. lia.
  - exfalso. vm_compute in E. discriminate.
Defined.


(** Queries are incomplete once a node has split: [split] passes a size
    where [QuadTree] expects the far corner, so the nodes have the wrong
    bounds. In a cell that holds six entities, the query for the rectangle of
    the sixth one does not return it, although it is stored. *)
Theorem retrieve_incomplete :
  ∃ q, insert_each (ex_corner ++ [ex_sixth]) ex_empty = Ok q ∧
    ex_sixth ∈ contents (rq_tree q) ∧ ex_sixth ∉ radial_retrieve ex_sixth q.
Proof.
  eexists. split; [vm_compute; reflexivity|].
  split; apply (bool_decide_unpack _); vm_compute; exact I.
Qed.
