(* ===== verification/Bezier.v ===== *)
(** * Bezier curves ([src/movement/movement_generator.hpp])

    The cubic curve, its version with precomputed arc lengths
    ([SegmentedBezier<len>]) whose [map] searches them by bisection, and its
    version with a precomputed derivative ([DerivativeBezier]). Coordinates are
    binary32; the template parameter [len] is an argument. *)

From Stdlib Require Import ZArith Lia.
From Stdlib Require Import Floats.SpecFloat.
From stdpp Require Import base list option numbers.
From S2P Require Import Prelude Float32.

Record Bezier := mkBezier { _a : vec2; _b : vec2; _c : vec2; _d : vec2 }.

(** [_segments] has [len + 1] elements. *)
Record SegmentedBezier := mkSegmented { sb_curve : Bezier; _segments : list f32; _length : f32 }.

Record DerivativeBezier := mkDerivative { db_curve : Bezier; _dv1 : vec2; _dv2 : vec2; _dv3 : vec2 }.

Section bezier.
Context `{Glm}.

(** [Bezier::calc] *)
Definition calc (curve : Bezier) (t : f32) : vec2 :=
  let u := (f32_of_Z 1 - t)%f32 in
  let tt := (t * t)%f32 in
  let uu := (u * u)%f32 in
  let uuu := (uu * u)%f32 in
  let ttt := (tt * t)%f32 in
  let p := glm_scale (_a curve) uuu in
  let p := glm_add p (glm_scale (_b curve) (f32_of_Z 3 * uu * t)%f32) in
  let p := glm_add p (glm_scale (_c curve) (f32_of_Z 3 * u * tt)%f32) in
  glm_add p (glm_scale (_d curve) ttt).

(** ** [SegmentedBezier] *)

(** The loop of the constructor from [i] on: the lengths, and the total. *)
Fixpoint measure (curve : Bezier) (len : Z) (todo : nat) (i : Z) (origin : vec2) (total : f32)
    : list f32 * f32 :=
  match todo with
  | O => ([], total)
  | S todo =>
      let p := calc curve (f32_of_Z i * (f32_of_Z 1 / f32_of_Z len))%f32 in
      let total := (total + glm_distance p origin)%f32 in
      let '(segments, final) := measure curve len todo (i + 1) p total in
      (total :: segments, final)
  end.

Definition SegmentedBezier_new (len : nat) (curve : Bezier) : SegmentedBezier :=
  let zero := f32_of_Z 0 in
  let '(segments, total) := measure curve (Z.of_nat len) len 1 (calc curve zero) zero in
  mkSegmented curve (zero :: segments) total.

(** [_segments[i]], undefined outside the array. *)
Definition segment (segments : list f32) (i : Z) : outcome f32 :=
  if (i <? 0)%Z then Fail (UB OutOfBounds)
  else match segments !! Z.to_nat i with Some s => Ok s | None => Fail (UB OutOfBounds) end.

(** The bisection: the last [index]. *)
Fixpoint bisect (fuel : nat) (segments : list f32) (target : f32) (low high index : Z) : outcome Z :=
  if (low <? high)%Z then
    match fuel with
    | O => Fail NoFuel
    | S fuel =>
        let index := (low + (high - low) / 2)%Z in
        s ← segment segments index;
        if (s < target)%f32 then bisect fuel segments target (index + 1) high index
        else bisect fuel segments target low index index
    end
  else Ok index.

(** [SegmentedBezier::map] *)
Definition map_length (len : nat) (segments : list f32) (t : f32) : outcome f32 :=
  last ← segment segments (Z.of_nat len);
  let targetLength := (t * last)%f32 in
  index ← bisect len segments targetLength 0 (Z.of_nat len) 0;
  s ← segment segments index;
  let index := if (s > targetLength)%f32 then (index - 1)%Z else index in
  lengthBefore ← segment segments index;
  if feq lengthBefore targetLength then mret (f32_of_Z index / f32_of_Z (Z.of_nat len))%f32
  else
    after ← segment segments (index + 1);
    mret ((f32_of_Z index + (targetLength - lengthBefore) / (after - lengthBefore))
            / f32_of_Z (Z.of_nat len))%f32.

Definition segmented_increase (s : SegmentedBezier) (t speed : f32) : f32 := (speed / _length s)%f32.

Definition segmented_next (len : nat) (s : SegmentedBezier) (t : f32) : outcome vec2 :=
  u ← map_length len (_segments s) t; mret (calc (sb_curve s) u).

(** ** The bisection *)

Section bisection.
Variables (segments : list f32) (target : f32) (len : nat).
Hypothesis (Hlen : length segments = S len).
Hypothesis (Hnan : Forall (λ s, is_nan s = false) segments).
Hypothesis (Htarget : is_nan target = false).

(** [_segments[i]] is below the target, and is not. *)
Definition under (i : Z) : Prop := ∃ s, segment segments i = Ok s ∧ flt s target = true.
Definition over (i : Z) : Prop := ∃ s, segment segments i = Ok s ∧ flt s target = false.

Lemma segment_ok i : (0 ≤ i ≤ Z.of_nat len)%Z →
  ∃ s, segment segments i = Ok s ∧ segments !! Z.to_nat i = Some s ∧ is_nan s = false.
Proof.
  intros Hi. unfold segment. destruct (Z.ltb_spec i 0); [lia|].
  destruct (lookup_lt_is_Some_2 segments (Z.to_nat i)) as [s Hs]; [lia|]. rewrite Hs.
  exists s. split_and!; [done|done|]. by apply (Forall_lookup_1 _ _ _ _ Hnan Hs).
Qed.

(** The loop ends where the segments stop being below the target, just before
    or just after the last index it looked at. *)
Lemma bisect_spec fuel low high index :
  (0 ≤ low < high)%Z → (high ≤ Z.of_nat len)%Z → (high - low ≤ Z.of_nat fuel)%Z →
  (low = 0 ∨ under (low - 1))%Z → (high = Z.of_nat len ∨ over high) →
  ∃ i, bisect fuel segments target low high index = Ok i ∧ (0 ≤ i < Z.of_nat len)%Z ∧
    ((under i ∧ (i + 1 = Z.of_nat len ∨ over (i + 1)))%Z ∨ (over i ∧ (i = 0 ∨ under (i - 1)))%Z).
Proof.
  revert low high index. induction fuel as [|fuel IH]; intros low high index Hlow Hhigh Hfuel Hl Hh; [lia|].
  cbn [bisect]. destruct (Z.ltb_spec low high); [|lia].
  set (m := (low + (high - low) / 2)%Z).
  assert (low ≤ m < high)%Z as Hm.
  { pose proof (Z.div_le_lower_bound (high - low) 2 0). pose proof (Z.div_lt_upper_bound (high - low) 2 (high - low)). lia. }
  destruct (segment_ok m) as (s & Hs & _); [lia|]. rewrite Hs. unfold mbind, outcome_bind.
  destruct (flt s target) eqn:Hlt.
  - destruct (decide (m + 1 = high)%Z) as [Heq|Hne].
    + exists m. rewrite Heq. split_and!; [|lia|lia|].
      { destruct fuel; cbn [bisect]; by rewrite Z.ltb_irrefl. }
      left. split; [by exists s|]. destruct Hh as [->|Ho]; [by left|by right].
    + apply IH; [lia|lia|lia| |done]. right. exists s. by replace (m + 1 - 1)%Z with m by lia.
  - destruct (decide (m = low)) as [Heq|Hne].
    + exists m. rewrite <-Heq at 1. split_and!; [|lia|lia|].
      { destruct fuel; cbn [bisect]; by rewrite Z.ltb_irrefl. }
      right. split; [by exists s|]. by rewrite Heq.
    + apply IH; [lia|lia|lia|done|]. right. by exists s.
Qed.

Hypothesis (Hmono : ∀ i x y, segments !! i = Some x → segments !! S i = Some y → fle x y = true).
Hypothesis (Hpos : (0 < len)%nat).
Hypothesis (Hfirst : ∀ x, segments !! 0 = Some x → fle x target = true).
Hypothesis (Hlast : ∀ x, segments !! len = Some x → fle target x = true).

Lemma lookup_segment i s : segment segments i = Ok s → (0 ≤ i)%Z ∧ segments !! Z.to_nat i = Some s.
Proof.
  unfold segment. destruct (Z.ltb_spec i 0); [done|]. destruct (segments !! Z.to_nat i) eqn:E; [|done].
  intros [= ->]. split; [lia|done].
Qed.

(** The index after the correction: its segment contains the target. *)
Lemma bracket :
  ∃ i s, bisect len segments target 0 (Z.of_nat len) 0 = Ok i ∧ segment segments i = Ok s ∧
    let j := if flt target s then (i - 1)%Z else i in
    ∃ k before after, j = Z.of_nat k ∧ (k < len)%nat ∧ segments !! k = Some before ∧ segments !! S k = Some after ∧
      fle before target = true ∧ fle target after = true.
Proof.
  destruct (bisect_spec len 0 (Z.of_nat len) 0) as (i & Hi & Hr & Hc); [lia|lia|lia|by left|by left|].
  destruct (segment_ok i) as (s & Hs & Hsi & Hns); [lia|]. exists i, s. split; [done|]. split; [done|].
  destruct (segment_ok (i + 1)) as (s' & Hs' & Hsi' & Hns'); [lia|].
  replace (Z.to_nat (i + 1)) with (S (Z.to_nat i)) in Hsi' by lia.
  destruct Hc as [[(x & Hx & Hlt) Hnext]|[(x & Hx & Hge) Hprev]]; rewrite Hs in Hx; injection Hx as <-.
  - rewrite (flt_asym _ _ Hlt). exists (Z.to_nat i), s, s'. split_and!; try done; try lia.
    + by apply flt_fle.
    + destruct Hnext as [He|(x & Hx & Hge)].
      * apply Hlast. rewrite <-Hsi'. f_equal. lia.
      * rewrite Hs' in Hx. injection Hx as <-. by apply flt_false_fle.
  - destruct (flt target s) eqn:Hgt.
    + assert (0 < i)%Z as Hi0.
      { destruct (decide (i = 0)%Z) as [->|]; [|lia]. pose proof (Hfirst s Hsi) as Hle.
        by rewrite (fle_flt_total s target), Hle in Hgt. }
      destruct Hprev as [->|(x & Hx & Hlt)]; [lia|]. apply lookup_segment in Hx as [_ Hx].
      exists (Z.to_nat (i - 1)), x, s. replace (S (Z.to_nat (i - 1))) with (Z.to_nat i) by lia.
      split_and!; try done; try lia; by apply flt_fle.
    + pose proof (flt_false_fle _ _ Htarget Hns Hgt) as Hle. exists (Z.to_nat i), s, s'. split_and!; try done; try lia.
      eapply fle_trans; [by apply (flt_false_fle s target)|by apply (Hmono (Z.to_nat i))].
Qed.
End bisection.

(** C38. The inverse of the arc length is found by bisection: for a target
    within the lengths, and lengths that do not decrease, the loop ends, every
    access is inside the array, and the parameter is interpolated in a segment
    that contains the target. *)
Theorem map_length_spec (len : nat) (segments : list f32) (t last : f32)
    (Hpos : 0 < len) (Hlen : length segments = S len)
    (Hnan : Forall (λ s, is_nan s = false) segments)
    (Hmono : ∀ i x y, segments !! i = Some x → segments !! S i = Some y → fle x y = true)
    (Hlast : segments !! len = Some last)
    (Hfirst : ∀ x, segments !! 0 = Some x → fle x (t * last)%f32 = true)
    (Hwithin : fle (t * last)%f32 last = true) :
  ∃ i before after, i < len ∧ segments !! i = Some before ∧ segments !! S i = Some after ∧
    fle before (t * last)%f32 = true ∧ fle (t * last)%f32 after = true ∧
    map_length len segments t = Ok
      (if feq before (t * last)%f32 then (f32_of_Z (Z.of_nat i) / f32_of_Z (Z.of_nat len))%f32
       else ((f32_of_Z (Z.of_nat i) + (t * last - before) / (after - before)) / f32_of_Z (Z.of_nat len))%f32).
Proof.
  set (target := (t * last)%f32) in *.
  destruct (bracket segments target len) as (i & s & Hi & Hs & k & before & after & Hk & Hkl & Hb & Ha & H1 & H2);
    [done|done|exact (proj1 (fle_not_nan _ _ Hwithin))|done|done|done|intros x Hx; congruence|].
  exists k, before, after. split_and!; [done..|].
  assert (∀ n x, segments !! n = Some x → segment segments (Z.of_nat n) = Ok x) as Hseg.
  { intros n x Hx. unfold segment. destruct (Z.ltb_spec (Z.of_nat n) 0); [lia|]. by rewrite Nat2Z.id, Hx. }
  unfold map_length, mbind, outcome_bind. rewrite (Hseg len last Hlast). fold target. rewrite Hi, Hs.
  cbv zeta. rewrite Hk, (Hseg k before Hb). destruct (feq before target); [done|].
  replace (Z.of_nat k + 1)%Z with (Z.of_nat (S k)) by lia. by rewrite (Hseg (S k) after Ha).
Qed.

(** ** [DerivativeBezier] *)

Definition DerivativeBezier_new (a b c d : vec2) : DerivativeBezier :=
  let k n v := glm_scale v (f32_of_Z n) in
  mkDerivative (mkBezier a b c d)
    (glm_add (glm_sub (glm_add (k (-3)%Z a) (k 9%Z b)) (k 9%Z c)) (k 3%Z d))
    (glm_add (glm_sub (k 6%Z a) (k 12%Z b)) (k 6%Z c))
    (glm_add (k (-3)%Z a) (k 3%Z b)).

Definition derivative_increase (curve : DerivativeBezier) (t speed : f32) : f32 :=
  let v := glm_add (glm_add (glm_scale (_dv1 curve) (t * t)%f32) (glm_scale (_dv2 curve) t)) (_dv3 curve) in
  (speed / glm_length v)%f32.

Definition derivative_next (curve : DerivativeBezier) (t : f32) : vec2 := calc (db_curve curve) t.
End bezier.

(** ** A line to run the bisection on *)

Section example.
#[local] Existing Instance plane_glm.

Definition ex_line : Bezier :=
  let p x := (f32_of_Z x, f32_of_Z 0) in mkBezier (p 0%Z) (p 8%Z) (p 16%Z) (p 24%Z).
Definition ex_segments : list f32 := _segments (SegmentedBezier_new 4 ex_line).
Definition ex_half : f32 := (f32_of_Z 1 / f32_of_Z 2)%f32.

Lemma map_length_spec_witness :
  ∃ i, i < 4 ∧ is_Some (ex_segments !! S i) ∧ is_Some (ex_segments !! i) ∧
    map_length 4 ex_segments ex_half = Ok ex_half.
Proof.
  destruct (map_length_spec 4 ex_segments ex_half (f32_of_Z 24)) as (i & before & after & Hi & Hb & Ha & _).
  - lia.
  - by vm_compute.
  - vm_compute. repeat constructor.
  - intros i x y Hx Hy. do 4 (destruct i as [|i]; [vm_compute in Hx, Hy; injection Hx as <-; injection Hy as <-; by vm_compute|]).
    apply lookup_lt_Some in Hy. vm_compute in Hy. lia.
  - by vm_compute.
  - intros x Hx. vm_compute in Hx. injection Hx as <-. by vm_compute.
  - by vm_compute.
  - exists i. split_and!; [done|by exists after|by exists before|by vm_compute].
Defined.
End example.
