(* ===== verification/World.v ===== *)
(** * The state of the world

    The data of [src/map/] ([cell.hpp], [map.hpp], [map_aware_entity.hpp],
    [map_operation.hpp], [map-cluster/cluster.hpp]) and of the clients
    ([src/server/client.hpp]): objects live in heaps indexed by their address,
    pointers are addresses (of type [positive]; [option positive] where the
    sources use [nullptr]), and looking up a destroyed object is a failure.

    [Runtime] gathers what the sources use and do not define: the queues and
    the graph of boost, the allocator of the cells, the order in which an
    unordered container is traversed, the virtual functions an application
    defines, and whether assertions are compiled. *)

From Stdlib Require Import ZArith Lia.
From Stdlib Require Import Floats.SpecFloat.
From stdpp Require Import base list gmap option numbers sets relations.
From S2P Require Import Prelude Float32 Offset Hex Lockfree Physics QuadTree.

(** ** Operations that wait in queues *)

Inductive MapOperationType := ADD_ENTITY | REMOVE_ENTITY | DESTROY.

Record MapOperation := mkMapOperation {
  mo_type : MapOperationType;
  mo_offset : Offset;
  mo_entity : option positive;
  mo_param : option positive;
}.

Inductive ClusterOperationType := KEEP | UNKEEP.

#[export] Instance ClusterOperationType_eq_dec : EqDecision ClusterOperationType.
Proof. solve_decision. Defined.

Record ClusterOperation := mkClusterOperation {
  co_type : ClusterOperationType;
  co_entity : positive;
}.

#[export] Instance ClusterOperation_eq_dec : EqDecision ClusterOperation.
Proof. solve_decision. Defined.

Inductive OperationType := ACCEPT | CLOSE.
#[export] Instance OperationType_eq_dec : EqDecision OperationType.
Proof. solve_decision. Defined.

Record ServerOperation := mkServerOperation { so_type : OperationType; so_client : positive }.

(** ** What the sources do not define *)

Class Runtime := {
  rt_glm :: Glm;
  rt_map_queue :: Lockfree MapOperation;
  rt_cluster_queue :: Lockfree ClusterOperation;
  rt_server_queue :: Lockfree ServerOperation;
  (* boost::adjacency_list<vecS, vecS, undirectedS> *)
  rt_graph : Type;
  rt_no_graph : rt_graph;
  rt_add_vertex : rt_graph → nat * rt_graph;
  rt_add_edge : nat → nat → rt_graph → rt_graph;
  rt_order : rt_graph → nat;
  rt_edges : rt_graph → list (nat * nat);
  rt_connected_components : rt_graph → nat * list nat;
  (* boost::object_pool<Cell>: the address of a new cell *)
  rt_alloc : gset positive → positive;
  (* the traversal of unordered_set<Cell*> and unordered_map<uint64_t, MapAwareEntity*> *)
  rt_cells_in_order : gset positive → list positive;
  rt_entities_in_order : gmap Z positive → list positive;
  (* the packets of spawnPacket() and despawnPacket(), which may be null *)
  rt_spawnPacket : positive → option positive;
  rt_despawnPacket : positive → option positive;
  (* NDEBUG: assert and LOG_ASSERT are compiled out *)
  rt_ndebug : bool;
  (* what an uninitialised uint16_t holds *)
  rt_junk : Z;
}.

(** What their documentation promises. *)
Class RuntimeLaws `{Runtime} := {
  rt_map_laws :: LockfreeLaws MapOperation None;
  rt_cluster_laws :: LockfreeLaws ClusterOperation (Some 4096);
  rt_server_laws :: LockfreeLaws ServerOperation (Some 1024);
  rt_order_empty : rt_order rt_no_graph = 0;
  rt_edges_empty : rt_edges rt_no_graph = [];
  rt_vertex_id g : (rt_add_vertex g).1 = rt_order g;
  rt_vertex_order g : rt_order (rt_add_vertex g).2 = S (rt_order g);
  rt_vertex_edges g : rt_edges (rt_add_vertex g).2 = rt_edges g;
  rt_edge_order u v g : u < rt_order g → v < rt_order g → rt_order (rt_add_edge u v g) = rt_order g;
  rt_edge_edges u v g : rt_edges (rt_add_edge u v g) = rt_edges g ++ [(u, v)];
  rt_components_length g : length (rt_connected_components g).2 = rt_order g;
  rt_components_bound g c : c ∈ (rt_connected_components g).2 → c < (rt_connected_components g).1;
  rt_components_connected g u v cu cv :
    (rt_connected_components g).2 !! u = Some cu → (rt_connected_components g).2 !! v = Some cv →
    cu = cv ↔ rtsc (λ a b, (a, b) ∈ rt_edges g) u v;
  rt_alloc_fresh X : rt_alloc X ∉ X;
  rt_cells_perm X : rt_cells_in_order X ≡ₚ elements X;
  rt_entities_perm m : rt_entities_in_order m ≡ₚ (map_to_list m).*2;
  rt_junk_range : (0 ≤ rt_junk < 2 ^ 16)%Z;
}.

(** ** Cells *)

Inductive RequestType := SPAWN | DESPAWN.

Record Request := mkRequest { rq_who : positive; rq_type : RequestType }.

Record StallInformation := mkStall {
  isRegistered : bool;
  isOnCooldown : bool;
  remaining : Z;             (* uint64_t, milliseconds *)
}.

Record Cell := mkCell {
  c_offset : Offset;
  c_quadTree : @RadialQuadTree positive;
  c_entities : gmap Z positive;
  c_clientsCount : Z;                   (* uint16_t *)
  c_queue1 : list (option positive);    (* _broadcastQueue1 *)
  c_queue2 : list (option positive);    (* _broadcastQueue2 *)
  c_first : bool;                       (* _broadcast == &_broadcastQueue1 *)
  c_requests : list Request;
  stall : StallInformation;
}.

Definition set_quadTree t (c : Cell) :=
  mkCell (c_offset c) t (c_entities c) (c_clientsCount c) (c_queue1 c) (c_queue2 c) (c_first c)
    (c_requests c) (stall c).
Definition set_entities m n (c : Cell) :=
  mkCell (c_offset c) (c_quadTree c) m n (c_queue1 c) (c_queue2 c) (c_first c) (c_requests c) (stall c).
Definition set_queues q1 q2 first (c : Cell) :=
  mkCell (c_offset c) (c_quadTree c) (c_entities c) (c_clientsCount c) q1 q2 first (c_requests c) (stall c).
Definition set_requests r (c : Cell) :=
  mkCell (c_offset c) (c_quadTree c) (c_entities c) (c_clientsCount c) (c_queue1 c) (c_queue2 c)
    (c_first c) r (stall c).
Definition set_stall st (c : Cell) :=
  mkCell (c_offset c) (c_quadTree c) (c_entities c) (c_clientsCount c) (c_queue1 c) (c_queue2 c)
    (c_first c) (c_requests c) st.

(** ** Entities and clients *)

Record Entity := mkEntity {
  e_id : Z;
  e_client : option positive;
  e_cell : option positive;
  e_isUpdater : bool;
  e_position : vec3;                    (* of its MotionMaster *)
  e_boundingBox : option BoundingBox;
}.

Definition set_cell c (e : Entity) :=
  mkEntity (e_id e) (e_client e) c (e_isUpdater e) (e_position e) (e_boundingBox e).

Inductive Status := INITIALIZED | IN_WORLD | CLOSED.

#[export] Instance Status_eq_dec : EqDecision Status.
Proof. solve_decision. Defined.

Record Client := mkClient {
  cl_status : Status;
  cl_entity : positive;
  cl_open : bool;                       (* the socket *)
}.

(** ** The cluster and the map *)

Section world.
Context `{Runtime}.

Record Cluster := mkCluster {
  k_operations : lf_queue ClusterOperation;
  k_graph : rt_graph;
  k_current : gset positive;                    (* *_currentCells *)
  k_old : gset positive;                        (* *_oldCells *)
  k_stallCells : gset positive;
  k_numStall : Z;
  k_numStallCandidates : Z;
  k_cellsByCluster : gmap nat (list positive);
  k_vertices : gmap positive nat;
  k_keepers : list positive;
  k_num_components : nat;                       (* uint16_t *)
}.

Record World := mkWorld {
  w_cells : gmap positive Cell;                 (* the live cells *)
  w_entities : gmap positive Entity;            (* the live entities *)
  w_clients : gmap positive Client;             (* the live clients *)
  w_map : gmap Offset positive;                 (* Map::_cells *)
  w_operations : lf_queue MapOperation;         (* Map::_scheduledOperations *)
  w_cluster : Cluster;
  w_server_ops : lf_queue ServerOperation;      (* Server::_operations *)
  w_sent : list (positive * positive);          (* packets handed to the sockets *)
}.

Definition set_cells m (w : World) :=
  mkWorld m (w_entities w) (w_clients w) (w_map w) (w_operations w) (w_cluster w) (w_server_ops w) (w_sent w).
Definition set_world_entities m (w : World) :=
  mkWorld (w_cells w) m (w_clients w) (w_map w) (w_operations w) (w_cluster w) (w_server_ops w) (w_sent w).
Definition set_clients m (w : World) :=
  mkWorld (w_cells w) (w_entities w) m (w_map w) (w_operations w) (w_cluster w) (w_server_ops w) (w_sent w).
Definition set_map m (w : World) :=
  mkWorld (w_cells w) (w_entities w) (w_clients w) m (w_operations w) (w_cluster w) (w_server_ops w) (w_sent w).
Definition set_operations q (w : World) :=
  mkWorld (w_cells w) (w_entities w) (w_clients w) (w_map w) q (w_cluster w) (w_server_ops w) (w_sent w).
Definition set_cluster k (w : World) :=
  mkWorld (w_cells w) (w_entities w) (w_clients w) (w_map w) (w_operations w) k (w_server_ops w) (w_sent w).
Definition set_server_ops q (w : World) :=
  mkWorld (w_cells w) (w_entities w) (w_clients w) (w_map w) (w_operations w) (w_cluster w) q (w_sent w).
Definition add_sent s (w : World) :=
  mkWorld (w_cells w) (w_entities w) (w_clients w) (w_map w) (w_operations w) (w_cluster w)
    (w_server_ops w) (w_sent w ++ [s]).

Definition set_k_operations q (k : Cluster) :=
  mkCluster q (k_graph k) (k_current k) (k_old k) (k_stallCells k) (k_numStall k) (k_numStallCandidates k)
    (k_cellsByCluster k) (k_vertices k) (k_keepers k) (k_num_components k).
Definition set_graph g vs (k : Cluster) :=
  mkCluster (k_operations k) g (k_current k) (k_old k) (k_stallCells k) (k_numStall k)
    (k_numStallCandidates k) (k_cellsByCluster k) vs (k_keepers k) (k_num_components k).
Definition set_buffers cur old (k : Cluster) :=
  mkCluster (k_operations k) (k_graph k) cur old (k_stallCells k) (k_numStall k) (k_numStallCandidates k)
    (k_cellsByCluster k) (k_vertices k) (k_keepers k) (k_num_components k).
Definition set_stallCells st (k : Cluster) :=
  mkCluster (k_operations k) (k_graph k) (k_current k) (k_old k) st (k_numStall k)
    (k_numStallCandidates k) (k_cellsByCluster k) (k_vertices k) (k_keepers k) (k_num_components k).
Definition set_numStall n (k : Cluster) :=
  mkCluster (k_operations k) (k_graph k) (k_current k) (k_old k) (k_stallCells k) n
    (k_numStallCandidates k) (k_cellsByCluster k) (k_vertices k) (k_keepers k) (k_num_components k).
Definition set_candidates n (k : Cluster) :=
  mkCluster (k_operations k) (k_graph k) (k_current k) (k_old k) (k_stallCells k) (k_numStall k) n
    (k_cellsByCluster k) (k_vertices k) (k_keepers k) (k_num_components k).
Definition set_components n m (k : Cluster) :=
  mkCluster (k_operations k) (k_graph k) (k_current k) (k_old k) (k_stallCells k) (k_numStall k)
    (k_numStallCandidates k) m (k_vertices k) (k_keepers k) n.
Definition set_keepers l (k : Cluster) :=
  mkCluster (k_operations k) (k_graph k) (k_current k) (k_old k) (k_stallCells k) (k_numStall k)
    (k_numStallCandidates k) (k_cellsByCluster k) (k_vertices k) l (k_num_components k).

Definition Cluster_new : Cluster :=
  mkCluster lf_empty rt_no_graph ∅ ∅ ∅ 0 0 ∅ ∅ [] 0.

Definition World_new : World :=
  mkWorld ∅ ∅ ∅ ∅ lf_empty Cluster_new lf_empty [].

(** ** Computations *)

Local Notation M := (ST World).

Definition deref_cell (p : positive) : M Cell :=
  w ← get; from_option (UB Dangling) (w_cells w !! p).
Definition upd_cell (p : positive) (f : Cell → Cell) : M unit :=
  c ← deref_cell p; modify (λ w, set_cells (<[p := f c]> (w_cells w)) w).

Definition deref_entity (p : positive) : M Entity :=
  w ← get; from_option (UB Dangling) (w_entities w !! p).
Definition upd_entity (p : positive) (f : Entity → Entity) : M unit :=
  e ← deref_entity p; modify (λ w, set_world_entities (<[p := f e]> (w_entities w)) w).

Definition deref_client (p : positive) : M Client :=
  w ← get; from_option (UB Dangling) (w_clients w !! p).

Definition not_null {A} (o : option A) : M A := from_option (UB NullDeref) o.

Definition cluster_state : M Cluster := gets w_cluster.
Definition upd_cluster (f : Cluster → Cluster) : M unit :=
  modify (λ w, set_cluster (f (w_cluster w)) w).

(** [assert] and [LOG_ASSERT] *)
Definition assert_ (b : bool) : M unit :=
  if rt_ndebug || b then mret tt else fail Abort.

(** [Map::get]: the cell at some coordinates, or [nullptr]. *)
Definition Map_get (o : Offset) : M (option positive) := gets (λ w, w_map w !! o).

(** [Map::getSiblings] *)
Definition getSiblings (cell : positive) : M (list (option positive)) :=
  c ← deref_cell cell;
  os ← lift (siblings_coords (c_offset c));
  map_each Map_get os.

(** [Cell::inRadius] and [Cell::ring] *)
Definition inRadius (cell : positive) (radius : Z) : M (list (option positive)) :=
  c ← deref_cell cell;
  os ← lift (inRadius_coords radius (c_offset c));
  map_each Map_get os.

Definition ring (cell : positive) (radius : nat) : M (list (option positive)) :=
  c ← deref_cell cell;
  os ← lift (ring_coords radius (c_offset c));
  map_each Map_get os.

(** ** Rules for the accesses *)

Lemma wp_deref_cell p c w Q : w_cells w !! p = Some c → Q c w → wp (deref_cell p) w Q.
Proof. intros Hc HQ. apply wp_bind, wp_get. by apply (wp_from_option _ _ c). Qed.

Lemma wp_upd_cell p f c w Q :
  w_cells w !! p = Some c → Q tt (set_cells (<[p := f c]> (w_cells w)) w) → wp (upd_cell p f) w Q.
Proof. intros Hc HQ. apply wp_bind. eapply wp_deref_cell; [done|]. by apply wp_modify. Qed.

Lemma wp_deref_entity p e w Q : w_entities w !! p = Some e → Q e w → wp (deref_entity p) w Q.
Proof. intros Hc HQ. apply wp_bind, wp_get. by apply (wp_from_option _ _ e). Qed.

Lemma wp_upd_entity p f e w Q :
  w_entities w !! p = Some e → Q tt (set_world_entities (<[p := f e]> (w_entities w)) w) →
  wp (upd_entity p f) w Q.
Proof. intros Hc HQ. apply wp_bind. eapply wp_deref_entity; [done|]. by apply wp_modify. Qed.

Lemma wp_deref_client p c w Q : w_clients w !! p = Some c → Q c w → wp (deref_client p) w Q.
Proof. intros Hc HQ. apply wp_bind, wp_get. by apply (wp_from_option _ _ c). Qed.

Lemma wp_not_null {A} (a : A) w Q : Q a w → wp (not_null (Some a)) w Q.
Proof. done. Qed.

Lemma run_deref_cell p c w : w_cells w !! p = Some c → deref_cell p w = (Ok c, w).
Proof. intros Hc. apply wp_eq. by eapply wp_deref_cell. Qed.

Lemma run_deref_entity p e w : w_entities w !! p = Some e → deref_entity p w = (Ok e, w).
Proof. intros He. apply wp_eq. by eapply wp_deref_entity. Qed.

Lemma wp_cluster_state w Q : Q (w_cluster w) w → wp cluster_state w Q.
Proof. done. Qed.

Lemma wp_upd_cluster f w Q : Q tt (set_cluster (f (w_cluster w)) w) → wp (upd_cluster f) w Q.
Proof. done. Qed.

Lemma wp_assert b w Q : b = true → Q tt w → wp (assert_ b) w Q.
Proof. intros -> HQ. unfold assert_. by rewrite orb_true_r. Qed.

Lemma wp_Map_get o w Q : Q (w_map w !! o) w → wp (Map_get o) w Q.
Proof. done. Qed.

Lemma map_each_get os w : map_each Map_get os w = (Ok ((λ o, w_map w !! o) <$> os), w).
Proof.
  induction os as [|o os IH]; [done|]. cbn [map_each]. unfold mbind, ST_bind, Map_get, gets at 1.
  cbn beta iota. unfold Map_get in IH. by rewrite IH.
Qed.

(** The existing neighbours of a cell of the grid. *)
Lemma wp_inRadius p radius c w Q :
  w_cells w !! p = Some c → in_grid (c_offset c) → (0 ≤ radius < 2 ^ 16)%Z →
  Q ((λ o, w_map w !! o) <$> (off_add (c_offset c) <$> inRadius_dirs radius)) w →
  wp (inRadius p radius) w Q.
Proof.
  intros Hc Hg Hr HQ. apply wp_bind. eapply wp_deref_cell; [done|]. apply wp_bind.
  eapply wp_lift_ok; [apply inRadius_coords_ok; [done|lia]|]. by eapply run_wp; [apply map_each_get|].
Qed.

Lemma wp_getSiblings p c w Q :
  w_cells w !! p = Some c → in_grid (c_offset c) →
  Q ((λ o, w_map w !! o) <$> (off_add (c_offset c) <$> sibling_dirs)) w → wp (getSiblings p) w Q.
Proof.
  intros Hc Hg HQ. apply wp_bind. eapply wp_deref_cell; [done|]. apply wp_bind.
  eapply wp_lift_ok; [by apply siblings_coords_ok|]. by eapply run_wp; [apply map_each_get|].
Qed.

(** ** Computations that schedule nothing in the map *)

Definition keeps_ops {A} (m : M A) : Prop := ∀ w, w_operations (m w).2 = w_operations w.

Lemma keeps_ret {A} (a : A) : keeps_ops (mret a).
Proof. done. Qed.
Lemma keeps_bind {A B} (m : M A) (f : A → M B) :
  keeps_ops m → (∀ a, keeps_ops (f a)) → keeps_ops (m ≫= f).
Proof.
  intros Hm Hf w. specialize (Hm w). unfold mbind, ST_bind. destruct (m w) as [[a|] w1]; [|done].
  cbn in Hm. by rewrite Hf.
Qed.
Lemma keeps_get : keeps_ops get.
Proof. done. Qed.
Lemma keeps_gets {A} (f : World → A) : keeps_ops (gets f).
Proof. done. Qed.
Lemma keeps_lift {A} (o : outcome A) : keeps_ops (lift o).
Proof. done. Qed.
Lemma keeps_fail {A} e : keeps_ops (fail e : M A).
Proof. done. Qed.
Lemma keeps_from_option {A} e (o : option A) : keeps_ops (from_option e o).
Proof. destruct o; by intros w. Qed.
Lemma keeps_modify f : (∀ w, w_operations (f w) = w_operations w) → keeps_ops (modify f).
Proof. intros Hf w. apply Hf. Qed.
Lemma keeps_for_each {A} (f : A → M unit) l : (∀ a, keeps_ops (f a)) → keeps_ops (for_each f l).
Proof. intros Hf. induction l; [by intros w|]. by apply keeps_bind. Qed.
Lemma keeps_map_each {A B} (f : A → M B) l : (∀ a, keeps_ops (f a)) → keeps_ops (map_each f l).
Proof.
  intros Hf. induction l; [by intros w|]. apply keeps_bind; [done|intros]. by apply keeps_bind; [|intros ? w].
Qed.
End world.

#[export] Hint Resolve keeps_ret keeps_get keeps_gets keeps_lift keeps_fail keeps_from_option
  keeps_for_each keeps_map_each : keeps.

(** Proves [keeps_ops] of a computation by following its structure. *)
Ltac keeps :=
  repeat first
    [ progress intros
    | solve [auto with keeps]
    | apply keeps_bind
    | apply keeps_for_each
    | apply keeps_map_each
    | apply keeps_modify; done
    | case_match ].
