(* ===== verification/Reference.v ===== *)
(** * A runtime to run the model on

    An instance of the parameters of [World.v], with a proof of their laws: the
    queues are lists, the containers are traversed in the order of their
    elements, the graph is its list of edges, its components are found by
    merging labels. The hypotheses of the theorems about the world are
    satisfied by it, and the witnesses compute with it. *)

From Stdlib Require Import ZArith Lia.
From Stdlib Require Import Floats.SpecFloat.
From stdpp Require Import base list gmap option numbers sets relations.
From S2P Require Import Prelude Float32 Offset Hex Lockfree Physics QuadTree World.

(** ** Connected components *)

Definition merge (a b : nat) (ls : list nat) : list nat := (λ x, if decide (x = a) then b else x) <$> ls.

Definition label_step (ls : list nat) (e : nat * nat) : list nat :=
  match ls !! e.1, ls !! e.2 with Some a, Some b => merge a b ls | _, _ => ls end.

Definition labels (n : nat) (es : list (nat * nat)) : list nat := foldl label_step (seq 0 n) es.

(** Labels are renamed to the numbers below the number of components. *)
Definition rename (ls : list nat) (x : nat) : nat :=
  default 0 (fst <$> list_find (x =.) (remove_dups ls)).

Definition graph : Type := nat * list (nat * nat).

(** The vertices that exist: those added, and the ends of the edges. *)
Definition graph_order (g : graph) : nat := foldr (λ e n, max (max (S e.1) (S e.2)) n) g.1 g.2.

Definition graph_components (g : graph) : nat * list nat :=
  let ls := labels (graph_order g) g.2 in (length (remove_dups ls), rename ls <$> ls).

Section components.
Implicit Types (es : list (nat * nat)).

Definition joined es (u v : nat) : Prop := rtsc (λ a b, (a, b) ∈ es) u v.

Lemma joined_refl es u : joined es u u.
Proof. apply rtc_refl. Qed.
Lemma joined_sym es u v : joined es u v → joined es v u.
Proof. unfold joined. intros H. by symmetry. Qed.
Lemma joined_trans es u v w : joined es u v → joined es v w → joined es u w.
Proof. unfold joined. intros H1 H2. by etrans. Qed.
Lemma joined_mono es es' u v : es ⊆ es' → joined es u v → joined es' u v.
Proof.
  intros Hs H. eapply rtc_subrel; [|exact H]. intros x y [?|?]; [left|right]; by apply Hs.
Qed.
Lemma joined_edge es u v : (u, v) ∈ es → joined es u v.
Proof. intros H. apply rtc_once. by left. Qed.

(** One more edge. *)
Lemma joined_snoc es u v x y :
  joined (es ++ [(u, v)]) x y ↔
  joined es x y ∨ (joined es x u ∧ joined es v y) ∨ (joined es x v ∧ joined es u y).
Proof.
  assert (es ⊆ es ++ [(u, v)]) as Hsub by set_solver.
  assert (joined (es ++ [(u, v)]) u v) as Huv by (apply joined_edge; set_solver).
  split.
  - induction 1 as [x|x z y Hxz _ IH]; [left; apply joined_refl|].
    assert (joined es x z ∨ (x = u ∧ z = v) ∨ (x = v ∧ z = u)) as Hstep.
    { destruct Hxz as [Hin|Hin]; apply elem_of_app in Hin as [Hin|Hin%list_elem_of_singleton].
      - left. by apply joined_edge.
      - simplify_eq. auto.
      - left. by apply joined_sym, joined_edge.
      - simplify_eq. auto. }
    pose proof (joined_refl es) as Hr.
    destruct Hstep as [Hxz'|[[-> ->]|[-> ->]]], IH as [IH|[[H1 H2]|[H1 H2]]];
      eauto 6 using joined_trans, joined_sym.
  - intros [H|[[H1 H2]|[H1 H2]]]; [by eapply joined_mono| |].
    + eapply joined_trans; [by eapply joined_mono|]. eapply joined_trans; [done|by eapply joined_mono].
    + eapply joined_trans; [by eapply joined_mono|]. eapply joined_trans; [by apply joined_sym|].
      by eapply joined_mono.
Qed.

Lemma length_labels n es : length (labels n es) = n.
Proof.
  unfold labels. induction es as [|e es IH] using rev_ind; [apply length_seq|].
  rewrite foldl_snoc. unfold label_step, merge. repeat case_match; rewrite ?length_fmap; done.
Qed.

Lemma labels_spec n es u v a b :
  (∀ e, e ∈ es → e.1 < n ∧ e.2 < n) →
  labels n es !! u = Some a → labels n es !! v = Some b → a = b ↔ joined es u v.
Proof.
  revert u v a b. induction es as [|[p q] es IH] using rev_ind; intros u v a b Hes Hu Hv.
  { cbn in Hu, Hv. apply lookup_seq in Hu as [Hu _], Hv as [Hv _]. cbn in Hu, Hv. subst a b.
    split; [intros ->; apply joined_refl|]. intros Hj.
    destruct Hj as [|x y z Hxy _]; [done|]. by destruct Hxy as [?%elem_of_nil|?%elem_of_nil]. }
  specialize (λ u v a b, IH u v a b (λ e He, Hes e (proj2 (elem_of_app _ _ _) (or_introl He)))).
  destruct (Hes (p, q)) as [Hp Hq]; [set_solver|]. cbn in Hp, Hq.
  unfold labels in Hu, Hv. rewrite foldl_snoc in Hu, Hv. fold (labels n es) in Hu, Hv.
  destruct (lookup_lt_is_Some_2 (labels n es) p) as [lp Hlp]; [by rewrite length_labels|].
  destruct (lookup_lt_is_Some_2 (labels n es) q) as [lq Hlq]; [by rewrite length_labels|].
  unfold label_step, merge in Hu, Hv. cbn [fst snd] in Hu, Hv. rewrite Hlp, Hlq in Hu, Hv.
  apply list_lookup_fmap_Some in Hu as (lu & -> & Hlu), Hv as (lv & -> & Hlv).
  rewrite joined_snoc, <-(IH u v lu lv), <-(IH u p lu lp), <-(IH q v lq lv), <-(IH u q lu lq), <-(IH p v lp lv)
    by done.
  repeat destruct (decide _); subst; naive_solver.
Qed.

Lemma rename_inj ls x y : x ∈ ls → y ∈ ls → rename ls x = rename ls y → x = y.
Proof.
  intros Hx Hy. unfold rename.
  assert (∀ z, z ∈ ls → ∃ i, list_find (z =.) (remove_dups ls) = Some (i, z)) as Hf.
  { intros z Hz. destruct (list_find_elem_of (z =.) (remove_dups ls) z) as [[i z'] Hi]; [|done|].
    - by apply elem_of_remove_dups.
    - exists i. pose proof Hi as (_ & <- & _)%list_find_Some. done. }
  destruct (Hf x Hx) as [i Hi], (Hf y Hy) as [j Hj]. rewrite Hi, Hj. cbn. intros ->.
  apply list_find_Some in Hi as (Hi & _), Hj as (Hj & _). congruence.
Qed.

Lemma rename_lt ls x : x ∈ ls → rename ls x < length (remove_dups ls).
Proof.
  intros Hx. unfold rename.
  destruct (list_find_elem_of (x =.) (remove_dups ls) x) as [[i z] Hi]; [by apply elem_of_remove_dups|done|].
  rewrite Hi. cbn. apply list_find_Some in Hi as (Hi & _). by eapply lookup_lt_Some.
Qed.

Lemma graph_order_edges g e : e ∈ g.2 → e.1 < graph_order g ∧ e.2 < graph_order g.
Proof.
  destruct g as [n es]. unfold graph_order. cbn. induction es as [|e' es IH]; [by intros ?%elem_of_nil|].
  cbn. intros [->|He]%elem_of_cons; [lia|]. specialize (IH He). lia.
Qed.
End components.

(** ** The runtime *)

(** The packets of entity [e] are [e + 100] and [e + 200]. *)
Definition reference (ndebug : bool) : Runtime := {|
  rt_glm := plane_glm;
  rt_map_queue := list_queue _ None;
  rt_cluster_queue := list_queue _ (Some 4096);
  rt_server_queue := list_queue _ (Some 1024);
  rt_graph := graph;
  rt_no_graph := (0, []);
  rt_add_vertex g := (graph_order g, (S (graph_order g), g.2));
  rt_add_edge u v g := (g.1, g.2 ++ [(u, v)]);
  rt_order := graph_order;
  rt_edges := snd;
  rt_connected_components := graph_components;
  rt_alloc X := fresh X;
  rt_cells_in_order X := elements X;
  rt_entities_in_order m := (map_to_list m).*2;
  rt_spawnPacket e := Some (e + 100)%positive;
  rt_despawnPacket e := Some (e + 200)%positive;
  rt_ndebug := ndebug;
  rt_junk := 0;
|}.

Definition ends (es : list (nat * nat)) : nat := foldr (λ e n, max (max (S e.1) (S e.2)) n) 0 es.

Lemma graph_order_ends n es : graph_order (n, es) = max n (ends es).
Proof.
  unfold graph_order. cbn [fst snd]. induction es as [|e es IH]; [cbn; lia|]. cbn [foldr]. rewrite IH.
  change (ends (e :: es)) with (max (max (S e.1) (S e.2)) (ends es)). lia.
Qed.

Lemma ends_snoc es u v : ends (es ++ [(u, v)]) = max (ends es) (max (S u) (S v)).
Proof.
  induction es as [|e es IH]; [cbn; lia|]. change ((e :: es) ++ [(u, v)]) with (e :: (es ++ [(u, v)])).
  change (ends (e :: ?l)) with (max (max (S e.1) (S e.2)) (ends l)). rewrite IH.
  change (ends (e :: es)) with (max (max (S e.1) (S e.2)) (ends es)). lia.
Qed.

Lemma graph_order_vertex (g : graph) : graph_order (S (graph_order g), g.2) = S (graph_order g).
Proof. destruct g as [n es]. cbn [snd]. rewrite !graph_order_ends. lia. Qed.

Lemma graph_order_edge u v (g : graph) :
  u < graph_order g → v < graph_order g → graph_order (g.1, g.2 ++ [(u, v)]) = graph_order g.
Proof. destruct g as [n es]. cbn [fst snd]. rewrite !graph_order_ends, ends_snoc. lia. Qed.

Lemma reference_laws ndebug : @RuntimeLaws (reference ndebug).
Proof.
  split; cbn; try done; try apply list_queue_laws.
  - intros g. apply graph_order_vertex.
  - intros u v g Hu Hv. apply graph_order_edge; done.
  - intros g. by rewrite length_fmap, length_labels.
  - intros g c (x & -> & Hx)%list_elem_of_fmap. by apply rename_lt.
  - intros g u v cu cv Hu Hv. unfold graph_components in Hu, Hv. cbn in Hu, Hv.
    apply list_lookup_fmap_Some in Hu as (a & -> & Ha), Hv as (b & -> & Hb).
    rewrite <-(labels_spec (graph_order g) g.2 u v a b) by eauto using graph_order_edges.
    split; [|by intros ->]. apply rename_inj; by eapply list_elem_of_lookup_2.
  - intros X. apply is_fresh.
Qed.
