(* ===== verification/Cell.v ===== *)
(** * Cells ([src/map/cell.cpp])

    Construction, the entities of a cell, the two broadcast queues, the
    spawn requests, and what a cell does in a tick: [update], [physics] and
    [cleanup]. What an application does when one of its entities is updated is
    the class [Behaviour]. *)

From Stdlib Require Import ZArith Lia.
From Stdlib Require Import Floats.SpecFloat.
From stdpp Require Import base list gmap option numbers sets.
From S2P Require Import Prelude Float32 Offset Hex Lockfree Physics QuadTree World Reference.

Definition MaxQuadrantEntities : nat := 5.
Definition MaxQuadtreeDepth : Z := 10.

(** The virtual method [MapAwareEntity::update]. *)
Class Behaviour `{Runtime} := { entity_update : positive → Z → ST World unit }.

Section cell.
Context `{Behaviour}.
Local Notation M := (ST World).

(** The constructor sets the queues and the stall information;
    [_clientsCount] is left as it is found in memory. *)
Definition Cell_new (offset : Offset) : Cell :=
  mkCell offset (RadialQuadTree_new (center offset) (cellSize_x + f32_of_Z 10)%f32)
    ∅ rt_junk [] [] true [] (mkStall false false 0).

(** [boundingBox()], with its assertion, and its rectangle. *)
Definition boundingBox (w : World) (e : positive) : outcome (Entity * BoundingBox) :=
  match w_entities w !! e with
  | None => Fail (UB Dangling)
  | Some en =>
      match e_boundingBox en with
      | Some bb => Ok (en, bb)
      | None => if rt_ndebug then Fail (UB NullDeref) else Fail Abort
      end
  end.

Definition rect_of (w : World) (e : positive) : outcome vec4 :=
  '(en, bb) ← boundingBox w e;
  '(r, _) ← asRect (e_position en) bb;
  mret r.

(** [Client::send]: the packet is read first. *)
Definition send (client : positive) (packet : option positive) : M unit :=
  _ ← deref_client client;
  p ← not_null packet;
  modify (add_sent (client, p)).

(** The queue [_broadcast] does not point to. *)
Definition other_queue (c : Cell) : list (option positive) :=
  if c_first c then c_queue2 c else c_queue1 c.

Definition addEntity (cell e : positive) : M unit :=
  en ← deref_entity e;
  upd_cell cell (λ c,
    set_entities
      (match c_entities c !! e_id en with
       | Some _ => c_entities c
       | None => <[e_id en := e]> (c_entities c)
       end)
      (match e_client en with Some _ => u16 (c_clientsCount c + 1) | None => c_clientsCount c end) c).

Definition removeEntity (cell e : positive) : M unit :=
  en ← deref_entity e;
  upd_cell cell (λ c,
    set_entities (delete (e_id en) (c_entities c))
      (match e_client en with Some _ => u16 (c_clientsCount c - 1) | None => c_clientsCount c end) c).

Definition request (cell who : positive) (type : RequestType) : M unit :=
  en ← deref_entity who;
  _ ← assert_ (bool_decide (is_Some (e_client en)));
  upd_cell cell (λ c, set_requests (c_requests c ++ [mkRequest who type]) c).

(** A packet is queued only if some client is in the cell. *)
Definition enqueue (packet : option positive) (c : Cell) : Cell :=
  if (0 <? c_clientsCount c)%Z then
    if c_first c then set_queues (c_queue1 c ++ [packet]) (c_queue2 c) true c
    else set_queues (c_queue1 c) (c_queue2 c ++ [packet]) false c
  else c.

Definition cell_broadcast (cell : positive) (packet : option positive) : M unit :=
  upd_cell cell (enqueue packet).

Definition clearQueues (c : Cell) : Cell :=
  set_requests []
    (if c_first c then set_queues (c_queue1 c) [] true c else set_queues [] (c_queue2 c) false c).

(** [packet] is made by [entity], and sent to the client of [who]. *)
Definition serve_request (entity : positive) (r : Request) : M unit :=
  if bool_decide (rq_who r = entity) then mret tt
  else
    let packet := match rq_type r with
                  | SPAWN => rt_spawnPacket entity
                  | DESPAWN => rt_despawnPacket entity
                  end in
    who ← deref_entity (rq_who r);
    client ← not_null (e_client who);
    send client packet.

Definition processRequests (cell entity : positive) : M unit :=
  c ← deref_cell cell;
  for_each (serve_request entity) (c_requests c).

(** [_quadTree->insert(entity)] *)
Definition quadtree_insert (cell entity : positive) : M unit :=
  c ← deref_cell cell;
  w ← get;
  t ← lift (radial_insert MaxQuadrantEntities MaxQuadtreeDepth (rect_of w) entity (c_quadTree c));
  upd_cell cell (set_quadTree t).

(** One entity of [Cell::update]; [queue] is what the cell had to broadcast. *)
Definition update_entity (cell : positive) (elapsed : Z) (queue : list (option positive))
    (updater : positive) : M unit :=
  en ← deref_entity updater;
  _ ← entity_update updater elapsed;
  _ ← (match e_client en with
       | Some client => for_each (send client) queue
       | None => mret tt
       end);
  _ ← processRequests cell updater;
  _ ← quadtree_insert cell updater;
  siblings ← getSiblings cell;
  for_each (λ s : option positive,
    match s with
    | None => mret tt
    | Some s =>
        c ← deref_cell s;
        en ← deref_entity updater;
        if contains (position2D (e_position en)) (c_quadTree c)
        then quadtree_insert s updater else mret tt
    end) siblings.

(** [*_broadcast], and its switch to the other queue. *)
Definition current_queue (c : Cell) : list (option positive) :=
  if c_first c then c_queue1 c else c_queue2 c.
Definition switch_queues (c : Cell) : Cell :=
  set_queues (c_queue1 c) (c_queue2 c) (negb (c_first c)) c.

(** The queue that filled up until now is served, the other one fills up. *)
Definition cell_update (cell : positive) (elapsed : Z) : M unit :=
  c ← deref_cell cell;
  let currentQueue := current_queue c in
  _ ← upd_cell cell switch_queues;
  for_each (update_entity cell elapsed currentQueue) (rt_entities_in_order (c_entities c)).

(** The collisions of a cell are computed; nothing is done with them yet. *)
Definition physics_entity (cell e1 : positive) : M unit :=
  c ← deref_cell cell;
  w ← get;
  rect ← lift (rect_of w e1);
  for_each (λ e2 : positive,
    if bool_decide (e1 = e2) then mret tt
    else
      '(en1, b1) ← lift (boundingBox w e1);
      '(en2, b2) ← lift (boundingBox w e2);
      _ ← lift (collides (e_position en1) b1 (e_position en2) b2);
      mret tt) (radial_retrieve rect (c_quadTree c)).

Definition cell_physics (cell : positive) (elapsed : Z) : M unit :=
  c ← deref_cell cell;
  for_each (physics_entity cell) (rt_entities_in_order (c_entities c)).

Definition cell_cleanup (cell : positive) (elapsed : Z) : M unit :=
  upd_cell cell (λ c, set_quadTree (radial_clear (c_quadTree c)) (clearQueues c)).

(** ** Broadcasts are delivered once *)

Definition enqueue_all (ps : list (option positive)) (c : Cell) : Cell :=
  foldl (λ c p, enqueue p c) c ps.

Lemma enqueue_all_spec ps c :
  (0 < c_clientsCount c)%Z →
  current_queue (enqueue_all ps c) = current_queue c ++ ps ∧
  other_queue (enqueue_all ps c) = other_queue c ∧
  c_first (enqueue_all ps c) = c_first c ∧ c_clientsCount (enqueue_all ps c) = c_clientsCount c.
Proof.
  revert c. induction ps as [|p ps IH]; intros c Hc; cbn [enqueue_all foldl].
  { by rewrite app_nil_r. }
  assert (current_queue (enqueue p c) = current_queue c ++ [p] ∧ other_queue (enqueue p c) = other_queue c ∧
          c_first (enqueue p c) = c_first c ∧ c_clientsCount (enqueue p c) = c_clientsCount c)
    as (H1 & H2 & H3 & H4).
  { unfold enqueue, current_queue, other_queue. rewrite (proj2 (Z.ltb_lt _ _) Hc).
    destruct (c_first c) eqn:E; cbn; by rewrite ?E. }
  fold (enqueue_all ps (enqueue p c)).
  destruct (IH (enqueue p c)) as (-> & -> & -> & ->); [by rewrite H4|].
  by rewrite H1, H2, H3, H4, <-app_assoc.
Qed.

End cell.

(** ** A world to compute with *)

(** Entities that do nothing but move with the world. *)
Definition idle (ndebug : bool) : @Behaviour (reference ndebug) :=
  @Build_Behaviour (reference ndebug) (λ _ _, mret tt).

(** A round entity of radius 1 at the origin. *)
Definition round_box : BoundingBox := CIRCULAR (mkCircle (Vec3 (f32_of_Z 0) (f32_of_Z 0) (f32_of_Z 0)) (f32_of_Z 1)).
Definition example_entity (id : Z) (client : option positive) (isUpdater : bool) : Entity :=
  mkEntity id client None isUpdater (Vec3 (f32_of_Z 0) (f32_of_Z 0) (f32_of_Z 0)) (Some round_box).

(** Two updaters without a client, and an entity of client 1. *)
Definition example_world : @World (reference true) :=
  @set_clients (reference true) {[1%positive := mkClient INITIALIZED 3 true]}
    (@set_world_entities (reference true)
      (<[1%positive := example_entity 1 None true]>
        (<[2%positive := example_entity 2 None true]> {[3%positive := example_entity 3 (Some 1%positive) true]}))
      (@World_new (reference true))).
