(* ===== verification/Cluster.v ===== *)
(** * The cluster ([src/map/map-cluster/cluster.cpp])

    The cluster decides which cells are updated in a tick. A cell is touched
    when an updater keeps it alive or when it is created; touched cells are
    the vertices of a graph whose connected components are updated in
    parallel. Cells that are no longer touched stall for two minutes and are
    then destroyed.

    The works that [update] and [cleanup] post to the thread pool are run one
    component after the other. *)

From Stdlib Require Import ZArith Lia.
From stdpp Require Import base list gmap option numbers sets.
From S2P Require Import Prelude Float32 Offset Hex Lockfree World Cell.

Section cluster.
Context `{Behaviour}.
Local Notation M := (ST World).

(** [_stallCells.erase(std::find(..., cell))]: [cell] has to be there. *)
Definition erase_stall (cell : positive) : M unit :=
  k ← cluster_state;
  if bool_decide (cell ∈ k_stallCells k)
  then upd_cluster (set_stallCells (k_stallCells k ∖ {[cell]}))
  else fail (UB EraseEnd).

Definition unstall (c : Cell) : Cell := set_stall (mkStall false false (remaining (stall c))) c.

Definition touch (cell : positive) (isStall : bool) : M bool :=
  c ← deref_cell cell;
  _ ← assert_ (isStall || negb (isOnCooldown (stall c)));
  result ← (if isOnCooldown (stall c) then mret false
            else
              k ← cluster_state;
              _ ← (if bool_decide (cell ∈ k_current k) then mret tt
                   else
                     let '(v, g) := rt_add_vertex (k_graph k) in
                     upd_cluster (λ k, set_graph g (<[cell := v]> (k_vertices k))
                                         (set_buffers ({[cell]} ∪ k_current k) (k_old k) k)));
              mret true);
  _ ← (if negb isStall && (isRegistered (stall c) || isOnCooldown (stall c)) then
         _ ← upd_cell cell unstall;
         erase_stall cell
       else mret tt);
  mret result.

(** [_vertices[cell]] creates the entry, with descriptor 0, if it is missing. *)
Definition vertex_of (cell : positive) : M nat :=
  k ← cluster_state;
  match k_vertices k !! cell with
  | Some v => mret v
  | None =>
      _ ← upd_cluster (λ k, set_graph (k_graph k) (<[cell := 0]> (k_vertices k)) k);
      mret 0
  end.

Definition connect (a b : positive) : M unit :=
  k ← cluster_state;
  _ ← assert_ (bool_decide (is_Some (k_vertices k !! a)));
  _ ← assert_ (bool_decide (is_Some (k_vertices k !! b)));
  u ← vertex_of a;
  v ← vertex_of b;
  upd_cluster (λ k, set_graph (rt_add_edge u v (k_graph k)) (k_vertices k) k).

Definition touch_neighbour (cell : positive) (isStall : bool) (nn : option positive) : M unit :=
  match nn with
  | None => mret tt
  | Some nn =>
      if bool_decide (nn = cell) then mret tt
      else
        touched ← touch nn isStall;
        if touched : bool then connect cell nn else mret tt
  end.

Definition touchWithNeighbours (cell : positive) (isStall : bool) : M bool :=
  firstInserted ← touch cell isStall;
  if negb firstInserted && isStall then mret false
  else
    nns ← inRadius cell 1;
    _ ← for_each (touch_neighbour cell isStall) nns;
    mret true.

Definition onCellCreated (cell : positive) : M unit :=
  _ ← touchWithNeighbours cell false; mret tt.

Definition checkStall (from : option positive) (to : positive) : M unit :=
  match from with
  | None => mret tt
  | Some from =>
      t ← deref_cell to;
      if negb (isRegistered (stall t)) || isOnCooldown (stall t) then mret tt
      else
        f ← deref_cell from;
        if negb (isRegistered (stall f)) && negb (isOnCooldown (stall f)) then
          _ ← upd_cell to unstall;
          erase_stall to
        else mret tt
  end.

(** [Cluster::add] and [Cluster::remove]: the result of [push] is ignored. *)
Definition cluster_push (type : ClusterOperationType) (entity : positive) : M unit :=
  en ← deref_entity entity;
  if e_isUpdater en
  then upd_cluster (λ k, set_k_operations (lf_push (mkClusterOperation type entity) (k_operations k)).2 k)
  else mret tt.

Definition cluster_add : positive → M unit := cluster_push KEEP.
Definition cluster_remove : positive → M unit := cluster_push UNKEEP.

(** [list::erase(std::find(...))] *)
Fixpoint erase_first (x : positive) (l : list positive) : option (list positive) :=
  match l with
  | [] => None
  | y :: l => if decide (x = y) then Some l else cons y <$> erase_first x l
  end.

Definition run_cluster_operation (op : ClusterOperation) : M unit :=
  k ← cluster_state;
  match co_type op with
  | KEEP => upd_cluster (set_keepers (k_keepers k ++ [co_entity op]))
  | UNKEEP =>
      l ← from_option (UB EraseEnd) (erase_first (co_entity op) (k_keepers k));
      upd_cluster (set_keepers l)
  end.

(** [consume_all], one element at a time. *)
Fixpoint run_cluster_operations (fuel : nat) : M unit :=
  k ← cluster_state;
  match lf_pop (k_operations k) with
  | None => mret tt
  | Some (op, q) =>
      match fuel with
      | O => fail NoFuel
      | S fuel =>
          _ ← upd_cluster (set_k_operations q);
          _ ← run_cluster_operation op;
          run_cluster_operations fuel
      end
  end.

(** Two minutes, in milliseconds. *)
Definition stall_time : Z := 120000.

(** A cell that was touched in the last tick and is not in this one. *)
Definition new_stall (candidate : positive) : M unit :=
  k ← cluster_state;
  if bool_decide (candidate ∈ k_current k) then mret tt
  else if bool_decide (candidate ∈ k_stallCells k) then mret tt
  else
    _ ← upd_cluster (set_stallCells ({[candidate]} ∪ k_stallCells k));
    upd_cell candidate (set_stall (mkStall true false stall_time)).

(** [Map::destroyCell] *)
Definition destroyCell (cell : positive) : M unit :=
  c ← deref_cell cell;
  modify (λ w, set_operations
    (lf_push (mkMapOperation DESTROY (c_offset c) None (Some cell)) (w_operations w)).2 w).

Definition process_stall (addCount : Z) (cell : positive) : M Z :=
  c ← deref_cell cell;
  if negb (isOnCooldown (stall c)) then
    added ← touchWithNeighbours cell true;
    mret (if added : bool then u16 (addCount + 1) else addCount)
  else
    _ ← destroyCell cell;
    _ ← upd_cluster (λ k, set_stallCells (k_stallCells k ∖ {[cell]}) k);
    mret addCount.

Fixpoint process_stalls (addCount : Z) (cells : list positive) : M Z :=
  match cells with
  | [] => mret addCount
  | cell :: cells => n ← process_stall addCount cell; process_stalls n cells
  end.

Definition processStallCells : M Z :=
  k ← cluster_state;
  _ ← upd_cluster (set_candidates (u16 (Z.of_nat (size (k_stallCells k)))));
  process_stalls 0 (rt_cells_in_order (k_stallCells k)).

(** A keeper touches the cell it is in. *)
Definition keep (entity : positive) : M unit :=
  en ← deref_entity entity;
  cell ← not_null (e_cell en);
  _ ← touchWithNeighbours cell false;
  mret tt.

Definition cluster_runScheduledOperations : M unit :=
  k ← cluster_state;
  _ ← run_cluster_operations (length (lf_contents (k_operations k)));
  k ← cluster_state;
  _ ← for_each keep (k_keepers k);
  k ← cluster_state;
  _ ← for_each new_stall (rt_cells_in_order (k_old k));
  n ← processStallCells;
  upd_cluster (set_numStall n).

(** [_cellsByCluster[cid]] *)
Definition cells_of (cid : nat) (m : gmap nat (list positive)) : list positive := default [] (m !! cid).

(** [_cellsByCluster[_components[v]].push_back(cell)] for the vertices. *)
Definition group_cell (components : list nat) (cell : positive) : M unit :=
  k ← cluster_state;
  v ← from_option (UB OutOfBounds) (k_vertices k !! cell);
  cid ← from_option (UB OutOfBounds) (components !! v);
  upd_cluster (λ k, set_components (k_num_components k)
    (<[cid := cells_of cid (k_cellsByCluster k) ++ [cell]]> (k_cellsByCluster k)) k).

(** The work of every component. *)
Definition each_component (f : positive → M unit) : M unit :=
  k ← cluster_state;
  for_each (λ cid, k ← cluster_state; for_each f (cells_of cid (k_cellsByCluster k)))
    (seq 0 (k_num_components k)).

(** [_components] has one element per touched cell; the components of all
    vertices are written to it. *)
Definition group_cells : M unit :=
  k ← cluster_state;
  let '(n, components) := rt_connected_components (k_graph k) in
  _ ← (if bool_decide (length components ≤ size (k_vertices k)) then mret tt else fail (UB OutOfBounds));
  _ ← upd_cluster (λ k, set_components (Z.to_nat (u16 (Z.of_nat n))) (k_cellsByCluster k) k);
  for_each (group_cell components) (rt_cells_in_order (dom (k_vertices k))).

Definition cluster_update (elapsed : Z) : M unit :=
  k ← cluster_state;
  if bool_decide (k_vertices k = ∅) then mret tt
  else
    _ ← group_cells;
    _ ← each_component (λ cell, cell_update cell elapsed);
    each_component (λ cell, cell_physics cell elapsed).

(** The countdown of a stalled cell. *)
Definition stall_step (elapsed : Z) (st : StallInformation) : StallInformation :=
  if isRegistered st then
    if (elapsed <? remaining st)%Z
    then mkStall true (isOnCooldown st) (u64 (remaining st - elapsed))
    else mkStall false true (remaining st)
  else st.

Definition cleanup_cell (elapsed : Z) (cell : positive) : M unit :=
  _ ← cell_cleanup cell elapsed;
  upd_cell cell (λ c, set_stall (stall_step elapsed (stall c)) c).

Fixpoint clear_components (cids : list nat) (m : gmap nat (list positive)) : gmap nat (list positive) :=
  match cids with
  | [] => m
  | cid :: cids => clear_components cids (<[cid := []]> m)
  end.

Definition cluster_cleanup (elapsed : Z) : M unit :=
  k ← cluster_state;
  _ ← (if bool_decide (k_vertices k = ∅) then mret tt
       else
         _ ← each_component (cleanup_cell elapsed);
         upd_cluster (λ k,
           set_components 0 (clear_components (seq 0 (k_num_components k)) (k_cellsByCluster k))
             (set_graph rt_no_graph ∅ k)));
  upd_cluster (λ k, set_buffers ∅ (k_current k) k).

(** ** The invariant

    The map and the heap of cells are inverse of each other; the touched
    cells are alive, not on cooldown, and are, one to one, the vertices of the graph, whose
    edges join adjacent cells; the cells that are registered as stalled are not
    on cooldown and are in [_stallCells], whose cells are alive and have a stall
    condition. *)
Record inv (w : World) : Prop := {
  inv_map o p : w_map w !! o = Some p → ∃ c, w_cells w !! p = Some c ∧ c_offset c = o;
  inv_cells p c : w_cells w !! p = Some c → w_map w !! c_offset c = Some p;
  inv_vertices : dom (k_vertices (w_cluster w)) = k_current (w_cluster w);
  inv_live p : p ∈ k_current (w_cluster w) →
    ∃ c, w_cells w !! p = Some c ∧ isOnCooldown (stall c) = false;
  inv_inj p q v :
    k_vertices (w_cluster w) !! p = Some v → k_vertices (w_cluster w) !! q = Some v → p = q;
  inv_bound p v : k_vertices (w_cluster w) !! p = Some v → v < rt_order (k_graph (w_cluster w));
  inv_order : rt_order (k_graph (w_cluster w)) = size (k_vertices (w_cluster w));
  inv_edges u v :
    (u, v) ∈ rt_edges (k_graph (w_cluster w)) →
    ∃ p q c d, k_vertices (w_cluster w) !! p = Some u ∧ k_vertices (w_cluster w) !! q = Some v ∧
      w_cells w !! p = Some c ∧ w_cells w !! q = Some d ∧ adjacent (c_offset c) (c_offset d);
  inv_stall p c :
    w_cells w !! p = Some c → isRegistered (stall c) = true →
    isOnCooldown (stall c) = false ∧ p ∈ k_stallCells (w_cluster w);
  inv_stall_live p :
    p ∈ k_stallCells (w_cluster w) →
    ∃ c, w_cells w !! p = Some c ∧ isRegistered (stall c) || isOnCooldown (stall c) = true;
}.

(** No live cell has exhausted its stall time. *)
Definition no_cooldown (w : World) : Prop :=
  ∀ p c, w_cells w !! p = Some c → isOnCooldown (stall c) = false.

(** A cell on cooldown. *)
Definition hot (w : World) (p : positive) : bool :=
  match w_cells w !! p with Some c => isOnCooldown (stall c) | None => false end.

Definition cool (w : World) (X : gset positive) : gset positive := filter (λ p, hot w p = false) X.

(** A cell without a stall condition. *)
Definition unstalled (w : World) (p : positive) : Prop :=
  p ∉ k_stallCells (w_cluster w) ∧
  ∃ c, w_cells w !! p = Some c ∧ isRegistered (stall c) = false ∧ isOnCooldown (stall c) = false.

Lemma hot_cell w p c : w_cells w !! p = Some c → hot w p = isOnCooldown (stall c).
Proof. unfold hot. by intros ->. Qed.

Lemma no_cooldown_hot w p : no_cooldown w → hot w p = false.
Proof. intros Hn. unfold hot. destruct (w_cells w !! p) as [c|] eqn:Hc; [by eapply Hn|done]. Qed.

Lemma elem_of_cool w X p : p ∈ cool w X ↔ hot w p = false ∧ p ∈ X.
Proof. unfold cool. by rewrite elem_of_filter. Qed.

Lemma cool_no_cooldown w X : no_cooldown w → cool w X = X.
Proof. intros Hn. apply set_eq. intros p. rewrite elem_of_cool, no_cooldown_hot by done. tauto. Qed.

(** The invariant sees the places and the stall information of the cells. *)
Definition outline (c : Cell) : Offset * StallInformation := (c_offset c, stall c).

Lemma inv_outline w w' :
  inv w → w_map w' = w_map w → w_cluster w' = w_cluster w →
  (∀ p, outline <$> w_cells w' !! p = outline <$> w_cells w !! p) → inv w'.
Proof.
  intros Hi Hm Hk Hc.
  assert (∀ p c, w_cells w !! p = Some c → ∃ c', w_cells w' !! p = Some c' ∧ c_offset c' = c_offset c ∧ stall c' = stall c) as Hfwd.
  { intros p c Hp. destruct (fmap_same _ _ _ (Hc p) c Hp) as (c' & ? & [= ? ?]). eauto. }
  assert (∀ p c', w_cells w' !! p = Some c' → ∃ c, w_cells w !! p = Some c ∧ c_offset c' = c_offset c ∧ stall c' = stall c) as Hbwd.
  { intros p c' Hp. destruct (fmap_same _ _ _ (eq_sym (Hc p)) c' Hp) as (c & ? & [= ? ?]). eauto. }
  split; rewrite ?Hm, ?Hk; try apply Hi.
  - intros o p Hp. destruct (inv_map _ Hi o p Hp) as (c & Hcp & <-). destruct (Hfwd p c Hcp) as (c' & ? & ? & _). eauto.
  - intros p c' Hp. destruct (Hbwd p c' Hp) as (c & Hcp & -> & _). by apply Hi.
  - intros p Hp. destruct (inv_live _ Hi p Hp) as (c & Hcp & Hcd). destruct (Hfwd p c Hcp) as (c' & ? & _ & Hs).
    exists c'. by rewrite Hs.
  - intros u v He. destruct (inv_edges _ Hi u v He) as (p & q & c & d & Hu & Hv & Hcp & Hdq & Hadj).
    destruct (Hfwd p c Hcp) as (c' & Hc' & Ho & _), (Hfwd q d Hdq) as (d' & Hd' & Ho' & _).
    exists p, q, c', d'. by rewrite Ho, Ho'.
  - intros p c' Hp. destruct (Hbwd p c' Hp) as (c & Hcp & _ & ->). by apply (inv_stall _ Hi).
  - intros p Hp. destruct (inv_stall_live _ Hi p Hp) as (c & Hcp & Hor). destruct (Hfwd p c Hcp) as (c' & ? & _ & Hs).
    exists c'. by rewrite Hs.
Qed.

Lemma outline_hot w w' p : outline <$> w_cells w' !! p = outline <$> w_cells w !! p → hot w' p = hot w p.
Proof.
  unfold hot. intros Hc. destruct (w_cells w' !! p), (w_cells w !! p); try done. by injection Hc as _ ->.
Qed.

(** What touching cells may change. *)
Record evolves (w w' : World) : Prop := {
  ev_map : w_map w' = w_map w;
  ev_operations : w_operations w' = w_operations w;
  ev_entities : w_entities w' = w_entities w;
  ev_clients : w_clients w' = w_clients w;
  ev_server : w_server_ops w' = w_server_ops w;
  ev_sent : w_sent w' = w_sent w;
  ev_k_operations : k_operations (w_cluster w') = k_operations (w_cluster w);
  ev_old : k_old (w_cluster w') = k_old (w_cluster w);
  ev_keepers : k_keepers (w_cluster w') = k_keepers (w_cluster w);
  ev_groups : k_cellsByCluster (w_cluster w') = k_cellsByCluster (w_cluster w);
  ev_components : k_num_components (w_cluster w') = k_num_components (w_cluster w);
  ev_cells p :
    w_cells w' !! p = w_cells w !! p ∨
    ∃ c, w_cells w !! p = Some c ∧ w_cells w' !! p = Some (unstall c);
  ev_stall : k_stallCells (w_cluster w') ⊆ k_stallCells (w_cluster w);
  ev_hot p : hot w p = true → w_cells w' !! p = w_cells w !! p ∧
    (p ∈ k_stallCells (w_cluster w) → p ∈ k_stallCells (w_cluster w'));
  ev_current : k_current (w_cluster w) ⊆ k_current (w_cluster w');
  ev_vertices : k_vertices (w_cluster w) ⊆ k_vertices (w_cluster w');
  ev_edges : rt_edges (k_graph (w_cluster w)) ⊆ rt_edges (k_graph (w_cluster w'));
}.

Lemma evolves_refl w : evolves w w.
Proof. split; auto. Qed.

Lemma unstall_twice c : unstall (unstall c) = unstall c.
Proof. done. Qed.

Lemma evolves_trans w1 w2 w3 : evolves w1 w2 → evolves w2 w3 → evolves w1 w3.
Proof.
  intros [] []. split; try congruence; try (etrans; eassumption).
  2: { intros p Hp. destruct (ev_hot0 p Hp) as [H1 H2]. unfold hot in *. rewrite <-H1 in Hp.
       destruct (ev_hot1 p Hp) as [H3 H4]. split; [congruence|auto]. }
  intros p. destruct (ev_cells0 p) as [H1|(c & H1 & H2)], (ev_cells1 p) as [H3|(d & H3 & H4)].
  - left. congruence.
  - right. exists d. split; congruence.
  - right. exists c. split; congruence.
  - right. exists c. split; [done|]. rewrite H4. rewrite H2 in H3. by simplify_eq.
Qed.

(** A cell before and after. *)
Lemma evolves_cell w w' p c :
  evolves w w' → w_cells w !! p = Some c →
  ∃ c', w_cells w' !! p = Some c' ∧ c_offset c' = c_offset c ∧ c_entities c' = c_entities c ∧
        c_clientsCount c' = c_clientsCount c ∧ (isOnCooldown (stall c) = false → isOnCooldown (stall c') = false).
Proof.
  intros Hev Hc. destruct (ev_cells _ _ Hev p) as [H1|(d & H1 & H2)].
  - exists c. rewrite H1. done.
  - exists (unstall c). rewrite H2. by simplify_eq.
Qed.

Lemma evolves_cell_inv w w' p c' :
  evolves w w' → w_cells w' !! p = Some c' →
  ∃ c, w_cells w !! p = Some c ∧ c_offset c' = c_offset c ∧ (c' = c ∨ c' = unstall c).
Proof.
  intros Hev Hc. destruct (ev_cells _ _ Hev p) as [H1|(d & H1 & H2)].
  - exists c'. rewrite <-H1. auto.
  - exists d. rewrite H2 in Hc. simplify_eq. auto.
Qed.

Lemma evolves_hot w w' p : evolves w w' → hot w' p = hot w p.
Proof.
  intros Hev. destruct (hot w p) eqn:Hp.
  - unfold hot. by rewrite (proj1 (ev_hot _ _ Hev p Hp)).
  - unfold hot in *. destruct (ev_cells _ _ Hev p) as [->|(c & _ & ->)]; [exact Hp|done].
Qed.

Lemma evolves_cool w w' X : evolves w w' → cool w' X = cool w X.
Proof. intros Hev. apply set_eq. intros p. by rewrite !elem_of_cool, (evolves_hot w w'). Qed.

Lemma evolves_unstalled w w' p : evolves w w' → unstalled w p → unstalled w' p.
Proof.
  intros Hev (Hp & c & Hc & Hr & Hcd). split; [by intros ?%(ev_stall _ _ Hev)|].
  destruct (ev_cells _ _ Hev p) as [H1|(d & _ & H2)]; [exists c; by rewrite H1|by exists (unstall d)].
Qed.

Lemma evolves_no_cooldown w w' : evolves w w' → no_cooldown w → no_cooldown w'.
Proof.
  intros Hev Hn p c' Hc'. destruct (evolves_cell_inv _ _ _ _ Hev Hc') as (c & Hc & _ & [-> | ->]); [|done].
  by eapply Hn.
Qed.

(** *** Touching one cell *)

Definition add_touched (p : positive) (k : Cluster) : Cluster :=
  if bool_decide (p ∈ k_current k) then k
  else set_graph (rt_add_vertex (k_graph k)).2 (<[p := (rt_add_vertex (k_graph k)).1]> (k_vertices k))
         (set_buffers ({[p]} ∪ k_current k) (k_old k) k).

Context `{!RuntimeLaws}.

Lemma add_touched_inv w p c :
  inv w → w_cells w !! p = Some c → isOnCooldown (stall c) = false →
  inv (set_cluster (add_touched p (w_cluster w)) w).
Proof.
  intros Hi Hc Hcd. unfold add_touched. case_bool_decide as Hp; [by destruct w|].
  pose proof (inv_vertices _ Hi) as Hv.
  assert (k_vertices (w_cluster w) !! p = None) as Hnone.
  { apply not_elem_of_dom. by rewrite Hv. }
  assert (∀ q v, k_vertices (w_cluster w) !! q = Some v → v < rt_order (k_graph (w_cluster w))) as Hb
    by apply Hi.
  split; cbn; rewrite ?rt_vertex_id, ?rt_vertex_order, ?rt_vertex_edges; try apply Hi.
  - rewrite dom_insert_L. by rewrite Hv.
  - intros q [->%elem_of_singleton|Hq]%elem_of_union; [by exists c|by apply Hi].
  - intros q q' v Hq Hq'. apply lookup_insert_Some in Hq as [[<- <-]|[? Hq]];
      apply lookup_insert_Some in Hq' as [[<- ?]|[? Hq']]; [done|..].
    + apply Hb in Hq'. lia.
    + subst. apply Hb in Hq. lia.
    + by eapply (inv_inj _ Hi).
  - intros q v Hq. apply lookup_insert_Some in Hq as [[<- <-]|[? Hq]]; [lia|]. apply Hb in Hq. lia.
  - rewrite map_size_insert_None by done. by rewrite (inv_order _ Hi).
  - intros u v He. destruct (inv_edges _ Hi u v He) as (q & q' & c1 & c2 & Hq & Hq' & ?).
    exists q, q', c1, c2. split_and!; try tauto; rewrite lookup_insert_ne; try done; congruence.
Qed.

Lemma add_touched_evolves w p : inv w → evolves w (set_cluster (add_touched p (w_cluster w)) w).
Proof.
  intros Hi. unfold add_touched. case_bool_decide as Hp; [destruct w; by apply evolves_refl|].
  assert (k_vertices (w_cluster w) !! p = None) as Hnone.
  { apply not_elem_of_dom. by rewrite (inv_vertices _ Hi). }
  split; cbn; rewrite ?rt_vertex_edges; auto; [set_solver|]. by apply insert_subseteq.
Qed.

(** The flags of [p] are cleared, and [p] leaves [_stallCells]. *)
Definition cleared (p : positive) (c : Cell) (w : World) : World :=
  set_cluster (set_stallCells (k_stallCells (w_cluster w) ∖ {[p]}) (w_cluster w))
    (set_cells (<[p := unstall c]> (w_cells w)) w).

Lemma cleared_inv w p c : inv w → w_cells w !! p = Some c → inv (cleared p c w).
Proof.
  intros Hi Hc. assert (dom (<[p := unstall c]> (w_cells w)) = dom (w_cells w)) as Hd.
  { apply dom_insert_lookup_L. by exists c. }
  split; cbn; rewrite ?Hd; try apply Hi.
  - intros o q Hq. destruct (inv_map _ Hi o q Hq) as (d & Hd' & <-).
    destruct (decide (q = p)) as [->|Hne].
    + exists (unstall c). rewrite lookup_insert_eq. by simplify_eq.
    + exists d. by rewrite lookup_insert_ne.
  - intros q d Hq. apply lookup_insert_Some in Hq as [[<- <-]|[? Hq]];
    [exact (inv_cells _ Hi p c Hc)|by apply (inv_cells _ Hi)].
  - intros q Hq. destruct (inv_live _ Hi q Hq) as (d & Hd' & Hcd). destruct (decide (q = p)) as [->|Hne].
    + exists (unstall c). by rewrite lookup_insert_eq.
    + exists d. by rewrite lookup_insert_ne.
  - intros u v He. destruct (inv_edges _ Hi u v He) as (q & q' & c1 & c2 & Hq & Hq' & Hc1 & Hc2 & Hadj).
    assert (∀ r d, w_cells w !! r = Some d →
      ∃ d', <[p := unstall c]> (w_cells w) !! r = Some d' ∧ c_offset d' = c_offset d) as Hr.
    { intros r d Hr. destruct (decide (r = p)) as [->|?].
      - exists (unstall c). rewrite lookup_insert_eq. by simplify_eq.
      - exists d. by rewrite lookup_insert_ne. }
    destruct (Hr _ _ Hc1) as (d1 & ? & Ho1), (Hr _ _ Hc2) as (d2 & ? & Ho2).
    exists q, q', d1, d2. rewrite Ho1, Ho2. done.
  - intros q d Hq Hst. apply lookup_insert_Some in Hq as [[<- <-]|[? Hq]]; [done|].
    destruct (inv_stall _ Hi q d Hq Hst). set_solver.
  - intros q [Hq Hne]%elem_of_difference. destruct (inv_stall_live _ Hi q Hq) as (d & Hd' & Hst).
    exists d. rewrite lookup_insert_ne; [done|set_solver].
Qed.

Lemma cleared_evolves w p c :
  w_cells w !! p = Some c → isOnCooldown (stall c) = false → evolves w (cleared p c w).
Proof.
  intros Hc Hcd. split; cbn; auto.
  - intros q. destruct (decide (q = p)) as [->|?].
    + right. exists c. by rewrite lookup_insert_eq.
    + left. by rewrite lookup_insert_ne.
  - set_solver.
  - intros q Hq. assert (q ≠ p) by (intros ->; unfold hot in Hq; rewrite Hc in Hq; congruence).
    rewrite lookup_insert_ne by done. set_solver.
Qed.

(** A stalled cell does not touch those on cooldown; nothing else may try. *)
Definition may_touch (w : World) (isStall : bool) (p : positive) : Prop := isStall = true ∨ hot w p = false.

(** What touching the cells of [X] does. *)
Record touches (isStall : bool) (X : gset positive) (w w' : World) : Prop := {
  to_inv : inv w';
  to_evolves : evolves w w';
  to_current : k_current (w_cluster w') = cool w X ∪ k_current (w_cluster w);
  to_unstalled p : isStall = false → p ∈ X → unstalled w' p;
  to_other p : p ∉ X → w_cells w' !! p = w_cells w !! p;
  to_stalled : isStall = true →
    w_cells w' = w_cells w ∧ k_stallCells (w_cluster w') = k_stallCells (w_cluster w);
}.

Lemma touches_nil isStall w : inv w → touches isStall ∅ w w.
Proof. intros Hi. split; [done|apply evolves_refl| |set_solver|done|done]. unfold cool. set_solver. Qed.

Lemma touches_trans isStall X Y w1 w2 w3 :
  touches isStall X w1 w2 → touches isStall Y w2 w3 → touches isStall (X ∪ Y) w1 w3.
Proof.
  intros [Hi1 He1 Hc1 Hu1 Ho1 Hs1] [Hi2 He2 Hc2 Hu2 Ho2 Hs2]. split; [done|by eapply evolves_trans| | | |].
  - rewrite Hc2, Hc1, (evolves_cool w1 w2) by done. unfold cool. set_solver.
  - intros p Hst [Hp|Hp]%elem_of_union; [|by apply Hu2]. eapply evolves_unstalled; [done|by apply Hu1].
  - intros p [Hp1 Hp2]%not_elem_of_union. by rewrite Ho2, Ho1.
  - intros Hst. destruct (Hs1 Hst) as [Ha Hb], (Hs2 Hst) as [Hc Hd]. split; congruence.
Qed.

Lemma touch_spec w p c isStall :
  inv w → w_cells w !! p = Some c → may_touch w isStall p →
  wp (touch p isStall) w (λ r w', r = negb (hot w p) ∧ touches isStall {[p]} w w').
Proof.
  intros Hi Hc Hmay. unfold touch. apply wp_bind. eapply wp_deref_cell; [done|]. cbn beta.
  unfold may_touch in Hmay. rewrite (hot_cell _ _ _ Hc) in *.
  apply wp_bind, wp_assert; [by destruct Hmay as [-> | ->]; [|destruct isStall]|].
  destruct (isOnCooldown (stall c)) eqn:Hcd.
  { destruct Hmay as [->|]; [|done]. apply wp_bind, wp_ret, wp_bind, wp_ret, wp_ret.
    split; [done|]. split; [done|apply evolves_refl| |done|done|done].
    assert (cool w {[p]} = ∅) as ->; [|set_solver]. apply set_eq. intros q.
    rewrite elem_of_cool, elem_of_singleton, elem_of_empty. split; [|done]. intros [Hq ->].
    rewrite (hot_cell _ _ _ Hc) in Hq. congruence. }
  clear Hmay. apply wp_bind, wp_bind, wp_cluster_state, wp_bind.
  assert (cool w {[p]} = {[p]}) as Hcool.
  { apply set_eq. intros q. rewrite elem_of_cool, elem_of_singleton. split; [tauto|]. intros ->.
    by rewrite (hot_cell _ _ _ Hc). }
  set (w1 := set_cluster (add_touched p (w_cluster w)) w).
  assert (k_current (w_cluster w1) = {[p]} ∪ k_current (w_cluster w)) as Hcur.
  { unfold w1, add_touched. case_bool_decide; [cbn; set_solver|done]. }
  assert (k_stallCells (w_cluster w1) = k_stallCells (w_cluster w)) as Hstc.
  { unfold w1, add_touched. by case_bool_decide. }
  assert (inv w1) as Hi1 by (by eapply add_touched_inv).
  assert (evolves w w1) as Hev1 by (by apply add_touched_evolves).
  apply (wp_mono _ _ (λ _ w', w' = w1)).
  { unfold w1, add_touched. case_bool_decide as Hp.
    - apply wp_ret. by destruct w.
    - destruct (rt_add_vertex _) as [v g]. by apply wp_upd_cluster. }
  intros _ ? ->. apply wp_ret, wp_bind. rewrite orb_false_r.
  destruct (negb isStall && isRegistered (stall c)) eqn:Hst.
  - apply andb_true_iff in Hst as [Hst Hreg].
    apply wp_bind. eapply wp_upd_cell; [exact Hc|].
    unfold erase_stall. apply wp_bind, wp_cluster_state.
    assert (p ∈ k_stallCells (w_cluster w1)) as Hin by by apply (inv_stall _ Hi1 p c).
    rewrite bool_decide_true by exact Hin. apply wp_upd_cluster, wp_ret.
    split; [done|]. split.
    + exact (cleared_inv w1 p c Hi1 Hc).
    + eapply evolves_trans; [exact Hev1|]. exact (cleared_evolves w1 p c Hc Hcd).
    + by rewrite Hcool.
    + intros q _ ->%elem_of_singleton. split; [cbn; set_solver|]. exists (unstall c). cbn.
      by rewrite lookup_insert_eq.
    + intros q Hq%not_elem_of_singleton. cbn. by rewrite lookup_insert_ne.
    + intros ->. done.
  - apply wp_ret, wp_ret. split; [done|]. split; [done|done|by rewrite Hcool| |done|done].
    intros q -> ->%elem_of_singleton. cbn in Hst. split; [|by exists c].
    rewrite Hstc. intros Hin. destruct (inv_stall_live _ Hi p Hin) as (d & Hd & Hor). simplify_eq.
    by rewrite Hst, Hcd in Hor.
Qed.

(** *** Touching a cell and its neighbours *)

(** The vertices of [p] and [q] are joined by an edge. *)
Definition linked (w : World) (p q : positive) : Prop :=
  ∃ u v, k_vertices (w_cluster w) !! p = Some u ∧ k_vertices (w_cluster w) !! q = Some v ∧
         (u, v) ∈ rt_edges (k_graph (w_cluster w)).

Lemma evolves_linked w w' p q : evolves w w' → linked w p q → linked w' p q.
Proof.
  intros Hev (u & v & Hu & Hv & He). exists u, v.
  split_and!; [by eapply lookup_weaken; [|apply Hev]..|by apply (ev_edges _ _ Hev)].
Qed.

Lemma wp_vertex_of w p v Q : k_vertices (w_cluster w) !! p = Some v → Q v w → wp (vertex_of p) w Q.
Proof. intros Hv HQ. unfold vertex_of. apply wp_bind, wp_cluster_state. by rewrite Hv. Qed.

Lemma connect_spec w p q c d :
  inv w → p ∈ k_current (w_cluster w) → q ∈ k_current (w_cluster w) →
  w_cells w !! p = Some c → w_cells w !! q = Some d → adjacent (c_offset c) (c_offset d) →
  wp (connect p q) w (λ _ w', inv w' ∧ evolves w w' ∧ linked w' p q ∧
    k_current (w_cluster w') = k_current (w_cluster w) ∧
    w_cells w' = w_cells w ∧ k_stallCells (w_cluster w') = k_stallCells (w_cluster w)).
Proof.
  intros Hi Hp Hq Hc Hd Hadj. rewrite <-(inv_vertices _ Hi) in Hp, Hq.
  apply elem_of_dom in Hp as [u Hu], Hq as [v Hv].
  unfold connect. apply wp_bind, wp_cluster_state, wp_bind, wp_assert.
  { rewrite Hu. by apply bool_decide_eq_true. }
  apply wp_bind, wp_assert. { rewrite Hv. by apply bool_decide_eq_true. }
  apply wp_bind. eapply wp_vertex_of; [done|]. apply wp_bind. eapply wp_vertex_of; [done|].
  apply wp_upd_cluster.
  assert (u < rt_order (k_graph (w_cluster w)) ∧ v < rt_order (k_graph (w_cluster w))) as [Hbu Hbv]
    by (split; by eapply (inv_bound _ Hi)).
  split_and!; [..|done|done|done].
  - split; cbn; rewrite ?rt_edge_order, ?rt_edge_edges by done; try apply Hi.
    intros u' v' [He|He%list_elem_of_singleton]%elem_of_app; [by apply (inv_edges _ Hi)|].
    simplify_eq. by exists p, q, c, d.
  - split; cbn; auto. rewrite rt_edge_edges. set_solver.
  - exists u, v. split_and!; [done|done|]. cbn. rewrite rt_edge_edges. set_solver.
Qed.

Lemma touch_neighbour_spec w p q c d isStall :
  inv w → p ∈ k_current (w_cluster w) →
  w_cells w !! p = Some c → w_cells w !! q = Some d → (q = p ∨ adjacent (c_offset c) (c_offset d)) →
  (q = p ∧ hot w p = false ∧ (isStall = false → unstalled w p) ∨ q ≠ p ∧ may_touch w isStall q) →
  wp (touch_neighbour p isStall (Some q)) w (λ _ w', touches isStall {[q]} w w' ∧
    (hot w q = false → q ≠ p → linked w' p q)).
Proof.
  intros Hi Hp Hc Hd Hadj Hmay. cbn [touch_neighbour]. case_bool_decide as Hqp.
  { subst q. destruct Hmay as [(_ & Hhot & Hun)|[]]; [|done]. apply wp_ret. split; [|done].
    split; [done|apply evolves_refl| |by intros ? ? ->%elem_of_singleton; apply Hun|done|done].
    apply set_eq. intros q. rewrite elem_of_union, elem_of_cool, elem_of_singleton. split; [auto|].
    by intros [[_ ->]|]. }
  destruct Hadj as [|Hadj]; [done|]. destruct Hmay as [[? _]|[_ Hmay]]; [done|].
  apply wp_bind. eapply wp_mono; [by eapply touch_spec|].
  intros r w1 (-> & Ht). destruct (hot w q) eqn:Hhot; cbn [negb]; [by apply wp_ret|].
  destruct (evolves_cell _ _ _ _ (to_evolves _ _ _ _ Ht) Hc) as (c1 & Hc1 & Ho1 & _).
  destruct (evolves_cell _ _ _ _ (to_evolves _ _ _ _ Ht) Hd) as (d1 & Hd1 & Ho2 & _).
  assert (q ∈ cool w {[q]}) as Hq by by rewrite elem_of_cool, elem_of_singleton.
  eapply wp_mono.
  { apply (connect_spec w1 p q c1 d1); [apply Ht| | |done|done|by rewrite Ho1, Ho2];
      rewrite (to_current _ _ _ _ Ht); set_solver. }
  intros [] w2 (Hi2 & Hev2 & Hl & Hcur2 & Hce2 & Hst2). split; [|done].
  destruct Ht as [_ Hev1 Hcur1 Hun Hoth Hst]. split; [done|by eapply evolves_trans|by rewrite Hcur2| | |].
  - intros x Hx Hx'. eapply evolves_unstalled; [done|by apply Hun].
  - intros x Hx. rewrite Hce2. by apply Hoth.
  - intros Hx. rewrite Hce2, Hst2. by apply Hst.
Qed.

Definition present (l : list (option positive)) : gset positive := list_to_set (omap id l).

Lemma present_cons_some q l : present (Some q :: l) = {[q]} ∪ present l.
Proof. done. Qed.
Lemma present_cons_none l : present (None :: l) = present l.
Proof. done. Qed.
Lemma elem_of_present q l : q ∈ present l ↔ Some q ∈ l.
Proof.
  unfold present. rewrite elem_of_list_to_set, list_elem_of_omap. split.
  - intros (x & Hx & Hid). unfold id in Hid. by subst x.
  - intros Hq. by exists (Some q).
Qed.

Lemma touch_neighbours_spec w p c isStall nns :
  inv w → p ∈ k_current (w_cluster w) → w_cells w !! p = Some c →
  hot w p = false → (isStall = false → unstalled w p) →
  (∀ q, Some q ∈ nns → may_touch w isStall q ∧
     ∃ d, w_cells w !! q = Some d ∧ (q = p ∨ adjacent (c_offset c) (c_offset d))) →
  wp (for_each (touch_neighbour p isStall) nns) w (λ _ w', touches isStall (present nns) w w' ∧
    ∀ q, Some q ∈ nns → hot w q = false → q ≠ p → linked w' p q).
Proof.
  revert w c. induction nns as [|[q|] nns IH]; intros w c Hi Hp Hc Hhot Hun Hnns; cbn [for_each].
  - apply wp_ret. split; [by apply touches_nil|by intros ? ?%elem_of_nil].
  - destruct (Hnns q) as (Hmay & d & Hd & Hadj); [by left|]. apply wp_bind.
    eapply wp_mono.
    { apply (touch_neighbour_spec w p q c d); [done..|]. destruct (decide (q = p)) as [->|]; [left|right]; done. }
    intros _ w1 (Ht1 & Hl1). pose proof (to_evolves _ _ _ _ Ht1) as Hev1.
    destruct (evolves_cell _ _ _ _ Hev1 Hc) as (c1 & Hc1 & Ho1 & _).
    eapply wp_mono; [apply (IH w1 c1)|].
    + apply Ht1.
    + rewrite (to_current _ _ _ _ Ht1). set_solver.
    + done.
    + by rewrite (evolves_hot w w1).
    + intros Hst. eapply evolves_unstalled; [done|by apply Hun].
    + intros q' Hq'. destruct (Hnns q') as (Hmay' & d' & Hd' & Hadj'); [by right|].
      split; [unfold may_touch in *; by rewrite (evolves_hot w w1)|].
      destruct (evolves_cell _ _ _ _ Hev1 Hd') as (d1 & Hd1 & Ho2 & _). exists d1. by rewrite Ho1, Ho2.
    + intros _ w2 (Ht2 & Hl2). split; [rewrite present_cons_some; by eapply touches_trans|].
      intros q' [[= ->]|Hq']%elem_of_cons Hq'h Hne.
      * eapply evolves_linked; [apply Ht2|by apply Hl1].
      * apply Hl2; [done|by rewrite (evolves_hot w w1)|done].
  - apply wp_bind, wp_ret. eapply wp_mono; [apply (IH w c); try done|].
    + intros q Hq. apply Hnns. by right.
    + intros _ w2 (? & Hl2). split; [by rewrite present_cons_none|].
      intros q [[=]|Hq]%elem_of_cons; by apply Hl2.
Qed.

(** The cells that exist around the coordinates [o], [o] included. *)
Definition around (w : World) (o : Offset) : gset positive :=
  present ((λ o, w_map w !! o) <$> (off_add o <$> inRadius_dirs 1)).

Lemma elem_of_around w o q :
  q ∈ around w o ↔ ∃ o', w_map w !! o' = Some q ∧ (o' = o ∨ adjacent o o').
Proof.
  unfold around. rewrite elem_of_present, list_elem_of_fmap. split.
  - intros (o' & Hq & Ho'). exists o'. split; [done|].
    apply elem_of_shift in Ho'. rewrite elem_of_inRadius_dirs in Ho'. cbn [fst snd] in Ho'.
    rewrite adjacent_dist. rewrite <-hex_dist_delta in Ho'. pose proof (hex_dist_nonneg o o').
    destruct (decide (hex_dist o o' = 1%Z)); [by right|left]. symmetry. apply hex_dist_0. lia.
  - intros (o' & Hq & Ho'). exists o'. split; [done|].
    apply elem_of_shift. rewrite elem_of_inRadius_dirs. cbn [fst snd].
    rewrite <-hex_dist_delta.
    destruct Ho' as [->|Ho']; [by rewrite (proj2 (hex_dist_0 o o))|].
    apply adjacent_dist in Ho'. lia.
Qed.

Lemma around_self w p c : inv w → w_cells w !! p = Some c → p ∈ around w (c_offset c).
Proof.
  intros Hi Hc. apply elem_of_around. exists (c_offset c). split; [by apply (inv_cells _ Hi)|by left].
Qed.

Lemma touchWithNeighbours_touches w p c isStall :
  inv w → w_cells w !! p = Some c → in_grid (c_offset c) → hot w p = false →
  (∀ q, q ∈ around w (c_offset c) → may_touch w isStall q) →
  wp (touchWithNeighbours p isStall) w (λ r w', r = true ∧ touches isStall (around w (c_offset c)) w w' ∧
    ∀ q, q ∈ around w (c_offset c) → hot w q = false → q ≠ p → linked w' p q).
Proof.
  intros Hi Hc Hg Hhot Hmay. unfold touchWithNeighbours. apply wp_bind.
  eapply wp_mono; [eapply touch_spec; [done|done|by right]|].
  intros r w1 (-> & Ht1). rewrite Hhot. cbn [negb andb]. pose proof (to_evolves _ _ _ _ Ht1) as Hev1.
  destruct (evolves_cell _ _ _ _ Hev1 Hc) as (c1 & Hc1 & Ho1 & _).
  apply wp_bind. eapply wp_inRadius; [done|by rewrite Ho1|lia|].
  assert (around w1 (c_offset c1) = around w (c_offset c)) as Har.
  { unfold around. by rewrite Ho1, (ev_map _ _ Hev1). }
  assert (p ∈ cool w {[p]}) as Hcool by by rewrite elem_of_cool, elem_of_singleton.
  apply wp_bind. eapply wp_mono.
  { apply (touch_neighbours_spec w1 p c1).
    - apply Ht1.
    - rewrite (to_current _ _ _ _ Ht1). set_solver.
    - done.
    - by rewrite (evolves_hot w w1).
    - intros ->. apply Ht1; [done|set_solver].
    - intros q Hq. apply elem_of_present in Hq. fold (around w1 (c_offset c1)) in Hq. split.
      { unfold may_touch. rewrite (evolves_hot w w1) by done. apply Hmay. by rewrite <-Har. }
      apply elem_of_around in Hq as (o' & Hq & Ho').
      destruct (inv_map _ (to_inv _ _ _ _ Ht1) o' q Hq) as (d & Hd & Hdo). exists d. split; [done|].
      rewrite Hdo. destruct Ho' as [->|?]; [left|by right].
      pose proof (inv_cells _ (to_inv _ _ _ _ Ht1) p c1 Hc1). congruence. }
  intros _ w2 (Ht2 & Hl2). apply wp_ret. fold (around w1 (c_offset c1)) in Ht2. rewrite Har in Ht2.
  split; [done|]. split.
  - replace (around w (c_offset c)) with ({[p]} ∪ around w (c_offset c)).
    + by eapply touches_trans.
    + pose proof (around_self w p c Hi Hc). set_solver.
  - intros q Hq Hq'. rewrite <-Har in Hq. apply Hl2; [by apply elem_of_present|by rewrite (evolves_hot w w1)].
Qed.

(** When no cell is on cooldown. *)
Lemma touchWithNeighbours_spec w p c isStall :
  inv w → no_cooldown w → w_cells w !! p = Some c → in_grid (c_offset c) →
  wp (touchWithNeighbours p isStall) w (λ r w', r = true ∧ inv w' ∧ evolves w w' ∧
    k_current (w_cluster w') = around w (c_offset c) ∪ k_current (w_cluster w) ∧
    ∀ q, q ∈ around w (c_offset c) → q ≠ p → linked w' p q).
Proof.
  intros Hi Hn Hc Hg. assert (∀ q, hot w q = false) as Hh by (intros q; by apply no_cooldown_hot).
  eapply wp_mono; [apply (touchWithNeighbours_touches w p c); [done..|by right]|].
  intros r w' (-> & [Hi' Hev Hcur _ _ _] & Hl). rewrite cool_no_cooldown in Hcur by done.
  split_and!; [done|done|done|done|]. intros q Hq. by apply Hl.
Qed.

(** ** The groups *)

(** The component of a cell. *)
Definition component_of (k : Cluster) (p : positive) : option nat :=
  v ← k_vertices k !! p; (rt_connected_components (k_graph k)).2 !! v.

Lemma component_of_some w p :
  inv w → p ∈ k_current (w_cluster w) →
  ∃ c, component_of (w_cluster w) p = Some c ∧ c < (rt_connected_components (k_graph (w_cluster w))).1.
Proof.
  intros Hi Hp. rewrite <-(inv_vertices _ Hi) in Hp. apply elem_of_dom in Hp as [v Hv].
  unfold component_of. rewrite Hv. cbn.
  destruct (lookup_lt_is_Some_2 (rt_connected_components (k_graph (w_cluster w))).2 v) as [c Hc].
  { rewrite rt_components_length. by eapply (inv_bound _ Hi). }
  exists c. split; [done|]. by eapply rt_components_bound, list_elem_of_lookup_2.
Qed.

Lemma cells_of_insert cid cid' l m :
  cells_of cid (<[cid' := l]> m) = if decide (cid = cid') then l else cells_of cid m.
Proof.
  unfold cells_of. destruct (decide (cid = cid')) as [->|?].
  - by rewrite lookup_insert_eq.
  - by rewrite lookup_insert_ne.
Qed.

Lemma group_loop w l n :
  let k := w_cluster w in
  (∀ p, p ∈ l → is_Some (component_of k p)) →
  wp (for_each (group_cell (rt_connected_components (k_graph k)).2) l)
    (set_cluster (set_components n (k_cellsByCluster k) k) w) (λ _ w', ∃ m,
      w' = set_cluster (set_components n m k) w ∧
      ∀ cid, cells_of cid m = cells_of cid (k_cellsByCluster k) ++
                              filter (λ p, component_of k p = Some cid) l).
Proof.
  intros k. generalize (k_cellsByCluster k). induction l as [|p l IH]; intros m Hl; cbn [for_each].
  { apply wp_ret. exists m. split; [done|]. intros. by rewrite app_nil_r. }
  destruct (Hl p) as [cid Hcid]; [by left|].
  unfold component_of in Hcid. destruct (k_vertices k !! p) as [v|] eqn:Hv; [|done]. cbn in Hcid.
  apply wp_bind. unfold group_cell. apply wp_bind, wp_cluster_state, wp_bind.
  eapply wp_from_option; [exact Hv|]. apply wp_bind. eapply wp_from_option; [exact Hcid|].
  apply wp_upd_cluster. cbn [w_cluster set_cluster set_components k_num_components k_cellsByCluster].
  eapply wp_mono; [apply IH; intros; apply Hl; by right|].
  intros [] w' (m' & Hw' & Hm'). exists m'. split; [exact Hw'|]. intros cid'. rewrite Hm', cells_of_insert.
  destruct (decide (cid' = cid)) as [->|Hne].
  - rewrite filter_cons_True; [by rewrite <-app_assoc|]. unfold component_of. by rewrite Hv.
  - rewrite filter_cons_False; [done|]. unfold component_of. rewrite Hv. cbn. congruence.
Qed.

(** The cells that have a vertex, in the order in which they are grouped. *)
Definition vertex_cells (k : Cluster) : list positive := rt_cells_in_order (dom (k_vertices k)).

Lemma vertex_cells_current w : inv w → vertex_cells (w_cluster w) ≡ₚ elements (k_current (w_cluster w)).
Proof. intros Hi. unfold vertex_cells. by rewrite rt_cells_perm, (inv_vertices _ Hi). Qed.

Lemma elem_of_vertex_cells w p : inv w → p ∈ vertex_cells (w_cluster w) ↔ p ∈ k_current (w_cluster w).
Proof. intros Hi. by rewrite (vertex_cells_current w Hi), elem_of_elements. Qed.

(** Grouping changes nothing but the groups. *)
Lemma group_cells_ok w :
  let k := w_cluster w in
  inv w → (∀ cid, cells_of cid (k_cellsByCluster k) = []) →
  (Z.of_nat (rt_connected_components (k_graph k)).1 < 2 ^ 16)%Z →
  wp group_cells w (λ _ w', ∃ m,
    w' = set_cluster (set_components (rt_connected_components (k_graph k)).1 m k) w ∧
    ∀ cid, cells_of cid m = filter (λ p, component_of k p = Some cid) (vertex_cells k)).
Proof.
  intros k Hi Hempty Hfew. unfold group_cells. apply wp_bind, wp_cluster_state. fold k.
  pose proof (group_loop w (vertex_cells k) (rt_connected_components (k_graph k)).1) as Hloop. cbn zeta in Hloop. fold k in Hloop.
  pose proof (rt_components_length (k_graph k)) as Hlen.
  destruct (rt_connected_components (k_graph k)) as [n comps] eqn:Hcc. cbn [fst snd] in *.
  rewrite bool_decide_true by (unfold k in *; rewrite Hlen, (inv_order _ Hi); lia).
  apply wp_bind, wp_ret, wp_bind, wp_upd_cluster.
  assert (Z.to_nat (u16 (Z.of_nat n)) = n) as ->.
  { rewrite wrap_small; lia. }
  eapply wp_mono; [apply Hloop|].
  { intros p Hp%(elem_of_vertex_cells w p Hi). destruct (component_of_some w p Hi Hp) as (c & Hc & _). by exists c. }
  intros [] w' (m & -> & Hm). exists m. split; [done|]. intros cid. by rewrite Hm, Hempty.
Qed.

(** The groups hold every touched cell once. *)
Lemma groups_perm w m :
  let k := w_cluster w in
  inv w → (∀ cid, cells_of cid m = filter (λ p, component_of k p = Some cid) (vertex_cells k)) →
  concat ((λ cid, cells_of cid m) <$> seq 0 (rt_connected_components (k_graph k)).1) ≡ₚ elements (k_current k).
Proof.
  intros k Hi Hm. rewrite (list_fmap_ext _ (λ cid, filter (λ p, component_of k p = Some cid) (vertex_cells k)))
    by (intros; apply Hm).
  rewrite concat_groups; [by apply vertex_cells_current|].
  intros p Hp%(elem_of_vertex_cells w p Hi). by apply component_of_some.
Qed.

(** C10. Before the cells are updated they are grouped by component, and the
    groups are a partition of the touched cells: every touched cell is in
    exactly one group, once, so it is updated exactly once per tick; two cells
    are in the same group exactly when the graph connects them. *)
Theorem group_cells_partition (w : World)
    (Hi : inv w) (Hempty : ∀ cid, cells_of cid (k_cellsByCluster (w_cluster w)) = [])
    (Hfew : (Z.of_nat (rt_connected_components (k_graph (w_cluster w))).1 < 2 ^ 16)%Z) :
  wp group_cells w (λ _ w',
    let m := k_cellsByCluster (w_cluster w') in
    concat ((λ cid, cells_of cid m) <$> seq 0 (k_num_components (w_cluster w')))
      ≡ₚ elements (k_current (w_cluster w)) ∧
    ∀ p q u v, k_vertices (w_cluster w) !! p = Some u → k_vertices (w_cluster w) !! q = Some v →
      ((∃ cid, p ∈ cells_of cid m ∧ q ∈ cells_of cid m) ↔
       rtsc (λ a b, (a, b) ∈ rt_edges (k_graph (w_cluster w))) u v)).
Proof.
  eapply wp_mono; [by apply group_cells_ok|]. intros [] w' (m & -> & Hm). cbn.
  split; [by apply groups_perm|]. intros p q u v Hu Hv.
  assert (∀ r x cid, k_vertices (w_cluster w) !! r = Some x →
    (r ∈ cells_of cid m ↔ (rt_connected_components (k_graph (w_cluster w))).2 !! x = Some cid)) as Hgroup.
  { intros r x cid Hx. rewrite Hm, list_elem_of_filter, elem_of_vertex_cells by done.
    unfold component_of. rewrite Hx. cbn. enough (r ∈ k_current (w_cluster w)) by tauto.
    rewrite <-(inv_vertices _ Hi). apply elem_of_dom. by exists x. }
  destruct (lookup_lt_is_Some_2 (rt_connected_components (k_graph (w_cluster w))).2 u) as [cu Hcu];
    [rewrite rt_components_length; by eapply (inv_bound _ Hi)|].
  destruct (lookup_lt_is_Some_2 (rt_connected_components (k_graph (w_cluster w))).2 v) as [cv Hcv];
    [rewrite rt_components_length; by eapply (inv_bound _ Hi)|].
  rewrite <-(rt_components_connected _ u v cu cv) by done. split.
  - intros (cid & Hp & Hq). apply (Hgroup p u) in Hp; [|done]. apply (Hgroup q v) in Hq; [|done]. congruence.
  - intros <-. exists cu. split; [by apply (Hgroup p u)|by apply (Hgroup q v)].
Qed.

(** ** The life of a stalled cell *)

Definition stall_after (elapsed : list Z) (st : StallInformation) : StallInformation :=
  foldl (λ st e, stall_step e st) st elapsed.

Definition total : list Z → Z := foldr Z.add 0%Z.

Lemma stall_after_cooldown es st :
  isRegistered st = false → stall_after es st = st.
Proof.
  intros Hr. induction es as [|e es IH]; [done|]. cbn. unfold stall_step at 2. by rewrite Hr.
Qed.

Lemma stall_after_spec es r :
  Forall (λ e, 0 ≤ e)%Z es → (0 < r < 2 ^ 64)%Z →
  let st := stall_after es (mkStall true false r) in
  if (total es <? r)%Z then st = mkStall true false (r - total es)
  else isRegistered st = false ∧ isOnCooldown st = true.
Proof.
  intros Hes. revert r. induction Hes as [|e es He Hes IH]; intros r Hr.
  { cbn. destruct (Z.ltb_spec 0 r); [|lia]. by rewrite Z.sub_0_r. }
  assert (0 ≤ total es)%Z as Ht.
  { clear -Hes. induction Hes; cbn [total foldr] in *; [lia|]. unfold total in *. lia. }
  assert (stall_after (e :: es) (mkStall true false r) =
    stall_after es (if (e <? r)%Z then mkStall true false (u64 (r - e)) else mkStall false true r)) as -> by done.
  assert (total (e :: es) = e + total es)%Z as -> by done. cbn zeta.
  destruct (Z.ltb_spec e r) as [Hlt|Hge].
  - rewrite wrap_small by lia. specialize (IH (r - e)%Z ltac:(lia)). cbn zeta in IH.
    destruct (Z.ltb_spec (total es) (r - e)), (Z.ltb_spec (e + total es) r); try lia; [|exact IH].
    rewrite IH. f_equal. lia.
  - destruct (Z.ltb_spec (e + total es) r); [lia|]. by rewrite stall_after_cooldown.
Qed.

(** C26. A cell that is no longer touched lives for two more minutes: as long
    as the ticks since it stalled sum up to less it counts down exactly, and
    the first tick that reaches two minutes puts it on cooldown, where it
    stays (until it is destroyed). *)
Theorem stall_two_minutes (es : list Z) (Hes : Forall (λ e, 0 ≤ e)%Z es) :
  let st := stall_after es (mkStall true false stall_time) in
  if (total es <? stall_time)%Z then st = mkStall true false (stall_time - total es)
  else isRegistered st = false ∧ isOnCooldown st = true.
Proof. apply stall_after_spec; [done|unfold stall_time; lia]. Qed.

(** Between the cleanup that schedules the destruction of a cell and the
    tick that destroys it, the cell is still in the map, on cooldown, and no
    longer in [_stallCells]. Touching it then - an entity is added next to it,
    before the DESTROY in the queue - ends the program: a failed assertion, or
    [erase(end())] where assertions are compiled out. *)
Theorem touch_pending_destroy (w : World) (p : positive) (c : Cell) (n : Z)
    (Hc : w_cells w !! p = Some c) (Hcd : isOnCooldown (stall c) = true) :
  ((_ ← process_stall n p; touch p false) w).1 = Fail (if rt_ndebug then UB EraseEnd else Abort).
Proof.
  unfold process_stall. unfold mbind, ST_bind, deref_cell, get, from_option, mbind, ST_bind.
  rewrite Hc. cbn beta iota. unfold mret at 1, ST_ret at 1. rewrite Hcd. cbn [negb].
  unfold destroyCell, deref_cell, mbind, ST_bind, get. rewrite Hc. unfold from_option, mret, ST_ret, modify.
  unfold upd_cluster, modify. cbn beta iota. unfold touch, deref_cell, mbind, ST_bind, get.
  cbn [w_cells set_cluster set_operations]. rewrite Hc. cbn beta iota.
  unfold from_option, mret, ST_ret, assert_. rewrite Hcd. cbn [negb orb].
  destruct rt_ndebug; [|done]. cbn [orb]. unfold mret, ST_ret. rewrite orb_true_r. cbn [andb].
  unfold upd_cell, deref_cell, mbind, ST_bind, get, from_option.
  cbn [w_cells set_cluster set_operations]. rewrite Hc. unfold mret, ST_ret, modify. cbn beta iota.
  unfold erase_stall, mbind, ST_bind, cluster_state, gets. cbn. rewrite bool_decide_false; [done|].
  set_solver.
Qed.

(** ** Keepers *)

Definition occ (e : positive) (l : list positive) : nat := length (filter (λ x, x = e) l).
Definition scheduled (t : ClusterOperationType) (e : positive) (ops : list ClusterOperation) : nat :=
  length (filter (λ op, op = mkClusterOperation t e) ops).

Lemma occ_cons e x l : occ e (x :: l) = (if decide (x = e) then 1 else 0) + occ e l.
Proof. unfold occ. rewrite filter_cons. by destruct (decide (x = e)). Qed.

Lemma scheduled_cons t e op ops :
  scheduled t e (op :: ops) = (if decide (op = mkClusterOperation t e) then 1 else 0) + scheduled t e ops.
Proof. unfold scheduled. rewrite filter_cons. by destruct (decide _). Qed.

Lemma occ_app e l l' : occ e (l ++ l') = occ e l + occ e l'.
Proof. unfold occ. by rewrite filter_app, length_app. Qed.

Lemma erase_first_spec x l :
  match erase_first x l with
  | Some l' => ∀ e, occ e l = (if decide (x = e) then 1 else 0) + occ e l'
  | None => occ x l = 0
  end.
Proof.
  induction l as [|y l IH]; [done|]. cbn [erase_first]. destruct (decide (x = y)) as [<-|Hne].
  - intros e. apply occ_cons.
  - destruct (erase_first x l) as [l'|]; cbn [fmap option_fmap option_map].
    + intros e. rewrite !occ_cons, IH. lia.
    + rewrite occ_cons, IH. by rewrite decide_False.
Qed.

Local Ltac count_ops :=
  rewrite ?occ_app, ?occ_cons, ?scheduled_cons in *;
  repeat match goal with
  | H : context [occ ?e []] |- _ => change (occ e []) with 0 in H
  | H : context [decide ?P] |- _ => destruct (decide P)
  | |- context [decide ?P] => destruct (decide P)
  end; simplify_eq; lia.

(** C27. The keepers are a multiset that KEEP adds to and UNKEEP takes from:
    running what is scheduled drains the queue and leaves each entity as many
    times as it was there and kept, less the times it was unkept; it goes
    wrong exactly at an UNKEEP for an entity that is not a keeper any more,
    where [erase] is called on [end()]. *)
Theorem keepers_multiset (w : World) (ops : list ClusterOperation) (fuel : nat)
    (Hops : lf_contents (k_operations (w_cluster w)) = ops) (Hfuel : length ops ≤ fuel) :
  match run_cluster_operations fuel w with
  | (Ok _, w') =>
      lf_contents (k_operations (w_cluster w')) = [] ∧
      ∀ e, occ e (k_keepers (w_cluster w')) + scheduled UNKEEP e ops
           = occ e (k_keepers (w_cluster w)) + scheduled KEEP e ops
  | (Fail f, _) =>
      f = UB EraseEnd ∧ ∃ pre e post, ops = pre ++ mkClusterOperation UNKEEP e :: post ∧
        occ e (k_keepers (w_cluster w)) + scheduled KEEP e pre = scheduled UNKEEP e pre
  end.
Proof.
  revert w fuel Hops Hfuel. induction ops as [|op ops IH]; intros w fuel Hops Hfuel;
    destruct fuel as [|fuel]; try (cbn in Hfuel; lia); cbn [run_cluster_operations];
    unfold mbind at 1, ST_bind at 1, cluster_state at 1, gets at 1; cbn beta iota;
    pose proof (lf_pop_contents (cap := Some 4096) (k_operations (w_cluster w))) as Hp; rewrite Hops in Hp.
  1, 2: rewrite Hp; split; [done|intros; cbn; lia].
  destruct Hp as (q & Hq & Hcont). rewrite Hq.
  unfold mbind at 1, ST_bind at 1, upd_cluster at 1, modify at 1. cbn beta iota.
  set (w1 := set_cluster _ w). unfold mbind at 1, ST_bind at 1, run_cluster_operation at 1.
  unfold mbind at 1, ST_bind at 1, cluster_state at 1, gets at 1. cbn beta iota.
  destruct op as [[] x]; cbn [co_type co_entity].
  - unfold upd_cluster at 1, modify at 1. cbn beta iota. set (w2 := set_cluster _ w1).
    specialize (IH w2 fuel Hcont ltac:(cbn in Hfuel; lia)).
    change (k_keepers (w_cluster w2)) with (k_keepers (w_cluster w) ++ [x]) in IH.
    destruct (run_cluster_operations fuel w2) as [[[]|f] w'].
    + destruct IH as [? IH]. split; [done|]. intros e. specialize (IH e). count_ops.
    + destruct IH as (-> & pre & e & post & -> & IH). split; [done|].
      exists (mkClusterOperation KEEP x :: pre), e, post. split; [done|]. count_ops.
  - pose proof (erase_first_spec x (k_keepers (w_cluster w1))) as He.
    unfold mbind at 1, ST_bind at 1.
    change (k_keepers (w_cluster w1)) with (k_keepers (w_cluster w)) in *.
    destruct (erase_first x (k_keepers (w_cluster w))) as [l|]; cbn [from_option].
    + unfold mret at 1, ST_ret at 1, upd_cluster at 1, modify at 1. cbn beta iota. set (w2 := set_cluster _ w1).
      specialize (IH w2 fuel Hcont ltac:(cbn in Hfuel; lia)).
      change (k_keepers (w_cluster w2)) with l in IH.
      destruct (run_cluster_operations fuel w2) as [[[]|f] w'].
      * destruct IH as [? IH]. split; [done|]. intros e. specialize (IH e). rewrite (He e). count_ops.
      * destruct IH as (-> & pre & e & post & -> & IH). split; [done|].
        exists (mkClusterOperation UNKEEP x :: pre), e, post. split; [done|]. rewrite (He e). count_ops.
    + split; [done|]. exists [], x, ops. split; [done|]. by rewrite He.
Qed.
End cluster.
