(* ===== verification/Turn.v ===== *)
(** * A turn of the cluster

    What [Cluster::runScheduledOperations] does as a whole, in four phases: the
    scheduled KEEP and UNKEEP change the keepers; the keepers touch the cells
    they reach; the cells that were touched in the last turn and are not in this
    one stall; the stalled cells are touched, or, when they are on cooldown,
    destroyed. *)

From Stdlib Require Import ZArith Lia.
From stdpp Require Import base list gmap option numbers sets.
From S2P Require Import Prelude Float32 Offset Hex Lockfree World Cell Cluster.

Section turn.
Context `{Behaviour, !RuntimeLaws}.
Local Notation M := (ST World).

(** ** The keepers *)

(** What the queued operations make of the keepers, unless an UNKEEP finds
    nothing to erase. *)
Fixpoint apply_ops (ops : list ClusterOperation) (l : list positive) : option (list positive) :=
  match ops with
  | [] => Some l
  | op :: ops =>
      match co_type op with
      | KEEP => apply_ops ops (l ++ [co_entity op])
      | UNKEEP => l ← erase_first (co_entity op) l; apply_ops ops l
      end
  end.

Lemma keepers_eta w :
  w = set_cluster (set_keepers (k_keepers (w_cluster w)) (set_k_operations (k_operations (w_cluster w)) (w_cluster w))) w.
Proof. destruct w as [? ? ? ? ? k ? ?]. by destruct k. Qed.

Lemma run_apply_ops ops fuel w L :
  lf_contents (k_operations (w_cluster w)) = ops → length ops ≤ fuel →
  apply_ops ops (k_keepers (w_cluster w)) = Some L →
  wp (run_cluster_operations fuel) w (λ _ w', ∃ q, lf_contents q = [] ∧
    w' = set_cluster (set_keepers L (set_k_operations q (w_cluster w))) w).
Proof.
  revert fuel w. induction ops as [|op ops IH]; intros fuel w Hops Hfuel HL;
    pose proof (lf_pop_contents (cap := Some 4096) (k_operations (w_cluster w))) as Hp; rewrite Hops in Hp.
  - injection HL as <-. assert (run_cluster_operations fuel w = (Ok tt, w)) as Hrun.
    { destruct fuel; cbn [run_cluster_operations]; unfold mbind, ST_bind, cluster_state, gets; by rewrite Hp. }
    eapply run_wp; [exact Hrun|]. exists (k_operations (w_cluster w)). split; [done|apply keepers_eta].
  - destruct fuel as [|fuel]; [cbn in Hfuel; lia|]. destruct Hp as (q & Hq & Hrest).
    cbn [run_cluster_operations]. apply wp_bind, wp_cluster_state. rewrite Hq.
    apply wp_bind, wp_upd_cluster, wp_bind. unfold run_cluster_operation. apply wp_bind, wp_cluster_state.
    cbn in HL. destruct (co_type op).
    + apply wp_upd_cluster. eapply wp_mono; [apply IH; [done|cbn in Hfuel; lia|exact HL]|].
      intros _ w' (q' & Hq' & ->). by exists q'.
    + apply bind_Some in HL as (l & Hl & HL). apply wp_bind. eapply wp_from_option; [exact Hl|].
      apply wp_upd_cluster. eapply wp_mono; [apply IH; [done|cbn in Hfuel; lia|exact HL]|].
      intros _ w' (q' & Hq' & ->). by exists q'.
Qed.

(** The cells that the keeper [e], or the keepers [L], reach. *)
Definition reach1 (w : World) (e : positive) : gset positive :=
  match (w_entities w !! e ≫= e_cell) ≫= (λ p, w_cells w !! p) with
  | Some c => around w (c_offset c)
  | None => ∅
  end.

Definition reach (w : World) (L : list positive) : gset positive := ⋃ (reach1 w <$> L).

(** The entity [e] is in a live cell. *)
Definition placed (w : World) (e : positive) : Prop :=
  ∃ en p c, w_entities w !! e = Some en ∧ e_cell en = Some p ∧ w_cells w !! p = Some c ∧ in_grid (c_offset c).

Lemma reach1_placed w e en p c :
  w_entities w !! e = Some en → e_cell en = Some p → w_cells w !! p = Some c → reach1 w e = around w (c_offset c).
Proof. intros He Hp Hc. unfold reach1. rewrite He. cbn. rewrite Hp. cbn. by rewrite Hc. Qed.

Lemma evolves_placed w w' e : evolves w w' → placed w e → placed w' e ∧ reach1 w' e = reach1 w e.
Proof.
  intros Hev (en & p & c & He & Hp & Hc & Hg). destruct (evolves_cell _ _ _ _ Hev Hc) as (c' & Hc' & Ho & _).
  assert (w_entities w' !! e = Some en) as He' by by rewrite (ev_entities _ _ Hev). split.
  - exists en, p, c'. by rewrite Ho.
  - rewrite (reach1_placed w e en p c), (reach1_placed w' e en p c') by done.
    unfold around. by rewrite Ho, (ev_map _ _ Hev).
Qed.

Lemma keep_all L w :
  inv w → (∀ e, e ∈ L → placed w e) → (∀ q, q ∈ reach w L → hot w q = false) →
  wp (for_each keep L) w (λ _ w', touches false (reach w L) w w').
Proof.
  revert w. induction L as [|e L IH]; intros w Hi HL Hcool; cbn [for_each]; [by apply wp_ret, touches_nil|].
  destruct (HL e) as (en & p & c & He & Hp & Hc & Hg); [by left|].
  assert (reach w (e :: L) = around w (c_offset c) ∪ reach w L) as Hreach.
  { unfold reach. cbn. by rewrite (reach1_placed w e en p c). }
  rewrite Hreach in *. apply wp_bind. unfold keep. apply wp_bind. eapply wp_deref_entity; [done|].
  rewrite Hp. apply wp_bind, wp_not_null, wp_bind. eapply wp_mono.
  { apply (touchWithNeighbours_touches w p c false); [done..| |].
    - apply Hcool, elem_of_union. left. by apply around_self.
    - intros q Hq. right. apply Hcool. set_solver. }
  intros _ w1 (_ & Ht & _). apply wp_ret. pose proof (to_evolves _ _ _ _ Ht) as Hev.
  assert (reach w1 L = reach w L) as HreachL.
  { unfold reach. f_equal. apply list_fmap_ext. intros i e' He'. apply evolves_placed; [done|].
    apply HL. right. by eapply list_elem_of_lookup_2. }
  eapply wp_mono; [apply IH|].
  - apply Ht.
  - intros e' He'. apply (evolves_placed w); [done|]. apply HL. by right.
  - intros q. rewrite HreachL. intros Hq. rewrite (evolves_hot w w1) by done. apply Hcool. set_solver.
  - intros [] w2 Ht2. cbn beta in Ht2. rewrite HreachL in Ht2. by eapply touches_trans.
Qed.

(** ** New stalls *)

Definition new_stall_information : StallInformation := mkStall true false stall_time.

(** The cells of [X] that stall: those that are not touched and not stalled. *)
Definition stalling (w : World) (X : gset positive) : gset positive :=
  X ∖ k_current (w_cluster w) ∖ k_stallCells (w_cluster w).

Record stalls (X : gset positive) (w w' : World) : Prop := {
  st_inv : inv w';
  st_frame : w' = set_cluster (set_stallCells (k_stallCells (w_cluster w')) (w_cluster w)) (set_cells (w_cells w') w);
  st_stall : k_stallCells (w_cluster w') = k_stallCells (w_cluster w) ∪ stalling w X;
  st_cells p : w_cells w' !! p =
    (if decide (p ∈ stalling w X) then set_stall new_stall_information else id) <$> w_cells w !! p;
}.

Lemma stall_inv w p c :
  inv w → w_cells w !! p = Some c →
  inv (set_cluster (set_stallCells ({[p]} ∪ k_stallCells (w_cluster w)) (w_cluster w))
        (set_cells (<[p := set_stall new_stall_information c]> (w_cells w)) w)).
Proof.
  intros Hi Hc. set (c' := set_stall _ c).
  assert (∀ r d, w_cells w !! r = Some d →
    ∃ d', <[p := c']> (w_cells w) !! r = Some d' ∧ c_offset d' = c_offset d) as Hr.
  { intros r d Hr. destruct (decide (r = p)) as [->|?].
    - exists c'. rewrite lookup_insert_eq. by simplify_eq.
    - exists d. by rewrite lookup_insert_ne. }
  split; cbn; try apply Hi.
  - intros o q Hq. destruct (inv_map _ Hi o q Hq) as (d & Hd & <-). by apply Hr.
  - intros q d [[<- <-]|[_ Hq]]%lookup_insert_Some; [exact (inv_cells _ Hi p c Hc)|by apply (inv_cells _ Hi)].
  - intros q Hq. destruct (inv_live _ Hi q Hq) as (d & Hd & Hcd). destruct (decide (q = p)) as [->|Hne].
    + exists c'. by rewrite lookup_insert_eq.
    + exists d. by rewrite lookup_insert_ne.
  - intros u v He. destruct (inv_edges _ Hi u v He) as (q & q' & c1 & c2 & Hq & Hq' & Hc1 & Hc2 & Hadj).
    destruct (Hr _ _ Hc1) as (d1 & ? & Ho1), (Hr _ _ Hc2) as (d2 & ? & Ho2).
    exists q, q', d1, d2. rewrite Ho1, Ho2. done.
  - intros q d [[<- <-]|[_ Hq]]%lookup_insert_Some Hst; [split; [done|set_solver]|].
    destruct (inv_stall _ Hi q d Hq Hst). set_solver.
  - intros q Hq. destruct (decide (q = p)) as [->|Hne]; [exists c'; by rewrite lookup_insert_eq|].
    destruct (inv_stall_live _ Hi q) as (d & Hd & Hst); [set_solver|].
    exists d. by rewrite lookup_insert_ne.
Qed.

Lemma stall_eta w :
  w = set_cluster (set_stallCells (k_stallCells (w_cluster w)) (w_cluster w)) (set_cells (w_cells w) w).
Proof. destruct w as [? ? ? ? ? k ? ?]. by destruct k. Qed.

Lemma stalls_nil w : inv w → stalls ∅ w w.
Proof.
  intros Hi. assert (stalling w ∅ = ∅) as Hnil by (unfold stalling; set_solver).
  split; rewrite ?Hnil; [done|apply stall_eta|set_solver|].
  intros p. by rewrite decide_False, option_fmap_id by set_solver.
Qed.

Lemma stalls_trans X Y w1 w2 w3 : stalls X w1 w2 → stalls Y w2 w3 → stalls (X ∪ Y) w1 w3.
Proof.
  intros [Hi1 Hf1 Hs1 Hc1] [Hi2 Hf2 Hs2 Hc2].
  assert (k_current (w_cluster w2) = k_current (w_cluster w1)) as Hcur by by rewrite Hf1.
  assert (stalling w2 Y = stalling w1 Y ∖ stalling w1 X) as Hy.
  { unfold stalling at 1. rewrite Hcur, Hs1. unfold stalling. set_solver. }
  assert (stalling w1 (X ∪ Y) = stalling w1 X ∪ stalling w1 Y) as Hxy by (unfold stalling; set_solver).
  split; [done| | |].
  - rewrite Hf2. rewrite Hf1. done.
  - rewrite Hs2, Hs1, Hy, Hxy. apply set_eq. intros p. rewrite !elem_of_union, elem_of_difference.
    destruct (decide (p ∈ stalling w1 X)); tauto.
  - intros p. rewrite Hc2, Hc1, Hy, Hxy. destruct (w_cells w1 !! p) as [c|]; [|done]. cbn. f_equal.
    repeat case_decide; set_solver.
Qed.

Lemma new_stall_all l w :
  inv w → (∀ p, p ∈ l → is_Some (w_cells w !! p)) →
  wp (for_each new_stall l) w (λ _ w', stalls (list_to_set l) w w').
Proof.
  revert w. induction l as [|p l IH]; intros w Hi Hl; cbn [for_each]; [by apply wp_ret, stalls_nil|].
  destruct (Hl p) as [c Hc]; [by left|].
  apply wp_bind, (wp_mono _ _ (λ _ w', stalls {[p]} w w')).
  - unfold new_stall. apply wp_bind, wp_cluster_state.
    assert (p ∈ k_current (w_cluster w) ∨ p ∈ k_stallCells (w_cluster w) → stalls {[p]} w w) as Hno.
    { intros Hor. assert (stalling w {[p]} = ∅) as Hnil by (unfold stalling; set_solver).
      split; rewrite ?Hnil; [done|apply stall_eta|set_solver|].
      intros q. by rewrite decide_False, option_fmap_id by set_solver. }
    case_bool_decide as Hcur; [apply wp_ret, Hno; by left|].
    case_bool_decide as Hst; [apply wp_ret, Hno; by right|].
    apply wp_bind, wp_upd_cluster. eapply wp_upd_cell; [exact Hc|].
    assert (stalling w {[p]} = {[p]}) as Hone by (unfold stalling; set_solver).
    split; rewrite ?Hone; [exact (stall_inv w p c Hi Hc)|done|cbn; set_solver|].
    intros q. cbn. destruct (decide (q = p)) as [->|Hne].
    + rewrite lookup_insert_eq, decide_True, Hc; [done|set_solver].
    + rewrite lookup_insert_ne, decide_False, option_fmap_id; [done|set_solver|done].
  - intros [] w1 Ht. cbn beta in Ht. eapply wp_mono; [apply IH; [apply Ht|]|].
    + intros q Hq. rewrite (st_cells _ _ _ Ht), fmap_is_Some. apply Hl. by right.
    + intros [] w2 Ht2. cbn in *. by eapply stalls_trans.
Qed.

(** ** Stalled cells *)

(** The DESTROY of a cell on cooldown. *)
Definition destroy_op (w : World) (p : positive) : option MapOperation :=
  c ← w_cells w !! p;
  if isOnCooldown (stall c) then Some (mkMapOperation DESTROY (c_offset c) None (Some p)) else None.

Definition hot_cells (w : World) (X : gset positive) : gset positive := filter (λ p, hot w p = true) X.

Lemma elem_of_hot_cells w X p : p ∈ hot_cells w X ↔ hot w p = true ∧ p ∈ X.
Proof. unfold hot_cells. by rewrite elem_of_filter. Qed.

(** What processing the stalled cells [l] does. *)
Record processes (l : list positive) (w w' : World) : Prop := {
  pr_inv : inv w';
  pr_cells : w_cells w' = w_cells w;
  pr_map : w_map w' = w_map w;
  pr_entities : w_entities w' = w_entities w;
  pr_clients : w_clients w' = w_clients w;
  pr_server : w_server_ops w' = w_server_ops w;
  pr_queue : k_operations (w_cluster w') = k_operations (w_cluster w);
  pr_keepers : k_keepers (w_cluster w') = k_keepers (w_cluster w);
  pr_groups : k_cellsByCluster (w_cluster w') = k_cellsByCluster (w_cluster w);
  pr_current : k_current (w_cluster w) ⊆ k_current (w_cluster w');
  pr_touched p : p ∈ l → hot w p = false → p ∈ k_current (w_cluster w');
  pr_stall : k_stallCells (w_cluster w') = k_stallCells (w_cluster w) ∖ hot_cells w (list_to_set l);
  pr_operations : lf_contents (w_operations w') = lf_contents (w_operations w) ++ omap (destroy_op w) l;
}.

Lemma cells_hot w w' p : w_cells w' = w_cells w → hot w' p = hot w p.
Proof. unfold hot. by intros ->. Qed.

Lemma processes_cons p l w1 w2 w3 : processes [p] w1 w2 → processes l w2 w3 → processes (p :: l) w1 w3.
Proof.
  intros [? Hc1 ? ? ? ? ? ? ? Hcur1 Ht1 Hs1 Ho1] [? Hc2 ? ? ? ? ? ? ? Hcur2 Ht2 Hs2 Ho2].
  assert (∀ q, hot w2 q = hot w1 q) as Hhot by (intros q; by apply cells_hot).
  split; [done|congruence..|set_solver| | |].
  - intros q [->|Hq]%elem_of_cons Hh; [apply Hcur2, Ht1; [by left|done]|by apply Ht2; [|rewrite Hhot]].
  - rewrite Hs2, Hs1. apply set_eq. intros q.
    rewrite !elem_of_difference, !elem_of_hot_cells, Hhot. set_solver.
  - rewrite Ho2, Ho1, <-app_assoc. f_equal. unfold destroy_op. rewrite Hc1. cbn.
    by destruct (w_cells w1 !! p ≫= _).
Qed.

(** A cell on cooldown leaves [_stallCells]. *)
Lemma drop_inv w p q :
  inv w → hot w p = true →
  inv (set_cluster (set_stallCells (k_stallCells (w_cluster w) ∖ {[p]}) (w_cluster w)) (set_operations q w)).
Proof.
  intros Hi Hp. split; cbn; try apply Hi.
  - intros r c Hr Hst. destruct (inv_stall _ Hi r c Hr Hst) as [Hcd Hin]. split; [done|].
    apply elem_of_difference. split; [done|]. intros ->%elem_of_singleton.
    unfold hot in Hp. rewrite Hr in Hp. congruence.
  - intros r [Hr _]%elem_of_difference. by apply (inv_stall_live _ Hi).
Qed.

Lemma process_one w p n c :
  inv w → w_cells w !! p = Some c → in_grid (c_offset c) →
  wp (process_stall n p) w (λ _ w', processes [p] w w').
Proof.
  intros Hi Hc Hg. unfold process_stall. apply wp_bind. eapply wp_deref_cell; [exact Hc|].
  pose proof (hot_cell _ _ _ Hc) as Hhot. destruct (isOnCooldown (stall c)) eqn:Hcd; cbn [negb].
  - apply wp_bind. unfold destroyCell. apply wp_bind. eapply wp_deref_cell; [exact Hc|].
    apply wp_modify, wp_bind, wp_upd_cluster, wp_ret.
    split; [exact (drop_inv w p _ Hi Hhot)|done..| | |].
    + intros q ->%list_elem_of_singleton. congruence.
    + cbn. apply set_eq. intros q. rewrite !elem_of_difference, elem_of_hot_cells. set_solver.
    + cbn. rewrite (lf_push_free (cap := None)) by done. unfold destroy_op. rewrite Hc. cbn. by rewrite Hcd.
  - apply wp_bind. eapply wp_mono; [apply (touchWithNeighbours_touches w p c true); [done..|by left]|].
    intros r w' (-> & Ht & _). apply wp_ret. destruct (to_stalled _ _ _ _ Ht eq_refl) as [Hce Hst].
    pose proof (to_evolves _ _ _ _ Ht) as Hev. pose proof (to_current _ _ _ _ Ht) as Hcur.
    split; [apply Ht|done|apply Hev..| | |].
    + intros q ->%list_elem_of_singleton _. rewrite Hcur. apply elem_of_union. left.
      apply elem_of_cool. split; [done|by apply around_self].
    + rewrite Hst. apply set_eq. intros q. rewrite elem_of_difference, elem_of_hot_cells. cbn. split; [|tauto].
      intros Hq. split; [done|]. intros [Hh Hqp]. assert (q = p) as -> by set_solver. congruence.
    + rewrite (ev_operations _ _ Hev). unfold destroy_op. cbn. rewrite Hc. cbn. by rewrite Hcd, app_nil_r.
Qed.

Lemma process_all l n w :
  inv w → (∀ p, p ∈ l → ∃ c, w_cells w !! p = Some c ∧ in_grid (c_offset c)) →
  wp (process_stalls n l) w (λ _ w', processes l w w').
Proof.
  revert n w. induction l as [|p l IH]; intros n w Hi Hl; cbn [process_stalls].
  - apply wp_ret. split; try done; [by intros ? ?%elem_of_nil| |by rewrite app_nil_r].
    apply set_eq. intros q. rewrite elem_of_difference, elem_of_hot_cells. set_solver.
  - destruct (Hl p) as (c & Hc & Hg); [by left|]. apply wp_bind.
    eapply wp_mono; [by eapply process_one|]. intros n' w1 Hp. cbn beta in Hp.
    eapply wp_mono; [apply IH; [apply Hp|]|].
    + intros q Hq. rewrite (pr_cells _ _ _ Hp). apply Hl. by right.
    + intros n'' w2 Hp2. cbn beta in Hp2. by eapply processes_cons.
Qed.
(** ** The turn *)

Lemma inv_cluster w k :
  inv w → k_graph k = k_graph (w_cluster w) → k_vertices k = k_vertices (w_cluster w) →
  k_current k = k_current (w_cluster w) → k_stallCells k = k_stallCells (w_cluster w) → inv (set_cluster k w).
Proof. intros Hi Hg Hv Hc Hs. split; cbn; rewrite ?Hg, ?Hv, ?Hc, ?Hs; apply Hi. Qed.

(** The phases after the queue: the world after each of them. *)
Lemma turn_phases w L :
  inv w → (∀ e, e ∈ L → placed w e) → (∀ q, q ∈ reach w L → hot w q = false) →
  (∀ p c, w_cells w !! p = Some c → in_grid (c_offset c)) → k_old (w_cluster w) ⊆ dom (w_cells w) →
  wp (_ ← for_each keep L; k ← cluster_state;
      _ ← for_each new_stall (rt_cells_in_order (k_old k)); n ← processStallCells; upd_cluster (set_numStall n)) w
    (λ _ w', ∃ w1 w2 w3 n l, touches false (reach w L) w w1 ∧ stalls (k_old (w_cluster w)) w1 w2 ∧
       l ≡ₚ elements (k_stallCells (w_cluster w2)) ∧ processes l w2 w3 ∧
       w' = set_cluster (set_numStall n (w_cluster w3)) w3).
Proof.
  intros Hi HL Hcool Hgrid Hold. apply wp_bind. eapply wp_mono; [by apply keep_all|].
  intros [] w1 Ht. cbn beta in Ht. pose proof (to_evolves _ _ _ _ Ht) as Hev.
  apply wp_bind, wp_cluster_state, wp_bind. rewrite (ev_old _ _ Hev).
  assert (list_to_set (rt_cells_in_order (k_old (w_cluster w))) = k_old (w_cluster w)) as Hset.
  { apply set_eq. intros q. by rewrite elem_of_list_to_set, rt_cells_perm, elem_of_elements. }
  eapply wp_mono; [apply new_stall_all; [apply Ht|]|].
  { intros p Hp. rewrite rt_cells_perm, elem_of_elements in Hp. apply Hold, elem_of_dom in Hp as [c Hc].
    destruct (evolves_cell _ _ _ _ Hev Hc) as (c' & ? & _). by exists c'. }
  intros [] w2 Hs. cbn beta in Hs. rewrite Hset in Hs.
  unfold processStallCells. apply wp_bind, wp_bind, wp_cluster_state, wp_bind, wp_upd_cluster.
  set (w2' := set_cluster _ w2).
  assert (inv w2') as Hi2 by (apply inv_cluster; [apply Hs|done..]).
  eapply wp_mono; [apply (process_all _ 0 w2' Hi2)|].
  { intros p Hp. rewrite rt_cells_perm, elem_of_elements in Hp.
    destruct (inv_stall_live _ (st_inv _ _ _ Hs) p Hp) as (c & Hc & _). exists c. split; [exact Hc|].
    rewrite (st_cells _ _ _ Hs) in Hc. destruct (w_cells w1 !! p) as [c1|] eqn:Hc1; [|done].
    destruct (evolves_cell_inv _ _ _ _ Hev Hc1) as (c0 & Hc0 & Ho & _). specialize (Hgrid p c0 Hc0).
    rewrite <-Ho in Hgrid. cbn in Hc. case_decide; by simplify_eq. }
  intros n w3 Hp. cbn beta in Hp. apply wp_upd_cluster. exists w1, w2, w3, n. eexists.
  split; [done|]. split; [done|]. split; [apply rt_cells_perm|]. split; [|done]. by destruct Hp.
Qed.

Lemma destroy_filter w w' (l : list positive) :
  (∀ q, q ∈ l → hot w' q = true → w_cells w !! q = w_cells w' !! q) →
  omap (destroy_op w') l = omap (destroy_op w) (filter (λ p, hot w' p = true) l).
Proof.
  induction l as [|p l IH]; intros Hl; [done|]. specialize (IH ltac:(intros q Hq; apply Hl; by right)).
  destruct (hot w' p) eqn:Hp.
  - rewrite filter_cons_True by done. cbn. rewrite IH. unfold destroy_op. by rewrite (Hl p) by (by left || done).
  - rewrite filter_cons_False by congruence. cbn. rewrite IH. unfold hot, destroy_op in *.
    destruct (w_cells w' !! p) as [c|]; cbn; [by rewrite Hp|done].
Qed.

(** A cell that is not stalled anew is as it was before. *)
Lemma stalls_same X w w' q : stalls X w w' → q ∉ stalling w X → w_cells w' !! q = w_cells w !! q.
Proof. intros Hs Hq. by rewrite (st_cells _ _ _ Hs), decide_False, option_fmap_id. Qed.

(** Touching changes the stall information of cells only. *)
Lemma evolves_stall w w' q : evolves w w' → ∃ st, w_cells w' !! q = set_stall st <$> w_cells w !! q.
Proof.
  intros Hev. destruct (ev_cells _ _ Hev q) as [->|(c & -> & ->)].
  - destruct (w_cells w !! q) as [c|]; [|by exists new_stall_information]. exists (stall c). by destruct c.
  - by eexists.
Qed.

Section phases.
Context (w w1 w2 w3 : World) (L l : list positive).
Context (Ht : touches false (reach w L) w w1) (Hs : stalls (k_old (w_cluster w)) w1 w2).
Context (Hl : l ≡ₚ elements (k_stallCells (w_cluster w2))) (Hp : processes l w2 w3).

Lemma phases_live q : ∃ st, w_cells w3 !! q = set_stall st <$> w_cells w !! q.
Proof using All.
  destruct (evolves_stall _ _ q (to_evolves _ _ _ _ Ht)) as [st Hst].
  rewrite (pr_cells _ _ _ Hp), (st_cells _ _ _ Hs), Hst.
  destruct (w_cells w !! q); [|by exists st]. cbn. case_decide; by eexists.
Qed.

Lemma phases_current : k_current (w_cluster w1) ⊆ k_current (w_cluster w3).
Proof. etrans; [|apply Hp]. by rewrite (st_frame _ _ _ Hs). Qed.

(** A stalled cell that is not on cooldown is touched, and stays. *)
Lemma phases_stalled q :
  q ∈ k_stallCells (w_cluster w2) → hot w2 q = false →
  q ∈ k_current (w_cluster w3) ∧ q ∈ k_stallCells (w_cluster w3).
Proof using All.
  intros Hq Hh. split.
  - apply (pr_touched _ _ _ Hp); [by rewrite Hl, elem_of_elements|done].
  - rewrite (pr_stall _ _ _ Hp), elem_of_difference, elem_of_hot_cells. split; [done|]. intros [Hh' _]. congruence.
Qed.

Lemma phases_kept q :
  (∀ q, q ∈ reach w L → hot w q = false) → q ∈ reach w L →
  q ∈ k_current (w_cluster w3) ∧ unstalled w3 q.
Proof using All.
  intros Hcool Hq. destruct (to_unstalled _ _ _ _ Ht q eq_refl Hq) as (Hnst & c & Hc & Hreg & Hcd).
  assert (q ∈ k_current (w_cluster w1)) as Hcur.
  { rewrite (to_current _ _ _ _ Ht). apply elem_of_union. left. apply elem_of_cool. auto. }
  assert (q ∉ stalling w1 (k_old (w_cluster w))) as Hno by (unfold stalling; set_solver).
  split; [by apply phases_current|]. split.
  - rewrite (pr_stall _ _ _ Hp), (st_stall _ _ _ Hs). set_solver.
  - exists c. by rewrite (pr_cells _ _ _ Hp), (stalls_same _ _ _ _ Hs Hno).
Qed.

Lemma phases_new q c :
  w_cells w !! q = Some c → q ∈ k_old (w_cluster w) → q ∉ reach w L →
  q ∉ k_current (w_cluster w) → q ∉ k_stallCells (w_cluster w) →
  q ∈ k_current (w_cluster w3) ∧ q ∈ k_stallCells (w_cluster w3) ∧
  w_cells w3 !! q = Some (set_stall new_stall_information c).
Proof using All.
  intros Hc Ho Hr Hcur Hst.
  assert (q ∈ stalling w1 (k_old (w_cluster w))) as Hq.
  { unfold stalling. rewrite (to_current _ _ _ _ Ht). pose proof (ev_stall _ _ (to_evolves _ _ _ _ Ht)).
    assert (q ∉ cool w (reach w L)) by (rewrite elem_of_cool; tauto). set_solver. }
  assert (w_cells w2 !! q = Some (set_stall new_stall_information c)) as Hc2.
  { by rewrite (st_cells _ _ _ Hs), decide_True, (to_other _ _ _ _ Ht), Hc. }
  rewrite (pr_cells _ _ _ Hp). rewrite <-Hc2.
  destruct (phases_stalled q); [rewrite (st_stall _ _ _ Hs); set_solver|by rewrite (hot_cell _ _ _ Hc2)|done].
Qed.

Lemma phases_old q :
  inv w → q ∈ k_stallCells (w_cluster w) → q ∉ reach w L → hot w q = false →
  q ∈ k_current (w_cluster w3) ∧ q ∈ k_stallCells (w_cluster w3) ∧ w_cells w3 !! q = w_cells w !! q.
Proof using All.
  intros Hi Hq Hr Hh. destruct (inv_stall_live _ Hi q Hq) as (c & Hc & Hor).
  rewrite (hot_cell _ _ _ Hc) in Hh. rewrite Hh, orb_false_r in Hor.
  assert (w_cells w1 !! q = Some c) as Hc1 by by rewrite (to_other _ _ _ _ Ht).
  destruct (inv_stall _ (to_inv _ _ _ _ Ht) q c Hc1 Hor) as [_ Hst1].
  assert (q ∉ stalling w1 (k_old (w_cluster w))) as Hno by (unfold stalling; set_solver).
  assert (w_cells w2 !! q = Some c) as Hc2 by by rewrite (stalls_same _ _ _ _ Hs Hno).
  rewrite (pr_cells _ _ _ Hp), Hc2, Hc.
  destruct (phases_stalled q); [rewrite (st_stall _ _ _ Hs); set_solver|by rewrite (hot_cell _ _ _ Hc2)|done].
Qed.

(** The cells on cooldown are those of the beginning. *)
Lemma phases_hot q :
  (q ∈ k_stallCells (w_cluster w2) ∧ hot w2 q = true ↔ q ∈ k_stallCells (w_cluster w) ∧ hot w q = true) ∧
  (q ∈ k_stallCells (w_cluster w) → hot w q = true → w_cells w2 !! q = w_cells w !! q).
Proof using All.
  pose proof (to_evolves _ _ _ _ Ht) as Hev.
  assert (hot w q = true → q ∈ k_stallCells (w_cluster w) →
            q ∈ k_stallCells (w_cluster w1) ∧ w_cells w2 !! q = w_cells w !! q) as Hback.
  { intros Hh Hq. destruct (ev_hot _ _ Hev q Hh) as [Heq Hst]. specialize (Hst Hq). split; [done|].
    rewrite (stalls_same _ _ _ q Hs); [done|unfold stalling; set_solver]. }
  split; [split|].
  - intros [Hq Hh]. assert (q ∉ stalling w1 (k_old (w_cluster w))) as Hno.
    { intros Hin. unfold hot in Hh. rewrite (st_cells _ _ _ Hs), decide_True in Hh by done.
      by destruct (w_cells w1 !! q). }
    assert (hot w1 q = true) as Hh1 by (unfold hot in *; by rewrite <-(stalls_same _ _ _ _ Hs Hno)).
    rewrite (evolves_hot w w1) in Hh1 by done. split; [|done].
    rewrite (st_stall _ _ _ Hs) in Hq. pose proof (ev_stall _ _ Hev). set_solver.
  - intros [Hq Hh]. destruct (Hback Hh Hq) as [Hst Heq]. split; [rewrite (st_stall _ _ _ Hs); set_solver|].
    unfold hot in *. by rewrite Heq.
  - intros Hq Hh. by apply Hback.
Qed.

Lemma phases_stall_current : k_stallCells (w_cluster w3) ⊆ k_current (w_cluster w3).
Proof using All.
  intros q. rewrite (pr_stall _ _ _ Hp), elem_of_difference, elem_of_hot_cells, elem_of_list_to_set, Hl, elem_of_elements.
  intros [Hq Hno]. apply phases_stalled; [done|]. destruct (hot w2 q); [tauto|done].
Qed.

Lemma phases_rest q :
  q ∉ k_old (w_cluster w) → q ∉ reach w L → w_cells w3 !! q = w_cells w !! q.
Proof using All.
  intros Ho Hr. rewrite (pr_cells _ _ _ Hp), (stalls_same _ _ _ _ Hs), (to_other _ _ _ _ Ht); [done|done|].
  unfold stalling. set_solver.
Qed.

Lemma phases_destroyed :
  ∃ l', NoDup l' ∧ (∀ q, q ∈ l' ↔ q ∈ k_stallCells (w_cluster w) ∧ hot w q = true) ∧
    lf_contents (w_operations w3) = lf_contents (w_operations w) ++ omap (destroy_op w) l' ∧
    (∀ q, q ∈ l' → q ∉ k_stallCells (w_cluster w3) ∧ w_cells w3 !! q = w_cells w !! q).
Proof using All.
  assert (∀ q, q ∈ filter (λ p, hot w2 p = true) l ↔ q ∈ k_stallCells (w_cluster w) ∧ hot w q = true) as Hin.
  { intros q. rewrite list_elem_of_filter, Hl, elem_of_elements, <-(proj1 (phases_hot q)). tauto. }
  exists (filter (λ p, hot w2 p = true) l). split_and!; [|done| |].
  - apply NoDup_filter. rewrite Hl. apply NoDup_elements.
  - rewrite (pr_operations _ _ _ Hp), (st_frame _ _ _ Hs). cbn.
    rewrite (ev_operations _ _ (to_evolves _ _ _ _ Ht)). f_equal.
    apply destroy_filter. intros q Hq Hh. destruct (phases_hot q) as [Hiff Heq].
    symmetry. apply Heq; apply Hiff; (split; [by rewrite Hl, elem_of_elements in Hq|done]).
  - intros q [Hq Hh]%Hin. destruct (phases_hot q) as [Hiff Heq]. split; [|rewrite (pr_cells _ _ _ Hp); auto].
    rewrite (pr_stall _ _ _ Hp), elem_of_difference, elem_of_hot_cells, elem_of_list_to_set, Hl, elem_of_elements.
    destruct (proj2 Hiff (conj Hq Hh)). tauto.
Qed.
End phases.

(** What a turn makes of [w], with the keepers [L]. *)
Record turned (w : World) (L : list positive) (w' : World) : Prop := {
  tu_inv : inv w';
  tu_keepers : k_keepers (w_cluster w') = L;
  tu_groups : k_cellsByCluster (w_cluster w') = k_cellsByCluster (w_cluster w);
  (* what the keepers reach is touched, and has no stall condition any more *)
  tu_kept q : q ∈ reach w L → q ∈ k_current (w_cluster w') ∧ unstalled w' q;
  (* what was touched in the last turn and is not in this one stalls *)
  tu_new q c : w_cells w !! q = Some c → q ∈ k_old (w_cluster w) → q ∉ reach w L →
    q ∉ k_current (w_cluster w) → q ∉ k_stallCells (w_cluster w) →
    q ∈ k_current (w_cluster w') ∧ q ∈ k_stallCells (w_cluster w') ∧
    w_cells w' !! q = Some (set_stall new_stall_information c);
  (* what was stalling already is touched all the same *)
  tu_old q : q ∈ k_stallCells (w_cluster w) → q ∉ reach w L → hot w q = false →
    q ∈ k_current (w_cluster w') ∧ q ∈ k_stallCells (w_cluster w') ∧ w_cells w' !! q = w_cells w !! q;
  (* what is on cooldown is scheduled for destruction, once *)
  tu_destroyed : ∃ l, NoDup l ∧ (∀ q, q ∈ l ↔ q ∈ k_stallCells (w_cluster w) ∧ hot w q = true) ∧
    lf_contents (w_operations w') = lf_contents (w_operations w) ++ omap (destroy_op w) l ∧
    (∀ q, q ∈ l → q ∉ k_stallCells (w_cluster w') ∧ w_cells w' !! q = w_cells w !! q);
  tu_rest q : q ∉ k_old (w_cluster w) → q ∉ reach w L → w_cells w' !! q = w_cells w !! q;
  tu_stall : k_stallCells (w_cluster w') ⊆ k_current (w_cluster w');
  (* nothing else changes *)
  tu_live q : ∃ st, w_cells w' !! q = set_stall st <$> w_cells w !! q;
  tu_map : w_map w' = w_map w;
  tu_entities : w_entities w' = w_entities w;
  tu_clients : w_clients w' = w_clients w;
  tu_server : w_server_ops w' = w_server_ops w;
  tu_queue : lf_contents (k_operations (w_cluster w')) = [];
}.

Lemma cluster_turn (w : World) (L : list positive) :
  inv w → (∀ p c, w_cells w !! p = Some c → in_grid (c_offset c)) →
  apply_ops (lf_contents (k_operations (w_cluster w))) (k_keepers (w_cluster w)) = Some L →
  (∀ e, e ∈ L → placed w e) → (∀ q, q ∈ reach w L → hot w q = false) →
  k_old (w_cluster w) ⊆ dom (w_cells w) →
  wp cluster_runScheduledOperations w (λ _ w', turned w L w').
Proof.
  intros Hi Hgrid Hops HL Hcool Hold. unfold cluster_runScheduledOperations.
  apply wp_bind, wp_cluster_state, wp_bind. eapply wp_mono; [by apply (run_apply_ops _ _ w L eq_refl)|].
  intros _ w0 (q0 & Hq0 & Hw0). apply wp_bind, wp_cluster_state.
  assert (inv w0) as Hi0 by (subst w0; by apply inv_cluster).
  assert (k_keepers (w_cluster w0) = L) as -> by by subst w0.
  eapply wp_mono; [apply (turn_phases w0 L Hi0); by subst w0|].
  intros _ w' (w1 & w2 & w3 & n & l & Ht & Hs & Hl & Hp & ->).
  pose proof (to_evolves _ _ _ _ Ht) as Hev. subst w0. split.
  - apply inv_cluster; [apply Hp|done..].
  - cbn. rewrite (pr_keepers _ _ _ Hp), (st_frame _ _ _ Hs). cbn. by rewrite (ev_keepers _ _ Hev).
  - cbn. rewrite (pr_groups _ _ _ Hp), (st_frame _ _ _ Hs). cbn. by rewrite (ev_groups _ _ Hev).
  - intros q Hq. exact (phases_kept _ _ _ _ _ _ Ht Hs Hl Hp q Hcool Hq).
  - intros q c. exact (phases_new _ _ _ _ _ _ Ht Hs Hl Hp q c).
  - intros q. exact (phases_old _ _ _ _ _ _ Ht Hs Hl Hp q Hi0).
  - exact (phases_destroyed _ _ _ _ _ _ Ht Hs Hl Hp).
  - intros q. exact (phases_rest _ _ _ _ _ _ Ht Hs Hl Hp q).
  - exact (phases_stall_current _ _ _ _ _ _ Ht Hs Hl Hp).
  - intros q. exact (phases_live _ _ _ _ _ _ Ht Hs Hl Hp q).
  - cbn. rewrite (pr_map _ _ _ Hp), (st_frame _ _ _ Hs). cbn. by rewrite (ev_map _ _ Hev).
  - cbn. rewrite (pr_entities _ _ _ Hp), (st_frame _ _ _ Hs). cbn. by rewrite (ev_entities _ _ Hev).
  - cbn. rewrite (pr_clients _ _ _ Hp), (st_frame _ _ _ Hs). cbn. by rewrite (ev_clients _ _ Hev).
  - cbn. rewrite (pr_server _ _ _ Hp), (st_frame _ _ _ Hs). cbn. by rewrite (ev_server _ _ Hev).
  - cbn. rewrite (pr_queue _ _ _ Hp), (st_frame _ _ _ Hs). cbn. by rewrite (ev_k_operations _ _ Hev).
Qed.
End turn.
