(* ===== verification/Map.v ===== *)
(** * The map ([src/map/map.cpp], [src/map/map_aware_entity.cpp])

    Cells are created on demand; entities enter and leave them through
    operations that wait until the next tick; broadcasts reach neighbouring
    cells. The callbacks [onAdded] and [onRemoved] are those of
    [MapAwareEntity]. *)

From Stdlib Require Import ZArith Lia.
From stdpp Require Import base list gmap option numbers sets.
From S2P Require Import Prelude Float32 Offset Hex Lockfree World Cell Cluster.

Section map.
Context `{Behaviour}.
Local Notation M := (ST World).

(** [Map::getOrCreate] *)
Definition getOrCreate (offset : Offset) : M positive :=
  c ← Map_get offset;
  match c with
  | Some cell => mret cell
  | None =>
      w ← get;
      let cell := rt_alloc (dom (w_cells w)) in
      _ ← put (set_map (<[offset := cell]> (w_map w))
                (set_cells (<[cell := Cell_new offset]> (w_cells w)) w));
      _ ← onCellCreated cell;
      mret cell
  end.

Definition createSiblings (cell : positive) : M (list positive) :=
  c ← deref_cell cell;
  os ← lift (siblings_coords (c_offset c));
  map_each getOrCreate os.

Definition getCellsExcluding (cell exclude : option positive) : M (list positive) :=
  match cell, exclude with
  | Some cell, Some exclude =>
      c ← deref_cell cell;
      e ← deref_cell exclude;
      os ← lift (excluding_coords (c_offset c) (c_offset e));
      map_each getOrCreate os
  | _, _ =>
      ref ← not_null (match cell with Some _ => cell | None => exclude end);
      cells ← createSiblings ref;
      mret (cells ++ [ref])
  end.

(** [Map::broadcast(cells, packet, callback)] *)
Definition broadcast (cells : list positive) (packet : option positive) (callback : positive → M unit)
    : M unit :=
  for_each (λ cell, _ ← cell_broadcast cell packet; callback cell) cells.

Definition dummy (cell : positive) : M unit := mret tt.

(** [Map::broadcastToSiblings]: the siblings have to exist. *)
Definition broadcastToSiblings (cell : positive) (packet : option positive) : M unit :=
  _ ← cell_broadcast cell packet;
  siblings ← getSiblings cell;
  for_each (λ s, c ← not_null s; cell_broadcast c packet) siblings.

Definition broadcastExcluding (cell exclude : option positive) (packet : option positive) : M unit :=
  cells ← getCellsExcluding cell exclude;
  broadcast cells packet dummy.

(** ** Scheduling *)

Definition map_push (op : MapOperation) : M unit :=
  modify (λ w, set_operations (lf_push op (w_operations w)).2 w).

Definition addTo_offset (offset : Offset) (e : positive) (old : option positive) : M unit :=
  map_push (mkMapOperation ADD_ENTITY offset (Some e) old).

Definition addTo_cell (cell : positive) (e : positive) (old : option positive) : M unit :=
  c ← deref_cell cell; addTo_offset (c_offset c) e old.

Definition addTo3D (pos : vec3) (e : positive) (old : option positive) : M unit :=
  o ← lift (offsetOf (v3x pos) (v3z pos)); addTo_offset o e old.

Definition addTo (e : positive) (old : option positive) : M unit :=
  en ← deref_entity e; addTo3D (e_position en) e old.

Definition removeFrom_offset (offset : Offset) (e : positive) (to : option positive) : M unit :=
  map_push (mkMapOperation REMOVE_ENTITY offset (Some e) to).

Definition removeFrom_cell (cell : positive) (e : positive) (to : option positive) : M unit :=
  c ← deref_cell cell; removeFrom_offset (c_offset c) e to.

Definition removeFrom3D (pos : vec3) (e : positive) (to : option positive) : M unit :=
  o ← lift (offsetOf (v3x pos) (v3z pos)); removeFrom_offset o e to.

Definition removeFrom (e : positive) (to : option positive) : M unit :=
  en ← deref_entity e; removeFrom3D (e_position en) e to.

(** [Map::onMove], called when the position of an entity has changed. *)
Definition onMove (e : positive) : M unit :=
  en ← deref_entity e;
  offset ← lift (offsetOf (v3x (e_position en)) (v3z (e_position en)));
  cell ← getOrCreate offset;
  if bool_decide (Some cell = e_cell en) then mret tt
  else
    old ← not_null (e_cell en);
    _ ← removeFrom_cell old e (Some cell);
    addTo_cell cell e (e_cell en).

(** ** [MapAwareEntity::onAdded] and [onRemoved] *)

Definition onAdded (e cell : positive) (old : option positive) : M (list positive) :=
  _ ← upd_entity e (set_cell (Some cell));
  let packet := rt_spawnPacket e in
  newCells ← getCellsExcluding (Some cell) old;
  _ ← broadcast newCells packet (λ c,
        en ← deref_entity e;
        match e_client en with Some _ => request c e SPAWN | None => mret tt end);
  mret newCells.

Definition onRemoved (e cell : positive) (to : option positive) : M (list positive) :=
  _ ← upd_entity e (set_cell None);
  let packet := rt_despawnPacket e in
  oldCells ← getCellsExcluding (Some cell) to;
  en ← deref_entity e;
  _ ← (match to, e_client en with
       | Some _, Some _ => broadcast oldCells packet (λ c, request c e DESPAWN)
       | _, _ => broadcast oldCells packet dummy
       end);
  mret oldCells.

(** ** Running the operations *)

Definition enter (offset : Offset) (e : positive) : M positive :=
  cell ← getOrCreate offset;
  _ ← upd_entity e (set_cell (Some cell));
  _ ← addEntity cell e;
  mret cell.

Definition run_add (offset : Offset) (e : positive) (param : option positive) : M unit :=
  cell ← enter offset e;
  en ← deref_entity e;
  _ ← (if e_isUpdater en then _ ← createSiblings cell; cluster_add e else mret tt);
  _ ← onAdded e cell param;
  checkStall param cell.

Definition run_remove (offset : Offset) (e : positive) (param : option positive) : M unit :=
  c ← Map_get offset;
  match c with
  | None => mret tt
  | Some cell =>
      _ ← removeEntity cell e;
      en ← deref_entity e;
      _ ← (if e_isUpdater en then cluster_remove e else mret tt);
      _ ← onRemoved e cell param;
      mret tt
  end.

(** The entry of the map goes, and so does the cell [param]. *)
Definition run_destroy (offset : Offset) (param : option positive) : M unit :=
  _ ← modify (λ w, set_map (delete offset (w_map w)) w);
  cell ← not_null param;
  _ ← deref_cell cell;
  modify (λ w, set_cells (delete cell (w_cells w)) w).

Definition run_operation (op : MapOperation) : M unit :=
  match mo_type op with
  | ADD_ENTITY => e ← not_null (mo_entity op); run_add (mo_offset op) e (mo_param op)
  | REMOVE_ENTITY =>
      c ← Map_get (mo_offset op);
      match c with
      | None => mret tt
      | Some _ => e ← not_null (mo_entity op); run_remove (mo_offset op) e (mo_param op)
      end
  | DESTROY => run_destroy (mo_offset op) (mo_param op)
  end.

Fixpoint run_operations (fuel : nat) : M unit :=
  w ← get;
  match lf_pop (w_operations w) with
  | None => mret tt
  | Some (op, q) =>
      match fuel with
      | O => fail NoFuel
      | S fuel =>
          _ ← put (set_operations q w);
          _ ← run_operation op;
          run_operations fuel
      end
  end.

Definition map_runScheduledOperations : M unit :=
  w ← get; run_operations (length (lf_contents (w_operations w))).

Definition map_update (elapsed : Z) : M unit :=
  _ ← map_runScheduledOperations; cluster_update elapsed.

Definition map_cleanup (elapsed : Z) : M unit :=
  _ ← cluster_cleanup elapsed; cluster_runScheduledOperations.

(** [Map::~Map]: the pool goes with its cells, then the cluster and the queue
    of operations; what entities point to is gone. *)
Definition Map_dtor : M unit :=
  modify (λ w, set_map ∅ (set_operations lf_empty (set_cluster Cluster_new (set_cells ∅ w)))).

Lemma Map_dtor_dangles p w : (deref_cell p (Map_dtor w).2).1 = Fail (UB Dangling).
Proof. reflexivity. Qed.
End map.
