(* ===== verification/Grow.v ===== *)
(** * Worlds that grow

    Looking up a cell may create it, with its neighbours in the graph of the
    cluster; broadcasts fill the queues of cells. What such changes keep is the
    relation [grows]; no cell on cooldown may be near ([clear]), since touching
    it fails ([touch_pending_destroy]). *)

From Stdlib Require Import ZArith Lia.
From stdpp Require Import base list gmap option numbers sets.
From S2P Require Import Prelude Float32 Offset Hex Lockfree QuadTree World Cell Cluster Map.

Section grow.
Context `{Behaviour, !RuntimeLaws}.
Local Notation M := (ST World).

(** ** Cells *)

(** No stall condition. *)
Definition calm (st : StallInformation) : Prop := isRegistered st = false ∧ isOnCooldown st = false.

(** Entities have packets to announce them with. *)
Definition announced : Prop := (∀ e, is_Some (rt_spawnPacket e)) ∧ ∀ e, is_Some (rt_despawnPacket e).

Definition has_client (m : gmap positive Entity) (e : positive) : Prop :=
  ∃ en, m !! e = Some en ∧ is_Some (e_client en).

(** Who made a request has a client, and no null packet waits. *)
Definition polite (m : gmap positive Entity) (c : Cell) : Prop :=
  (∀ r, r ∈ c_requests c → has_client m (rq_who r)) ∧
  (announced → ∀ x, x ∈ c_queue1 c ++ c_queue2 c → is_Some x).

Lemma polite_ext m m' c : (∀ e, has_client m e → has_client m' e) → polite m c → polite m' c.
Proof. intros Hm [Hr Hq]. split; [|done]. intros r Hin. by apply Hm, Hr. Qed.

(** A cell as it is created. *)
Definition newborn (m : gmap positive Entity) (c : Cell) : Prop :=
  in_grid (c_offset c) ∧ c_quadTree c = c_quadTree (Cell_new (c_offset c)) ∧ calm (stall c) ∧ polite m c.

Lemma Cell_new_newborn m o : in_grid o → newborn m (Cell_new o).
Proof. intros Ho. split_and!; [apply Ho|done|done|]. split; [by intros r ?%elem_of_nil|by intros _ x ?%elem_of_nil]. Qed.

(** [c'] is what became of the cell [c]. *)
Definition becomes (m : gmap positive Entity) (c c' : Cell) : Prop :=
  c_quadTree c' = c_quadTree c ∧ (stall c' = stall c ∨ calm (stall c')) ∧ (polite m c → polite m c').

Lemma becomes_refl m c : becomes m c c.
Proof. split_and!; auto. Qed.

Lemma becomes_trans m c1 c2 c3 : becomes m c1 c2 → becomes m c2 c3 → becomes m c1 c3.
Proof.
  intros (Ht1 & Hs1 & Hp1) (Ht2 & Hs2 & Hp2). split_and!; [congruence| |auto].
  destruct Hs2 as [->|?]; [done|by right].
Qed.

Lemma becomes_unstall m c : becomes m c (unstall c).
Proof. split_and!; [done|by right|done]. Qed.

Lemma newborn_becomes m c c' : newborn m c → c_offset c' = c_offset c → becomes m c c' → newborn m c'.
Proof.
  intros (Hg & Ht & Hs & Hp) Ho (Ht' & Hs' & Hp'). rewrite <-Ho in Hg.
  split; [done|]. split; [by rewrite Ht', Ho|]. split; [|auto].
  destruct Hs' as [->|?]; done.
Qed.

(** The cell [c'] at [p] in [w'], seen from [w]. *)
Definition descends (w w' : World) (p : positive) (c' : Cell) : Prop :=
  match w_cells w !! p with
  | Some c => becomes (w_entities w) c c'
  | None => newborn (w_entities w) c' ∧ p ∈ k_current (w_cluster w')
  end.

(** ** Cells on cooldown are far *)

Definition clear (r : Z) (w : World) (o : Offset) : Prop :=
  ∀ o' p, (hex_dist o o' ≤ r)%Z → w_map w !! o' = Some p → hot w p = false.

Lemma clear_adjacent w o o' : clear 2 w o → adjacent o o' → clear 1 w o'.
Proof.
  intros Hc Ho%adjacent_dist o'' p Hd. apply Hc. pose proof (hex_dist_triangle o o' o''). lia.
Qed.

Lemma clear_le r r' w o : (r' ≤ r)%Z → clear r w o → clear r' w o.
Proof. intros Hr Hc o' p Hd. apply Hc. lia. Qed.

Lemma no_cooldown_clear r w o : no_cooldown w → clear r w o.
Proof. intros Hn o' p _ _. by apply no_cooldown_hot. Qed.

(** ** Growing *)

(** What creating cells may change. *)
Record grows (w w' : World) : Prop := {
  gr_map : w_map w ⊆ w_map w';
  gr_operations : w_operations w' = w_operations w;
  gr_entities : w_entities w' = w_entities w;
  gr_clients : w_clients w' = w_clients w;
  gr_server : w_server_ops w' = w_server_ops w;
  gr_sent : w_sent w' = w_sent w;
  gr_k_operations : k_operations (w_cluster w') = k_operations (w_cluster w);
  gr_keepers : k_keepers (w_cluster w') = k_keepers (w_cluster w);
  gr_groups : k_cellsByCluster (w_cluster w') = k_cellsByCluster (w_cluster w);
  gr_components : k_num_components (w_cluster w') = k_num_components (w_cluster w);
  gr_cells p c : w_cells w !! p = Some c →
    ∃ c', w_cells w' !! p = Some c' ∧ c_offset c' = c_offset c ∧ c_entities c' = c_entities c ∧
          c_clientsCount c' = c_clientsCount c;
  gr_new p c : w_cells w !! p = None → w_cells w' !! p = Some c → c_entities c = ∅;
  gr_line p c' : w_cells w' !! p = Some c' → descends w w' p c';
  gr_hot p : hot w' p = hot w p;
  gr_stall : k_stallCells (w_cluster w') ⊆ k_stallCells (w_cluster w);
  gr_current : k_current (w_cluster w) ⊆ k_current (w_cluster w');
}.

Lemma grows_refl w : grows w w.
Proof. split; eauto; [congruence|]. intros p c Hc. unfold descends. rewrite Hc. apply becomes_refl. Qed.

Lemma grows_trans w1 w2 w3 : grows w1 w2 → grows w2 w3 → grows w1 w3.
Proof.
  intros [] []. split; try congruence; try (etrans; eassumption).
  - intros p c Hc. destruct (gr_cells0 _ _ Hc) as (c2 & Hc2 & Ho2 & He2 & Hn2).
    destruct (gr_cells1 _ _ Hc2) as (c3 & Hc3 & Ho3 & He3 & Hn3). exists c3. split_and!; congruence.
  - intros p c Hnone Hc. destruct (w_cells w2 !! p) as [c2|] eqn:Hc2; [|by eapply gr_new1].
    destruct (gr_cells1 _ _ Hc2) as (c3 & Hc3 & _ & He3 & _). rewrite Hc in Hc3. injection Hc3 as <-.
    rewrite He3. by eapply gr_new0.
  - intros p c3 Hc3. pose proof (gr_line1 p c3 Hc3) as H3. unfold descends in *. rewrite gr_entities0 in H3.
    destruct (w_cells w2 !! p) as [c2|] eqn:Hc2.
    + pose proof (gr_line0 p c2 Hc2) as H2. destruct (gr_cells1 _ _ Hc2) as (c & Hc & Ho & _). simplify_eq.
      destruct (w_cells w1 !! p) as [c1|]; [by eapply becomes_trans|].
      destruct H2 as [H2 Hcur]. split; [by apply (newborn_becomes _ c2)|by apply gr_current1].
    + destruct (w_cells w1 !! p) as [c1|] eqn:Hc1; [|done].
      destruct (gr_cells0 _ _ Hc1) as (? & ? & _). congruence.
Qed.

Lemma evolves_grows w w' : evolves w w' → grows w w'.
Proof.
  intros Hev. split; try apply Hev; [by rewrite (ev_map _ _ Hev)| | | |].
  - intros p c Hc. destruct (evolves_cell _ _ _ _ Hev Hc) as (c' & ? & ? & ? & ? & _). by exists c'.
  - intros p c Hnone Hc. destruct (ev_cells _ _ Hev p) as [Hp|(d & Hp & _)]; congruence.
  - intros p c' Hc'. destruct (evolves_cell_inv _ _ _ _ Hev Hc') as (c & Hc & _ & Hcc). unfold descends.
    rewrite Hc. destruct Hcc as [->| ->]; [apply becomes_refl|apply becomes_unstall].
  - intros p. by apply evolves_hot.
Qed.

(** Being clear is kept, and so are cells that are not on cooldown. *)
Lemma grows_clear r w w' o : inv w → inv w' → grows w w' → clear r w o → clear r w' o.
Proof.
  intros Hi Hi' Hg Hc o' p Hd Hp. rewrite (gr_hot _ _ Hg). destruct (hot w p) eqn:Hh; [|done].
  unfold hot in Hh. destruct (w_cells w !! p) as [c|] eqn:Hcp; [|done].
  destruct (gr_cells _ _ Hg p c Hcp) as (c' & Hc' & Ho & _). destruct (inv_map _ Hi' o' p Hp) as (c2 & Hc2 & <-).
  simplify_eq. rewrite Ho in Hd. rewrite <-(Hc (c_offset c) p Hd), (hot_cell _ _ _ Hcp); [done|by apply inv_cells].
Qed.

(** ** Creating a cell *)

Definition with_cell (o : Offset) (p : positive) (w : World) : World :=
  set_map (<[o := p]> (w_map w)) (set_cells (<[p := Cell_new o]> (w_cells w)) w).

Lemma with_cell_inv w o p :
  inv w → w_map w !! o = None → p ∉ dom (w_cells w) → inv (with_cell o p w).
Proof.
  intros Hi Ho Hp. assert (w_cells w !! p = None) as Hnone by (by apply not_elem_of_dom).
  split; cbn; try apply Hi.
  - intros o' q Hq. apply lookup_insert_Some in Hq as [[<- <-]|[Hne Hq]].
    + exists (Cell_new o). by rewrite lookup_insert_eq.
    + destruct (inv_map _ Hi o' q Hq) as (c & Hc & Hco). exists c.
      rewrite lookup_insert_ne by congruence. done.
  - intros q c Hq. apply lookup_insert_Some in Hq as [[<- <-]|[Hne Hq]].
    + cbn. by rewrite lookup_insert_eq.
    + pose proof (inv_cells _ Hi q c Hq). rewrite lookup_insert_ne by congruence. done.
  - intros q Hq. destruct (inv_live _ Hi q Hq) as (c & Hc & Hcd). exists c.
    rewrite lookup_insert_ne; [done|congruence].
  - intros u v He. destruct (inv_edges _ Hi u v He) as (q & q' & c & d & Hq & Hq' & Hc & Hd & Hadj).
    exists q, q', c, d. rewrite !lookup_insert_ne by congruence. done.
  - intros q c Hq Hst. apply lookup_insert_Some in Hq as [[<- <-]|[Hne Hq]]; [done|].
    by eapply (inv_stall _ Hi).
  - intros q Hq. destruct (inv_stall_live _ Hi q Hq) as (c & Hc & Hst). exists c.
    rewrite lookup_insert_ne; [done|congruence].
Qed.

Lemma with_cell_hot w o p q : p ∉ dom (w_cells w) → hot (with_cell o p w) q = hot w q.
Proof.
  intros Hp%not_elem_of_dom. unfold hot. cbn. destruct (decide (q = p)) as [->|Hne].
  - by rewrite lookup_insert_eq, Hp.
  - by rewrite lookup_insert_ne.
Qed.

Lemma wp_getOrCreate_old w o p Q : w_map w !! o = Some p → Q p w → wp (getOrCreate o) w Q.
Proof. intros Ho HQ. unfold getOrCreate. apply wp_bind, wp_Map_get. rewrite Ho. by apply wp_ret. Qed.

(** The cell is new: it is touched with the cells around it. *)
Lemma getOrCreate_new w o :
  inv w → clear 1 w o → in_grid o → w_map w !! o = None →
  wp (getOrCreate o) w (λ p w', p = rt_alloc (dom (w_cells w)) ∧
    inv w' ∧ evolves (with_cell o p w) w' ∧
    k_current (w_cluster w') = around (with_cell o p w) o ∪ k_current (w_cluster w) ∧
    ∀ q, q ∈ around (with_cell o p w) o → q ≠ p → linked w' p q).
Proof.
  intros Hi Hclear Hg Ho. unfold getOrCreate. apply wp_bind, wp_Map_get. rewrite Ho.
  apply wp_bind, wp_get. set (p := rt_alloc (dom (w_cells w))).
  assert (p ∉ dom (w_cells w)) as Hp by apply rt_alloc_fresh.
  apply wp_bind, wp_put. fold (with_cell o p w).
  assert (∀ q, q ∈ around (with_cell o p w) o → hot (with_cell o p w) q = false) as Hcool.
  { intros q (o' & Hq & Ho')%elem_of_around. rewrite with_cell_hot by done. cbn in Hq.
    apply lookup_insert_Some in Hq as [[_ <-]|[Hne Hq]].
    - unfold hot. by rewrite (not_elem_of_dom_1 _ _ Hp).
    - apply (Hclear o'); [|done]. destruct Ho' as [->|Ho'%adjacent_dist]; [done|lia]. }
  assert (w_cells (with_cell o p w) !! p = Some (Cell_new o)) as Hnew by (cbn; by rewrite lookup_insert_eq).
  apply wp_bind, wp_bind. eapply wp_mono.
  { apply (touchWithNeighbours_touches (with_cell o p w) p (Cell_new o) false).
    - by apply with_cell_inv.
    - done.
    - done.
    - by rewrite (hot_cell _ _ _ Hnew).
    - intros q Hq. right. by apply Hcool. }
  intros r w1 (_ & Ht & Hl). apply wp_ret, wp_ret. split; [done|]. split; [apply Ht|]. split; [apply Ht|].
  split; [|intros q Hq; apply Hl; [done|by apply Hcool]].
  rewrite (to_current _ _ _ _ Ht). f_equal. apply set_eq. intros q. rewrite elem_of_cool.
  split; [tauto|auto].
Qed.

(** What is in the cell at [o]: a cell that does not exist yet is empty, but
    for its uninitialised count. *)
Definition cell_at (w : World) (o : Offset) : option Cell := w_map w !! o ≫= λ p, w_cells w !! p.
Definition entities_at (w : World) (o : Offset) : gmap Z positive :=
  match cell_at w o with Some c => c_entities c | None => ∅ end.
Definition clients_at (w : World) (o : Offset) : Z :=
  match cell_at w o with Some c => c_clientsCount c | None => rt_junk end.

Lemma cell_at_eq w o p c : w_map w !! o = Some p → w_cells w !! p = Some c → cell_at w o = Some c.
Proof. unfold cell_at. by intros -> ?. Qed.

(** Creating a cell makes the world grow. *)
Lemma new_cell_grows w w' o p :
  in_grid o → w_map w !! o = None → p ∉ dom (w_cells w) → evolves (with_cell o p w) w' →
  k_current (w_cluster w') = around (with_cell o p w) o ∪ k_current (w_cluster w) → grows w w'.
Proof.
  intros Hgrid Ho Hp Hev Hcur. pose proof (evolves_grows _ _ Hev) as Hg.
  assert (w_cells (with_cell o p w) !! p = Some (Cell_new o)) as Hnew by (cbn; by rewrite lookup_insert_eq).
  assert (w_cells w !! p = None) as Hnone by (by apply not_elem_of_dom).
  split; try apply Hg.
  - etrans; [|apply Hg]. by apply insert_subseteq.
  - intros q c Hq. apply (gr_cells _ _ Hg). cbn. rewrite lookup_insert_ne; [done|congruence].
  - intros q c Hq Hc. destruct (evolves_cell_inv _ _ _ _ Hev Hc) as (d & Hd & _ & Hcd).
    cbn in Hd. apply lookup_insert_Some in Hd as [[<- <-]|[_ ?]]; [|congruence]. by destruct Hcd as [->| ->].
  - intros q c' Hc'. pose proof (gr_line _ _ Hg q c' Hc') as Hl. unfold descends in *. cbn in Hl.
    destruct (decide (q = p)) as [->|Hne]; [|rewrite lookup_insert_ne in Hl by done].
    + rewrite lookup_insert_eq in Hl. rewrite Hnone. split.
      * destruct (evolves_cell_inv _ _ _ _ Hev Hc') as (d & Hd & Hod & _). simplify_eq.
        eapply newborn_becomes; [by apply Cell_new_newborn|exact Hod|exact Hl].
      * rewrite Hcur. apply elem_of_union_l, elem_of_around. exists o. split; [|by left]. cbn.
        by rewrite lookup_insert_eq.
    + destruct (w_cells w !! q) as [c|] eqn:Hq; [done|]. exfalso.
      destruct (evolves_cell_inv _ _ _ _ Hev Hc') as (d & Hd & _). cbn in Hd.
      rewrite lookup_insert_ne in Hd by done. congruence.
  - intros q. rewrite (gr_hot _ _ Hg). by apply with_cell_hot.
Qed.

Lemma getOrCreate_ok w o :
  inv w → clear 1 w o → in_grid o →
  wp (getOrCreate o) w (λ p w', w_map w' !! o = Some p ∧ inv w' ∧ grows w w' ∧
    ∃ c, w_cells w' !! p = Some c ∧ c_offset c = o ∧ c_entities c = entities_at w o ∧
         c_clientsCount c = clients_at w o).
Proof.
  intros Hi Hclear Hg. destruct (w_map w !! o) as [p|] eqn:Ho.
  - eapply wp_getOrCreate_old; [done|]. destruct (inv_map _ Hi o p Ho) as (c & Hc & Hco).
    split_and!; auto using grows_refl. exists c. unfold entities_at, clients_at.
    by rewrite (cell_at_eq w o p c).
  - eapply wp_mono; [by apply getOrCreate_new|]. intros p w1 (-> & Hi1 & Hev1 & Hcur & _).
    pose proof (rt_alloc_fresh (dom (w_cells w))) as Hp. split_and!; [|done|by eapply new_cell_grows|].
    + rewrite (ev_map _ _ Hev1). cbn. by rewrite lookup_insert_eq.
    + destruct (evolves_cell _ _ (rt_alloc (dom (w_cells w))) (Cell_new o) Hev1)
        as (c & Hc & Hco & Hce & Hcn & _); [cbn; by rewrite lookup_insert_eq|].
      exists c. rewrite Hco, Hce, Hcn. unfold entities_at, clients_at, cell_at. by rewrite Ho.
Qed.

(** C9. [getOrCreate] implements a finite map from coordinates to cells: a
    cell that exists is returned, and nothing changes; otherwise the map gets
    exactly one more entry, for a fresh and empty cell, which is touched with
    its existing neighbours and joined to each of them in the graph. The
    invariant of the world is kept. *)
Theorem getOrCreate_spec (w : World) (o : Offset)
    (Hi : inv w) (Hclear : clear 1 w o) (Ho : in_grid o) :
  wp (getOrCreate o) w (λ p w', inv w' ∧
    match w_map w !! o with
    | Some p' => p = p' ∧ w' = w
    | None =>
        w_cells w !! p = None ∧ w_map w' = <[o := p]> (w_map w) ∧
        (∃ c, w_cells w' !! p = Some c ∧ c_offset c = o ∧ c_entities c = ∅) ∧
        p ∈ k_current (w_cluster w') ∧
        ∀ o' q, adjacent o o' → w_map w !! o' = Some q →
          q ∈ k_current (w_cluster w') ∧ linked w' p q
    end).
Proof.
  destruct (w_map w !! o) as [p'|] eqn:E; [by eapply wp_getOrCreate_old|].
  eapply wp_mono; [by apply getOrCreate_new|]. intros p w1 (-> & Hi1 & Hev1 & Hcur & Hl).
  set (p := rt_alloc _) in *. pose proof (rt_alloc_fresh (dom (w_cells w))) as Hp. fold p in Hp.
  assert (∀ o' q, w_map (with_cell o p w) !! o' = Some q → (o' = o ∨ adjacent o o') →
            q ∈ around (with_cell o p w) o) as Har.
  { intros o' q Hq Ho'. apply elem_of_around. by exists o'. }
  split; [done|]. split_and!.
  - by apply not_elem_of_dom.
  - by rewrite (ev_map _ _ Hev1).
  - destruct (evolves_cell _ _ p (Cell_new o) Hev1) as (c & ? & ? & ? & _).
    { cbn. by rewrite lookup_insert_eq. }
    by exists c.
  - rewrite Hcur. apply elem_of_union_l, (Har o); [cbn; by rewrite lookup_insert_eq|by left].
  - intros o' q Hadj Hq. assert (o' ≠ o) as Hne by (intros ->; congruence).
    assert (q ∈ around (with_cell o p w) o) as Hin.
    { apply (Har o'); [cbn; by rewrite lookup_insert_ne|by right]. }
    split; [rewrite Hcur; by apply elem_of_union_l|]. apply Hl; [done|]. intros ->.
    destruct (inv_map _ Hi _ _ Hq) as (c & Hc & _). apply Hp, elem_of_dom. by exists c.
Qed.

(** ** Several cells *)

Lemma map_each_getOrCreate os w :
  inv w → Forall in_grid os → Forall (clear 1 w) os →
  wp (map_each getOrCreate os) w (λ l w', inv w' ∧ grows w w' ∧
    Forall2 (λ o p, w_map w' !! o = Some p) os l).
Proof.
  intros Hi Hos. revert w Hi. induction Hos as [|o os Ho Hos IH]; intros w Hi Hc; cbn [map_each].
  { apply wp_ret. split_and!; [done|apply grows_refl|constructor]. }
  apply Forall_cons_1 in Hc as [Hco Hc].
  apply wp_bind. eapply wp_mono; [by apply getOrCreate_ok|].
  intros p w1 (Hp & Hi1 & Hg1 & _). apply wp_bind. eapply wp_mono; [apply IH; [done|]|].
  { eapply Forall_impl; [exact Hc|]. intros o'. by apply grows_clear. }
  intros l w2 (Hi2 & Hgr2 & Hl). apply wp_ret. split_and!; [done|by eapply grows_trans|].
  constructor; [|done]. by eapply lookup_weaken; [|apply Hgr2].
Qed.

Lemma createSiblings_ok w p c :
  inv w → w_cells w !! p = Some c → interior (c_offset c) → clear 2 w (c_offset c) →
  wp (createSiblings p) w (λ l w', inv w' ∧ grows w w' ∧
    (∀ o, adjacent (c_offset c) o → is_Some (w_map w' !! o)) ∧
    ∀ q, q ∈ l → ∃ o, adjacent (c_offset c) o ∧ w_map w' !! o = Some q).
Proof.
  intros Hi Hc [Hgrid Hadj] Hclear. unfold createSiblings. apply wp_bind. eapply wp_deref_cell; [done|].
  apply wp_bind. eapply wp_lift_ok; [by apply siblings_coords_ok|].
  eapply wp_mono; [apply map_each_getOrCreate; [done|..]|].
  { apply Forall_forall. intros o Ho%elem_of_siblings. by apply Hadj. }
  { apply Forall_forall. intros o Ho%elem_of_siblings. by eapply clear_adjacent. }
  intros l w1 (Hi1 & Hgr & Hl). split_and!; [done|done| |].
  - intros o Ho%elem_of_siblings. apply list_elem_of_lookup in Ho as [i Hio].
    destruct (Forall2_lookup_l _ _ _ _ _ Hl Hio) as (q & _ & Hq). by exists q.
  - intros q Hq. apply list_elem_of_lookup in Hq as [i Hiq].
    destruct (Forall2_lookup_r _ _ _ _ _ Hl Hiq) as (o & Ho & Hmap). exists o. split; [|done].
    apply elem_of_siblings. by eapply list_elem_of_lookup_2.
Qed.

(** The cells are in the map of [w]. *)
Definition mapped (w : World) (l : list positive) : Prop := ∀ q, q ∈ l → ∃ o, w_map w !! o = Some q.

Lemma getCellsExcluding_ok w p c old :
  inv w → w_cells w !! p = Some c → interior (c_offset c) → clear 2 w (c_offset c) →
  (∀ q, old = Some q → ∃ d, w_cells w !! q = Some d ∧ adjacent (c_offset d) (c_offset c)) →
  wp (getCellsExcluding (Some p) old) w (λ l w', inv w' ∧ grows w w' ∧ mapped w' l).
Proof.
  intros Hi Hc Hint Hclear Hold. destruct old as [q|]; cbn [getCellsExcluding].
  - destruct (Hold q eq_refl) as (d & Hd & Hadj).
    destruct (excluding_coords_adjacent (c_offset c) (c_offset d)) as (os & Hos & _ & _ & Hin).
    { exact (proj1 Hint). } { by apply (proj2 Hint), adjacent_sym. } { done. }
    apply wp_bind. eapply wp_deref_cell; [done|]. apply wp_bind. eapply wp_deref_cell; [done|].
    apply wp_bind. eapply wp_lift_ok; [exact Hos|].
    eapply wp_mono; [apply map_each_getOrCreate; [done|..]|].
    { apply Forall_forall. intros o [Ho _]%Hin. by apply (proj2 Hint). }
    { apply Forall_forall. intros o [Ho _]%Hin. by eapply clear_adjacent. }
    intros l w1 (Hi1 & Hgr & Hl). split_and!; [done|done|]. intros q' Hq'.
    apply list_elem_of_lookup in Hq' as [i Hiq].
    destruct (Forall2_lookup_r _ _ _ _ _ Hl Hiq) as (o & _ & Hmap). by exists o.
  - apply wp_bind, wp_not_null, wp_bind. eapply wp_mono; [by apply (createSiblings_ok w p c)|].
    intros l w1 (Hi1 & Hgr & _ & Hl). apply wp_ret. split_and!; [done|done|].
    intros q [Hq | ->%list_elem_of_singleton]%elem_of_app.
    + destruct (Hl q Hq) as (o & _ & Ho). by exists o.
    + exists (c_offset c). eapply lookup_weaken; [|apply Hgr]. by apply Hi.
Qed.

(** ** Changes inside cells *)

(** A change that keeps the places, the trees and the stall information of the
    cells. *)
Definition cell_same (m : gmap positive Entity) (c c' : Cell) : Prop :=
  c_offset c' = c_offset c ∧ c_quadTree c' = c_quadTree c ∧ stall c' = stall c ∧ (polite m c → polite m c').

Lemma cell_same_refl m c : cell_same m c c.
Proof. by split_and!. Qed.

Lemma cell_same_becomes m c c' : cell_same m c c' → becomes m c c'.
Proof. intros (_ & Ht & Hs & Hp). split_and!; auto. Qed.

(** It only concerns the cells, and keeps [R]. *)
Definition reshapes (R : Cell → Cell → Prop) (w w' : World) : Prop :=
  ∃ m, w' = set_cells m w ∧ dom m = dom (w_cells w) ∧
    ∀ p c', m !! p = Some c' → ∃ c, w_cells w !! p = Some c ∧ cell_same (w_entities w) c c' ∧ R c c'.

Section reshapes.
Context (R : Cell → Cell → Prop) `{!PreOrder R}.

Lemma reshapes_refl w : reshapes R w w.
Proof.
  exists (w_cells w). split_and!; [by destruct w|done|]. intros p c Hc. exists c. split; [done|].
  split; [apply cell_same_refl|reflexivity].
Qed.

Lemma reshapes_trans w1 w2 w3 : reshapes R w1 w2 → reshapes R w2 w3 → reshapes R w1 w3.
Proof.
  intros (m & -> & Hd & Hm) (m' & -> & Hd' & Hm'). exists m'. cbn in *.
  split_and!; [done|congruence|]. intros p c' Hc'. destruct (Hm' _ _ Hc') as (c & Hc & Hs1 & HR1).
  destruct (Hm _ _ Hc) as (c0 & ? & Hs2 & HR2). exists c0. split; [done|]. split; [|by etrans].
  destruct Hs1 as (? & ? & ? & ?), Hs2 as (? & ? & ? & ?). split_and!; [congruence..|auto].
Qed.

Lemma reshapes_upd w p c c' :
  w_cells w !! p = Some c → cell_same (w_entities w) c c' → R c c' →
  reshapes R w (set_cells (<[p := c']> (w_cells w)) w).
Proof.
  intros Hc Hf HR. eexists. split; [done|]. split; [apply dom_insert_lookup_L; by exists c|].
  intros q d Hq. apply lookup_insert_Some in Hq as [[<- <-]|[_ Hq]]; [by exists c|]. exists d.
  split; [done|]. split; [apply cell_same_refl|reflexivity].
Qed.

Lemma reshapes_cell w w' p c :
  reshapes R w w' → w_cells w !! p = Some c →
  ∃ c', w_cells w' !! p = Some c' ∧ cell_same (w_entities w) c c' ∧ R c c'.
Proof.
  intros (m & -> & Hd & Hm) Hc. assert (p ∈ dom m) as Hp by (rewrite Hd; apply elem_of_dom; by exists c).
  apply elem_of_dom in Hp as [c' Hc']. exists c'. split; [done|].
  destruct (Hm _ _ Hc') as (c0 & ? & ? & ?). by simplify_eq.
Qed.

Lemma reshapes_outline w w' p : reshapes R w w' → outline <$> w_cells w' !! p = outline <$> w_cells w !! p.
Proof using All.
  intros Hr. destruct (w_cells w !! p) as [c|] eqn:Hc.
  - destruct (reshapes_cell _ _ _ _ Hr Hc) as (c' & -> & (Ho & _ & Hs & _) & _). cbn. unfold outline. by rewrite Ho, Hs.
  - destruct Hr as (m & -> & Hd & _). cbn. apply not_elem_of_dom in Hc. rewrite <-Hd in Hc.
    by rewrite (not_elem_of_dom_1 _ _ Hc).
Qed.

Lemma reshapes_inv w w' : reshapes R w w' → inv w → inv w'.
Proof using All.
  intros Hr Hi. pose proof (λ p, reshapes_outline w w' p Hr) as Ho. destruct Hr as (m & -> & _).
  by apply (inv_outline w).
Qed.

Lemma reshapes_hot w w' p : reshapes R w w' → hot w' p = hot w p.
Proof using All. intros Hr. by apply outline_hot, reshapes_outline. Qed.
End reshapes.

(** The entities and clients of cells stay: only queues and requests fill up. *)
Definition same_members (c c' : Cell) : Prop :=
  c_entities c' = c_entities c ∧ c_clientsCount c' = c_clientsCount c.

#[export] Instance same_members_order : PreOrder same_members.
Proof. split; [by intros c|]. intros c1 c2 c3 [? ?] [? ?]. split; congruence. Qed.

Definition delivers : World → World → Prop := reshapes same_members.

Lemma delivers_grows w w' : delivers w w' → grows w w'.
Proof.
  intros Hdl. pose proof Hdl as (m & -> & Hd & Hm). split; cbn; auto.
  - intros p c Hc. destruct (reshapes_cell _ _ _ _ _ Hdl Hc) as (c' & ? & (? & _) & ? & ?). by exists c'.
  - intros p c' Hnone Hc'. destruct (Hm p c' Hc') as (c & Hc & _). congruence.
  - intros p c' Hc'. destruct (Hm p c' Hc') as (c & Hc & Hs & _). unfold descends. rewrite Hc.
    by apply cell_same_becomes.
  - intros p. by apply (reshapes_hot _ w _ p Hdl).
Qed.

(** The entities of every place are kept when the world grows. *)
Lemma grows_entities_at w w' o : inv w → inv w' → grows w w' → entities_at w' o = entities_at w o.
Proof.
  intros Hi Hi' Hg. unfold entities_at, cell_at.
  destruct (w_map w !! o) as [p|] eqn:Hp.
  - destruct (inv_map _ Hi o p Hp) as (c & Hc & _). destruct (gr_cells _ _ Hg p c Hc) as (c' & Hc' & _ & He & _).
    cbn. rewrite (lookup_weaken _ _ _ _ Hp (gr_map _ _ Hg)). cbn. by rewrite Hc, Hc'.
  - destruct (w_map w' !! o) as [p|] eqn:Hp'; [|done]. cbn.
    destruct (inv_map _ Hi' o p Hp') as (c' & Hc' & Ho). rewrite Hc'.
    destruct (w_cells w !! p) as [c|] eqn:Hc; [|by eapply (gr_new _ _ Hg)].
    destruct (gr_cells _ _ Hg p c Hc) as (c2 & Hc2 & Ho2 & _). rewrite Hc' in Hc2. injection Hc2 as <-.
    pose proof (inv_cells _ Hi p c Hc) as Hm. congruence.
Qed.

(** Only the entities at [o] may change. *)
Definition elsewhere (o : Offset) (w w' : World) : Prop :=
  ∀ o', o' ≠ o → entities_at w' o' = entities_at w o'.

Lemma upd_elsewhere w o p c' :
  inv w → w_map w !! o = Some p → elsewhere o w (set_cells (<[p := c']> (w_cells w)) w).
Proof.
  intros Hi Hp o' Hne. unfold entities_at, cell_at. cbn. destruct (w_map w !! o') as [q|] eqn:Hq; [|done]. cbn.
  rewrite lookup_insert_ne; [done|]. intros <-.
  destruct (inv_map _ Hi o p Hp) as (c & Hc & Ho), (inv_map _ Hi o' p Hq) as (d & Hd & Ho'). congruence.
Qed.

(** ** Broadcasts *)

Lemma enqueue_same m packet c : (announced → is_Some packet) → cell_same m c (enqueue packet c) ∧ same_members c (enqueue packet c).
Proof.
  intros Hpk. unfold enqueue. destruct (0 <? _)%Z, (c_first c); split; try done; try apply cell_same_refl;
    (split_and!; [done..|]; intros [Hr Hq]; split; [done|]; intros Ha x; specialize (Hq Ha x); specialize (Hpk Ha));
    cbn; rewrite !elem_of_app, list_elem_of_singleton in *; naive_solver.
Qed.

Lemma broadcast_ok w l packet callback :
  (announced → is_Some packet) → (∀ q, q ∈ l → is_Some (w_cells w !! q)) →
  (∀ q w1, q ∈ l → delivers w w1 → wp (callback q) w1 (λ _ w2, delivers w1 w2)) →
  wp (broadcast l packet callback) w (λ _ w', delivers w w').
Proof.
  intros Hpk Hl Hcb. unfold broadcast. cut (∀ w1, delivers w w1 → (∀ q, q ∈ l → is_Some (w_cells w1 !! q)) →
    wp (for_each (λ cell, _ ← cell_broadcast cell packet; callback cell) l) w1 (λ _ w', delivers w w')).
  { intros Hc. apply Hc; [by apply reshapes_refl, _|done]. }
  induction l as [|q l IH]; intros w1 Hd1 Hl1; cbn [for_each]; [by apply wp_ret|].
  destruct (Hl1 q) as [c Hc]; [by left|].
  apply wp_bind, wp_bind. eapply wp_upd_cell; [done|].
  destruct (enqueue_same (w_entities w1) packet c Hpk) as [Hs1 Hs2].
  pose proof (reshapes_upd same_members w1 q c (enqueue packet c) Hc Hs1 Hs2) as Hd2.
  set (w2 := set_cells _ _) in *. eapply wp_mono.
  { apply Hcb; [by left|]. by eapply (reshapes_trans same_members); [|exact Hd2]. }
  intros [] w3 Hd3. assert (delivers w1 w3) as Hd13 by (by eapply (reshapes_trans same_members); [exact Hd2|]).
  apply IH; [intros; apply Hl; by right|intros; apply Hcb; [by right|done]| |].
  { by eapply (reshapes_trans same_members); [|exact Hd13]. }
  intros q' Hq'. destruct (Hl1 q') as [c' Hc']; [by right|].
  destruct (reshapes_cell _ _ _ _ _ Hd13 Hc') as (c3 & ? & _). by exists c3.
Qed.

Lemma mapped_live w l : inv w → mapped w l → ∀ q, q ∈ l → is_Some (w_cells w !! q).
Proof. intros Hi Hl q Hq. destruct (Hl q Hq) as (o & Ho). destruct (inv_map _ Hi o q Ho) as (c & ? & _). by exists c. Qed.

Lemma request_ok w q e en type :
  is_Some (w_cells w !! q) → w_entities w !! e = Some en → is_Some (e_client en) →
  wp (request q e type) w (λ _ w', delivers w w').
Proof.
  intros [c Hc] He Hcl. unfold request. apply wp_bind. eapply wp_deref_entity; [done|].
  apply wp_bind, wp_assert; [by apply bool_decide_eq_true|].
  eapply wp_upd_cell; [done|]. apply (reshapes_upd same_members w q c); [done| |done].
  split_and!; [done..|]. intros [Hr Hq]. split; [|done]. cbn. intros r [Hin | ->%list_elem_of_singleton]%elem_of_app;
    [by apply Hr|by exists en].
Qed.

(** Packets go to the cells of [l], and [callback] is called on each. *)
Lemma broadcast_grows w l packet callback :
  (announced → is_Some packet) → inv w → mapped w l →
  (∀ q w1, grows w w1 → is_Some (w_cells w1 !! q) → wp (callback q) w1 (λ _ w2, delivers w1 w2)) →
  wp (broadcast l packet callback) w (λ _ w', inv w' ∧ grows w w').
Proof.
  intros Hpk Hi Hl Hcb. eapply wp_mono.
  { apply (broadcast_ok w); [done|by apply mapped_live|].
    intros q w2 Hq Hd. apply Hcb; [by apply delivers_grows|].
    destruct (mapped_live w l Hi Hl q Hq) as [d Hd'].
    destruct (reshapes_cell _ _ _ _ _ Hd Hd') as (d' & ? & _). by exists d'. }
  intros [] w2 Hd2. split; [by eapply (reshapes_inv same_members)|by apply delivers_grows].
Qed.

(** The part that [onAdded] and [onRemoved] share. *)
Lemma announce_ok w cell c old packet callback :
  (announced → is_Some packet) →
  inv w → w_cells w !! cell = Some c → interior (c_offset c) → clear 2 w (c_offset c) →
  (∀ q, old = Some q → ∃ d, w_cells w !! q = Some d ∧ adjacent (c_offset d) (c_offset c)) →
  (∀ q w1, grows w w1 → is_Some (w_cells w1 !! q) → wp (callback q) w1 (λ _ w2, delivers w1 w2)) →
  wp (newCells ← getCellsExcluding (Some cell) old;
      _ ← broadcast newCells packet callback;
      mret newCells) w (λ _ w', inv w' ∧ grows w w').
Proof.
  intros Hpk Hi Hc Hint Hclear Hold Hcb. apply wp_bind. eapply wp_mono; [by apply (getCellsExcluding_ok w cell c)|].
  intros l w1 (Hi1 & Hgr1 & Hl). apply wp_bind. eapply wp_mono.
  { apply broadcast_grows; [done..|]. intros q w2 Hgr2. apply Hcb. by eapply grows_trans. }
  intros [] w2 [Hi2 Hgr2]. apply wp_ret. split; [done|by eapply grows_trans].
Qed.
End grow.
