(* ===== verification/Operate.v ===== *)
(** * The operations of the map

    ADD_ENTITY, REMOVE_ENTITY and DESTROY, one by one and as the loop of
    [Map::runScheduledOperations] executes them, against a specification on
    sets of entities; and what [Map::onMove] schedules. *)

From Stdlib Require Import ZArith Lia.
From stdpp Require Import base list gmap option numbers sets.
From S2P Require Import Prelude Float32 Offset Hex Lockfree World Cell Cluster Map Grow.

Section operate.
Context `{Behaviour, !RuntimeLaws}.
Local Notation M := (ST World).

(** ** What operations keep *)

(** An entity, but for the cell it is in. *)
Definition stripped (w : World) (e : positive) : option Entity := set_cell None <$> w_entities w !! e.

Lemma stripped_some w w' e en :
  stripped w' e = stripped w e → w_entities w !! e = Some en →
  ∃ en', w_entities w' !! e = Some en' ∧ set_cell None en' = set_cell None en.
Proof.
  unfold stripped. intros Hs He. rewrite He in Hs. cbn in Hs.
  destruct (w_entities w' !! e) as [en'|]; [|done]. cbn in Hs. exists en'. split; [done|congruence].
Qed.

Lemma stripped_has_client w w' e :
  (∀ e, stripped w' e = stripped w e) → has_client (w_entities w) e ↔ has_client (w_entities w') e.
Proof.
  intros Hs. split; intros (en & He & Hc).
  - destruct (stripped_some w w' e en (Hs e) He) as (en' & He' & Heq). exists en'. split; [done|].
    injection Heq as _ Hcl _ _ _. by rewrite Hcl.
  - destruct (stripped_some w' w e en (eq_sym (Hs e)) He) as (en' & He' & Heq). exists en'. split; [done|].
    injection Heq as _ Hcl _ _ _. by rewrite Hcl.
Qed.

Lemma upd_stripped w e en p e' :
  w_entities w !! e = Some en →
  set_cell None <$> <[e := set_cell p en]> (w_entities w) !! e' = stripped w e'.
Proof.
  intros He. unfold stripped. destruct (decide (e' = e)) as [->|Hne].
  - by rewrite lookup_insert_eq, He.
  - by rewrite lookup_insert_ne.
Qed.

(** From [w] to [w'] operations were executed, which destroyed the cells of
    [D], all on cooldown. Their addresses may have been used again. *)
Record operated (D : gset positive) (w w' : World) : Prop := {
  op_inv : inv w';
  op_doomed q : q ∈ D → hot w q = true;
  op_spared q c : w_cells w !! q = Some c → q ∉ D →
    ∃ c', w_cells w' !! q = Some c' ∧ c_offset c' = c_offset c;
  op_line q c' : w_cells w' !! q = Some c' →
    if decide (q ∈ D) then newborn (w_entities w) c' ∧ q ∈ k_current (w_cluster w') else descends w w' q c';
  op_hot q : hot w' q = true ↔ hot w q = true ∧ q ∉ D;
  op_stall : k_stallCells (w_cluster w') ⊆ k_stallCells (w_cluster w);
  op_current : k_current (w_cluster w) ⊆ k_current (w_cluster w');
  op_stripped e : stripped w' e = stripped w e;
  op_clients : w_clients w' = w_clients w;
  op_server : w_server_ops w' = w_server_ops w;
  op_keepers : k_keepers (w_cluster w') = k_keepers (w_cluster w);
  op_groups : k_cellsByCluster (w_cluster w') = k_cellsByCluster (w_cluster w);
  op_components : k_num_components (w_cluster w') = k_num_components (w_cluster w);
}.

Lemma grows_operated w w' : inv w' → grows w w' → operated ∅ w w'.
Proof.
  intros Hi Hg. split; try apply Hg; [done|set_solver|..].
  - intros q c Hq _. destruct (gr_cells _ _ Hg q c Hq) as (c' & ? & ? & _). by exists c'.
  - intros q. rewrite (gr_hot _ _ Hg). set_solver.
  - intros e. unfold stripped. by rewrite (gr_entities _ _ Hg).
Qed.

Lemma becomes_ext m m' c c' :
  (∀ e, has_client m e ↔ has_client m' e) → becomes m c c' → becomes m' c c'.
Proof.
  intros Hm (Ht & Hs & Hp). split_and!; [done|done|]. intros Hc. eapply polite_ext; [apply Hm|].
  apply Hp. eapply polite_ext; [|exact Hc]. apply Hm.
Qed.

Lemma newborn_ext m m' c : (∀ e, has_client m e ↔ has_client m' e) → newborn m c → newborn m' c.
Proof. intros Hm (Hg & Ht & Hs & Hp). split; [done|]. split; [done|]. split; [done|]. eapply polite_ext; [|exact Hp]. apply Hm. Qed.

Lemma operated_trans D D' w1 w2 w3 : operated D w1 w2 → operated D' w2 w3 → operated (D ∪ D') w1 w3.
Proof.
  intros Hop1 Hop2. pose proof (λ e, stripped_has_client w1 w2 e (op_stripped _ _ _ Hop1)) as Hm.
  split; [apply Hop2|..].
  - intros q [?|Hq%(op_doomed _ _ _ Hop2)]%elem_of_union; [by apply Hop1|by apply (op_hot _ _ _ Hop1)].
  - intros q c Hq [Hn1 Hn2]%not_elem_of_union. destruct (op_spared _ _ _ Hop1 q c Hq Hn1) as (c2 & Hc2 & Ho).
    destruct (op_spared _ _ _ Hop2 q c2 Hc2 Hn2) as (c3 & Hc3 & Ho3). exists c3. split; [done|congruence].
  - intros q c3 Hc3. pose proof (op_line _ _ _ Hop2 q c3 Hc3) as Hl3.
    destruct (decide (q ∈ D')) as [HD'|HD'].
    { rewrite decide_True by set_solver. destruct Hl3 as [Hl3 Hcur]. split; [|done].
      eapply newborn_ext; [|exact Hl3]. intros e. by rewrite Hm. }
    unfold descends at 1 in Hl3. destruct (w_cells w2 !! q) as [c2|] eqn:Hc2.
    + pose proof (op_line _ _ _ Hop1 q c2 Hc2) as Hl2.
      assert (becomes (w_entities w1) c2 c3) as Hb by (eapply becomes_ext; [|exact Hl3]; intros; by rewrite Hm).
      assert (c_offset c3 = c_offset c2) as Ho.
      { destruct (op_spared _ _ _ Hop2 q c2 Hc2 HD') as (c & Hc & ?). congruence. }
      destruct (decide (q ∈ D)) as [HD|HD].
      * rewrite decide_True by set_solver. split; [by eapply newborn_becomes; [apply Hl2|..]|].
        apply (op_current _ _ _ Hop2), Hl2.
      * rewrite decide_False by set_solver. unfold descends in *.
        destruct (w_cells w1 !! q) as [c1|]; [by eapply becomes_trans|]. destruct Hl2 as [Hl2 Hcur].
        split; [by eapply newborn_becomes|by apply (op_current _ _ _ Hop2)].
    + destruct Hl3 as [Hl3 Hcur].
      assert (newborn (w_entities w1) c3) as Hn by (eapply newborn_ext; [|exact Hl3]; intros; by rewrite Hm).
      destruct (decide (q ∈ D ∪ D')) as [HD|HD]; [done|]. unfold descends.
      destruct (w_cells w1 !! q) as [c1|] eqn:Hc1; [|done].
      destruct (op_spared _ _ _ Hop1 q c1 Hc1) as (c & Hc & _); [set_solver|congruence].
  - intros q. rewrite (op_hot _ _ _ Hop2), (op_hot _ _ _ Hop1). set_solver.
  - etrans; [apply Hop2|apply Hop1].
  - etrans; [apply Hop1|apply Hop2].
  - intros e. by rewrite (op_stripped _ _ _ Hop2), (op_stripped _ _ _ Hop1).
  - by rewrite (op_clients _ _ _ Hop2), (op_clients _ _ _ Hop1).
  - by rewrite (op_server _ _ _ Hop2), (op_server _ _ _ Hop1).
  - by rewrite (op_keepers _ _ _ Hop2), (op_keepers _ _ _ Hop1).
  - by rewrite (op_groups _ _ _ Hop2), (op_groups _ _ _ Hop1).
  - by rewrite (op_components _ _ _ Hop2), (op_components _ _ _ Hop1).
Qed.

Lemma operated_empty_trans w1 w2 w3 : operated ∅ w1 w2 → operated ∅ w2 w3 → operated ∅ w1 w3.
Proof. intros Hop1 Hop2. pose proof (operated_trans _ _ _ _ _ Hop1 Hop2) as Hop3. by rewrite (left_id_L ∅ (∪)) in Hop3. Qed.

Lemma operated_clear D r w w' o : inv w → operated D w w' → clear r w o → clear r w' o.
Proof.
  intros Hi Hop Hc o' p Hd Hp. destruct (hot w' p) eqn:Hh'; [|done].
  apply (op_hot _ _ _ Hop) in Hh' as [Hh HD]. pose proof Hh as Hh'. unfold hot in Hh'.
  destruct (w_cells w !! p) as [c|] eqn:Hcp; [|done].
  destruct (op_spared _ _ _ Hop p c Hcp HD) as (c' & Hc' & Ho).
  destruct (inv_map _ (op_inv _ _ _ Hop) o' p Hp) as (c2 & Hc2 & <-). simplify_eq. rewrite Ho in Hd.
  rewrite (Hc (c_offset c) p Hd) in Hh; [done|by apply inv_cells].
Qed.

(** Entities and clients of cells may change. *)
Definition skeleton : World → World → Prop := reshapes (λ _ _, True).

#[local] Instance any_order : PreOrder (λ _ _ : Cell, True).
Proof. by split. Qed.

Lemma skeleton_operated w w' : inv w → skeleton w w' → operated ∅ w w'.
Proof.
  intros Hi Hs. pose proof (reshapes_inv _ _ _ Hs Hi) as Hi'. pose proof Hs as (m & -> & Hd & Hm).
  split; try done.
  - intros q c Hq _. destruct (reshapes_cell _ _ _ _ _ Hs Hq) as (c' & ? & (? & _) & _). by exists c'.
  - intros q c' Hq. destruct (Hm q c' Hq) as (c & Hc & Hsame & _). rewrite decide_False by set_solver.
    unfold descends. rewrite Hc. by apply cell_same_becomes.
  - intros q. rewrite (reshapes_hot _ w _ q Hs). set_solver.
Qed.

Lemma set_entities_same m c E n : cell_same m c (set_entities E n c).
Proof. by split_and!. Qed.

Lemma entities_inv w m : inv w → inv (set_world_entities m w).
Proof. intros Hi. split; apply Hi. Qed.

Lemma upd_entity_operated w e en p :
  inv w → w_entities w !! e = Some en →
  operated ∅ w (set_world_entities (<[e := set_cell p en]> (w_entities w)) w).
Proof.
  intros Hi He. split; try done.
  - by apply entities_inv.
  - intros q c Hq _. by exists c.
  - intros q c Hq. rewrite decide_False by set_solver. unfold descends. cbn in Hq. rewrite Hq. apply becomes_refl.
  - intros q. unfold hot. cbn. set_solver.
  - intros e'. by apply (upd_stripped w e en p).
Qed.

Lemma cluster_operated w q : inv w → operated ∅ w (set_cluster (set_k_operations q (w_cluster w)) w).
Proof.
  intros Hi. split; try done.
  - split; apply Hi.
  - intros p c Hp _. by exists c.
  - intros p c Hp. rewrite decide_False by set_solver. unfold descends. cbn in Hp. rewrite Hp. apply becomes_refl.
  - intros p. unfold hot. cbn. set_solver.
Qed.

(** ** Parts of ADD and REMOVE *)

Lemma checkStall_ok w from to c :
  inv w → w_cells w !! to = Some c → isOnCooldown (stall c) = false →
  (∀ q, from = Some q → is_Some (w_cells w !! q)) →
  wp (checkStall from to) w (λ _ w', inv w' ∧ grows w w').
Proof.
  intros Hi Hc Hcd Hfrom. destruct from as [q|]; cbn [checkStall];
    [|apply wp_ret; split; [done|apply grows_refl]].
  apply wp_bind. eapply wp_deref_cell; [done|].
  destruct (isRegistered (stall c)) eqn:Hreg; [|apply wp_ret; split; [done|apply grows_refl]].
  rewrite Hcd. cbn [negb orb]. destruct (Hfrom q eq_refl) as [d Hd].
  apply wp_bind. eapply wp_deref_cell; [done|].
  destruct (_ && _); [|apply wp_ret; split; [done|apply grows_refl]].
  apply wp_bind. eapply wp_upd_cell; [exact Hc|].
  unfold erase_stall. apply wp_bind, wp_cluster_state.
  rewrite bool_decide_true by by apply (inv_stall _ Hi to c).
  apply wp_upd_cluster. change (inv (cleared to c w) ∧ grows w (cleared to c w)).
  split; [by apply cleared_inv|]. by apply evolves_grows, cleared_evolves.
Qed.

(** In [w] the cell at [o] is [cell], with entities [E] and [N] clients; the
    entities of the world are [m]; [ops] waits in the queue of the cluster. *)
Definition holds (o : Offset) (cell : positive) (E : gmap Z positive) (N : Z)
    (m : gmap positive Entity) (ops : list ClusterOperation) (w : World) : Prop :=
  w_map w !! o = Some cell ∧
  (∃ c, w_cells w !! cell = Some c ∧ c_offset c = o ∧ c_entities c = E ∧ c_clientsCount c = N) ∧
  w_entities w = m ∧ lf_contents (k_operations (w_cluster w)) = ops.

Lemma holds_grows o cell E N m ops w w' :
  grows w w' → holds o cell E N m ops w → holds o cell E N m ops w'.
Proof.
  intros Hg (Hm & (c & Hc & Ho & HE & HN) & He & Hops).
  destruct (gr_cells _ _ Hg _ _ Hc) as (c' & Hc' & Ho' & HE' & HN').
  split_and!; [by eapply lookup_weaken; [|apply Hg]| | |].
  - exists c'. split_and!; congruence.
  - by rewrite (gr_entities _ _ Hg).
  - by rewrite (gr_k_operations _ _ Hg).
Qed.

Lemma holds_at o cell E N m ops w :
  holds o cell E N m ops w → entities_at w o = E ∧ clients_at w o = N.
Proof.
  intros (Hm & (c & Hc & _ & HE & HN) & _). unfold entities_at, clients_at.
  by rewrite (cell_at_eq w o cell c).
Qed.

Definition is_client (en : Entity) : bool := match e_client en with Some _ => true | None => false end.

(** The entities and the number of clients of a cell after [addEntity]. *)
Definition entities_add (en : Entity) (e : positive) (E : gmap Z positive) : gmap Z positive :=
  match E !! e_id en with Some _ => E | None => <[e_id en := e]> E end.
Definition count_add (en : Entity) (n : Z) : Z := if is_client en then u16 (n + 1) else n.
Definition count_remove (en : Entity) (n : Z) : Z := if is_client en then u16 (n - 1) else n.

(** The cell [old] or [to] that an operation names. *)
Definition neighbouring (w : World) (q : option positive) (o : Offset) : Prop :=
  ∀ p, q = Some p → ∃ d, w_cells w !! p = Some d ∧ adjacent (c_offset d) o.

Lemma operated_neighbouring w w' q o : operated ∅ w w' → neighbouring w q o → neighbouring w' q o.
Proof.
  intros Hop Hn p Hp. destruct (Hn p Hp) as (d & Hd & Hadj).
  destruct (op_spared _ _ _ Hop p d Hd) as (d' & ? & Ho); [set_solver|]. exists d'. by rewrite Ho.
Qed.

Lemma onAdded_ok w e en cell c old :
  inv w → w_entities w !! e = Some en → e_cell en = Some cell →
  w_cells w !! cell = Some c → interior (c_offset c) → clear 2 w (c_offset c) →
  neighbouring w old (c_offset c) →
  wp (onAdded e cell old) w (λ _ w', inv w' ∧ grows w w').
Proof.
  intros Hi He Hcell Hc Hint Hclear Hold. unfold onAdded. apply wp_bind. eapply wp_upd_entity; [done|].
  rewrite insert_id by (rewrite He; destruct en; cbn in *; by subst).
  assert (set_world_entities (w_entities w) w = w) as -> by (by destruct w).
  apply (announce_ok w cell c); [by intros [Hs _]|done..|]. intros q w1 Hgr Hq.
  apply wp_bind. eapply wp_deref_entity; [by rewrite (gr_entities _ _ Hgr)|].
  destruct (e_client en) eqn:Hcl; [|by apply wp_ret, reshapes_refl, _].
  apply (request_ok w1 q e en); [done|by rewrite (gr_entities _ _ Hgr)|by rewrite Hcl].
Qed.

Lemma addEntity_ok w e en cell c :
  w_entities w !! e = Some en → w_cells w !! cell = Some c →
  wp (addEntity cell e) w (λ _ w', ∃ c',
    w' = set_cells (<[cell := c']> (w_cells w)) w ∧ skeleton w w' ∧ c_offset c' = c_offset c ∧
    c_entities c' = entities_add en e (c_entities c) ∧ c_clientsCount c' = count_add en (c_clientsCount c)).
Proof.
  intros He Hc. unfold addEntity. apply wp_bind. eapply wp_deref_entity; [done|].
  eapply wp_upd_cell; [done|]. eexists. split_and!; [done|by apply (reshapes_upd _ w cell c)|done|done|].
  cbn. unfold count_add, is_client. by destruct (e_client en).
Qed.

Lemma removeEntity_ok w e en cell c :
  w_entities w !! e = Some en → w_cells w !! cell = Some c →
  wp (removeEntity cell e) w (λ _ w', ∃ c',
    w' = set_cells (<[cell := c']> (w_cells w)) w ∧ skeleton w w' ∧ c_offset c' = c_offset c ∧
    c_entities c' = delete (e_id en) (c_entities c) ∧ c_clientsCount c' = count_remove en (c_clientsCount c)).
Proof.
  intros He Hc. unfold removeEntity. apply wp_bind. eapply wp_deref_entity; [done|].
  eapply wp_upd_cell; [done|]. eexists. split_and!; [done|by apply (reshapes_upd _ w cell c)|done|done|].
  cbn. unfold count_remove, is_client. by destruct (e_client en).
Qed.

(** What an updater schedules in the cluster; the queue refuses it when full. *)
Definition schedules (type : ClusterOperationType) (en : Entity) (e : positive)
    (ops : list ClusterOperation) : list ClusterOperation :=
  if e_isUpdater en && bool_decide (length ops < 4096) then ops ++ [mkClusterOperation type e] else ops.

Lemma cluster_push_ok w type e en :
  w_entities w !! e = Some en →
  wp (cluster_push type e) w (λ _ w',
    (∃ q, w' = set_cluster (set_k_operations q (w_cluster w)) w) ∧
    lf_contents (k_operations (w_cluster w')) = schedules type en e (lf_contents (k_operations (w_cluster w)))).
Proof.
  intros He. unfold cluster_push. apply wp_bind. eapply wp_deref_entity; [done|].
  unfold schedules. destruct (e_isUpdater en); cbn [andb].
  - apply wp_upd_cluster. split; [by eexists|]. cbn. case_bool_decide.
    + by apply lf_push_free.
    + by apply lf_push_full.
  - apply wp_ret. split; [|done]. exists (k_operations (w_cluster w)). by destruct w as [? ? ? ? ? []].
Qed.

Lemma cluster_push_if_ok w type e en :
  w_entities w !! e = Some en →
  wp (if e_isUpdater en then cluster_push type e else mret tt) w (λ _ w',
    (∃ q, w' = set_cluster (set_k_operations q (w_cluster w)) w) ∧
    lf_contents (k_operations (w_cluster w')) = schedules type en e (lf_contents (k_operations (w_cluster w)))).
Proof.
  intros He. destruct (e_isUpdater en) eqn:Hu; [by apply cluster_push_ok|].
  apply wp_ret. unfold schedules. rewrite Hu. split; [|done].
  exists (k_operations (w_cluster w)). by destruct w as [? ? ? ? ? []].
Qed.

(** ** ADD_ENTITY *)

(** The updater's part. *)
Lemma add_updater_ok w e en cell c o E N m ops :
  inv w → m !! e = Some en → holds o cell E N m ops w → w_cells w !! cell = Some c →
  interior (c_offset c) → clear 2 w (c_offset c) →
  wp (if e_isUpdater en then _ ← createSiblings cell; cluster_add e else mret tt) w (λ _ w',
    operated ∅ w w' ∧ holds o cell E N m (schedules KEEP en e ops) w' ∧
    (∀ o', entities_at w' o' = entities_at w o') ∧
    (e_isUpdater en = true → ∀ o', adjacent (c_offset c) o' → is_Some (w_map w' !! o'))).
Proof.
  intros Hi He Hh Hc Hint Hclear. destruct (e_isUpdater en) eqn:Hu.
  - apply wp_bind. eapply wp_mono; [by apply (createSiblings_ok w cell c)|].
    intros l w1 (Hi1 & Hgr & Hsib & _). pose proof (holds_grows _ _ _ _ _ _ _ _ Hgr Hh) as Hh1.
    pose proof Hh1 as (Hm1 & Hc1 & He1 & Ho1).
    eapply wp_mono; [apply (cluster_push_ok w1 KEEP e en); by rewrite He1|].
    intros [] w2 [(q & ->) Hops]. cbn in Hops. split_and!; [| | |done].
    + eapply operated_empty_trans; [by apply grows_operated|by apply cluster_operated].
    + split_and!; [done|done|done|]. cbn. by rewrite Hops, Ho1.
    + intros o'. change (entities_at w1 o' = entities_at w o'). by apply grows_entities_at.
  - apply wp_ret. unfold schedules. rewrite Hu. split_and!; [|done..]. apply grows_operated; [done|apply grows_refl].
Qed.

Lemma enter_ok w o e en :
  inv w → clear 1 w o → in_grid o → w_entities w !! e = Some en →
  wp (enter o e) w (λ cell w', operated ∅ w w' ∧ elsewhere o w w' ∧
    holds o cell (entities_add en e (entities_at w o)) (count_add en (clients_at w o))
      (<[e := set_cell (Some cell) en]> (w_entities w)) (lf_contents (k_operations (w_cluster w))) w').
Proof.
  intros Hi Hclear Ho He. unfold enter. apply wp_bind. eapply wp_mono; [by apply getOrCreate_ok|].
  intros cell w1 (Hm1 & Hi1 & Hgr1 & (c1 & Hc1 & Ho1 & HE1 & HN1)).
  assert (w_entities w1 !! e = Some en) as He1 by by rewrite (gr_entities _ _ Hgr1).
  apply wp_bind. eapply wp_upd_entity; [done|]. pose proof (upd_entity_operated w1 e en (Some cell) Hi1 He1) as Hop2.
  set (en' := set_cell (Some cell) en) in *. set (w2 := set_world_entities _ w1) in *.
  apply wp_bind. eapply wp_mono; [apply (addEntity_ok w2 e en' cell c1); [apply lookup_insert_eq|done]|].
  intros [] w3 (c3 & Hw3 & Hsk & Ho3 & HE3 & HN3). apply wp_ret. split_and!.
  - eapply operated_empty_trans; [by apply grows_operated|].
    eapply operated_empty_trans; [exact Hop2|]. apply skeleton_operated; [apply Hop2|done].
  - intros o' Hne. rewrite Hw3, (upd_elsewhere w2 o cell c3); [|apply Hop2|done|done].
    change (entities_at w1 o' = entities_at w o'). by apply grows_entities_at.
  - rewrite Hw3. split_and!; [done| | |].
    + exists c3. rewrite HE3, HN3, <-HE1, <-HN1. split_and!; [apply lookup_insert_eq|congruence|done|done].
    + cbn. by rewrite (gr_entities _ _ Hgr1).
    + cbn. by rewrite (gr_k_operations _ _ Hgr1).
Qed.

Lemma run_add_ok (w : World) (o : Offset) (e : positive) (en : Entity) (old : option positive) :
  inv w → interior o → clear 2 w o → w_entities w !! e = Some en → neighbouring w old o →
  wp (run_add o e old) w (λ _ w', operated ∅ w w' ∧ elsewhere o w w' ∧
    entities_at w' o = entities_add en e (entities_at w o) ∧
    clients_at w' o = count_add en (clients_at w o) ∧
    (∃ cell, w_map w' !! o = Some cell ∧
      w_entities w' = <[e := set_cell (Some cell) en]> (w_entities w)) ∧
    lf_contents (k_operations (w_cluster w')) =
      schedules KEEP en e (lf_contents (k_operations (w_cluster w))) ∧
    (e_isUpdater en = true → ∀ o', adjacent o o' → is_Some (w_map w' !! o'))).
Proof.
  intros Hi Ho Hclear He Hold. unfold run_add. apply wp_bind. eapply wp_mono.
  { apply enter_ok; [done| |exact (proj1 Ho)|done]. by apply (clear_le 2). }
  intros cell w1 (Hop1 & Hel1 & Hh1). pose proof Hh1 as (_ & (c1 & Hc1 & Ho1 & _) & He1 & _).
  set (en' := set_cell (Some cell) en) in *. set (m := <[e := en']> (w_entities w)) in *.
  assert (m !! e = Some en') as Hme by apply lookup_insert_eq.
  assert (∀ w', operated ∅ w w' → clear 2 w' o) as Hcl by (intros w' Hop; by apply (operated_clear ∅ 2 w)).
  apply wp_bind. eapply wp_deref_entity; [by rewrite He1|].
  apply wp_bind. eapply wp_mono.
  { eapply (add_updater_ok w1 e en' cell c1); try done; [apply Hop1|by rewrite Ho1|by rewrite Ho1; apply Hcl]. }
  intros [] w2 (Hop12 & Hh2 & Hel2 & Hsib2). rewrite Ho1 in Hsib2.
  assert (operated ∅ w w2) as Hop2 by (by eapply operated_empty_trans).
  pose proof Hh2 as (_ & (c2 & Hc2 & Ho2 & _) & He2 & _).
  pose proof (operated_neighbouring w w2 old o Hop2 Hold) as Hold2.
  apply wp_bind. eapply wp_mono.
  { apply (onAdded_ok w2 e en' cell c2); [apply Hop2|by rewrite He2|done|done|rewrite Ho2; auto..]. }
  intros _ w3 [Hi3 Hgr3]. pose proof (holds_grows _ _ _ _ _ _ _ _ Hgr3 Hh2) as Hh3.
  assert (operated ∅ w w3) as Hop3 by (by eapply operated_empty_trans; [|apply grows_operated]).
  pose proof Hh3 as (Hm3 & (c3 & Hc3 & Ho3 & _) & _).
  eapply wp_mono; [apply (checkStall_ok w3 old cell c3); [done|done|..]|].
  { rewrite <-(hot_cell _ _ _ Hc3). apply (Hcl _ Hop3 o); [|done]. by rewrite (proj2 (hex_dist_0 o o)). }
  { intros q Hq. destruct (operated_neighbouring w w3 old o Hop3 Hold q Hq) as (d & ? & _). by exists d. }
  intros [] w4 [Hi4 Hgr4]. pose proof (holds_grows _ _ _ _ _ _ _ _ Hgr4 Hh3) as Hh4.
  pose proof Hh4 as (Hm4 & _ & He4 & Hops4). destruct (holds_at _ _ _ _ _ _ _ Hh4) as [HE HN].
  split_and!; [| |done|done|by exists cell|done|].
  - eapply operated_empty_trans; [exact Hop3|by apply grows_operated].
  - intros o' Hne. rewrite (grows_entities_at w3 w4), (grows_entities_at w2 w3), Hel2, Hel1; try done. apply Hop2.
  - intros Hu o' Ho'. destruct (Hsib2 Hu o' Ho') as [q Hq]. exists q.
    eapply lookup_weaken; [|apply Hgr4]. by eapply lookup_weaken; [|apply Hgr3].
Qed.

(** C7. Executing ADD_ENTITY puts the entity into the cell at its
    coordinates, creating the cell if need be: the entity points to the cell,
    the cell knows the entity (unless another one has its id) and counts its
    client; an updater has all six neighbours created and a KEEP scheduled.
    The execution never fails and keeps the invariant, as long as no cell
    within a distance of two waits for its destruction. *)
Theorem run_add_spec (w : World) (o : Offset) (e : positive) (en : Entity) (old : option positive)
    (Hi : inv w) (Ho : interior o) (Hclear : clear 2 w o) (He : w_entities w !! e = Some en)
    (Hold : neighbouring w old o) :
  wp (run_add o e old) w (λ _ w', inv w' ∧
    entities_at w' o = entities_add en e (entities_at w o) ∧
    clients_at w' o = count_add en (clients_at w o) ∧
    (∃ cell, w_map w' !! o = Some cell ∧
      w_entities w' = <[e := set_cell (Some cell) en]> (w_entities w)) ∧
    lf_contents (k_operations (w_cluster w')) =
      schedules KEEP en e (lf_contents (k_operations (w_cluster w))) ∧
    (e_isUpdater en = true → ∀ o', adjacent o o' → is_Some (w_map w' !! o'))).
Proof.
  eapply wp_mono; [by apply (run_add_ok w o e en old)|]. intros [] w' (Hop & _ & ?). split; [apply Hop|done].
Qed.

(** ** REMOVE_ENTITY *)

Lemma onRemoved_ok w e en cell c to :
  inv w → w_entities w !! e = Some en → w_cells w !! cell = Some c → interior (c_offset c) →
  clear 2 w (c_offset c) → neighbouring w to (c_offset c) →
  wp (onRemoved e cell to) w (λ _ w', inv w' ∧
    grows (set_world_entities (<[e := set_cell None en]> (w_entities w)) w) w').
Proof.
  intros Hi He Hc Hint Hclear Hto. unfold onRemoved. apply wp_bind. eapply wp_upd_entity; [done|].
  set (w1 := set_world_entities _ _). assert (inv w1) as Hi1 by (by apply entities_inv).
  assert (w_entities w1 !! e = Some (set_cell None en)) as He1 by apply lookup_insert_eq.
  apply wp_bind. eapply wp_mono; [by apply (getCellsExcluding_ok w1 cell c)|].
  intros l w2 (Hi2 & Hgr2 & Hl). apply wp_bind. eapply wp_deref_entity; [by rewrite (gr_entities _ _ Hgr2)|].
  apply wp_bind. eapply (wp_mono _ _ (λ _ w', inv w' ∧ grows w2 w')).
  { destruct to, (e_client (set_cell None en)) eqn:Hcl; (apply broadcast_grows; [by intros [_ Hs]|done|done|]);
      intros q w3 Hgr3 Hq; try by apply wp_ret, reshapes_refl, _.
    apply (request_ok w3 q e (set_cell None en)); [done| |by rewrite Hcl].
    by rewrite (gr_entities _ _ Hgr3), (gr_entities _ _ Hgr2). }
  intros [] w3 [Hi3 Hgr3]. apply wp_ret. split; [done|by eapply grows_trans].
Qed.

Lemma run_remove_ok (w : World) (o : Offset) (e : positive) (en : Entity) (to : option positive) :
  inv w → interior o → clear 2 w o → w_entities w !! e = Some en → neighbouring w to o →
  wp (run_remove o e to) w (λ _ w',
    match w_map w !! o with
    | None => w' = w
    | Some cell => operated ∅ w w' ∧ elsewhere o w w' ∧
        entities_at w' o = delete (e_id en) (entities_at w o) ∧
        clients_at w' o = count_remove en (clients_at w o) ∧
        w_map w' !! o = Some cell ∧
        w_entities w' = <[e := set_cell None en]> (w_entities w) ∧
        lf_contents (k_operations (w_cluster w')) =
          schedules UNKEEP en e (lf_contents (k_operations (w_cluster w)))
    end).
Proof.
  intros Hi Ho Hclear He Hto. unfold run_remove. apply wp_bind, wp_Map_get.
  destruct (w_map w !! o) as [cell|] eqn:Hm; [|by apply wp_ret].
  destruct (inv_map _ Hi o cell Hm) as (c & Hc & Hco). subst o.
  assert (entities_at w (c_offset c) = c_entities c ∧ clients_at w (c_offset c) = c_clientsCount c) as [-> ->].
  { unfold entities_at, clients_at. by rewrite (cell_at_eq w _ cell c). }
  apply wp_bind. eapply wp_mono; [by apply (removeEntity_ok w e en cell c)|].
  intros [] w1 (c1 & Hw1 & Hsk & Ho1 & HE1 & HN1).
  pose proof (skeleton_operated w w1 Hi Hsk) as Hop1.
  assert (w_cells w1 !! cell = Some c1) as Hc1 by (rewrite Hw1; apply lookup_insert_eq).
  assert (w_entities w1 = w_entities w ∧ w_map w1 = w_map w ∧ w_cluster w1 = w_cluster w)
    as (He1 & Hm1 & Hk1) by (by rewrite Hw1).
  rewrite <-He1 in He. apply wp_bind. eapply wp_deref_entity; [done|]. apply wp_bind.
  eapply wp_mono; [by apply (cluster_push_if_ok w1 UNKEEP e en)|].
  intros [] w2 [(q & Hw2) Hops]. rewrite Hk1 in Hops.
  assert (operated ∅ w w2) as Hop2.
  { rewrite Hw2. eapply operated_empty_trans; [exact Hop1|]. apply cluster_operated, Hop1. }
  assert (w_entities w2 !! e = Some en) as He2 by by rewrite Hw2.
  assert (w_cells w2 !! cell = Some c1) as Hc2 by by rewrite Hw2.
  apply wp_bind. eapply wp_mono.
  { apply (onRemoved_ok w2 e en cell c1 to); [apply Hop2|done|done|by rewrite Ho1|rewrite Ho1..].
    - by apply (operated_clear ∅ 2 w).
    - by eapply operated_neighbouring. }
  intros _ w3 [Hi3 Hgr3]. apply wp_ret.
  destruct (gr_cells _ _ Hgr3 cell c1 Hc2) as (c3 & Hc3 & _ & HE3 & HN3).
  assert (w_map w3 !! c_offset c = Some cell) as Hm3.
  { eapply lookup_weaken; [|apply Hgr3]. cbn. by rewrite Hw2, <-Hm, <-Hm1. }
  assert (entities_at w3 (c_offset c) = c_entities c3 ∧ clients_at w3 (c_offset c) = c_clientsCount c3) as [-> ->].
  { unfold entities_at, clients_at. by rewrite (cell_at_eq w3 _ cell c3). }
  pose proof (upd_entity_operated w2 e en None (op_inv _ _ _ Hop2) He2) as Hop3.
  split_and!; [| |congruence|congruence|done| |].
  - eapply operated_empty_trans; [exact Hop2|]. eapply operated_empty_trans; [exact Hop3|by apply grows_operated].
  - intros o' Hne. rewrite (grows_entities_at _ w3 o' (op_inv _ _ _ Hop3) Hi3 Hgr3).
    change (entities_at w2 o' = entities_at w o'). rewrite Hw2.
    change (entities_at w1 o' = entities_at w o'). rewrite Hw1. by apply (upd_elsewhere w (c_offset c) cell c1 Hi).
  - rewrite (gr_entities _ _ Hgr3), Hw2. cbn. by rewrite He1.
  - rewrite (gr_k_operations _ _ Hgr3). exact Hops.
Qed.

(** C8. Executing REMOVE_ENTITY takes the entity out of the cell at its
    coordinates: the cell forgets its id and its client, the entity points to
    no cell, an updater has an UNKEEP scheduled; where there is no cell
    nothing happens. The execution never fails and keeps the invariant, as
    long as no cell within a distance of two waits for its destruction. *)
Theorem run_remove_spec (w : World) (o : Offset) (e : positive) (en : Entity) (to : option positive)
    (Hi : inv w) (Ho : interior o) (Hclear : clear 2 w o) (He : w_entities w !! e = Some en)
    (Hto : neighbouring w to o) :
  wp (run_remove o e to) w (λ _ w',
    match w_map w !! o with
    | None => w' = w
    | Some cell => inv w' ∧
        entities_at w' o = delete (e_id en) (entities_at w o) ∧
        clients_at w' o = count_remove en (clients_at w o) ∧
        w_map w' !! o = Some cell ∧
        w_entities w' = <[e := set_cell None en]> (w_entities w) ∧
        lf_contents (k_operations (w_cluster w')) =
          schedules UNKEEP en e (lf_contents (k_operations (w_cluster w)))
    end).
Proof.
  eapply wp_mono; [by apply (run_remove_ok w o e en to)|].
  intros [] w'. destruct (w_map w !! o); [|done]. intros (Hop & _ & ?). split; [apply Hop|done].
Qed.

(** ** DESTROY *)

(** A cell on cooldown is not among the stalled ones any more: its destruction
    is scheduled. *)
Definition sealed (w : World) : Prop := ∀ p, hot w p = true → p ∉ k_stallCells (w_cluster w).

Lemma operated_sealed D w w' : operated D w w' → sealed w → sealed w'.
Proof. intros Hop Hs p [Hp _]%(op_hot _ _ _ Hop) Hin. by apply (Hs p Hp), (op_stall _ _ _ Hop). Qed.

(** A hot cell is not touched. *)
Lemma hot_not_current w p : inv w → hot w p = true → p ∉ k_current (w_cluster w).
Proof.
  intros Hi Hp Hin. destruct (inv_live _ Hi p Hin) as (c & Hc & Hcd). rewrite (hot_cell _ _ _ Hc) in Hp. congruence.
Qed.

Definition without_cell (o : Offset) (p : positive) (w : World) : World :=
  set_cells (delete p (w_cells w)) (set_map (delete o (w_map w)) w).

Lemma without_cell_inv w p c :
  inv w → w_cells w !! p = Some c → hot w p = true → p ∉ k_stallCells (w_cluster w) →
  inv (without_cell (c_offset c) p w).
Proof.
  intros Hi Hc Hh Hst. pose proof (hot_not_current w p Hi Hh) as Hcur.
  assert (∀ q v, k_vertices (w_cluster w) !! q = Some v → q ≠ p) as Hne.
  { intros q v Hq ->. apply Hcur. rewrite <-(inv_vertices _ Hi). apply elem_of_dom. by exists v. }
  split; cbn; try apply Hi.
  - intros o q [Ho Hq]%lookup_delete_Some. destruct (inv_map _ Hi o q Hq) as (d & Hd & <-). exists d.
    rewrite lookup_delete_ne; [done|]. intros <-. congruence.
  - intros q d [Hqp Hq]%lookup_delete_Some. rewrite lookup_delete_ne; [by apply Hi|].
    intros Heq. pose proof (inv_cells _ Hi q d Hq) as Hm. rewrite <-Heq, (inv_cells _ Hi p c Hc) in Hm. congruence.
  - intros q Hq. destruct (inv_live _ Hi q Hq) as (d & Hd & Hcd). exists d.
    rewrite lookup_delete_ne; [done|]. by intros <-.
  - intros u v He. destruct (inv_edges _ Hi u v He) as (q & q' & c1 & c2 & Hq & Hq' & Hc1 & Hc2 & Hadj).
    exists q, q', c1, c2. rewrite !lookup_delete_ne; [done|by apply not_eq_sym; eauto..].
  - intros q d [_ Hq]%lookup_delete_Some. by apply (inv_stall _ Hi).
  - intros q Hq. destruct (inv_stall_live _ Hi q Hq) as (d & Hd & Hor). exists d.
    rewrite lookup_delete_ne; [done|]. by intros <-.
Qed.

Lemma without_cell_operated w p c :
  inv w → sealed w → w_cells w !! p = Some c → hot w p = true →
  operated {[p]} w (without_cell (c_offset c) p w).
Proof.
  intros Hi Hs Hc Hh. split; try done.
  - apply without_cell_inv; [done..|by apply Hs].
  - by intros q ->%elem_of_singleton.
  - intros q d Hq Hne. exists d. cbn. rewrite lookup_delete_ne; [done|set_solver].
  - intros q d Hq. cbn in Hq. apply lookup_delete_Some in Hq as [Hne Hq].
    rewrite decide_False by set_solver. unfold descends. rewrite Hq. apply becomes_refl.
  - intros q. unfold hot. cbn. destruct (decide (q = p)) as [->|Hne].
    + rewrite lookup_delete_eq. set_solver.
    + rewrite lookup_delete_ne by done. set_solver.
Qed.

Lemma run_destroy_ok w p c :
  w_cells w !! p = Some c →
  run_destroy (c_offset c) (Some p) w = (Ok tt, without_cell (c_offset c) p w).
Proof.
  intros Hc. apply wp_eq. unfold run_destroy. apply wp_bind, wp_modify, wp_bind, wp_not_null, wp_bind.
  eapply wp_deref_cell; [exact Hc|]. by apply wp_modify.
Qed.

Lemma without_cell_entities w p c o :
  inv w → w_cells w !! p = Some c →
  entities_at (without_cell (c_offset c) p w) o = if decide (o = c_offset c) then ∅ else entities_at w o.
Proof.
  intros Hi Hc. unfold entities_at, cell_at. cbn. case_decide as Ho; [by rewrite Ho, lookup_delete_eq|].
  rewrite lookup_delete_ne by done. destruct (w_map w !! o) as [q|] eqn:Hq; [|done]. cbn.
  destruct (inv_map _ Hi o q Hq) as (d & Hd & <-). rewrite lookup_delete_ne; [done|]. intros <-. congruence.
Qed.

(** ** The queue of operations *)

Lemma keeps_upd_cell p f : keeps_ops (upd_cell p f).
Proof. unfold upd_cell, deref_cell. keeps. Qed.
Lemma keeps_upd_entity p f : keeps_ops (upd_entity p f).
Proof. unfold upd_entity, deref_entity. keeps. Qed.
Lemma keeps_deref_cell p : keeps_ops (deref_cell p).
Proof. unfold deref_cell. keeps. Qed.
Lemma keeps_deref_entity p : keeps_ops (deref_entity p).
Proof. unfold deref_entity. keeps. Qed.
Lemma keeps_upd_cluster f : keeps_ops (upd_cluster f).
Proof. unfold upd_cluster. keeps. Qed.
Lemma keeps_cluster_state : keeps_ops cluster_state.
Proof. unfold cluster_state. keeps. Qed.
Lemma keeps_assert b : keeps_ops (assert_ b).
Proof. unfold assert_. keeps. Qed.
Lemma keeps_not_null {A} (o : option A) : keeps_ops (not_null o).
Proof. unfold not_null. keeps. Qed.
#[local] Hint Resolve keeps_upd_cell keeps_upd_entity keeps_deref_cell keeps_deref_entity
  keeps_upd_cluster keeps_cluster_state keeps_assert keeps_not_null : keeps.

Lemma keeps_Map_get o : keeps_ops (Map_get o).
Proof. unfold Map_get. keeps. Qed.
Lemma keeps_erase_stall p : keeps_ops (erase_stall p).
Proof. unfold erase_stall. keeps. Qed.
#[local] Hint Resolve keeps_Map_get keeps_erase_stall : keeps.
Lemma keeps_touch p b : keeps_ops (touch p b).
Proof. unfold touch. keeps. Qed.
Lemma keeps_vertex_of p : keeps_ops (vertex_of p).
Proof. unfold vertex_of. keeps. Qed.
#[local] Hint Resolve keeps_touch keeps_vertex_of : keeps.
Lemma keeps_touchWithNeighbours p b : keeps_ops (touchWithNeighbours p b).
Proof. unfold touchWithNeighbours, inRadius, touch_neighbour, connect. keeps. Qed.
#[local] Hint Resolve keeps_touchWithNeighbours : keeps.
Lemma keeps_getOrCreate o : keeps_ops (getOrCreate o).
Proof.
  intros w. unfold getOrCreate, Map_get, mbind, ST_bind, gets.
  destruct (w_map w !! o); [done|]. unfold get, put, onCellCreated, mbind, ST_bind.
  set (w1 := set_map _ _). pose proof (keeps_touchWithNeighbours (rt_alloc (dom (w_cells w))) false w1) as Hk.
  by destruct (touchWithNeighbours _ _ w1) as [[]].
Qed.
#[local] Hint Resolve keeps_getOrCreate : keeps.
Lemma keeps_createSiblings p : keeps_ops (createSiblings p).
Proof. unfold createSiblings. keeps. Qed.
#[local] Hint Resolve keeps_createSiblings : keeps.
Lemma keeps_getCellsExcluding p q : keeps_ops (getCellsExcluding p q).
Proof. unfold getCellsExcluding. keeps. Qed.
#[local] Hint Resolve keeps_getCellsExcluding : keeps.
Lemma keeps_addEntity p e : keeps_ops (addEntity p e).
Proof. unfold addEntity. keeps. Qed.
Lemma keeps_removeEntity p e : keeps_ops (removeEntity p e).
Proof. unfold removeEntity. keeps. Qed.
Lemma keeps_request p e t : keeps_ops (request p e t).
Proof. unfold request. keeps. Qed.
Lemma keeps_cluster_push t e : keeps_ops (cluster_push t e).
Proof. unfold cluster_push. keeps. Qed.
Lemma keeps_checkStall p q : keeps_ops (checkStall p q).
Proof. unfold checkStall. keeps. Qed.
#[local] Hint Resolve keeps_addEntity keeps_removeEntity keeps_request keeps_cluster_push keeps_checkStall : keeps.
Lemma keeps_broadcast l p cb : (∀ q, keeps_ops (cb q)) → keeps_ops (broadcast l p cb).
Proof. intros. unfold broadcast, cell_broadcast. keeps. Qed.
Lemma keeps_onAdded e c o : keeps_ops (onAdded e c o).
Proof. unfold onAdded. keeps. Qed.
Lemma keeps_onRemoved e c o : keeps_ops (onRemoved e c o).
Proof. unfold onRemoved, dummy. keeps; apply keeps_broadcast; keeps. Qed.
#[local] Hint Resolve keeps_onAdded keeps_onRemoved : keeps.

Lemma keeps_run_operation op : keeps_ops (run_operation op).
Proof.
  unfold run_operation, run_add, enter, run_remove, run_destroy, cluster_add, cluster_remove. keeps.
Qed.

(** [ops] are popped and executed one after the other, until one fails. *)
Inductive executes : list MapOperation → World → outcome unit → World → Prop :=
  | ex_done w : lf_contents (w_operations w) = [] → executes [] w (Ok tt) w
  | ex_next op ops q w w1 r w2 :
      lf_pop (w_operations w) = Some (op, q) →
      run_operation op (set_operations q w) = (Ok tt, w1) → executes ops w1 r w2 →
      executes (op :: ops) w r w2
  | ex_fail op ops q w w1 f :
      lf_pop (w_operations w) = Some (op, q) →
      run_operation op (set_operations q w) = (Fail f, w1) → executes (op :: ops) w (Fail f) w1.

(** In a tick the operations that were waiting are executed exactly once
    each, in the order they were scheduled, until the queue is empty or one of
    them fails; executing them schedules no further ones, so the loop ends
    (the length of the queue is enough fuel). *)
Lemma map_runScheduledOperations_fifo (w : World) :
  let '(r, w') := map_runScheduledOperations w in
  executes (lf_contents (w_operations w)) w r w'.
Proof.
  unfold map_runScheduledOperations, mbind at 1, ST_bind at 1, get. cbn beta iota.
  remember (lf_contents (w_operations w)) as ops eqn:Hops. symmetry in Hops. revert w Hops.
  induction ops as [|op ops IH]; intros w Hops; cbn [length run_operations];
    unfold mbind at 1, ST_bind at 1, get; cbn beta iota; pose proof (lf_pop_contents (w_operations w)) as Hp;
    rewrite Hops in Hp.
  { rewrite Hp. by constructor. }
  destruct Hp as (q & Hq & Hcont). rewrite Hq. unfold mbind, ST_bind, put. cbn beta iota.
  pose proof (keeps_run_operation op (set_operations q w)) as Hk.
  destruct (run_operation op (set_operations q w)) as [[[]|f] w1] eqn:Hrun; cbn in Hk.
  - specialize (IH w1 ltac:(by rewrite Hk)).
    destruct (run_operations (length ops) w1) as [r w2]. by eapply ex_next.
  - by eapply ex_fail.
Qed.

(** An invariant of the loop: what holds before an operation, of it and of
    those that follow, holds after it of those. *)
Lemma map_runScheduledOperations_ind (I : list MapOperation → World → Prop) w :
  (∀ ops w q, I ops w → I ops (set_operations q w)) →
  (∀ op ops w, I (op :: ops) w → wp (run_operation op) w (λ _ w', I ops w')) →
  I (lf_contents (w_operations w)) w →
  wp map_runScheduledOperations w (λ _ w', I [] w' ∧ lf_contents (w_operations w') = []).
Proof.
  intros Hq Hop. unfold map_runScheduledOperations. intros HI. apply wp_bind, wp_get.
  remember (lf_contents (w_operations w)) as ops eqn:Heq. symmetry in Heq. revert w HI Heq.
  induction ops as [|op ops IH]; intros w HI Heq; cbn [length run_operations]; apply wp_bind, wp_get;
    pose proof (lf_pop_contents (w_operations w)) as Hp; rewrite Heq in Hp.
  { rewrite Hp. by apply wp_ret. }
  destruct Hp as (q & -> & Hrest). apply wp_bind, wp_put. set (w1 := set_operations q w).
  apply wp_bind. pose proof (keeps_run_operation op w1) as Hk.
  pose proof (Hop op ops w1 (Hq _ _ q HI)) as Hrun. apply wp_run in Hrun as ([] & w2 & Hrun & HI2).
  rewrite Hrun in Hk. cbn in Hk. eapply run_wp; [exact Hrun|]. apply IH; [done|]. by rewrite Hk.
Qed.

(** ** A tick of operations, against sets of entities *)

(** The specification: which entities are at each place, by their ids. *)
Definition placement : Type := Offset → gmap Z positive.

Definition place_op (id : positive → Z) (op : MapOperation) (A : placement) : placement :=
  match mo_type op, mo_entity op with
  | ADD_ENTITY, Some e => λ o,
      if decide (o = mo_offset op)
      then match A o !! id e with Some _ => A o | None => <[id e := e]> (A o) end
      else A o
  | REMOVE_ENTITY, Some e => λ o, if decide (o = mo_offset op) then delete (id e) (A o) else A o
  | DESTROY, _ => λ o, if decide (o = mo_offset op) then ∅ else A o
  | _, _ => A
  end.

Definition id_of (w : World) (e : positive) : Z :=
  match w_entities w !! e with Some en => e_id en | None => 0 end.

(** An addition or a removal of a live entity, away from the border of the
    grid and from cells on cooldown, whose other cell, if any, is alive, not on
    cooldown, and adjacent; or the destruction of a cell on cooldown. *)
Definition valid_op (w : World) (op : MapOperation) : Prop :=
  match mo_type op with
  | DESTROY => ∃ p c, mo_param op = Some p ∧ w_cells w !! p = Some c ∧ c_offset c = mo_offset op ∧
      isOnCooldown (stall c) = true
  | _ => interior (mo_offset op) ∧ clear 2 w (mo_offset op) ∧
      (∃ e en, mo_entity op = Some e ∧ w_entities w !! e = Some en) ∧
      (∀ q, mo_param op = Some q → hot w q = false) ∧ neighbouring w (mo_param op) (mo_offset op)
  end.

(** The cells that operations destroy. *)
Definition destroys (op : MapOperation) : option positive :=
  match mo_type op with DESTROY => mo_param op | _ => None end.
Definition doomed (ops : list MapOperation) : list positive := omap destroys ops.

Definition option_set (q : option positive) : gset positive := list_to_set (option_list q).

Lemma elem_of_option_set p q : p ∈ option_set q ↔ q = Some p.
Proof. unfold option_set. destruct q; set_solver. Qed.

Lemma operated_id D w w' e : operated D w w' → id_of w' e = id_of w e.
Proof.
  intros Hop. pose proof (op_stripped _ _ _ Hop e) as Hs. unfold stripped, id_of in *.
  destruct (w_entities w' !! e), (w_entities w !! e); try done. cbn in Hs. by injection Hs as <-.
Qed.

(** What an operation of any kind needs. *)
Definition valid_move (w : World) (op : MapOperation) : Prop :=
  interior (mo_offset op) ∧ clear 2 w (mo_offset op) ∧
  (∃ e en, mo_entity op = Some e ∧ w_entities w !! e = Some en) ∧
  (∀ q, mo_param op = Some q → hot w q = false) ∧ neighbouring w (mo_param op) (mo_offset op).

Lemma valid_move_keep D w w' op : inv w → operated D w w' → valid_move w op → valid_move w' op.
Proof.
  intros Hi Hop (Hint & Hcl & (e & en & He & Hen) & Hhot & Hnb).
  assert (∀ q, mo_param op = Some q → q ∉ D) as HD.
  { intros q Hq Hin%(op_doomed _ _ _ Hop). by rewrite Hhot in Hin. }
  split_and!; [done|by eapply operated_clear| | |].
  - destruct (stripped_some w w' e en (op_stripped _ _ _ Hop e) Hen) as (en' & He' & _). by exists e, en'.
  - intros q Hq. destruct (hot w' q) eqn:Hh; [|done]. apply (op_hot _ _ _ Hop) in Hh as [Hh _].
    by rewrite Hhot in Hh.
  - intros q Hq. destruct (Hnb q Hq) as (d & Hd & Hadj).
    destruct (op_spared _ _ _ Hop q d Hd (HD q Hq)) as (d' & Hd' & Ho). exists d'. by rewrite Ho.
Qed.

Lemma valid_op_keep D w w' op :
  inv w → operated D w w' → (∀ p, destroys op = Some p → p ∉ D) → valid_op w op → valid_op w' op.
Proof.
  intros Hi Hop HD. unfold valid_op, destroys in *.
  destruct (mo_type op); [by apply (valid_move_keep D w w' op)..|].
  intros (p & c & Hp & Hc & Ho & Hcd). exists p. specialize (HD p Hp).
  destruct (op_spared _ _ _ Hop p c Hc HD) as (c' & Hc' & Ho'). exists c'. split_and!; [done|done|congruence|].
  rewrite <-(hot_cell _ _ _ Hc'). apply (op_hot _ _ _ Hop). split; [|done]. by rewrite (hot_cell _ _ _ Hc).
Qed.

Lemma run_operation_ok w op :
  inv w → sealed w → valid_op w op →
  wp (run_operation op) w (λ _ w', operated (option_set (destroys op)) w w' ∧
    ∀ o, entities_at w' o = place_op (id_of w) op (entities_at w) o).
Proof.
  intros Hi Hs Hv. unfold run_operation, place_op, valid_op, destroys in *.
  destruct (mo_type op) eqn:Ht.
  - destruct Hv as (Hint & Hcl & (e & en & He & Hen) & _ & Hnb). rewrite He.
    assert (id_of w e = e_id en) as Hid by (unfold id_of; by rewrite Hen).
    apply wp_bind, wp_not_null. eapply wp_mono; [by apply (run_add_ok w (mo_offset op) e en (mo_param op))|].
    intros [] w' (Hop & Hel & HE & _). split; [done|]. intros o.
    destruct (decide (o = mo_offset op)) as [->|Hne]; [|by apply Hel]. rewrite HE, Hid. done.
  - destruct Hv as (Hint & Hcl & (e & en & He & Hen) & _ & Hnb). rewrite He.
    assert (id_of w e = e_id en) as Hid by (unfold id_of; by rewrite Hen).
    apply wp_bind, wp_Map_get. destruct (w_map w !! mo_offset op) as [cell|] eqn:Hm.
    + apply wp_bind, wp_not_null. eapply wp_mono; [by apply (run_remove_ok w (mo_offset op) e en (mo_param op))|].
      rewrite Hm. intros [] w' (Hop & Hel & HE & _). split; [done|]. intros o.
      destruct (decide (o = mo_offset op)) as [->|Hne]; [|by apply Hel]. by rewrite HE, Hid.
    + apply wp_ret. split; [apply grows_operated; [done|apply grows_refl]|]. intros o.
      destruct (decide (o = mo_offset op)) as [->|Hne]; [|done].
      unfold entities_at, cell_at. rewrite Hm. cbn. by rewrite delete_empty.
  - destruct Hv as (p & c & -> & Hc & <- & Hcd). eapply run_wp; [by apply run_destroy_ok|].
    rewrite <-(hot_cell _ _ _ Hc) in Hcd. split.
    + assert (option_set (Some p) = {[p]}) as -> by (unfold option_set; set_solver).
      by apply without_cell_operated.
    + intros o. by apply without_cell_entities.
Qed.

(** The specification depends on the placement place by place. *)
Lemma place_op_ext id id' op A B o :
  (∀ e, id e = id' e) → (∀ o, A o = B o) → place_op id op A o = place_op id' op B o.
Proof.
  intros Hid HA. unfold place_op.
  destruct (mo_type op), (mo_entity op); repeat case_decide; rewrite ?HA, ?Hid; done.
Qed.

Lemma place_ops_ext id id' ops A B o :
  (∀ e, id e = id' e) → (∀ o, A o = B o) →
  foldl (λ A op, place_op id op A) A ops o = foldl (λ A op, place_op id' op A) B ops o.
Proof.
  intros Hid. revert A B. induction ops as [|op ops IH]; intros A B HA; cbn; [done|].
  apply IH. intros o'. by apply place_op_ext.
Qed.

(** The operations that wait can be executed from [w] on. *)
Definition executable (w : World) (ops : list MapOperation) : Prop :=
  inv w ∧ sealed w ∧ Forall (valid_op w) ops ∧ NoDup (doomed ops).

Lemma doomed_cons op ops : doomed (op :: ops) = option_list (destroys op) ++ doomed ops.
Proof. unfold doomed. cbn. by destruct (destroys op). Qed.

Lemma executable_step w w' op ops :
  executable w (op :: ops) → operated (option_set (destroys op)) w w' → executable w' ops.
Proof.
  intros (Hi & Hs & [Hop Hops]%Forall_cons_1 & Hnd) H'. rewrite doomed_cons in Hnd.
  apply NoDup_app in Hnd as (_ & Hnd & Hnd'). split_and!; [apply H'|by eapply operated_sealed| |done].
  rewrite Forall_forall in Hops |- *. intros op' Hin. eapply valid_op_keep; [exact Hi|exact H'| |by apply Hops].
  intros p Hp Hin'%elem_of_option_set. apply (Hnd p); [by rewrite Hin'; left|].
  unfold doomed. apply list_elem_of_omap. by exists op'.
Qed.

Lemma executable_queue w q ops : executable w ops → executable (set_operations q w) ops.
Proof. intros (Hi & Hs & Hops & Hnd). split_and!; [split; apply Hi|done..]. Qed.

(** The loop, when every operation is executed as [operated] describes. *)
Lemma map_runScheduledOperations_operated (J : list MapOperation → World → Prop) w :
  (∀ ops w q, J ops w → J ops (set_operations q w)) →
  (∀ op ops w, J (op :: ops) w →
    wp (run_operation op) w (λ _ w', operated (option_set (destroys op)) w w' ∧ J ops w')) →
  inv w → J (lf_contents (w_operations w)) w →
  wp map_runScheduledOperations w (λ _ w',
    operated (list_to_set (doomed (lf_contents (w_operations w)))) w w' ∧ J [] w' ∧ lf_contents (w_operations w') = []).
Proof.
  intros Hq Hstep Hi HJ. set (ops0 := lf_contents (w_operations w)) in *. eapply wp_mono.
  - apply (map_runScheduledOperations_ind (λ ops w1, ∃ pre, ops0 = pre ++ ops ∧ J ops w1 ∧
      operated (list_to_set (doomed pre)) w w1)).
    + intros ops w1 q (pre & Hpre & HJ1 & Hop). exists pre. split_and!; [done|auto|].
      destruct Hop. split; try done. by split; apply op_inv0.
    + intros op ops w1 (pre & Hpre & HJ1 & Hop). eapply wp_mono; [by apply Hstep|].
      intros [] w2 (Hop2 & HJ2). exists (pre ++ [op]). split_and!; [by rewrite <-app_assoc|done|].
      assert (list_to_set (doomed (pre ++ [op])) =@{gset positive} list_to_set (doomed pre) ∪ option_set (destroys op)) as ->.
      { unfold doomed. rewrite omap_app, list_to_set_app_L. f_equal. }
      by eapply operated_trans.
    + exists []. split_and!; [done|done|]. apply grows_operated; [done|apply grows_refl].
  - intros [] w' [(pre & Hpre & HJ' & Hop) Hnil]. rewrite app_nil_r in Hpre. by subst pre.
Qed.

(** C5. A tick of the map runs and leaves at every place of the grid the
    entities that the waiting operations, applied in their order to sets of
    entities, leave there; the queue is empty and the invariant holds again.
    The operations add or remove live entities, away from the cells on
    cooldown, and name no cell that is not a neighbour, or destroy a cell on
    cooldown, which no other does. The cells on cooldown that are left are
    those that nobody destroyed. *)
Theorem map_tick_refines (w : World) (Hw : executable w (lf_contents (w_operations w))) :
  wp map_runScheduledOperations w (λ _ w', inv w' ∧ sealed w' ∧ lf_contents (w_operations w') = [] ∧
    (∀ p, hot w' p = true ↔ hot w p = true ∧ p ∉ doomed (lf_contents (w_operations w))) ∧
    ∀ o, entities_at w' o =
      foldl (λ A op, place_op (id_of w) op A) (entities_at w) (lf_contents (w_operations w)) o).
Proof.
  set (ops0 := lf_contents (w_operations w)) in *. eapply wp_mono.
  - apply (map_runScheduledOperations_operated (λ ops w1, executable w1 ops ∧ (∀ e, id_of w1 e = id_of w e) ∧
      ∀ o, foldl (λ A op, place_op (id_of w) op A) (entities_at w1) ops o =
           foldl (λ A op, place_op (id_of w) op A) (entities_at w) ops0 o)); [| |apply Hw|done].
    + intros ops w1 q (He & ? & ?). split; [by apply executable_queue|done].
    + intros op ops w1 (He & Hid & HE). pose proof He as (Hi & Hs & [Hv _]%Forall_cons_1 & _).
      eapply wp_mono; [by apply run_operation_ok|]. intros [] w2 (Hop2 & HE2). split; [done|].
      split_and!; [by eapply executable_step|intros e; by rewrite (operated_id _ _ _ e Hop2)|].
      intros o. rewrite <-HE. cbn. apply place_ops_ext; [done|]. intros o'. rewrite HE2. by apply place_op_ext.
  - intros [] w' (Hop & (He & _ & HE) & Hnil). split_and!; [apply He|apply He|done| |done].
    intros p. rewrite (op_hot _ _ _ Hop). by rewrite elem_of_list_to_set.
Qed.

(** ** Moving *)

(** What [onMove] schedules for the entity [e] that leaves the cell at [from]. *)
Definition crossing (from o : Offset) (e old new : positive) : list MapOperation :=
  if decide (o = from) then []
  else [mkMapOperation REMOVE_ENTITY from (Some e) (Some new);
        mkMapOperation ADD_ENTITY o (Some e) (Some old)].

Lemma onMove_ok w e cell en c o :
  inv w → clear 1 w o → w_entities w !! e = Some en → e_cell en = Some cell → w_cells w !! cell = Some c →
  offsetOf (v3x (e_position en)) (v3z (e_position en)) = Ok o → in_grid o →
  wp (onMove e) w (λ _ w', ∃ p w1 q, getOrCreate o w = (Ok p, w1) ∧ inv w1 ∧ w' = set_operations q w1 ∧ w_map w1 !! o = Some p ∧
    lf_contents q = lf_contents (w_operations w) ++ crossing (c_offset c) o e cell p).
Proof.
  intros Hi Hclear He Hcell Hc Hpos Ho.
  unfold onMove. apply wp_bind. eapply wp_deref_entity; [done|].
  apply wp_bind. eapply wp_lift_ok; [exact Hpos|].
  destruct (wp_run _ _ _ (getOrCreate_ok w o Hi Hclear Ho)) as (p & w1 & Hrun & Hp & Hi1 & Hgr & (d & Hd & Hdo & _)).
  apply wp_bind. eapply run_wp; [exact Hrun|]. cbn beta.
  destruct (gr_cells _ _ Hgr _ _ Hc) as (c1 & Hc1 & Hco1 & _).
  rewrite Hcell. unfold crossing. case_bool_decide as Heq.
  - simplify_eq. apply wp_ret. exists cell, w1, (w_operations w1).
    split_and!; [done|done|by destruct w1|done|].
    destruct (decide _); [|congruence]. by rewrite (gr_operations _ _ Hgr), app_nil_r.
  - assert (o ≠ c_offset c) as Hne.
    { intros ->. apply Heq. pose proof (inv_cells _ Hi1 cell c1 Hc1) as Hm. congruence. }
    apply wp_bind, wp_not_null, wp_bind.
    unfold removeFrom_cell. apply wp_bind. eapply wp_deref_cell; [done|].
    unfold removeFrom_offset, map_push. apply wp_modify. unfold addTo_cell. apply wp_bind.
    eapply wp_deref_cell; [exact Hd|]. unfold addTo_offset, map_push. apply wp_modify.
    eexists p, w1, _. split_and!; [done|done|reflexivity|done|].
    assert (∀ (op : MapOperation) q, lf_contents (lf_push op q).2 = lf_contents q ++ [op]) as Hpush
      by (intros; by apply lf_push_free).
    rewrite decide_False by done. cbn. by rewrite !Hpush, (gr_operations _ _ Hgr), Hco1, <-app_assoc, Hdo.
Qed.

(** C25. [onMove] of an entity that is in a cell: within the same cell nothing
    is scheduled; otherwise exactly two operations are, the removal from the
    old cell, which knows the new one, before the addition to the new cell,
    which knows the old one. The cell it moves to exists from then on. *)
Theorem onMove_schedules (w : World) (e cell : positive) (en : Entity) (c : Cell) (o : Offset)
    (Hi : inv w) (Hclear : clear 1 w o) (He : w_entities w !! e = Some en) (Hcell : e_cell en = Some cell)
    (Hc : w_cells w !! cell = Some c)
    (Hpos : offsetOf (v3x (e_position en)) (v3z (e_position en)) = Ok o) (Ho : in_grid o) :
  wp (onMove e) w (λ _ w', inv w' ∧ ∃ p, w_map w' !! o = Some p ∧
    lf_contents (w_operations w') = lf_contents (w_operations w) ++
      (if decide (o = c_offset c) then []
       else [mkMapOperation REMOVE_ENTITY (c_offset c) (Some e) (Some p);
             mkMapOperation ADD_ENTITY o (Some e) (Some cell)])).
Proof.
  eapply wp_mono; [by apply (onMove_ok w e cell en c o)|]. intros [] w' (p & w1 & q & _ & Hi1 & -> & Hp & Hq).
  split; [split; apply Hi1|]. by exists p.
Qed.
End operate.
