(* ===== verification/Life.v ===== *)
(** * The life of a cell

    [Map::cleanup] ends a tick: the cells that were updated are cleaned and, if
    they are stalled, counted down ([cluster_cleanup]); then the cluster takes
    its turn ([Turn.v]). What becomes of every cell: kept, counted down,
    stalled anew, or destroyed. *)

From Stdlib Require Import ZArith Lia.
From stdpp Require Import base list gmap option numbers sets.
From S2P Require Import Prelude Float32 Offset Hex Lockfree World QuadTree Cell Cluster Turn Map.

Section life.
Context `{Behaviour, !RuntimeLaws}.

(** ** Cleaning the cells up *)

Definition swept (c : Cell) : Cell := set_quadTree (radial_clear (c_quadTree c)) (clearQueues c).
Definition cleaned (elapsed : Z) (c : Cell) : Cell := set_stall (stall_step elapsed (stall c)) (swept c).

Lemma clearQueues_same c :
  c_offset (clearQueues c) = c_offset c ∧ c_entities (clearQueues c) = c_entities c ∧ stall (clearQueues c) = stall c.
Proof. unfold clearQueues. by destruct (c_first c). Qed.

Lemma cleaned_same elapsed c :
  c_offset (cleaned elapsed c) = c_offset c ∧ c_entities (cleaned elapsed c) = c_entities c ∧
  stall (cleaned elapsed c) = stall_step elapsed (stall c).
Proof. destruct (clearQueues_same c) as (? & ? & ?). done. Qed.

Definition clean (elapsed : Z) (l : list positive) (cells : gmap positive Cell) : gmap positive Cell :=
  foldl (λ m p, alter (cleaned elapsed) p m) cells l.

Lemma clean_lookup elapsed l cells q :
  NoDup l → clean elapsed l cells !! q = (if decide (q ∈ l) then cleaned elapsed else id) <$> cells !! q.
Proof.
  intros Hnd. revert cells. induction Hnd as [|p l Hp _ IH]; intros cells; cbn [clean foldl].
  { by rewrite decide_False, option_fmap_id by apply not_elem_of_nil. }
  fold (clean elapsed l (alter (cleaned elapsed) p cells)). rewrite IH. destruct (decide (q = p)) as [->|Hne].
  - rewrite lookup_alter_eq, decide_False, option_fmap_id, decide_True; [done|by left|done].
  - rewrite lookup_alter_ne by done.
    by rewrite (decide_ext (q ∈ p :: l) (q ∈ l)) by (rewrite elem_of_cons; naive_solver).
Qed.

Lemma cleanup_cell_run elapsed p w :
  is_Some (w_cells w !! p) →
  cleanup_cell elapsed p w = (Ok tt, set_cells (alter (cleaned elapsed) p (w_cells w)) w).
Proof.
  intros [c Hc]. apply wp_eq. unfold cleanup_cell, cell_cleanup. apply wp_bind. eapply wp_upd_cell; [exact Hc|].
  eapply wp_upd_cell; [cbn; apply lookup_insert_eq|]. split; [done|]. cbn. unfold set_cells. cbn. f_equal.
  apply map_eq. intros q. destruct (decide (q = p)) as [->|Hne].
  - rewrite lookup_insert_eq, lookup_alter_eq, Hc. cbn. f_equal. unfold cleaned.
    by destruct (clearQueues_same c) as (_ & _ & <-).
  - by rewrite !lookup_insert_ne, lookup_alter_ne.
Qed.

Lemma cleanup_cells_run elapsed l w :
  (∀ p, p ∈ l → is_Some (w_cells w !! p)) →
  for_each (cleanup_cell elapsed) l w = (Ok tt, set_cells (clean elapsed l (w_cells w)) w).
Proof.
  revert w. induction l as [|p l IH]; intros w Hl; cbn [for_each]; [by destruct w|].
  unfold mbind, ST_bind. rewrite cleanup_cell_run by (apply Hl; by left). rewrite IH; [done|].
  intros q Hq. cbn. rewrite lookup_alter_is_Some. apply Hl. by right.
Qed.

(** The cells of the components, in the order in which they are visited. *)
Definition grouped (w : World) : list positive :=
  concat ((λ cid, cells_of cid (k_cellsByCluster (w_cluster w))) <$> seq 0 (k_num_components (w_cluster w))).

Lemma each_cleanup_run elapsed w :
  (∀ p, p ∈ grouped w → is_Some (w_cells w !! p)) →
  each_component (cleanup_cell elapsed) w = (Ok tt, set_cells (clean elapsed (grouped w) (w_cells w)) w).
Proof.
  unfold each_component, grouped, mbind at 1, ST_bind at 1, cluster_state at 1, gets at 1. cbn beta iota.
  set (groups := k_cellsByCluster (w_cluster w)). generalize (seq 0 (k_num_components (w_cluster w))) as cids.
  assert (k_cellsByCluster (w_cluster w) = groups) as Hg by done. revert Hg. generalize groups. clear groups.
  intros groups Hg cids. revert w Hg. induction cids as [|cid cids IH]; intros w Hg Hl; cbn [for_each]; [by destruct w|].
  cbn [fmap list_fmap concat] in *. unfold mbind, ST_bind, cluster_state, gets. rewrite Hg.
  rewrite cleanup_cells_run by (intros p Hp; apply Hl, elem_of_app; by left).
  rewrite IH; [|done|].
  - cbn. unfold clean. rewrite foldl_app. done.
  - intros p Hp. cbn -[clean]. assert (is_Some (w_cells w !! p)) as Hp' by (apply Hl, elem_of_app; by right).
    clear -Hp'. revert Hp'. generalize (w_cells w). induction (cells_of cid groups) as [|q l IH]; intros m Hm; [done|].
    cbn. apply IH. by rewrite lookup_alter_is_Some.
Qed.

Lemma cells_of_clear cids cid m :
  cells_of cid (clear_components cids m) = if decide (cid ∈ cids) then [] else cells_of cid m.
Proof.
  revert m. induction cids as [|c cids IH]; intros m; cbn [clear_components].
  { by rewrite decide_False by apply not_elem_of_nil. }
  rewrite IH, cells_of_insert. destruct (decide (cid = c)) as [->|Hne].
  - rewrite (decide_True (P := c ∈ c :: cids)) by by left. by case_decide.
  - by rewrite (decide_ext (cid ∈ c :: cids) (cid ∈ cids)) by (rewrite elem_of_cons; naive_solver).
Qed.

(** What [cluster_cleanup] leaves. *)
Record cleans (elapsed : Z) (w w' : World) : Prop := {
  cl_inv : inv w';
  cl_cells q : w_cells w' !! q =
    (if decide (q ∈ grouped w) then cleaned elapsed else id) <$> w_cells w !! q;
  cl_current : k_current (w_cluster w') = ∅;
  cl_old : k_old (w_cluster w') = k_current (w_cluster w);
  cl_stall : k_stallCells (w_cluster w') = k_stallCells (w_cluster w);
  cl_keepers : k_keepers (w_cluster w') = k_keepers (w_cluster w);
  cl_queue : k_operations (w_cluster w') = k_operations (w_cluster w);
  cl_groups : (∀ cid, k_num_components (w_cluster w) ≤ cid → cells_of cid (k_cellsByCluster (w_cluster w)) = []) →
    ∀ cid, cells_of cid (k_cellsByCluster (w_cluster w')) = [];
  cl_frame : w' = set_cluster (w_cluster w') (set_cells (w_cells w') w);
}.

(** No graph, and the grouped cells stepped. *)
Lemma cleaned_inv elapsed w w' :
  inv w → w_map w' = w_map w →
  (∀ q, w_cells w' !! q = (if decide (q ∈ grouped w) then cleaned elapsed else id) <$> w_cells w !! q) →
  k_graph (w_cluster w') = rt_no_graph → k_vertices (w_cluster w') = ∅ → k_current (w_cluster w') = ∅ →
  k_stallCells (w_cluster w') = k_stallCells (w_cluster w) → inv w'.
Proof.
  intros Hi Hm Hcells Hg Hv Hc Hs.
  assert (∀ q c, w_cells w !! q = Some c → ∃ c', w_cells w' !! q = Some c' ∧ c_offset c' = c_offset c ∧
            (stall c' = stall c ∨ stall c' = stall_step elapsed (stall c))) as Hfwd.
  { intros q c Hq. rewrite Hcells, Hq. cbn. destruct (cleaned_same elapsed c) as (? & _ & ?).
    eexists. split; [done|]. case_decide; auto. }
  assert (∀ q c', w_cells w' !! q = Some c' → ∃ c, w_cells w !! q = Some c ∧ c_offset c' = c_offset c ∧
            (stall c' = stall c ∨ stall c' = stall_step elapsed (stall c))) as Hbwd.
  { intros q c' Hq. destruct (w_cells w !! q) as [c|] eqn:Hc'; [|by rewrite Hcells, Hc' in Hq].
    destruct (Hfwd q c Hc') as (c2 & Hc2 & ?). exists c. simplify_eq. done. }
  split; rewrite ?Hm, ?Hg, ?Hv, ?Hc, ?Hs; try done.
  - intros o q Hq. destruct (inv_map _ Hi o q Hq) as (c & Hq' & <-). destruct (Hfwd q c Hq') as (c' & ? & ? & _). by exists c'.
  - intros q c' Hq. destruct (Hbwd q c' Hq) as (c & Hq' & -> & _). by apply (inv_cells _ Hi).
  - by rewrite rt_order_empty, map_size_empty.
  - intros u v. rewrite rt_edges_empty. by intros ?%elem_of_nil.
  - intros q c' Hq Hr. destruct (Hbwd q c' Hq) as (c & Hq' & _ & [Heq|Heq]); rewrite Heq in *;
      [by apply (inv_stall _ Hi)|]. unfold stall_step in *. destruct (isRegistered (stall c)) eqn:Hreg; [|congruence].
    destruct (inv_stall _ Hi q c Hq' Hreg). destruct (_ <? _)%Z; [done|discriminate].
  - intros q Hq. destruct (inv_stall_live _ Hi q Hq) as (c & Hq' & Hor).
    destruct (Hfwd q c Hq') as (c' & Hc' & _ & Hst). exists c'. split; [done|]. destruct Hst as [->| ->]; [done|].
    unfold stall_step. destruct (isRegistered (stall c)) eqn:Hreg; [|by rewrite Hreg].
    by destruct (_ <? _)%Z.
Qed.

(** The components hold touched cells, each once. *)
Definition well_grouped (w : World) : Prop :=
  NoDup (grouped w) ∧ ∀ q, q ∈ grouped w → q ∈ k_current (w_cluster w).

Lemma grouped_in w cid q :
  q ∈ cells_of cid (k_cellsByCluster (w_cluster w)) → cid < k_num_components (w_cluster w) → q ∈ grouped w.
Proof.
  intros Hq Hcid. apply list_elem_of_In, in_concat. eexists. split; [|by apply list_elem_of_In].
  apply list_elem_of_In, list_elem_of_fmap. exists cid. split; [done|]. apply elem_of_seq. lia.
Qed.

Lemma cluster_cleanup_cleans elapsed w :
  inv w → well_grouped w → wp (cluster_cleanup elapsed) w (λ _ w', cleans elapsed w w').
Proof.
  intros Hi [Hnd Hin]. pose proof (inv_vertices _ Hi) as Hv. unfold cluster_cleanup. apply wp_bind, wp_cluster_state.
  case_bool_decide as Hempty.
  - rewrite Hempty, dom_empty_L in Hv. apply wp_bind, wp_ret, wp_upd_cluster.
    assert (∀ q, q ∉ grouped w) as Hnone by (intros q Hq%Hin; rewrite <-Hv in Hq; set_solver).
    split; cbn; try done.
    + pose proof (inv_order _ Hi) as Ho. rewrite Hempty, map_size_empty in Ho.
      split; cbn; try apply Hi; try done. by rewrite Hempty.
    + intros q. by rewrite decide_False, option_fmap_id.
    + intros Hfar cid. destruct (decide (k_num_components (w_cluster w) ≤ cid)) as [Hle|Hlt]; [by apply Hfar|].
      destruct (cells_of cid _) as [|p l] eqn:E; [done|exfalso]. apply (Hnone p), (grouped_in w cid); [|lia].
      rewrite E. by left.
  - apply wp_bind, wp_bind. eapply run_wp.
    { apply each_cleanup_run. intros p Hp%Hin. destruct (inv_live _ Hi p Hp) as (c & Hc & _). by exists c. }
    apply wp_upd_cluster, wp_upd_cluster.
    assert (∀ q, clean elapsed (grouped w) (w_cells w) !! q =
      (if decide (q ∈ grouped w) then cleaned elapsed else id) <$> w_cells w !! q) as Hc
      by (intros q; by rewrite clean_lookup).
    split; try done.
    + by apply (cleaned_inv elapsed w).
    + intros Hfar cid. cbn. rewrite cells_of_clear. case_decide as Hcid; [done|]. apply Hfar.
      rewrite elem_of_seq in Hcid. lia.
Qed.

(** ** The end of a tick *)

(** The cells whose two minutes end in this tick, and the DESTROY of one. *)
Definition expires (elapsed : Z) (c : Cell) : bool :=
  isRegistered (stall c) && (remaining (stall c) <=? elapsed)%Z.

Definition destruction (w : World) (p : positive) : option MapOperation :=
  (λ c, mkMapOperation DESTROY (c_offset c) None (Some p)) <$> w_cells w !! p.

(** What becomes of the cell [c] at [q]. *)
Definition fate (elapsed : Z) (w : World) (L : list positive) (w' : World) (q : positive) (c c' : Cell) : Prop :=
  let stalled r := stall c' = mkStall true false r ∧ q ∈ k_current (w_cluster w') ∧ q ∈ k_stallCells (w_cluster w') in
  if decide (q ∈ reach w L) then q ∈ k_current (w_cluster w') ∧ unstalled w' q
  else if isRegistered (stall c) then
    if expires elapsed c then stall c' = mkStall false true (remaining (stall c)) ∧ q ∉ k_stallCells (w_cluster w')
    else stalled (remaining (stall c) - elapsed)%Z
  else if decide (q ∈ k_current (w_cluster w)) then stalled stall_time
  else c' = c.

Section tick.
Context (elapsed : Z) (w w1 w' : World) (L : list positive).
Context (Hi : inv w) (Hn : no_cooldown w) (Hst : ∀ q, q ∈ k_stallCells (w_cluster w) → q ∈ grouped w).
Context (Hsub : ∀ q, q ∈ grouped w → q ∈ k_current (w_cluster w)).
Context (Hrem : ∀ q c, w_cells w !! q = Some c → isRegistered (stall c) = true →
  (0 ≤ elapsed ∧ remaining (stall c) < 2 ^ 64)%Z).
Context (Hc : cleans elapsed w w1) (Ht : turned w1 L w').

Lemma tick_cell q c :
  w_cells w !! q = Some c →
  ∃ c1, w_cells w1 !! q = Some c1 ∧ c_offset c1 = c_offset c ∧ c_entities c1 = c_entities c ∧
    stall c1 = (if decide (q ∈ grouped w) then stall_step elapsed (stall c) else stall c).
Proof.
  intros Hq. rewrite (cl_cells _ _ _ Hc), Hq. cbn. destruct (cleaned_same elapsed c) as (? & ? & ?).
  eexists. split; [done|]. by case_decide.
Qed.

Lemma tick_around o : around w1 o = around w o.
Proof. unfold around. by rewrite (cl_frame _ _ _ Hc). Qed.

Lemma tick_reach1 e : reach1 w1 e = reach1 w e.
Proof.
  unfold reach1. rewrite (cl_frame _ _ _ Hc) at 1. cbn. destruct (w_entities w !! e) as [en|]; [|done]. cbn.
  destruct (e_cell en) as [p|]; [|done]. cbn. destruct (w_cells w !! p) as [c|] eqn:Hp.
  - destruct (tick_cell p c Hp) as (c1 & -> & -> & _). apply tick_around.
  - by rewrite (cl_cells _ _ _ Hc), Hp.
Qed.
Lemma tick_reach : reach w1 L = reach w L.
Proof. unfold reach. f_equal. apply list_fmap_ext. intros i e _. apply tick_reach1. Qed.

(** On cooldown are, after the countdown, those that expire. *)
Lemma tick_hot q c : w_cells w !! q = Some c → hot w1 q = expires elapsed c.
Proof.
  intros Hq. destruct (tick_cell q c Hq) as (c1 & Hc1 & _ & _ & Hs). rewrite (hot_cell _ _ _ Hc1), Hs.
  specialize (Hn q c Hq). unfold expires, stall_step. destruct (isRegistered (stall c)) eqn:Hr.
  - rewrite decide_True by by apply Hst, (inv_stall _ Hi q c). rewrite Z.leb_antisym.
    by destruct (elapsed <? _)%Z.
  - by case_decide.
Qed.

(** A cell after the tick. *)
Definition tidied (q : positive) (c : Cell) : Cell := if decide (q ∈ grouped w) then swept c else c.

Lemma tick_cells q : ∃ st, w_cells w' !! q = (set_stall st ∘ tidied q) <$> w_cells w !! q.
Proof using All.
  destruct (tu_live _ _ _ Ht q) as [st Heq]. exists st. rewrite Heq, (cl_cells _ _ _ Hc).
  destruct (w_cells w !! q) as [c|]; [|done]. cbn. unfold tidied. by case_decide.
Qed.

Lemma tick_fate q c : w_cells w !! q = Some c → ∃ c', w_cells w' !! q = Some c' ∧ fate elapsed w L w' q c c'.
Proof using All.
  intros Hq. destruct (tick_cell q c Hq) as (c1 & Hc1 & _ & _ & Hs1).
  destruct (tu_live _ _ _ Ht q) as [st Hc']. rewrite Hc1 in Hc'. cbn in Hc'.
  set (c' := set_stall st c1) in *. clearbody c'. exists c'. split; [done|]. unfold fate. rewrite <-tick_reach.
  destruct (decide (q ∈ reach w1 L)) as [Hr|Hr]; [by apply (tu_kept _ _ _ Ht)|].
  pose proof (tick_hot q c Hq) as Hhot. pose proof (cl_stall _ _ _ Hc) as Hstc. pose proof (cl_current _ _ _ Hc) as Hcur.
  destruct (isRegistered (stall c)) eqn:Hreg.
  - destruct (inv_stall _ Hi q c Hq Hreg) as [_ Hin].
    rewrite decide_True in Hs1 by by apply Hst. unfold stall_step in Hs1. rewrite Hreg in Hs1.
    destruct (expires elapsed c) eqn:Hex; unfold expires in Hex; rewrite Hreg in Hex; cbn in Hex.
    + destruct (tu_destroyed _ _ _ Ht) as (l & _ & Hl & _ & Hout). destruct (Hout q) as [Hnin Heq].
      { apply Hl. by rewrite Hstc. }
      split; [|done]. rewrite Heq, Hc1 in Hc'. injection Hc' as <-. apply Z.leb_le in Hex.
      rewrite Hs1. by destruct (Z.ltb_spec elapsed (remaining (stall c))); [lia|].
    + destruct (tu_old _ _ _ Ht q) as (? & ? & Heq); [by rewrite Hstc|done|done|].
      rewrite Heq, Hc1 in Hc'. injection Hc' as <-. split_and!; [|done|done]. rewrite Hs1. apply Z.leb_gt in Hex.
      rewrite (proj2 (Z.ltb_lt _ _) Hex), (Hn q c Hq).
      pose proof (Hrem q c Hq Hreg). rewrite wrap_small by lia. done.
  - assert (q ∉ k_stallCells (w_cluster w)) as Hnin.
    { intros Hin. destruct (inv_stall_live _ Hi q Hin) as (c2 & Hc2 & Hor). simplify_eq.
      by rewrite Hreg, (Hn q c Hq) in Hor. }
    destruct (decide (q ∈ k_current (w_cluster w))) as [Hin|Hout].
    + destruct (tu_new _ _ _ Ht q c1) as (? & ? & Heq);
        [done|by rewrite (cl_old _ _ _ Hc)|done|by rewrite Hcur; apply not_elem_of_empty|by rewrite Hstc|].
      rewrite Heq in Hc'. by injection Hc' as <-.
    + rewrite (tu_rest _ _ _ Ht q) in Hc'; [|by rewrite (cl_old _ _ _ Hc)|done].
      rewrite (cl_cells _ _ _ Hc), decide_False, Hq in Hc'; [by injection Hc' as <-|]. intros Hin. by apply Hout, Hsub.
Qed.

Lemma tick_destroys :
  ∃ l, NoDup l ∧ (∀ q, q ∈ l ↔ ∃ c, w_cells w !! q = Some c ∧ expires elapsed c = true) ∧
    lf_contents (w_operations w') = lf_contents (w_operations w) ++ omap (destruction w) l.
Proof using All.
  destruct (tu_destroyed _ _ _ Ht) as (l & Hnd & Hl & Hops & _). exists l. split; [done|].
  assert (∀ q, q ∈ l ↔ ∃ c, w_cells w !! q = Some c ∧ expires elapsed c = true) as Hl'.
  { intros q. rewrite Hl, (cl_stall _ _ _ Hc). split.
    - intros [Hin Hh]. destruct (inv_stall_live _ Hi q Hin) as (c & Hq & _). exists c.
      by rewrite <-(tick_hot q c Hq).
    - intros (c & Hq & Hex). rewrite (tick_hot q c Hq). split; [|done]. unfold expires in Hex.
      apply andb_true_iff in Hex as [Hr _]. by apply (inv_stall _ Hi q c). }
  split; [exact Hl'|]. rewrite Hops, (cl_frame _ _ _ Hc) at 1. cbn. f_equal.
  assert (∀ q, q ∈ l → destroy_op w1 q = destruction w q) as Heq.
  { intros q (c & Hq & Hex)%Hl'. destruct (tick_cell q c Hq) as (c1 & Hc1 & Ho & _).
    pose proof (tick_hot q c Hq) as Hh. rewrite (hot_cell _ _ _ Hc1) in Hh.
    unfold destroy_op, destruction. rewrite Hc1, Hq. cbn. by rewrite Hh, Hex, Ho. }
  clear -Heq. induction l as [|q l IH]; [done|]. cbn. rewrite Heq by by left. rewrite IH; [done|].
  intros p Hp. apply Heq. by right.
Qed.
End tick.

(** What the end of a tick makes of [w], when the keepers are [L]. *)
Record ended (elapsed : Z) (L : list positive) (w w' : World) : Prop := {
  en_inv : inv w';
  en_keepers : k_keepers (w_cluster w') = L;
  en_stall : k_stallCells (w_cluster w') ⊆ k_current (w_cluster w');
  en_groups cid : cells_of cid (k_cellsByCluster (w_cluster w')) = [];
  en_queue : lf_contents (k_operations (w_cluster w')) = [];
  en_fate q c : w_cells w !! q = Some c → ∃ c', w_cells w' !! q = Some c' ∧ fate elapsed w L w' q c c';
  en_cells q : ∃ st, w_cells w' !! q = (set_stall st ∘ tidied w q) <$> w_cells w !! q;
  en_destroys : ∃ l, NoDup l ∧ (∀ q, q ∈ l ↔ ∃ c, w_cells w !! q = Some c ∧ expires elapsed c = true) ∧
    lf_contents (w_operations w') = lf_contents (w_operations w) ++ omap (destruction w) l;
  en_map : w_map w' = w_map w;
  en_entities : w_entities w' = w_entities w;
  en_clients : w_clients w' = w_clients w;
  en_server : w_server_ops w' = w_server_ops w;
}.

Lemma tidied_same w q c : c_offset (tidied w q c) = c_offset c ∧ c_entities (tidied w q c) = c_entities c.
Proof. unfold tidied. destruct (clearQueues_same c) as (? & ? & _). by case_decide. Qed.

(** What a tick finds at its end. *)
Record endable (elapsed : Z) (L : list positive) (w : World) : Prop := {
  eb_inv : inv w;
  eb_cool : no_cooldown w;
  eb_grid p c : w_cells w !! p = Some c → in_grid (c_offset c);
  eb_grouped : well_grouped w;
  eb_stall q : q ∈ k_stallCells (w_cluster w) → q ∈ grouped w;
  eb_remaining q c : w_cells w !! q = Some c → isRegistered (stall c) = true →
    (0 ≤ elapsed ∧ remaining (stall c) < 2 ^ 64)%Z;
  eb_far cid : k_num_components (w_cluster w) ≤ cid → cells_of cid (k_cellsByCluster (w_cluster w)) = [];
  eb_keepers : apply_ops (lf_contents (k_operations (w_cluster w))) (k_keepers (w_cluster w)) = Some L;
  eb_placed e : e ∈ L → placed w e;
  eb_kept q c : q ∈ reach w L → w_cells w !! q = Some c → expires elapsed c = false;
}.

Lemma map_cleanup_ended elapsed L w :
  endable elapsed L w → wp (map_cleanup elapsed) w (λ _ w', ended elapsed L w w').
Proof.
  intros [Hi Hn Hgrid Hgr Hst Hrem Hfar Hops HL Hkeep]. pose proof Hgr as [_ Hsub].
  unfold map_cleanup. apply wp_bind. eapply wp_mono; [by apply cluster_cleanup_cleans|]. intros [] w1 Hc. cbn beta in Hc.
  assert (∀ q c1, w_cells w1 !! q = Some c1 → ∃ c, w_cells w !! q = Some c ∧ c_offset c1 = c_offset c) as Hback.
  { intros q c1 Hq. rewrite (cl_cells _ _ _ Hc) in Hq. destruct (w_cells w !! q) as [c|]; [|done]. exists c.
    split; [done|]. cbn in Hq. destruct (cleaned_same elapsed c) as (? & _). case_decide; by simplify_eq. }
  eapply wp_mono; [apply (cluster_turn w1 L)|].
  - apply Hc.
  - intros p c1 Hp. destruct (Hback p c1 Hp) as (c & Hp' & ->). by eapply Hgrid.
  - by rewrite (cl_queue _ _ _ Hc), (cl_keepers _ _ _ Hc).
  - intros e He. destruct (HL e He) as (en & p & c & He' & Hp & Hcp & Hg).
    destruct (tick_cell elapsed w w1 Hc p c Hcp) as (c1 & Hc1 & Ho & _).
    exists en, p, c1. rewrite Ho. split_and!; [|done..]. by rewrite (cl_frame _ _ _ Hc).
  - intros q. rewrite (tick_reach elapsed w w1 L Hc). intros Hq. destruct (w_cells w !! q) as [c|] eqn:Hcq.
    + rewrite (tick_hot elapsed w w1 Hi Hn Hst Hc q c Hcq). by eapply Hkeep.
    + unfold hot. by rewrite (cl_cells _ _ _ Hc), Hcq.
  - rewrite (cl_old _ _ _ Hc). intros q Hq. destruct (inv_live _ Hi q Hq) as (c & Hcq & _).
    destruct (tick_cell elapsed w w1 Hc q c Hcq) as (c1 & Hc1 & _). apply elem_of_dom. by exists c1.
  - intros [] w' Ht. cbn beta in Ht. split; try apply Ht.
    + intros cid. rewrite (tu_groups _ _ _ Ht). by apply (cl_groups _ _ _ Hc).
    + intros q c. by eapply tick_fate.
    + intros q. by eapply tick_cells.
    + by eapply tick_destroys.
    + by rewrite (tu_map _ _ _ Ht), (cl_frame _ _ _ Hc).
    + by rewrite (tu_entities _ _ _ Ht), (cl_frame _ _ _ Hc).
    + by rewrite (tu_clients _ _ _ Ht), (cl_frame _ _ _ Hc).
    + by rewrite (tu_server _ _ _ Ht), (cl_frame _ _ _ Hc).
Qed.

(** C6. The end of a tick decides the life of every cell. A cell that a keeper
    reaches (the keepers are what the queued KEEP and UNKEEP make of them, [L])
    is touched and has no stall condition. Of the others, a stalled cell counts
    the tick's time down and is touched until its two minutes end: then, and
    only then, it is put on cooldown and scheduled for destruction, once; a cell
    that was touched in the last tick starts to stall, for two minutes; the rest
    stay as they are. No cell loses its place or its entities, and the cluster
    is left as the next tick needs it. The hypotheses are what a tick finds: the
    cells on the grid, the stalled ones in components, no cell on cooldown, and
    none that a keeper reaches at the end of its time. *)
Theorem map_cleanup_spec (elapsed : Z) (w : World) (L : list positive) (Hw : endable elapsed L w) :
  wp (map_cleanup elapsed) w (λ _ w', inv w' ∧ k_keepers (w_cluster w') = L ∧
    k_stallCells (w_cluster w') ⊆ k_current (w_cluster w') ∧
    (∀ cid, cells_of cid (k_cellsByCluster (w_cluster w')) = []) ∧
    (∀ q c, w_cells w !! q = Some c → ∃ c', w_cells w' !! q = Some c' ∧
       c_offset c' = c_offset c ∧ c_entities c' = c_entities c ∧ fate elapsed w L w' q c c') ∧
    ∃ l, NoDup l ∧ (∀ q, q ∈ l ↔ ∃ c, w_cells w !! q = Some c ∧ expires elapsed c = true) ∧
      lf_contents (w_operations w') = lf_contents (w_operations w) ++ omap (destruction w) l).
Proof.
  eapply wp_mono; [by apply map_cleanup_ended|]. intros [] w' He. cbn beta in He. split_and!; try apply He.
  intros q c Hq. destruct (en_fate _ _ _ _ He q c Hq) as (c' & Hc' & Hf). exists c'.
  destruct (en_cells _ _ _ _ He q) as [st Hst]. rewrite Hc', Hq in Hst. injection Hst as Hst.
  destruct (tidied_same w q c) as [Ho HE]. split_and!; [done|by rewrite Hst..|done].
Qed.
End life.
