(* ===== verification/Places.v ===== *)
(** * Where entities are

    The operations of the map, seen as moves of an abstract machine whose state
    is a map from the entities to the places they are at: an entity is added
    where it is nowhere, removed from where it is, and only empty cells are
    destroyed. As long as the operations that wait are moves of that machine,
    the pointers between entities and cells, the clients, the keepers of the
    cluster and the quadtrees stay consistent ([consistent], [keeping]). *)

From Stdlib Require Import ZArith Lia.
From stdpp Require Import base list gmap option numbers sets.
From S2P Require Import Prelude Float32 Offset Hex Lockfree Physics QuadTree World Cell Cluster Turn Map Grow Operate Life.

(** Where every entity is. *)
Abbreviation places := (gmap positive Offset).

Section places.
Context `{Behaviour, !RuntimeLaws}.
Local Notation M := (ST World).

(** ** The abstract machine *)

(** One operation; there is no move where the program goes wrong. *)
Definition relocate (op : MapOperation) (A : places) : option places :=
  match mo_type op, mo_entity op with
  | ADD_ENTITY, Some e =>
      match A !! e with None => Some (<[e := mo_offset op]> A) | Some _ => None end
  | REMOVE_ENTITY, Some e => if decide (A !! e = Some (mo_offset op)) then Some (delete e A) else None
  | DESTROY, _ => if decide (map_Forall (λ _ o, o ≠ mo_offset op) A) then Some A else None
  | _, None => None
  end.

Fixpoint relocates (ops : list MapOperation) (A : places) : option places :=
  match ops with
  | [] => Some A
  | op :: ops => A ← relocate op A; relocates ops A
  end.

(** The place of the cell an entity points to. *)
Definition home (w : World) (e : positive) : option Offset :=
  en ← w_entities w !! e; p ← e_cell en; c_offset <$> w_cells w !! p.

(** The entities of [w] are where [A] says, and nowhere else. *)
Record tracks (A : places) (w : World) : Prop := {
  tr_home e : home w e = A !! e;
  tr_pointer e en p : w_entities w !! e = Some en → e_cell en = Some p → is_Some (w_cells w !! p);
  tr_at o i e : entities_at w o !! i = Some e ↔
    A !! e = Some o ∧ ∃ en, w_entities w !! e = Some en ∧ e_id en = i;
  tr_ids e e' en en' : w_entities w !! e = Some en → w_entities w !! e' = Some en' →
    e_id en = e_id en' → e = e';
}.

Lemma home_some w e o : home w e = Some o ↔
  ∃ en p c, w_entities w !! e = Some en ∧ e_cell en = Some p ∧ w_cells w !! p = Some c ∧ c_offset c = o.
Proof.
  unfold home. rewrite bind_Some. split.
  - intros (en & He & (p & Hp & (c & Hc & ->)%fmap_Some_1)%bind_Some). by exists en, p, c.
  - intros (en & p & c & He & Hp & Hc & <-). exists en. split; [done|]. rewrite bind_Some. exists p. split; [done|]. by rewrite Hc.
Qed.

Lemma home_cell w e en p c :
  w_entities w !! e = Some en → e_cell en = Some p → w_cells w !! p = Some c → home w e = Some (c_offset c).
Proof. intros. apply home_some. by exists en, p, c. Qed.

Lemma home_nowhere w e en : w_entities w !! e = Some en → e_cell en = None → home w e = None.
Proof. unfold home. intros -> Hp. cbn. by rewrite Hp. Qed.

(** An entity that is nowhere points to no cell. *)
Lemma tracks_nowhere A w e en : tracks A w → A !! e = None → w_entities w !! e = Some en → e_cell en = None.
Proof.
  intros Ht HA He. destruct (e_cell en) as [p|] eqn:Hp; [|done].
  destruct (tr_pointer _ _ Ht e en p He Hp) as [c Hc].
  rewrite <-(tr_home _ _ Ht), (home_cell _ _ _ _ _ He Hp Hc) in HA. done.
Qed.

(** The homes of the entities that an operation does not concern. *)
Lemma operated_home A D w w' e en :
  tracks A w → operated D w w' → w_entities w !! e = Some en → w_entities w' !! e = Some en →
  (∀ p, e_cell en = Some p → p ∉ D) →
  home w' e = home w e ∧ ∀ p, e_cell en = Some p → is_Some (w_cells w' !! p).
Proof.
  intros Ht Hop He He' HD. destruct (e_cell en) as [p|] eqn:Hp.
  - destruct (tr_pointer _ _ Ht e en p He Hp) as [c Hc].
    destruct (op_spared _ _ _ Hop p c Hc (HD p eq_refl)) as (c' & Hc' & Ho).
    rewrite (home_cell w e en p c), (home_cell w' e en p c'), Ho by done. split; [done|]. intros ? [= <-]. by exists c'.
  - by rewrite (home_nowhere w e en), (home_nowhere w' e en).
Qed.

Lemma operated_has_id D w w' e i : operated D w w' →
  (∃ en, w_entities w' !! e = Some en ∧ e_id en = i) ↔ (∃ en, w_entities w !! e = Some en ∧ e_id en = i).
Proof.
  intros Hop. pose proof (op_stripped _ _ _ Hop e) as Hs. unfold stripped in Hs.
  destruct (w_entities w' !! e) as [en'|], (w_entities w !! e) as [en|]; try done; cbn in Hs.
  injection Hs as Hid _ _ _ _. split; intros (? & [= <-] & <-); by eexists.
Qed.

Lemma operated_ids A D w w' : tracks A w → operated D w w' →
  ∀ e e' en en', w_entities w' !! e = Some en → w_entities w' !! e' = Some en' → e_id en = e_id en' → e = e'.
Proof.
  intros Ht Hop e e' en en' He He' Hid.
  destruct (proj1 (operated_has_id D w w' e (e_id en) Hop) (ex_intro _ en (conj He eq_refl))) as (x & Hx & Hxi).
  destruct (proj1 (operated_has_id D w w' e' (e_id en') Hop) (ex_intro _ en' (conj He' eq_refl))) as (y & Hy & Hyi).
  apply (tr_ids _ _ Ht e e' x y); congruence.
Qed.

(** Two entities in the same place with the same id are the same. *)
Lemma tracks_at_id A w o e en : tracks A w → w_entities w !! e = Some en →
  ∀ e', entities_at w o !! e_id en = Some e' → e' = e.
Proof.
  intros Ht He e' (_ & en' & He' & Hid)%(tr_at _ _ Ht). by apply (tr_ids _ _ Ht e' e en' en).
Qed.

Lemma tracks_add A w w' o e en cell :
  tracks A w → A !! e = None → w_entities w !! e = Some en → operated ∅ w w' → elsewhere o w w' →
  entities_at w' o = entities_add en e (entities_at w o) → w_map w' !! o = Some cell →
  w_entities w' = <[e := set_cell (Some cell) en]> (w_entities w) → tracks (<[e := o]> A) w'.
Proof.
  intros Ht HA He Hop Hel HE Hm Hents.
  destruct (inv_map _ (op_inv _ _ _ Hop) o cell Hm) as (c & Hc & Hco).
  assert (entities_at w o !! e_id en = None) as Hfree.
  { destruct (entities_at w o !! e_id en) as [e'|] eqn:Hat; [|done].
    rewrite (tracks_at_id A w o e en Ht He e' Hat) in Hat. apply (tr_at _ _ Ht) in Hat as [? _]. congruence. }
  unfold entities_add in HE. rewrite Hfree in HE.
  assert (∀ e', e' ≠ e → w_entities w' !! e' = w_entities w !! e') as Hne by (intros; by rewrite Hents, lookup_insert_ne).
  assert (w_entities w' !! e = Some (set_cell (Some cell) en)) as He' by by rewrite Hents, lookup_insert_eq.
  split; [| | |exact (operated_ids A ∅ w w' Ht Hop)].
  - intros e'. destruct (decide (e' = e)) as [->|Hx].
    + rewrite lookup_insert_eq, <-Hco. by eapply home_cell.
    + rewrite lookup_insert_ne, <-(tr_home _ _ Ht) by done. destruct (w_entities w !! e') as [en'|] eqn:Hen'.
      * eapply (operated_home A ∅ w w' e' en'); [done|done|done|by rewrite Hne|set_solver].
      * unfold home. by rewrite Hne, Hen'.
  - intros e' en' p Hen' Hp. destruct (decide (e' = e)) as [->|Hx].
    + rewrite He' in Hen'. injection Hen' as <-. injection Hp as <-. by exists c.
    + pose proof Hen' as Hen. rewrite Hne in Hen by done.
      by eapply (operated_home A ∅ w w' e' en'); [done|done|done|done|set_solver|].
  - intros o' i e'. rewrite (operated_has_id ∅ w w' e' i Hop). destruct (decide (o' = o)) as [->|Ho].
    + rewrite HE. destruct (decide (e' = e)) as [->|Hx].
      * rewrite lookup_insert_eq. split.
        -- intros Hl. split; [done|]. exists en. split; [done|]. destruct (decide (i = e_id en)) as [->|Hi]; [done|].
           rewrite lookup_insert_ne in Hl by done. apply (tr_at _ _ Ht) in Hl as [? _]. congruence.
        -- intros (_ & en' & Hen' & <-). simplify_eq. by rewrite lookup_insert_eq.
      * rewrite (lookup_insert_ne A) by done. destruct (decide (i = e_id en)) as [->|Hi].
        -- rewrite lookup_insert_eq. split; [intros; congruence|].
           intros (_ & en' & Hen' & Hid). exfalso. by apply Hx, (tr_ids _ _ Ht e' e en' en).
        -- rewrite lookup_insert_ne by done. apply (tr_at _ _ Ht).
    + rewrite Hel by done. rewrite (tr_at _ _ Ht). destruct (decide (e' = e)) as [->|Hx].
      * rewrite lookup_insert_eq, HA. split; [by intros [? _]|]. intros [? _]. congruence.
      * by rewrite lookup_insert_ne.
Qed.

Lemma tracks_remove A w w' o e en :
  tracks A w → A !! e = Some o → w_entities w !! e = Some en → operated ∅ w w' → elsewhere o w w' →
  entities_at w' o = delete (e_id en) (entities_at w o) →
  w_entities w' = <[e := set_cell None en]> (w_entities w) → tracks (delete e A) w'.
Proof.
  intros Ht HA He Hop Hel HE Hents.
  assert (∀ e', e' ≠ e → w_entities w' !! e' = w_entities w !! e') as Hne by (intros; by rewrite Hents, lookup_insert_ne).
  assert (w_entities w' !! e = Some (set_cell None en)) as He' by by rewrite Hents, lookup_insert_eq.
  split; [| | |exact (operated_ids A ∅ w w' Ht Hop)].
  - intros e'. destruct (decide (e' = e)) as [->|Hx].
    + rewrite lookup_delete_eq. by eapply home_nowhere.
    + rewrite lookup_delete_ne, <-(tr_home _ _ Ht) by done. destruct (w_entities w !! e') as [en'|] eqn:Hen'.
      * eapply (operated_home A ∅ w w' e' en'); [done|done|done|by rewrite Hne|set_solver].
      * unfold home. by rewrite Hne, Hen'.
  - intros e' en' p Hen' Hp. destruct (decide (e' = e)) as [->|Hx].
    + rewrite He' in Hen'. injection Hen' as <-. done.
    + pose proof Hen' as Hen. rewrite Hne in Hen by done.
      by eapply (operated_home A ∅ w w' e' en'); [done|done|done|done|set_solver|].
  - intros o' i e'. rewrite (operated_has_id ∅ w w' e' i Hop).
    assert (entities_at w' o' !! i = Some e' ↔ entities_at w o' !! i = Some e' ∧ (o' = o → i ≠ e_id en)) as ->.
    { destruct (decide (o' = o)) as [->|Ho].
      - rewrite HE, lookup_delete_Some. naive_solver.
      - rewrite Hel by done. naive_solver. }
    rewrite (tr_at _ _ Ht), lookup_delete_Some. split.
    + intros [(HA' & en' & Hen' & Hid) Hno]. split; [|eauto]. split; [|done]. intros <-. simplify_eq. by apply Hno.
    + intros [[Hx HA'] (en' & Hen' & Hid)]. split; [eauto|]. intros _ ->. apply Hx.
      by apply (tr_ids _ _ Ht e e' en en').
Qed.

Lemma tracks_destroy A w p c :
  tracks A w → inv w → sealed w → w_cells w !! p = Some c → hot w p = true →
  map_Forall (λ _ o, o ≠ c_offset c) A → tracks A (without_cell (c_offset c) p w).
Proof.
  intros Ht Hi Hs Hc Hh HA. pose proof (without_cell_operated w p c Hi Hs Hc Hh) as Hop.
  assert (∀ e en q, w_entities w !! e = Some en → e_cell en = Some q → q ∉ ({[p]} : gset positive)) as Hnot.
  { intros e en q He Hq ->%elem_of_singleton. apply (HA e (c_offset c)); [|done].
    rewrite <-(tr_home _ _ Ht). by eapply home_cell. }
  split; [| | |exact (operated_ids A _ w _ Ht Hop)].
  - intros e. rewrite <-(tr_home _ _ Ht). destruct (w_entities w !! e) as [en|] eqn:He.
    + eapply (operated_home A {[p]} w _ e en); [done|done|done|done|by eauto].
    + unfold home. cbn. by rewrite He.
  - intros e en q He Hq. by eapply (operated_home A {[p]} w _ e en); [done|done|done|done|eauto|].
  - intros o i e. rewrite without_cell_entities by done. cbn. case_decide as Ho; [|apply (tr_at _ _ Ht)].
    rewrite lookup_empty. split; [done|]. intros [HAe _]. by specialize (HA e o HAe).
Qed.

(** What an operation schedules in the cluster. *)
Definition cluster_ops (w : World) (op : MapOperation) (ops : list ClusterOperation) : list ClusterOperation :=
  match mo_type op, mo_entity op ≫= (λ e, pair e <$> w_entities w !! e) with
  | ADD_ENTITY, Some (e, en) => schedules KEEP en e ops
  | REMOVE_ENTITY, Some (e, en) => schedules UNKEEP en e ops
  | _, _ => ops
  end.

(** The operation adds an updater. *)
Definition brings_updater (w : World) (op : MapOperation) : Prop :=
  ∃ e en, mo_type op = ADD_ENTITY ∧ mo_entity op = Some e ∧ w_entities w !! e = Some en ∧ e_isUpdater en = true.

Lemma run_operation_tracks A A' w op :
  inv w → sealed w → valid_op w op → tracks A w → relocate op A = Some A' →
  wp (run_operation op) w (λ _ w', operated (option_set (destroys op)) w w' ∧ tracks A' w' ∧
    lf_contents (k_operations (w_cluster w')) = cluster_ops w op (lf_contents (k_operations (w_cluster w))) ∧
    (brings_updater w op → ∀ o, o = mo_offset op ∨ adjacent (mo_offset op) o → is_Some (w_map w' !! o))).
Proof.
  intros Hi Hs Hv Ht HA. unfold run_operation, valid_op, destroys, relocate, cluster_ops in *.
  destruct (mo_type op) eqn:Hty.
  - destruct Hv as (Hint & Hcl & (e & en & He & Hen) & _ & Hnb). rewrite He in *. cbn. rewrite Hen. cbn.
    destruct (A !! e) as [|] eqn:HAe; [done|]. injection HA as <-.
    apply wp_bind, wp_not_null. eapply wp_mono; [by apply (run_add_ok w (mo_offset op) e en (mo_param op))|].
    intros [] w' (Hop & Hel & HE & _ & (cell & Hm & Hents) & Hk & Hsib). split_and!; [done| |done|].
    + by apply (tracks_add A w w' (mo_offset op) e en cell).
    + intros (e' & en' & _ & He' & Hen' & Hu) o [->|Ho]; [by exists cell|]. apply Hsib; [congruence|done].
  - destruct Hv as (Hint & Hcl & (e & en & He & Hen) & _ & Hnb). rewrite He in *. cbn. rewrite Hen. cbn.
    case_decide as HAe; [|done]. injection HA as <-.
    pose proof HAe as Hhome. rewrite <-(tr_home _ _ Ht) in Hhome.
    apply home_some in Hhome as (en' & p & c & Hen' & Hp & Hc & Hco).
    assert (w_map w !! mo_offset op = Some p) as Hm by (rewrite <-Hco; by apply Hi).
    apply wp_bind, wp_Map_get. rewrite Hm.
    apply wp_bind, wp_not_null. eapply wp_mono; [by apply (run_remove_ok w (mo_offset op) e en (mo_param op))|].
    rewrite Hm. intros [] w' (Hop & Hel & HE & _ & _ & Hents & Hk).
    split_and!; [done|by apply (tracks_remove A w w' (mo_offset op) e en)|done|].
    intros (e' & en2 & Ht' & _). congruence.
  - destruct Hv as (p & c & -> & Hc & Hco & Hcd). case_decide as HA'; [|done]. injection HA as <-.
    rewrite <-Hco in *. eapply run_wp; [by apply run_destroy_ok|].
    rewrite <-(hot_cell _ _ _ Hc) in Hcd.
    assert (option_set (Some p) = {[p]}) as -> by (unfold option_set; set_solver).
    split_and!; [by apply without_cell_operated|by apply tracks_destroy|by repeat case_match|].
    intros (e' & en2 & Ht' & _). congruence.
Qed.

(** ** Worlds that look the same *)

Definition roster (c : Cell) : Offset * gmap Z positive := (c_offset c, c_entities c).
Definition whereabouts (en : Entity) : Z * option positive := (e_id en, e_cell en).

Lemma tracks_roster A w w' :
  tracks A w → w_map w' = w_map w →
  (∀ p, roster <$> w_cells w' !! p = roster <$> w_cells w !! p) →
  (∀ e, whereabouts <$> w_entities w' !! e = whereabouts <$> w_entities w !! e) → tracks A w'.
Proof.
  intros Ht Hm Hc He.
  assert (∀ e en', w_entities w' !! e = Some en' → ∃ en, w_entities w !! e = Some en ∧ e_id en = e_id en' ∧ e_cell en = e_cell en') as Hbwd.
  { intros e en' Hen. destruct (fmap_same _ _ _ (eq_sym (He e)) en' Hen) as (en & ? & [= ? ?]). eauto. }
  assert (∀ p, c_offset <$> w_cells w' !! p = c_offset <$> w_cells w !! p) as Ho.
  { intros p. specialize (Hc p). destruct (w_cells w' !! p), (w_cells w !! p); try done. injection Hc as Ho _. cbn. congruence. }
  assert (∀ o, entities_at w' o = entities_at w o) as Hat.
  { intros o. unfold entities_at, cell_at. rewrite Hm. destruct (w_map w !! o) as [p|]; [|done]. cbn.
    specialize (Hc p). destruct (w_cells w' !! p), (w_cells w !! p); try done. by injection Hc as _ ->. }
  assert (∀ e i, (∃ en, w_entities w' !! e = Some en ∧ e_id en = i) ↔ (∃ en, w_entities w !! e = Some en ∧ e_id en = i)) as Hid.
  { intros e i. specialize (He e). destruct (w_entities w' !! e), (w_entities w !! e); try done. injection He as He _.
    split; intros (? & [= <-] & <-); eauto. }
  split.
  - intros e. rewrite <-(tr_home _ _ Ht). unfold home. specialize (He e).
    destruct (w_entities w' !! e) as [en'|], (w_entities w !! e) as [en|]; try done. injection He as _ He. cbn. rewrite He.
    destruct (e_cell en) as [p|]; [|done]. cbn. apply Ho.
  - intros e en' p Hen' Hp. destruct (Hbwd e en' Hen') as (en & Hen & _ & Hcell).
    destruct (tr_pointer _ _ Ht e en p Hen) as [c Hcp]; [congruence|].
    destruct (fmap_same _ _ _ (Hc p) c Hcp) as (c' & ? & _). by exists c'.
  - intros o i e. by rewrite Hat, Hid, (tr_at _ _ Ht).
  - intros e e' en en' Hen Hen' Heq. destruct (Hbwd e en Hen) as (x & Hx & Hxi & _), (Hbwd e' en' Hen') as (y & Hy & Hyi & _).
    apply (tr_ids _ _ Ht e e' x y); congruence.
Qed.

(** ** Keepers *)

(** The keepers, once the cluster has executed what it has queued, are the
    updaters that are somewhere. *)
Record keeping (A : places) (L : list positive) (w : World) : Prop := {
  ke_ops : apply_ops (lf_contents (k_operations (w_cluster w))) (k_keepers (w_cluster w)) = Some L;
  ke_nodup : NoDup L;
  ke_in e : e ∈ L ↔ is_Some (A !! e) ∧ ∃ en, w_entities w !! e = Some en ∧ e_isUpdater en = true;
}.

Lemma apply_ops_app ops ops' l : apply_ops (ops ++ ops') l = (l ← apply_ops ops l; apply_ops ops' l).
Proof.
  revert l. induction ops as [|op ops IH]; intros l; [done|]. cbn. destruct (co_type op); [apply IH|].
  destruct (erase_first _ l) as [l'|]; cbn; [apply IH|done].
Qed.

Lemma erase_first_nodup e l : NoDup l → e ∈ l → ∃ l', erase_first e l = Some l' ∧ l ≡ₚ e :: l'.
Proof.
  intros Hnd He. induction Hnd as [|x l Hx _ IH]; [by apply elem_of_nil in He|]. cbn.
  destruct (decide (e = x)) as [<-|Hne]; [by exists l|].
  apply elem_of_cons in He as [?|He]; [done|]. destruct (IH He) as (l' & -> & Hl'). exists (x :: l').
  split; [done|]. rewrite Hl'. constructor.
Qed.

Lemma stripped_updater w w' e : (∀ e, stripped w' e = stripped w e) →
  (∃ en, w_entities w' !! e = Some en ∧ e_isUpdater en = true) ↔
  (∃ en, w_entities w !! e = Some en ∧ e_isUpdater en = true).
Proof.
  intros Hs. specialize (Hs e). unfold stripped in Hs.
  destruct (w_entities w' !! e) as [en'|], (w_entities w !! e) as [en|]; try done; cbn in Hs.
  injection Hs as _ _ Hu _ _. split; intros (? & [= <-] & ?); eexists; (split; [done|]); congruence.
Qed.

Lemma keeping_step A A' L w w' op :
  keeping A L w → valid_op w op → relocate op A = Some A' →
  length (lf_contents (k_operations (w_cluster w))) < 4096 →
  k_keepers (w_cluster w') = k_keepers (w_cluster w) → (∀ e, stripped w' e = stripped w e) →
  lf_contents (k_operations (w_cluster w')) = cluster_ops w op (lf_contents (k_operations (w_cluster w))) →
  ∃ L', keeping A' L' w'.
Proof.
  intros [Hops Hnd Hin] Hv HA Hroom Hk Hs Hq. pose proof (λ e, stripped_updater w w' e Hs) as Hup.
  assert (A' = A → cluster_ops w op (lf_contents (k_operations (w_cluster w))) =
    lf_contents (k_operations (w_cluster w)) → keeping A' L w') as Hsame.
  { intros -> Heq. split; [by rewrite Hq, Heq, Hk|done|]. intros e. by rewrite Hin, Hup. }
  unfold relocate, cluster_ops, valid_op in *. destruct (mo_type op).
  - destruct Hv as (_ & _ & (e & en & He & Hen) & _). rewrite He in *. cbn in *. rewrite Hen in *. cbn in *.
    destruct (A !! e) eqn:HAe; [done|]. injection HA as <-. unfold schedules in *.
    rewrite (bool_decide_true _ Hroom), andb_true_r in Hq. destruct (e_isUpdater en) eqn:Hu.
    + exists (L ++ [e]). split.
      * rewrite Hq, Hk, apply_ops_app, Hops. done.
      * apply NoDup_app. split; [done|]. split; [|apply NoDup_singleton].
        intros x Hx ->%list_elem_of_singleton. apply Hin in Hx as [[? ?] _]. congruence.
      * intros x. rewrite elem_of_app, list_elem_of_singleton, Hin, Hup. destruct (decide (x = e)) as [->|Hne].
        -- rewrite lookup_insert_eq. split; [intros _; split; [by eexists|by exists en]|by right].
        -- rewrite lookup_insert_ne by done. clear -Hne. tauto.
    + exists L. split; [by rewrite Hq, Hk|done|]. intros x. rewrite Hin, Hup. destruct (decide (x = e)) as [->|Hne].
      * split; [intros [[? ?] _]; congruence|]. intros (_ & en' & Hen' & Hu'). congruence.
      * by rewrite lookup_insert_ne.
  - destruct Hv as (_ & _ & (e & en & He & Hen) & _). rewrite He in *. cbn in *. rewrite Hen in *. cbn in *.
    case_decide as HAe; [|done]. injection HA as <-. unfold schedules in *.
    rewrite (bool_decide_true _ Hroom), andb_true_r in Hq. destruct (e_isUpdater en) eqn:Hu.
    + assert (e ∈ L) as HeL by (apply Hin; split; [by eexists|by exists en]).
      destruct (erase_first_nodup e L Hnd HeL) as (L' & HL' & Hperm). exists L'.
      rewrite Hperm in Hnd. apply NoDup_cons in Hnd as [HeL' Hnd']. split; [|done|].
      * rewrite Hq, Hk, apply_ops_app, Hops. cbn. by rewrite HL'.
      * intros x. rewrite Hup. transitivity (x ∈ L ∧ x ≠ e).
        { rewrite Hperm, elem_of_cons. split; [|tauto]. intros Hx. split; [by right|]. by intros ->. }
        rewrite Hin, lookup_delete_is_Some. clear. naive_solver.
    + exists L. split; [by rewrite Hq, Hk|done|]. intros x. rewrite Hin, Hup, lookup_delete_is_Some. split.
      * intros [HAx Hx]. split; [|done]. split; [|done]. intros <-. destruct Hx as (en' & ? & ?). congruence.
      * naive_solver.
  - case_decide; [|done]. injection HA as <-. exists L. apply Hsame; [done|]. by repeat case_match.
Qed.

(** ** Consistent worlds *)

(** The entity can be inserted into quadtrees, and tested for collisions. *)
Definition sound (w : World) (e : positive) : Prop :=
  ∃ en b, w_entities w !! e = Some en ∧ e_boundingBox en = Some b ∧ solid b.

(** Clients and the entities they have know each other. *)
Record bonded (w : World) : Prop := {
  bo_entity e en cl : w_entities w !! e = Some en → e_client en = Some cl →
    ∃ c, w_clients w !! cl = Some c ∧ cl_entity c = e;
  bo_client cl c : w_clients w !! cl = Some c →
    ∃ en, w_entities w !! cl_entity c = Some en ∧ e_client en = Some cl;
}.

(** No null packet waits to be broadcast. *)
Definition packed (c : Cell) : Prop := announced → ∀ x, x ∈ c_queue1 c ++ c_queue2 c → is_Some x.

(** The world, but for what the cells hold to work on in a turn: the
    operations keep entities and cells, clients and entities consistent; cells
    are on the grid, and touched unless they wait for their destruction; the
    entities that are somewhere have boxes. *)
Record consistent (A : places) (w : World) : Prop := {
  co_inv : inv w;
  co_tracks : tracks A w;
  co_bonded : bonded w;
  co_grid p c : w_cells w !! p = Some c → in_grid (c_offset c);
  co_touched p : is_Some (w_cells w !! p) → hot w p = false → p ∈ k_current (w_cluster w);
  co_queues p c : w_cells w !! p = Some c → packed c;
  co_tree p c : w_cells w !! p = Some c → wf MaxQuadtreeDepth (λ _ _ _, True) 0 (rq_tree (c_quadTree c));
  co_sound e : is_Some (A !! e) → sound w e;
  co_remaining p c : w_cells w !! p = Some c → isRegistered (stall c) = true → (remaining (stall c) < 2 ^ 64)%Z;
}.

(** What a cell has to work on: requests of entities with clients, and a
    quadtree of sound entities. *)
Definition fit (w : World) (c : Cell) : Prop :=
  (∀ r, r ∈ c_requests c → has_client (w_entities w) (rq_who r)) ∧
  ∀ e, e ∈ contents (rq_tree (c_quadTree c)) → sound w e.

Record sane (A : places) (w : World) : Prop := {
  sa_consistent :> consistent A w;
  sa_fit p c : w_cells w !! p = Some c → fit w c;
}.

Lemma sane_polite A w p c : sane A w → w_cells w !! p = Some c → polite (w_entities w) c.
Proof. intros Hsa Hc. split; [by eapply sa_fit|by eapply (co_queues _ _ Hsa)]. Qed.

Lemma stripped_sound w w' e : (∀ e, stripped w' e = stripped w e) → sound w e → sound w' e.
Proof.
  intros Hs (en & b & He & Hb & Hsol). destruct (stripped_some w w' e en (Hs e) He) as (en' & He' & Heq).
  exists en', b. split_and!; [done| |done]. injection Heq as _ _ _ _ ->. done.
Qed.

Lemma stripped_bonded w w' : (∀ e, stripped w' e = stripped w e) → w_clients w' = w_clients w → bonded w → bonded w'.
Proof.
  intros Hs Hc [He Hcl]. split.
  - intros e en cl Hen Hecl. destruct (stripped_some w' w e en (eq_sym (Hs e)) Hen) as (en' & Hen' & Heq).
    injection Heq as _ Heq _ _ _. rewrite Hc. apply (He e en'); congruence.
  - intros cl c. rewrite Hc. intros Hclc. destruct (Hcl cl c Hclc) as (en & Hen & Hecl).
    destruct (stripped_some w w' _ en (Hs _) Hen) as (en' & Hen' & Heq). exists en'. split; [done|].
    injection Heq as _ Heq _ _ _. congruence.
Qed.

(** What operations make of the cell [c'] of [w']. *)
Lemma operated_cell D w w' p c' : operated D w w' → w_cells w' !! p = Some c' →
  (newborn (w_entities w) c' ∧ p ∈ k_current (w_cluster w')) ∨
  ∃ c, w_cells w !! p = Some c ∧ p ∉ D ∧ c_offset c' = c_offset c ∧ becomes (w_entities w) c c'.
Proof.
  intros Hop Hc'. pose proof (op_line _ _ _ Hop p c' Hc') as Hl. case_decide as HD; [by left|].
  unfold descends in Hl. destruct (w_cells w !! p) as [c|] eqn:Hc; [|by left]. right. exists c.
  destruct (op_spared _ _ _ Hop p c Hc HD) as (c2 & Hc2 & Ho). simplify_eq. done.
Qed.

Lemma sane_operated A A' D w w' :
  sane A w → operated D w w' → tracks A' w' → (∀ e, is_Some (A' !! e) → sound w e) → sane A' w'.
Proof.
  intros Hsa Hop Ht' Hsound'. pose proof (op_stripped _ _ _ Hop) as Hs.
  assert (∀ p c', w_cells w' !! p = Some c' → polite (w_entities w') c') as Hpolite.
  { intros p c' Hc'. apply (polite_ext (w_entities w)); [intros e; by apply (stripped_has_client w w')|].
    destruct (operated_cell _ _ _ _ _ Hop Hc') as [[(_ & _ & _ & ?) _]|(c & Hc & _ & _ & (_ & _ & Hp))]; [done|].
    by apply Hp, (sane_polite A w p). }
  assert (∀ p c', w_cells w' !! p = Some c' → c_quadTree c' = c_quadTree (Cell_new (c_offset c')) ∨
    ∃ c, w_cells w !! p = Some c ∧ c_quadTree c' = c_quadTree c) as Htree.
  { intros p c' Hc'. destruct (operated_cell _ _ _ _ _ Hop Hc') as [[(_ & ? & _) _]|(c & ? & _ & _ & (? & _))];
      [by left|right; by exists c]. }
  split; [split|]; [apply Hop|done| | | | | | | |].
  - eapply stripped_bonded; [done|apply Hop|apply Hsa].
  - intros p c' Hc'. destruct (operated_cell _ _ _ _ _ Hop Hc') as [[[Hg _] _]|(c & Hc & _ & -> & _)]; [done|].
    by eapply (co_grid _ _ Hsa).
  - intros p [c' Hc'] Hh. destruct (operated_cell _ _ _ _ _ Hop Hc') as [[_ ?]|(c & Hc & HD & _)]; [done|].
    apply (op_current _ _ _ Hop), (co_touched _ _ Hsa); [by exists c|].
    destruct (hot w p) eqn:Hhot; [|done]. rewrite <-Hh. symmetry. by apply (op_hot _ _ _ Hop).
  - intros p c' Hc'. exact (proj2 (Hpolite p c' Hc')).
  - intros p c' Hc'. destruct (Htree p c' Hc') as [->|(c & Hc & ->)]; [|by eapply (co_tree _ _ Hsa)].
    constructor. unfold MaxQuadtreeDepth. lia.
  - intros e He. by eapply stripped_sound; [|apply Hsound'].
  - intros p c' Hc' Hr. destruct (operated_cell _ _ _ _ _ Hop Hc') as [[(_ & _ & (Hcalm & _) & _) _]|(c & Hc & _ & _ & (_ & Hst & _))].
    + congruence.
    + destruct Hst as [Hst|[Hcalm _]]; [|congruence]. rewrite Hst in *. by eapply (co_remaining _ _ Hsa).
  - intros p c' Hc'. split; [by eapply Hpolite|]. intros e He. eapply stripped_sound; [done|].
    destruct (Htree p c' Hc') as [Ht|(c & Hc & Ht)]; rewrite Ht in He; [by apply elem_of_nil in He|].
    by eapply (sa_fit _ _ Hsa).
Qed.

(** ** The operations of a turn *)

(** No cell around [o] ends its two minutes in a turn of [elapsed]. *)
Definition unexpired (elapsed : Z) (w : World) (o : Offset) : Prop :=
  ∀ q c, q ∈ around w o → w_cells w !! q = Some c → expires elapsed c = false.

(** All the cells around [o] exist, and outlive the turn. *)
Definition sheltered (elapsed : Z) (w : World) (o : Offset) : Prop :=
  ∀ o', o' = o ∨ adjacent o o' → ∃ p c, w_map w !! o' = Some p ∧ w_cells w !! p = Some c ∧
    isOnCooldown (stall c) = false ∧ expires elapsed c = false.

Lemma calm_unexpired elapsed c : calm (stall c) → isOnCooldown (stall c) = false ∧ expires elapsed c = false.
Proof. unfold expires. by intros [-> ->]. Qed.

Lemma sheltered_unexpired elapsed w o : sheltered elapsed w o → unexpired elapsed w o.
Proof.
  intros Hs q c (o' & Hq & Ho')%elem_of_around Hc. destruct (Hs o' Ho') as (p & d & Hp & Hd & _ & Hex). congruence.
Qed.

(** A cell that outlives the turn still does after operations. *)
Lemma operated_outlives elapsed D w w' o p c :
  operated D w w' → w_cells w !! p = Some c → c_offset c = o →
  isOnCooldown (stall c) = false → expires elapsed c = false →
  w_map w' !! o = Some p ∧ ∃ c', w_cells w' !! p = Some c' ∧
    isOnCooldown (stall c') = false ∧ expires elapsed c' = false.
Proof.
  intros Hop Hc <- Hcd Hex. assert (p ∉ D) as HD.
  { intros Hh%(op_doomed _ _ _ Hop). rewrite (hot_cell _ _ _ Hc) in Hh. congruence. }
  destruct (op_spared _ _ _ Hop p c Hc HD) as (c' & Hc' & Ho).
  split; [rewrite <-Ho; by apply (inv_cells _ (op_inv _ _ _ Hop))|]. exists c'. split; [done|].
  pose proof (op_line _ _ _ Hop p c' Hc') as Hl. rewrite decide_False in Hl by done. unfold descends in Hl. rewrite Hc in Hl.
  destruct Hl as (_ & [Hst|Hcalm] & _); [|by apply calm_unexpired]. unfold expires in *. by rewrite Hst.
Qed.

Lemma operated_sheltered elapsed D w w' o :
  inv w → operated D w w' → sheltered elapsed w o → sheltered elapsed w' o.
Proof.
  intros Hi Hop Hs o' Ho'. destruct (Hs o' Ho') as (p & c & Hp & Hc & Hcd & Hex).
  destruct (inv_map _ Hi o' p Hp) as (c2 & Hc2 & Ho2). simplify_eq.
  destruct (operated_outlives elapsed D w w' (c_offset c) p c) as (Hm & c' & ?); [done..|]. by exists p, c'.
Qed.

(** Cells that were created are calm. *)
Lemma created_sheltered elapsed D w w' o :
  inv w → operated D w w' → unexpired elapsed w o → clear 1 w o →
  (∀ o', o' = o ∨ adjacent o o' → is_Some (w_map w' !! o')) → sheltered elapsed w' o.
Proof.
  intros Hi Hop Hun Hcl Hall o' Ho'. destruct (Hall o' Ho') as [p Hp].
  destruct (inv_map _ (op_inv _ _ _ Hop) o' p Hp) as (c' & Hc' & Hco). exists p, c'. split; [done|]. split; [done|].
  destruct (operated_cell _ _ _ _ _ Hop Hc') as [[(_ & _ & Hcalm & _) _]|(c & Hc & _ & Ho & (_ & Hst & _))];
    [by apply calm_unexpired|]. destruct Hst as [Hst|Hcalm]; [|by apply calm_unexpired].
  assert (w_map w !! o' = Some p) as Hp0 by (rewrite <-Hco, Ho; by apply (inv_cells _ Hi)).
  unfold expires. rewrite Hst. split.
  - rewrite <-(hot_cell _ _ _ Hc). apply (Hcl o'); [|done].
    destruct Ho' as [->|Hadj]; [by rewrite (proj2 (hex_dist_0 o o))|]. apply adjacent_dist in Hadj. lia.
  - apply (Hun p c); [|done]. apply elem_of_around. by exists o'.
Qed.

(** The cells around the updaters exist, and do not expire. *)
Definition guarded (elapsed : Z) (A : places) (w : World) : Prop :=
  ∀ e o en, A !! e = Some o → w_entities w !! e = Some en → e_isUpdater en = true → sheltered elapsed w o.

(** An addition brings a sound entity, and no updater near a cell that expires. *)
Definition admissible (elapsed : Z) (w : World) (op : MapOperation) : Prop :=
  ∀ e en, mo_type op = ADD_ENTITY → mo_entity op = Some e → w_entities w !! e = Some en →
    sound w e ∧ (e_isUpdater en = true → unexpired elapsed w (mo_offset op)).

Lemma operated_unexpired elapsed D w w' o :
  inv w → operated D w w' → unexpired elapsed w o → unexpired elapsed w' o.
Proof.
  intros Hi Hop Hun q c' (o' & Hq & Ho')%elem_of_around Hc'.
  destruct (inv_map _ (op_inv _ _ _ Hop) o' q Hq) as (d & Hd & Hdo). simplify_eq.
  destruct (operated_cell _ _ _ _ _ Hop Hc') as [[(_ & _ & Hcalm & _) _]|(c & Hc & _ & Ho & (_ & Hst & _))];
    [by apply calm_unexpired|]. destruct Hst as [Hst|Hcalm]; [|by apply calm_unexpired].
  unfold expires. rewrite Hst. apply (Hun q c); [|done]. apply elem_of_around. exists (c_offset c'). split; [|done].
  rewrite Ho. by apply (inv_cells _ Hi).
Qed.

Lemma operated_admissible elapsed D w w' op :
  inv w → operated D w w' → admissible elapsed w op → admissible elapsed w' op.
Proof.
  intros Hi Hop Ha e en' Ht He Hen'. destruct (stripped_some w' w e en' (eq_sym (op_stripped _ _ _ Hop e)) Hen')
    as (en & Hen & Heq). destruct (Ha e en Ht He Hen) as [Hs Hu]. split.
  - eapply stripped_sound; [apply Hop|done].
  - injection Heq as _ _ Heq _ _. rewrite <-Heq. intros. eapply operated_unexpired; [done|done|auto].
Qed.

(** Where a move of the machine comes from. *)
Lemma relocate_inv op A A' e o : relocate op A = Some A' → A' !! e = Some o →
  A !! e = Some o ∨ mo_type op = ADD_ENTITY ∧ mo_entity op = Some e ∧ mo_offset op = o.
Proof.
  unfold relocate. intros HA He. destruct (mo_type op), (mo_entity op) as [e'|];
    try case_decide; try (injection HA as <-); try done; [|by apply lookup_delete_Some in He as [_ ?]; left|by left..].
  destruct (A !! e'); [done|]. injection HA as <-. apply lookup_insert_Some in He as [[<- <-]|[_ He]]; [by right|by left].
Qed.

Lemma valid_op_add w op e : valid_op w op → mo_type op = ADD_ENTITY → mo_entity op = Some e →
  is_Some (w_entities w !! e) ∧ clear 1 w (mo_offset op).
Proof.
  unfold valid_op. intros Hv Ht He. rewrite Ht in Hv. destruct Hv as (_ & Hcl & (e' & en & He' & Hen) & _).
  split; [exists en; congruence|by apply (clear_le 2)].
Qed.

Lemma relocate_sound elapsed A A' w op :
  (∀ e, is_Some (A !! e) → sound w e) → valid_op w op → admissible elapsed w op → relocate op A = Some A' →
  ∀ e, is_Some (A' !! e) → sound w e.
Proof.
  intros Hs Hv Ha HA e [o He]. destruct (relocate_inv op A A' e o HA He) as [?|(Ht & Hme & _)]; [by apply Hs; exists o|].
  destruct (valid_op_add w op e Hv Ht Hme) as [[en Hen] _]. by apply (Ha e en).
Qed.

Lemma relocate_guarded elapsed A A' D w w' op :
  inv w → operated D w w' → guarded elapsed A w → valid_op w op → admissible elapsed w op → relocate op A = Some A' →
  (brings_updater w op → ∀ o, o = mo_offset op ∨ adjacent (mo_offset op) o → is_Some (w_map w' !! o)) →
  guarded elapsed A' w'.
Proof.
  intros Hi Hop Hg Hv Ha HA Hall e o en' He Hen' Hu'.
  destruct (proj1 (stripped_updater w w' e (op_stripped _ _ _ Hop))) as (en & Hen & Hu); [by exists en'|].
  destruct (relocate_inv op A A' e o HA He) as [HAe|(Ht & Hme & <-)].
  - eapply operated_sheltered; [done|done|]. by eapply Hg.
  - destruct (valid_op_add w op e Hv Ht Hme) as [_ Hcl]. eapply created_sheltered; [done|done| |done|].
    + by apply (Ha e en).
    + apply Hall. by exists e, en.
Qed.

Lemma length_cluster_ops w op ops : length (cluster_ops w op ops) ≤ S (length ops).
Proof.
  unfold cluster_ops, schedules. repeat case_match; rewrite ?length_app; cbn; lia.
Qed.

(** The world in the middle of the operations of a turn: [ops] are left, and
    lead to [A']. *)
Record moving (elapsed : Z) (A' : places) (ops : list MapOperation) (w : World) : Prop := {
  mv_executable : executable w ops;
  mv_admissible : Forall (admissible elapsed w) ops;
  mv_room : length (lf_contents (k_operations (w_cluster w))) + length ops ≤ 4096;
  mv_places : ∃ A L, relocates ops A = Some A' ∧ sane A w ∧ keeping A L w ∧ guarded elapsed A w;
}.

Lemma moving_step elapsed A' op ops w :
  moving elapsed A' (op :: ops) w →
  wp (run_operation op) w (λ _ w', operated (option_set (destroys op)) w w' ∧ moving elapsed A' ops w').
Proof.
  intros [He [Ha Has]%Forall_cons_1 Hroom (A & L & Hrel & Hsa & Hk & Hg)].
  cbn in Hrel, Hroom. apply bind_Some in Hrel as (A1 & HA1 & Hrel).
  pose proof He as (Hi & Hs & [Hv _]%Forall_cons_1 & _).
  eapply wp_mono; [by apply (run_operation_tracks A A1 w op); [..|apply Hsa|]|].
  intros [] w' (Hop & Ht & Hq & Hall). split; [done|].
  assert (sane A1 w') as Hsa' by (eapply sane_operated; [done..|]; by eapply (relocate_sound elapsed A); [apply Hsa|..]).
  destruct (keeping_step A A1 L w w' op) as [L' Hk']; try done; [lia|apply Hop|apply Hop|]. split.
  - by eapply executable_step.
  - eapply Forall_impl; [exact Has|]. intros op'. by eapply operated_admissible.
  - rewrite Hq. pose proof (length_cluster_ops w op (lf_contents (k_operations (w_cluster w)))). lia.
  - exists A1, L'. split_and!; [done..|]. by eapply relocate_guarded.
Qed.

Lemma moving_queue elapsed A' ops w q : moving elapsed A' ops w → moving elapsed A' ops (set_operations q w).
Proof.
  intros [He Ha Hr (A & L & Hrel & [[Hi Ht Hb ? ? ? ? ? ?] ?] & Hk & Hg)].
  split; [by apply executable_queue|done|done|]. exists A, L. split_and!; [done| |by destruct Hk|done].
  split; [split|]; try done; [by destruct Hi|by destruct Ht|by destruct Hb].
Qed.

(** All the operations of a turn: they are the moves of the machine. *)
Lemma map_operations_moving elapsed A' w :
  moving elapsed A' (lf_contents (w_operations w)) w →
  wp map_runScheduledOperations w (λ _ w', lf_contents (w_operations w') = [] ∧
    operated (list_to_set (doomed (lf_contents (w_operations w)))) w w' ∧
    ∃ L, sane A' w' ∧ keeping A' L w' ∧ guarded elapsed A' w').
Proof.
  intros Hm. eapply wp_mono.
  - apply (map_runScheduledOperations_operated (moving elapsed A')); [intros; by apply moving_queue|by apply moving_step| |done].
    apply (mv_executable _ _ _ _ Hm).
  - intros [] w' (Hop & [_ _ _ (A & L & Hrel & ?)] & Hnil). injection Hrel as ->. eauto.
Qed.
End places.
