(* ===== verification/Motion.v ===== *)
(** * The motion of entities ([src/movement/motion_master.cpp], [movement_generator.cpp])

    The flags, position and direction of a [MotionMaster], the random paths of
    [RandomMovement], and one update of both. What an update does to the rest
    of the world is a list of events, in order: the map is told of a move, the
    bounding box is rotated, a packet is broadcast; [run_event] executes them
    on the world of [Map.v]. Random numbers are arguments. *)

From Stdlib Require Import ZArith Lia.
From Stdlib Require Import Floats.SpecFloat.
From stdpp Require Import base list gmap option numbers.
From S2P Require Import Prelude Float32 Packet Offset Lockfree Physics QuadTree Bezier World Reference Cell Cluster Map.

(** ** Data *)

(** [MovementFlags] *)
Definition MOVING : Z := 4.
Definition ROTATING : Z := 8.

(** The members without a value are uninitialised. *)
Record RandomMovement := mkRandom {
  rm_hasPoint : bool;
  rm_bezier : option DerivativeBezier;
  rm_t : option f32;
  rm_previous : option vec2;
}.

Record MotionMaster := mkMotion {
  mm_generator : option RandomMovement;
  mm_flags : Z;                          (* uint8_t *)
  mm_position : vec3;
  mm_forward : vec3;
  mm_rotationAngle : option f32;
  mm_speed : f32;
}.

Definition set_generator g (m : MotionMaster) :=
  mkMotion g (mm_flags m) (mm_position m) (mm_forward m) (mm_rotationAngle m) (mm_speed m).
Definition set_flags n (m : MotionMaster) :=
  mkMotion (mm_generator m) n (mm_position m) (mm_forward m) (mm_rotationAngle m) (mm_speed m).
Definition set_position p (m : MotionMaster) :=
  mkMotion (mm_generator m) (mm_flags m) p (mm_forward m) (mm_rotationAngle m) (mm_speed m).
Definition set_forward f (m : MotionMaster) :=
  mkMotion (mm_generator m) (mm_flags m) (mm_position m) f (mm_rotationAngle m) (mm_speed m).
Definition set_rotationAngle a (m : MotionMaster) :=
  mkMotion (mm_generator m) (mm_flags m) (mm_position m) (mm_forward m) (Some a) (mm_speed m).
Definition set_speed s (m : MotionMaster) :=
  mkMotion (mm_generator m) (mm_flags m) (mm_position m) (mm_forward m) (mm_rotationAngle m) s.

Definition MotionMaster_new : MotionMaster :=
  let f := f32_of_Z in
  mkMotion None 0 (Vec3 (f 0) (f 0) (f 0))%Z (Vec3 (f 0) (f 0) (f 1))%Z None (f 0%Z).

Definition RandomMovement_new : RandomMovement := mkRandom false None None None.

(** ** Commands *)

Definition isMoving (m : MotionMaster) : bool := (Z.land (mm_flags m) MOVING =? MOVING)%Z.
Definition isRotating (m : MotionMaster) : bool := (Z.land (mm_flags m) ROTATING =? ROTATING)%Z.

Definition teleport (to : vec3) (m : MotionMaster) : MotionMaster := set_flags 0 (set_position to m).

Definition move (m : MotionMaster) : MotionMaster := set_flags (Z.lor (mm_flags m) MOVING) m.

Definition stop (cleanup : bool) (m : MotionMaster) : MotionMaster :=
  let m := set_flags (Z.land (Z.land (mm_flags m) (Z.lnot MOVING)) (Z.lnot ROTATING)) m in
  if cleanup then set_generator None m else m.

Definition speed (s : f32) (m : MotionMaster) : MotionMaster := set_speed (s / f32_of_Z 1000)%f32 m.

(** [forward(float speed)]: the angular speed. *)
Definition turn (s : f32) (m : MotionMaster) : MotionMaster :=
  if feq s (f32_of_Z 0) then set_flags (Z.land (mm_flags m) (Z.lnot ROTATING)) m
  else set_flags (Z.lor (mm_flags m) ROTATING) (set_rotationAngle (s / f32_of_Z 1000)%f32 m).

(** ** Events *)

Inductive event :=
  | OnMove (position : vec3)
  | Rotate (angle : f32)
  | Broadcast (packet : Packet).

(** A packet with an opcode and what [body] streams into it. *)
Definition build (junk : list Z) (opcode : Z) (body : ST Packet unit) : outcome Packet :=
  match create junk opcode with
  | (Ok _, p) => match body p with (Ok _, p) => Ok p | (Fail e, _) => Fail e end
  | (Fail e, _) => Fail e
  end.

(** The random numbers of one path. *)
Record Draws := mkDraws {
  d_speed : Z;                           (* uint8_t *)
  d_end : vec2;                          (* positionDist, twice *)
  d_start_offset : f32;                  (* positiveDistanceDist *)
  d_end_offset : f32;
  d_normal : f64 * f64;                  (* double *)
}.

Section motion.
Context `{Behaviour}.
Local Notation M := (ST World).

(** ** [RandomMovement] *)

(** The curve of a new path. *)
Definition new_path (draws : Draws) (m : MotionMaster) : DerivativeBezier :=
  let position := mm_position m in
  let forward := mm_forward m in
  let start := (v3x position, v3z position) in
  let stop := ((start.1 + (d_end draws).1)%f32, (start.2 + (d_end draws).2)%f32) in
  let narrow x n := f32_of_f64 (dmul (f64_of_f32 (- x)%f32) n) in
  DerivativeBezier_new start
    (glm_add start (glm_scale (v3x forward, v3z forward) (d_start_offset draws)))
    (glm_add stop
      (glm_scale (narrow (v3x forward) (d_normal draws).1, narrow (v3z forward) (d_normal draws).2)
        (d_end_offset draws)))
    stop.

(** [RandomMovement::packet] *)
Definition path_packet (junk : list Z) (curve : DerivativeBezier) (t : f32) (trailer : ST Packet unit)
    : outcome Packet :=
  let b := db_curve curve in
  build junk 0x0A05 (
    _ ← put_int 4 0;
    _ ← put_vec2 (_a b); _ ← put_vec2 (_b b);
    _ ← put_vec2 (_d b); _ ← put_vec2 (_c b);
    _ ← put_float t;
    trailer).

(** The first part of [RandomMovement::update]: a new path, if there is none. *)
Definition start_path (id : Z) (junk junk' : list Z) (draws : Draws) (g : RandomMovement) (m : MotionMaster)
    : outcome (list event * RandomMovement * MotionMaster) :=
  if rm_hasPoint g then mret ([], g, m)
  else
    let curve := new_path draws m in
    let t := f32_of_Z 0 in
    spawn ← build junk 0x0A04 (_ ← put_int 8 id; _ ← put_int 1 (d_speed draws); put_vec2 (_a (db_curve curve)));
    path ← path_packet junk' curve t (put_int 8 id);
    mret ([Broadcast spawn; Broadcast path],
          mkRandom true (Some curve) (Some t) (Some (_a (db_curve curve))),
          move (speed (f32_of_Z (d_speed draws)) m)).

(** The second part: a step along the path. The result is the position. *)
Definition follow_path (elapsed : f32) (g : RandomMovement) (m : MotionMaster)
    : outcome (list event * vec3 * RandomMovement * MotionMaster) :=
  curve ← (match rm_bezier g with Some c => Ok c | None => Fail (UB NullDeref) end);
  t ← defined (rm_t g);
  previous ← defined (rm_previous g);
  let t := (t + derivative_increase curve t (mm_speed m) * elapsed)%f32 in
  let nextPoint := derivative_next curve t in
  let forward := glm_normalize (glm_sub nextPoint previous) in
  let oldForward := mm_forward m in
  let m := set_forward (Vec3 forward.1 (v3y oldForward) forward.2) m in
  let angle := c_atan2 (forward.2 - v3y oldForward)%f32 (forward.1 - v3x oldForward)%f32 in
  let '(g, m) :=
    if (t >= f32_of_Z 1)%f32
    then (mkRandom false None (Some t) (Some nextPoint), stop false m)
    else (mkRandom (rm_hasPoint g) (Some curve) (Some t) (Some nextPoint), m) in
  mret ([Rotate angle], Vec3 nextPoint.1 (v3y (mm_position m)) nextPoint.2, g, m).

Definition RandomMovement_update (id : Z) (junk junk' : list Z) (draws : Draws) (elapsed : f32)
    (g : RandomMovement) (m : MotionMaster)
    : outcome (list event * vec3 * RandomMovement * MotionMaster) :=
  '(events, g, m) ← start_path id junk junk' draws g m;
  '(events', position, g, m) ← follow_path elapsed g m;
  mret (events ++ events', position, g, m).

Definition hasNext (g : RandomMovement) : bool := match rm_bezier g with Some _ => true | None => false end.

(** ** [MotionMaster::update] *)

Definition generate (id : Z) (junk junk' : list Z) (draws : Draws) (elapsed : Z) (m : MotionMaster)
    : outcome (list event * MotionMaster) :=
  match mm_generator m with
  | None => mret ([], m)
  | Some g =>
      '(events, newPos, g, m) ← RandomMovement_update id junk junk' draws (f32_of_Z elapsed) g m;
      if hasNext g
      then mret (events ++ [OnMove newPos], set_position newPos (set_generator (Some g) m))
      else mret (events, set_generator None m)
  end.

Definition rotate (elapsed : Z) (m : MotionMaster) : outcome (list event * MotionMaster) :=
  if isRotating m then
    rotationAngle ← defined (mm_rotationAngle m);
    let elapsedAngle := (rotationAngle * f32_of_Z elapsed)%f32 in
    mret ([Rotate elapsedAngle],
          set_forward (glm_normalize3 (glm_rotateY (mm_forward m) elapsedAngle)) m)
  else mret ([], m).

Definition advance_straight (elapsed : Z) (m : MotionMaster) : list event * MotionMaster :=
  match mm_generator m with
  | None =>
      if isMoving m then
        let k := (mm_speed m * f32_of_Z elapsed)%f32 in
        let p := mm_position m in
        let f := mm_forward m in
        let p := Vec3 (v3x p + v3x f * k)%f32 (v3y p + v3y f * k)%f32 (v3z p + v3z f * k)%f32 in
        ([OnMove p], set_position p m)
      else ([], m)
  | Some _ => ([], m)
  end.

Definition motion_update (id : Z) (junk junk' : list Z) (draws : Draws) (elapsed : Z) (m : MotionMaster)
    : outcome (list event * MotionMaster) :=
  '(e1, m) ← generate id junk junk' draws elapsed m;
  '(e2, m) ← rotate elapsed m;
  let '(e3, m) := advance_straight elapsed m in
  mret (e1 ++ e2 ++ e3, m).

(** ** In the world *)

Definition rotate_box (angle : f32) (b : BoundingBox) : BoundingBox :=
  match b with RECT r => RECT (rect_rotate angle r) | CIRCULAR c => CIRCULAR c end.

(** [packet_address] is where the pool has put a packet. *)
Definition run_event (packet_address : Packet → positive) (owner : positive) (ev : event) : M unit :=
  en ← deref_entity owner;
  match ev with
  | OnMove p =>
      _ ← upd_entity owner (λ e,
        mkEntity (e_id e) (e_client e) (e_cell e) (e_isUpdater e) p (e_boundingBox e));
      onMove owner
  | Rotate angle =>
      match e_boundingBox en with
      | Some b =>
          upd_entity owner (λ e,
            mkEntity (e_id e) (e_client e) (e_cell e) (e_isUpdater e) (e_position e)
              (Some (rotate_box angle b)))
      | None => if rt_ndebug then mret tt else fail Abort
      end
  | Broadcast p =>
      cell ← not_null (e_cell en);
      broadcastToSiblings cell (Some (packet_address p))
  end.

Definition entity_motion (packet_address : Packet → positive) (owner : positive)
    (junk junk' : list Z) (draws : Draws) (elapsed : Z) (m : MotionMaster) : M MotionMaster :=
  en ← deref_entity owner;
  '(events, m) ← lift (motion_update (e_id en) junk junk' draws elapsed m);
  _ ← for_each (run_event packet_address owner) events;
  mret m.

(** ** [MapAwareEntity] *)

(** Entities with a client keep the cells around them alive. *)
Definition MapAwareEntity_new (id : Z) (client : option positive) : Entity :=
  mkEntity id client None (bool_decide (is_Some client)) (mm_position MotionMaster_new) None.

(** [MapAwareEntity::setupBoundingBox] *)
Definition setupBoundingBox (owner : positive) (vertices : list vec2) : M unit :=
  en ← deref_entity owner;
  _ ← assert_ (bool_decide (e_boundingBox en = None));
  upd_entity owner (λ e,
    mkEntity (e_id e) (e_client e) (e_cell e) (e_isUpdater e) (e_position e)
      (Some (RECT (RectBoundingBox_new vertices)))).

(** [MapAwareEntity::update]: [jobs] is what the executor of the entity runs. *)
Definition MapAwareEntity_update (jobs : M unit) (packet_address : Packet → positive) (owner : positive)
    (junk junk' : list Z) (draws : Draws) (elapsed : Z) (m : MotionMaster) : M MotionMaster :=
  _ ← jobs;
  entity_motion packet_address owner junk junk' draws elapsed m.
(** ** The flags *)

Lemma flag_bits m :
  isMoving m = Z.testbit (mm_flags m) 2 ∧ isRotating m = Z.testbit (mm_flags m) 3.
Proof.
  assert (∀ k, (0 ≤ k)%Z → (Z.land (mm_flags m) (2 ^ k) =? 2 ^ k)%Z = Z.testbit (mm_flags m) k) as Hbit.
  { intros k Hk. destruct (Z.testbit (mm_flags m) k) eqn:E.
    - apply Z.eqb_eq, Z.bits_inj'. intros n Hn. rewrite Z.land_spec, Z.pow2_bits_eqb by done.
      destruct (Z.eqb_spec k n) as [<-|]; [by rewrite E|by rewrite andb_false_r].
    - apply Z.eqb_neq. intros Heq. apply (f_equal (λ z, Z.testbit z k)) in Heq.
      rewrite Z.land_spec, Z.pow2_bits_eqb, Z.eqb_refl, E in Heq by done. done. }
  split; [exact (Hbit 2%Z ltac:(lia))|exact (Hbit 3%Z ltac:(lia))].
Qed.

Lemma stop_stops cleanup m : isMoving (stop cleanup m) = false ∧ isRotating (stop cleanup m) = false.
Proof.
  destruct (flag_bits (stop cleanup m)) as [-> ->].
  assert (mm_flags (stop cleanup m) = Z.land (Z.land (mm_flags m) (Z.lnot MOVING)) (Z.lnot ROTATING)) as ->
    by by destruct cleanup.
  split; rewrite !Z.land_spec; unfold MOVING, ROTATING; cbn; by rewrite ?andb_false_r.
Qed.

(** ** A step along a path *)

Lemma motion_update_ok id junk junk' draws elapsed m e1 m1 e2 m2 :
  generate id junk junk' draws elapsed m = Ok (e1, m1) → rotate elapsed m1 = Ok (e2, m2) →
  motion_update id junk junk' draws elapsed m =
    Ok (e1 ++ e2 ++ (advance_straight elapsed m2).1, (advance_straight elapsed m2).2).
Proof.
  intros Hg Hr. unfold motion_update, mbind, outcome_bind. rewrite Hg, Hr.
  by destruct (advance_straight elapsed m2).
Qed.

Lemma rotate_still elapsed m : isRotating m = false → rotate elapsed m = Ok ([], m).
Proof. intros Hr. unfold rotate. by rewrite Hr. Qed.

(** C39. A step of a random path: the parameter grows by the speed over the
    length of the derivative; before the end the entity is put on the curve,
    the map is told, and nothing else moves it; the step that reaches the end
    drops its point: the entity stays where it was, stops, and the path is
    deleted. *)
Theorem path_step (id elapsed : Z) (junk junk' : list Z) (draws : Draws) (m : MotionMaster)
    (curve : DerivativeBezier) (t : f32) (previous : vec2)
    (Hg : mm_generator m = Some (mkRandom true (Some curve) (Some t) (Some previous)))
    (Hrot : isRotating m = false) :
  let t' := (t + derivative_increase curve t (mm_speed m) * f32_of_Z elapsed)%f32 in
  let p := Vec3 (derivative_next curve t').1 (v3y (mm_position m)) (derivative_next curve t').2 in
  ∃ angle m', 
    if (t' >= f32_of_Z 1)%f32 then
      motion_update id junk junk' draws elapsed m = Ok ([Rotate angle], m') ∧
      mm_generator m' = None ∧ mm_position m' = mm_position m ∧ isMoving m' = false
    else
      motion_update id junk junk' draws elapsed m = Ok ([Rotate angle; OnMove p], m') ∧
      mm_generator m' = Some (mkRandom true (Some curve) (Some t') (Some (derivative_next curve t'))) ∧
      mm_position m' = p ∧ mm_flags m' = mm_flags m.
Proof.
  intros t' p. set (next := derivative_next curve t'). set (f := glm_normalize (glm_sub next previous)).
  set (angle := c_atan2 (f.2 - v3y (mm_forward m))%f32 (f.1 - v3x (mm_forward m))%f32). exists angle.
  set (m0 := set_forward (Vec3 f.1 (v3y (mm_forward m)) f.2) m).
  set (g := mkRandom true (Some curve) (Some t) (Some previous)) in *.
  assert (follow_path (f32_of_Z elapsed) g m = Ok (
    if (t' >= f32_of_Z 1)%f32
    then ([Rotate angle], p, mkRandom false None (Some t') (Some next), stop false m0)
    else ([Rotate angle], p, mkRandom true (Some curve) (Some t') (Some next), m0))) as Hf.
  { unfold follow_path, g. cbn [rm_bezier rm_t rm_previous rm_hasPoint defined]. unfold mbind, outcome_bind, mret, outcome_ret.
    fold t' next f angle m0. by destruct (t' >= f32_of_Z 1)%f32. }
  assert (generate id junk junk' draws elapsed m = Ok (
    if (t' >= f32_of_Z 1)%f32 then ([Rotate angle], set_generator None (stop false m0))
    else ([Rotate angle; OnMove p],
          set_position p (set_generator (Some (mkRandom true (Some curve) (Some t') (Some next))) m0)))) as Hgen.
  { unfold generate. rewrite Hg. unfold RandomMovement_update, start_path. change (rm_hasPoint g) with true.
    unfold mbind, outcome_bind, mret, outcome_ret. cbn beta iota. rewrite Hf. by destruct (t' >= f32_of_Z 1)%f32. }
  destruct (t' >= f32_of_Z 1)%f32; eexists.
  - destruct (stop_stops false m0) as [Hm Hr].
    rewrite (motion_update_ok _ _ _ _ _ _ _ _ _ _ Hgen (rotate_still elapsed (set_generator None (stop false m0)) Hr)).
    unfold advance_straight. cbn [mm_generator set_generator].
    change (isMoving (set_generator None (stop false m0))) with (isMoving (stop false m0)). rewrite Hm.
    split_and!; [done..|exact Hm].
  - by rewrite (motion_update_ok _ _ _ _ _ _ _ _ _ _ Hgen 
      (rotate_still elapsed (set_position p (set_generator
        (Some (mkRandom true (Some curve) (Some t') (Some next))) m0)) Hrot)).
Qed.
End motion.

(** ** Two steps *)

Section example.
#[local] Instance motion_runtime : Runtime := reference true.
#[local] Instance motion_behaviour : Behaviour := idle true.

Definition ex_curve : DerivativeBezier :=
  let p x := (f32_of_Z x, f32_of_Z 0) in DerivativeBezier_new (p 0%Z) (p 8%Z) (p 16%Z) (p 24%Z).
Definition ex_draws : Draws :=
  let z := f32_of_Z 0 in mkDraws 2 (z, z) z z (z, z).

(** Walking at 24 units a second along a path of 24 units. *)
Definition ex_walk (t : f32) : MotionMaster :=
  speed (f32_of_Z 24)
    (move (set_generator (Some (mkRandom true (Some ex_curve) (Some t) (Some (f32_of_Z 0, f32_of_Z 0)))) MotionMaster_new)).

Lemma path_step_witness :
  (∃ angle p m', motion_update 1 [] [] ex_draws 500 (ex_walk (f32_of_Z 0)) = Ok ([Rotate angle; OnMove p], m')) ∧
  ∃ angle m', motion_update 1 [] [] ex_draws 2000 (ex_walk (f32_of_Z 0)) = Ok ([Rotate angle], m') ∧
    mm_position m' = mm_position MotionMaster_new.
Proof.
  split.
  - destruct (path_step 1 500 [] [] ex_draws (ex_walk (f32_of_Z 0)) ex_curve (f32_of_Z 0) (f32_of_Z 0, f32_of_Z 0)
      eq_refl eq_refl) as (angle & m' & Hs).
    match type of Hs with context [if ?b then _ else _] => assert (b = false) as Hb by by vm_compute end.
    rewrite Hb in Hs. destruct Hs as (Hs & _). eauto.
  - destruct (path_step 1 2000 [] [] ex_draws (ex_walk (f32_of_Z 0)) ex_curve (f32_of_Z 0) (f32_of_Z 0, f32_of_Z 0)
      eq_refl eq_refl) as (angle & m' & Hs).
    match type of Hs with context [if ?b then _ else _] => assert (b = true) as Hb by by vm_compute end.
    rewrite Hb in Hs. destruct Hs as (Hs & _ & Hp & _). eauto.
Defined.
End example.
