(* ===== verification/Server.v ===== *)
(** * Clients and the server ([src/server/])

    The life of a client ([client.cpp]): it is accepted, closed once, and
    destroyed by the server when its entity is in no cell any more. The
    operations of the server ([server.cpp]) and its heart beat. Sockets and
    timers are boost's: what is kept of them here is whether the socket is open
    ([Connection.v] has the rest). *)

From Stdlib Require Import ZArith Lia.
From stdpp Require Import base list gmap option numbers sets.
From S2P Require Import Prelude Float32 Offset Hex Lockfree Physics QuadTree World Reference Cell Cluster Map.

Section server.
Context `{Behaviour}.
Local Notation M := (ST World).

Definition upd_client (p : positive) (f : Client → Client) : M unit :=
  c ← deref_client p; modify (λ w, set_clients (<[p := f c]> (w_clients w)) w).

(** [Client::inMap()] *)
Definition inMap (client : positive) : M bool :=
  c ← deref_client client;
  en ← deref_entity (cl_entity c);
  mret (match e_cell en with Some _ => true | None => false end).

Definition server_push (op : ServerOperation) : M unit :=
  modify (λ w, set_server_ops (lf_push op (w_server_ops w)).2 w).

(** [Server::handleClose] *)
Definition handleClose (client : positive) : M unit := server_push (mkServerOperation CLOSE client).

(** [Client::close]: the I/O is cancelled, the entity leaves the map, the
    client is flagged and handed to the server. *)
Definition close (client : positive) : M unit :=
  c ← deref_client client;
  if bool_decide (cl_status c = CLOSED) then mret tt
  else
    _ ← upd_client client (λ c, mkClient (cl_status c) (cl_entity c) false);
    en ← deref_entity (cl_entity c);
    _ ← (match e_cell en with
         | Some cell => removeFrom_cell cell (cl_entity c) None
         | None => mret tt
         end);
    _ ← upd_client client (λ c, mkClient CLOSED (cl_entity c) (cl_open c));
    handleClose client.

(** [Server::destroyClient]: the client, and through its destructor its
    entity, are gone. *)
Definition destroyClient (client : positive) : M unit :=
  c ← deref_client client;
  _ ← deref_entity (cl_entity c);
  _ ← modify (λ w, set_world_entities (delete (cl_entity c) (w_entities w)) w);
  modify (λ w, set_clients (delete client (w_clients w)) w).

(** One element of [consume_all]: what it leaves for the next tick. *)
Definition run_server_operation (op : ServerOperation) : M (list ServerOperation) :=
  match so_type op with
  | ACCEPT => mret []
  | CLOSE =>
      b ← inMap (so_client op);
      if b : bool then mret [op] else _ ← destroyClient (so_client op); mret []
  end.

Fixpoint consume_server (fuel : nat) (pending : list ServerOperation) : M (list ServerOperation) :=
  w ← get;
  match lf_pop (w_server_ops w) with
  | None => mret pending
  | Some (op, q) =>
      match fuel with
      | O => fail NoFuel
      | S fuel =>
          _ ← put (set_server_ops q w);
          l ← run_server_operation op;
          consume_server fuel (pending ++ l)
      end
  end.

(** [Server::runScheduledOperations] *)
Definition server_runScheduledOperations : M unit :=
  w ← get;
  pending ← consume_server (length (lf_contents (w_server_ops w))) [];
  for_each server_push pending.

(** [AtomicAutoIncrement::get]: the identifiers of clients, from 1. *)
Definition auto_increment (last : Z) : Z := u64 (last + 1).

(** [Server::startAccept]: a client with its entity; the callback of
    [async_accept] schedules its acceptance. *)
Definition newClient (id : Z) (position : vec3) : M positive :=
  w ← get;
  let client := fresh (dom (w_clients w)) in
  let entity := fresh (dom (w_entities w)) in
  _ ← put (set_clients (<[client := mkClient INITIALIZED entity true]> (w_clients w))
            (set_world_entities
               (<[entity := mkEntity id (Some client) None true position None]> (w_entities w)) w));
  mret client.

Definition on_accept (client : positive) : M unit := server_push (mkServerOperation ACCEPT client).

(** [WORLD_HEART_BEAT], in milliseconds, and the end of [Server::update]: the
    time to sleep for, which is kept for the next turn. *)
Definition WORLD_HEART_BEAT : Z := 50.

Definition sleep_time (diff prev : Z) : Z :=
  if (diff <=? WORLD_HEART_BEAT + prev)%Z then WORLD_HEART_BEAT + prev - diff else 0.

(** One turn of [Server::update], with the works of the server's executor as
    the parameter [jobs]; its result is [_prevSleepTime]. *)
Definition server_update (jobs : M unit) (elapsed prev : Z) : M Z :=
  _ ← map_update elapsed;
  _ ← jobs;
  _ ← server_runScheduledOperations;
  _ ← map_cleanup elapsed;
  mret (sleep_time elapsed prev).

Lemma auto_increment_counts n :
  (Z.of_nat n < 2 ^ 64)%Z → Nat.iter n auto_increment 0%Z = Z.of_nat n.
Proof.
  induction n as [|n IH]; intros Hn; [done|]. cbn [Nat.iter]. rewrite Nat.iter_succ, IH by lia.
  unfold auto_increment. rewrite wrap_small; lia.
Qed.

(** ** Closing *)

Definition closed (client : positive) (w : World) : Prop :=
  ∃ c, w_clients w !! client = Some c ∧ cl_status c = CLOSED.

Context `{!RuntimeLaws}.

Lemma close_closed client w : closed client w → close client w = (Ok tt, w).
Proof.
  intros (c & Hc & Hs). unfold close, deref_client, mbind, ST_bind, get, from_option.
  rewrite Hc. unfold mret at 1, ST_ret at 1. cbn beta iota. by rewrite bool_decide_true.
Qed.

Lemma wp_upd_client p f c w Q :
  w_clients w !! p = Some c → Q tt (set_clients (<[p := f c]> (w_clients w)) w) → wp (upd_client p f) w Q.
Proof. intros Hc HQ. apply wp_bind. eapply wp_deref_client; [done|]. by apply wp_modify. Qed.

(** The operations that closing a client schedules in the map. *)
Definition removal (w : World) (e : positive) (en : Entity) : list MapOperation :=
  match e_cell en with
  | Some cell =>
      match w_cells w !! cell with
      | Some c => [mkMapOperation REMOVE_ENTITY (c_offset c) (Some e) None]
      | None => []
      end
  | None => []
  end.

(** All that the first [close] of a client does. *)
Lemma close_effects (w : World) (client : positive) (c : Client) (en : Entity) :
  w_clients w !! client = Some c → w_entities w !! cl_entity c = Some en → cl_status c ≠ CLOSED →
  (∀ p, e_cell en = Some p → is_Some (w_cells w !! p)) →
  wp (close client) w (λ _ w',
    w_clients w' = <[client := mkClient CLOSED (cl_entity c) false]> (w_clients w) ∧
    lf_contents (w_operations w') = lf_contents (w_operations w) ++ removal w (cl_entity c) en ∧
    w_server_ops w' = (lf_push (mkServerOperation CLOSE client) (w_server_ops w)).2).
Proof.
  intros Hc He Hopen Hcell. unfold close. apply wp_bind. eapply wp_deref_client; [done|]. rewrite bool_decide_false by done.
  apply wp_bind. eapply wp_upd_client; [done|]. set (w1 := set_clients _ w).
  apply wp_bind. eapply wp_deref_entity; [exact He|]. apply wp_bind.
  eapply (wp_mono _ _ (λ _ w2, w_clients w2 = w_clients w1 ∧ w_server_ops w2 = w_server_ops w ∧
    lf_contents (w_operations w2) = lf_contents (w_operations w) ++ removal w (cl_entity c) en)).
  { unfold removal. destruct (e_cell en) as [p|] eqn:Hp.
    - destruct (Hcell p eq_refl) as [d Hd]. unfold removeFrom_cell. apply wp_bind.
      eapply wp_deref_cell; [exact Hd|]. unfold removeFrom_offset, map_push. apply wp_modify.
      rewrite Hd. split_and!; [done|done|]. by apply lf_push_free.
    - apply wp_ret. by rewrite app_nil_r. }
  intros [] w2 (Hcl2 & Hs2 & Ho2). apply wp_bind.
  eapply wp_upd_client; [rewrite Hcl2; apply lookup_insert_eq|].
  unfold handleClose, server_push. apply wp_modify. cbn. split_and!; [|exact Ho2|by rewrite Hs2].
  rewrite Hcl2. cbn. by rewrite insert_insert_eq.
Qed.

(** C22. A client is closed at most once: the first [close] shuts its socket,
    flags it, schedules one removal from its cell if it is in one, and hands
    it to the server exactly once; any later [close] (a timeout after an end
    of file, a failed work) changes nothing at all. *)
Theorem close_once (w : World) (client : positive) (c : Client) (en : Entity)
    (Hc : w_clients w !! client = Some c) (He : w_entities w !! cl_entity c = Some en)
    (Hopen : cl_status c ≠ CLOSED)
    (Hcell : ∀ p, e_cell en = Some p → is_Some (w_cells w !! p))
    (Hroom : length (lf_contents (w_server_ops w)) < 1024) :
  ∃ w', close client w = (Ok tt, w') ∧ close client w' = (Ok tt, w') ∧
    w_clients w' = <[client := mkClient CLOSED (cl_entity c) false]> (w_clients w) ∧
    lf_contents (w_operations w') = lf_contents (w_operations w) ++ removal w (cl_entity c) en ∧
    lf_contents (w_server_ops w') = lf_contents (w_server_ops w) ++ [mkServerOperation CLOSE client].
Proof.
  pose proof (close_effects w client c en Hc He Hopen Hcell) as Hwp.
  apply wp_run in Hwp as ([] & w' & Hrun & Hcl & Hops & Hsops). exists w'.
  split_and!; [done| |done|done|rewrite Hsops; by apply lf_push_free]. apply close_closed.
  eexists. split; [rewrite Hcl; apply lookup_insert_eq|done].
Qed.

(** ** Destroying clients *)

(** The client of an operation, and its entity, are alive. *)
Definition operable (w : World) (op : ServerOperation) : Prop :=
  so_type op = CLOSE → ∃ c en, w_clients w !! so_client op = Some c ∧ w_entities w !! cl_entity c = Some en.

(** The client is in no cell. *)
Definition outside (w : World) (op : ServerOperation) : bool :=
  match so_type op with
  | ACCEPT => false
  | CLOSE =>
      match w_clients w !! so_client op with
      | Some c => match w_entities w !! cl_entity c with
                  | Some en => match e_cell en with Some _ => false | None => true end
                  | None => false
                  end
      | None => false
      end
  end.

Definition kept (w : World) (op : ServerOperation) : bool :=
  match so_type op with ACCEPT => false | CLOSE => negb (outside w op) end.

(** Every client has an entity of its own, and is closed by one operation. *)
Definition own_entities (w : World) : Prop :=
  ∀ p q c d, w_clients w !! p = Some c → w_clients w !! q = Some d → cl_entity c = cl_entity d → p = q.

Definition closes (ops : list ServerOperation) : list positive :=
  so_client <$> filter (λ op, so_type op = CLOSE) ops.

(** The clients that go, and their entities. *)
Definition leaving (w : World) (ops : list ServerOperation) (p : positive) : Prop :=
  ∃ op, op ∈ ops ∧ outside w op = true ∧ so_client op = p.
Definition leaving_entity (w : World) (ops : list ServerOperation) (e : positive) : Prop :=
  ∃ p c, leaving w ops p ∧ w_clients w !! p = Some c ∧ cl_entity c = e.

(** What running [ops] does to the clients and the entities. *)
Definition settles (ops : list ServerOperation) (w w' : World) : Prop :=
  (∀ p, (leaving w ops p → w_clients w' !! p = None) ∧
        (¬ leaving w ops p → w_clients w' !! p = w_clients w !! p)) ∧
  (∀ e, (leaving_entity w ops e → w_entities w' !! e = None) ∧
        (¬ leaving_entity w ops e → w_entities w' !! e = w_entities w !! e)).

(** Nothing happens to the map. *)
Definition frames (w w' : World) : Prop :=
  w_cells w' = w_cells w ∧ w_map w' = w_map w ∧ w_operations w' = w_operations w ∧ w_cluster w' = w_cluster w.

Lemma wp_inMap w client c en Q :
  w_clients w !! client = Some c → w_entities w !! cl_entity c = Some en →
  Q (match e_cell en with Some _ => true | None => false end) w → wp (inMap client) w Q.
Proof.
  intros Hc He HQ. apply wp_bind. eapply wp_deref_client; [done|].
  apply wp_bind. eapply wp_deref_entity; [done|]. by apply wp_ret.
Qed.

(** The world without a client and its entity. *)
Definition without (client : positive) (c : Client) (w : World) : World :=
  set_clients (delete client (w_clients w))
    (set_world_entities (delete (cl_entity c) (w_entities w)) w).

Lemma run_server_operation_ok w op :
  operable w op →
  wp (run_server_operation op) w (λ l w', l = (if kept w op then [op] else []) ∧
    ((outside w op = false ∧ w' = w) ∨
     (outside w op = true ∧ ∃ c, w_clients w !! so_client op = Some c ∧ w' = without (so_client op) c w))).
Proof.
  intros Hop. unfold run_server_operation, kept, outside. destruct (so_type op) eqn:Ht; [by apply wp_ret; auto|].
  destruct (Hop Ht) as (c & en & Hc & He). rewrite Hc, He.
  apply wp_bind. eapply wp_inMap; [done|done|]. destruct (e_cell en); [by apply wp_ret; auto|].
  apply wp_bind. unfold destroyClient. apply wp_bind. eapply wp_deref_client; [done|].
  apply wp_bind. eapply wp_deref_entity; [done|]. apply wp_bind, wp_modify, wp_modify, wp_ret.
  split; [done|]. right. split; [done|]. by exists c.
Qed.

(** An operation of another client is seen the same after [client] has gone. *)
Lemma without_other w client c op :
  own_entities w → w_clients w !! client = Some c → operable w op →
  (so_type op = CLOSE → so_client op ≠ client) →
  operable (without client c w) op ∧ outside (without client c w) op = outside w op ∧
  kept (without client c w) op = kept w op.
Proof.
  intros Hown Hc Hop Hne. unfold kept, operable, outside in *. destruct (so_type op) eqn:Ht.
  { split_and!; done. }
  destruct (Hop eq_refl) as (d & en & Hd & He). specialize (Hne eq_refl).
  assert (w_clients (without client c w) !! so_client op = Some d) as Hd' by (cbn; by rewrite lookup_delete_ne).
  assert (w_entities (without client c w) !! cl_entity d = Some en) as He'.
  { cbn. rewrite lookup_delete_ne; [done|]. intros Heq. by apply Hne, (Hown _ _ d c). }
  rewrite Hd, He, Hd', He'. split_and!; [eauto|done|done].
Qed.

Lemma own_without w client c : own_entities w → own_entities (without client c w).
Proof.
  intros Hown p q d d' Hp Hq. cbn in Hp, Hq. apply lookup_delete_Some in Hp as [_ Hp], Hq as [_ Hq].
  by apply Hown.
Qed.

Lemma leaving_cons w op ops p :
  leaving w (op :: ops) p ↔ (outside w op = true ∧ so_client op = p) ∨ leaving w ops p.
Proof.
  split.
  - intros (op' & [->|Hin]%elem_of_cons & Ho & Hp); [by left|right; by exists op'].
  - intros [[Ho Hp]|(op' & Hin & Ho & Hp)].
    + exists op. split_and!; [by left|done|done].
    + exists op'. split_and!; [by right|done|done].
Qed.

Lemma settles_stay w w' op ops :
  outside w op = false → settles ops w w' → settles (op :: ops) w w'.
Proof.
  intros Ho [Hc He]. assert (∀ p, leaving w (op :: ops) p ↔ leaving w ops p) as Hl.
  { intros p. rewrite leaving_cons, Ho. naive_solver. }
  assert (∀ e, leaving_entity w (op :: ops) e ↔ leaving_entity w ops e) as Hle.
  { intros e. unfold leaving_entity. by setoid_rewrite Hl. }
  split; intros x; rewrite ?Hl, ?Hle; [apply Hc|apply He].
Qed.

Lemma settles_leave w w' op ops c :
  outside w op = true → w_clients w !! so_client op = Some c → own_entities w →
  (∀ op', op' ∈ ops → outside (without (so_client op) c w) op' = outside w op') →
  ¬ leaving w ops (so_client op) →
  settles ops (without (so_client op) c w) w' → settles (op :: ops) w w'.
Proof.
  intros Ho Hc Hown Hsame Hnot [Hcl Hen]. set (p0 := so_client op) in *. set (w1 := without p0 c w) in *.
  assert (∀ p, leaving w1 ops p ↔ leaving w ops p) as Hl.
  { intros p. unfold leaving. split; intros (op' & Hin & Hout & Hp); exists op';
      [rewrite <-(Hsame op' Hin)|rewrite (Hsame op' Hin)]; done. }
  assert (∀ e, leaving_entity w (op :: ops) e ↔ e = cl_entity c ∨ leaving_entity w1 ops e) as Hle.
  { intros e. unfold leaving_entity. split.
    - intros (p & d & [[_ Hp]|Hp]%leaving_cons & Hd & He).
      { left. change (p0 = p) in Hp. rewrite <-Hp, Hc in Hd. congruence. }
      right.
      exists p, d. split_and!; [by apply Hl| |done]. cbn. rewrite lookup_delete_ne; [done|]. by intros <-.
    - intros [->|(p & d & Hp & Hd & He)].
      + exists p0, c. split_and!; [apply leaving_cons; by left|done|done].
      + exists p, d. cbn in Hd. apply lookup_delete_Some in Hd as [_ Hd].
        split_and!; [apply leaving_cons; right; by apply Hl|done|done]. }
  split.
  - intros p. rewrite leaving_cons, Ho. fold p0. destruct (Hcl p) as [H1' H2']. rewrite Hl in H1', H2'.
    destruct (decide (p0 = p)) as [<-|Hne].
    + split; [intros _|by intros []; left]. rewrite H2' by done. cbn. apply lookup_delete_eq.
    + split; [intros [[_ ?]|Hp]; [done|by apply H1']|]. intros Hp. rewrite H2' by tauto. cbn.
      by rewrite lookup_delete_ne.
  - intros e. rewrite Hle. destruct (Hen e) as [H1' H2'].
    destruct (decide (e = cl_entity c)) as [->|Hne].
    + assert (w_entities w1 !! cl_entity c = None) as Hnone by apply lookup_delete_eq.
      split; [intros _|tauto]. destruct (w_entities w' !! cl_entity c) eqn:E; [|done]. exfalso.
      assert (¬ leaving_entity w1 ops (cl_entity c)) as Hx by (by intros ?%H1').
      specialize (H2' Hx). by rewrite Hnone in H2'.
    + split; [intros [?|?]; [done|by apply H1']|]. intros Hn. rewrite H2' by tauto. cbn.
      by rewrite lookup_delete_ne.
Qed.

Lemma list_filter_cong {A} (f g : A → bool) (l : list A) :
  (∀ x, x ∈ l → f x = g x) → filter f l = filter g l.
Proof.
  induction l as [|x l IH]; intros Hfg; [done|]. rewrite !filter_cons, (Hfg x) by by left.
  rewrite IH by (intros y Hy; apply Hfg; by right). by destruct (g x).
Qed.

Lemma consume_server_ok ops w pending :
  lf_contents (w_server_ops w) = ops → Forall (operable w) ops → NoDup (closes ops) → own_entities w →
  wp (consume_server (length ops) pending) w (λ l w', l = pending ++ filter (kept w) ops ∧
    lf_contents (w_server_ops w') = [] ∧ settles ops w w' ∧ frames w w').
Proof.
  revert w pending. induction ops as [|op ops IH]; intros w pending Hops Hall Hnd Hown;
    cbn [length consume_server]; apply wp_bind, wp_get;
    pose proof (lf_pop_contents (cap := Some 1024) (w_server_ops w)) as Hp; rewrite Hops in Hp.
  { rewrite Hp. apply wp_ret. split_and!; [by rewrite app_nil_r|done| |done].
    split; intros x; (split; [intros Hx; exfalso|done]).
    - by destruct Hx as (op & []%elem_of_nil & _).
    - by destruct Hx as (p & c & (op & []%elem_of_nil & _) & _). }
  destruct Hp as (q & Hq & Hcont). rewrite Hq. apply wp_bind, wp_put. set (w1 := set_server_ops q w).
  apply Forall_cons_1 in Hall as [Hop Hall].
  apply wp_bind. eapply wp_mono; [by apply (run_server_operation_ok w1 op)|].
  intros l w2 [-> Hw2].
  assert (so_type op = CLOSE → so_client op ∉ closes ops) as Hnot.
  { intros Ht. unfold closes in Hnd. rewrite filter_cons_True in Hnd by done. cbn in Hnd.
    by apply NoDup_cons in Hnd as [? _]. }
  assert (NoDup (closes ops)) as Hnd'.
  { unfold closes in *. rewrite filter_cons in Hnd. destruct (decide _); [|done].
    cbn in Hnd. by apply NoDup_cons in Hnd as [_ ?]. }
  assert (∀ op', op' ∈ ops → so_type op' = CLOSE → so_client op' ∈ closes ops) as Hin.
  { intros op' Hin Ht. apply list_elem_of_fmap. exists op'. split; [done|]. by apply list_elem_of_filter. }
  assert (pending ++ filter (kept w) (op :: ops) = (pending ++ (if kept w1 op then [op] else [])) ++ filter (kept w) ops)
    as ->.
  { rewrite <-app_assoc. f_equal. rewrite filter_cons. change (kept w1 op) with (kept w op).
    by destruct (kept w op). }
  destruct Hw2 as [[Hout ->]|(Hout & c & Hc & ->)].
  - eapply wp_mono; [by apply (IH w1)|]. intros l' w' (-> & Hnil & Hs & Hf).
    split_and!; [done|done|by apply settles_stay|done].
  - assert (so_type op = CLOSE) as Ht by (unfold outside in Hout; by destruct (so_type op)).
    assert (∀ op', op' ∈ ops → operable (without (so_client op) c w1) op' ∧
      outside (without (so_client op) c w1) op' = outside w1 op' ∧
      kept (without (so_client op) c w1) op' = kept w1 op') as Hother.
    { intros op' Hin'. apply without_other; [done|done| |].
      - rewrite Forall_forall in Hall. by apply Hall.
      - intros Ht' Heq. apply (Hnot Ht). rewrite <-Heq. by apply Hin. }
    eapply wp_mono; [apply (IH (without (so_client op) c w1)); [done| |done|by apply own_without]|].
    { apply Forall_forall. intros op' Hin'. by apply Hother. }
    intros l' w' (-> & Hnil & Hs & Hf). split_and!; [|done| |exact Hf].
    + f_equal. apply list_filter_cong. intros op' Hin'. by destruct (Hother op' Hin') as (_ & _ & ->).
    + change (settles (op :: ops) w1 w'). apply (settles_leave w1 w' op ops c); [done|done|done| | |exact Hs].
      * intros op' Hin'. by destruct (Hother op' Hin') as (_ & -> & _).
      * intros (op' & Hin' & Hout' & Heq). apply (Hnot Ht). rewrite <-Heq. apply Hin; [done|].
        unfold outside in Hout'. by destruct (so_type op').
Qed.
Lemma push_operations ops w :
  for_each server_push ops w = (Ok tt, set_server_ops (push_all ops (w_server_ops w)) w).
Proof.
  revert w. induction ops as [|op ops IH]; intros w; [by destruct w|].
  cbn [for_each]. unfold mbind, ST_bind, server_push at 1, modify. cbn beta iota. by rewrite IH.
Qed.


Lemma server_operations_ok w :
  let ops := lf_contents (w_server_ops w) in
  Forall (operable w) ops → NoDup (closes ops) → own_entities w → length ops ≤ 1024 →
  wp server_runScheduledOperations w (λ _ w',
    lf_contents (w_server_ops w') = filter (kept w) ops ∧ settles ops w w' ∧ frames w w').
Proof.
  intros ops Halive Hnodup Hown Hlen. unfold server_runScheduledOperations. apply wp_bind, wp_get. fold ops. apply wp_bind.
  eapply wp_mono; [by apply (consume_server_ok ops w [])|]. intros l w1 (-> & Hnil & Hs & Hf).
  unfold wp. rewrite push_operations. cbn [app]. split; [|split; [exact Hs|exact Hf]].
  cbn. rewrite (push_all_contents (cap := Some 1024)); [by rewrite Hnil|].
  rewrite Hnil. cbn. pose proof (length_filter (kept w) ops). lia.
Qed.

(** C11. One tick of the server's operations settles the clients: exactly the
    closed clients whose entity is in no cell any more are destroyed, together
    with their entities; every other client and entity is untouched; and the
    queue holds afterwards, in their order, exactly the closings of clients
    that are still in the map, to be tried again in the next tick. *)
Theorem server_operations_spec (w : World)
    (Halive : Forall (operable w) (lf_contents (w_server_ops w)))
    (Hnodup : NoDup (closes (lf_contents (w_server_ops w)))) (Hown : own_entities w)
    (Hlen : length (lf_contents (w_server_ops w)) ≤ 1024) :
  ∃ w', server_runScheduledOperations w = (Ok tt, w') ∧
    lf_contents (w_server_ops w') = filter (kept w) (lf_contents (w_server_ops w)) ∧
    settles (lf_contents (w_server_ops w)) w w'.
Proof.
  pose proof (server_operations_ok w Halive Hnodup Hown Hlen) as Hwp.
  apply wp_run in Hwp as ([] & w' & ? & ? & ? & _). by exists w'.
Qed.
(** ** Closing while joining *)

Lemma close_outside (w : World) (client : positive) (c : Client) (en : Entity) :
  w_clients w !! client = Some c → w_entities w !! cl_entity c = Some en →
  cl_status c ≠ CLOSED → e_cell en = None →
  close client w = (Ok tt,
    set_server_ops (lf_push (mkServerOperation CLOSE client) (w_server_ops w)).2
      (set_clients (<[client := mkClient CLOSED (cl_entity c) false]> (w_clients w)) w)).
Proof.
  intros Hc He Hs Hcell. apply wp_eq. unfold close.
  apply wp_bind. eapply wp_deref_client; [done|]. rewrite bool_decide_false by done.
  apply wp_bind. eapply wp_upd_client; [done|]. apply wp_bind. eapply wp_deref_entity; [exact He|].
  rewrite Hcell. apply wp_bind, wp_ret, wp_bind. eapply wp_upd_client; [apply lookup_insert_eq|].
  unfold handleClose, server_push. apply wp_modify. split; [done|]. cbn. by rewrite insert_insert_eq.
Qed.

(** C40. A client that is closed while the ADD_ENTITY of its entity still
    waits is destroyed by the next server tick, because it is in no cell; the
    map then executes the operation on the freed entity. *)
Theorem close_while_adding (w : World) (client cell : positive) (c : Client) (en : Entity)
    (op : MapOperation) (ops : list MapOperation)
    (Hc : w_clients w !! client = Some c) (He : w_entities w !! cl_entity c = Some en)
    (Hopen : cl_status c ≠ CLOSED) (Hcell : e_cell en = None)
    (Hops : lf_contents (w_operations w) = op :: ops)
    (Hadd : mo_type op = ADD_ENTITY) (Hwho : mo_entity op = Some (cl_entity c))
    (Hmap : w_map w !! mo_offset op = Some cell)
    (Hserver : lf_contents (w_server_ops w) = []) :
  ((_ ← close client; _ ← server_runScheduledOperations; map_runScheduledOperations) w).1 =
    Fail (UB Dangling).
Proof.
  unfold mbind at 1, ST_bind at 1. rewrite (close_outside w client c en) by done. cbn beta iota.
  set (w1 := set_server_ops _ _).
  assert (lf_contents (w_server_ops w1) = [mkServerOperation CLOSE client]) as Hs1.
  { cbn. rewrite (lf_push_free (cap := Some 1024)), Hserver; [done|]. unfold free. rewrite Hserver. cbn. lia. }
  assert (w_clients w1 !! client = Some (mkClient CLOSED (cl_entity c) false)) as Hc1 by apply lookup_insert_eq.
  assert (w_entities w1 !! cl_entity c = Some en) as He1 by done.
  assert (w_map w1 = w_map w ∧ w_operations w1 = w_operations w) as [Hm1 Ho1] by done. clearbody w1.
  assert (wp server_runScheduledOperations w1 (λ _ w2,
    w_map w2 = w_map w ∧ w_operations w2 = w_operations w ∧ w_entities w2 !! cl_entity c = None)) as Hwp.
  { unfold server_runScheduledOperations. apply wp_bind, wp_get. rewrite Hs1. cbn [length].
    pose proof (lf_pop_contents (cap := Some 1024) (w_server_ops w1)) as Hp. rewrite Hs1 in Hp.
    destruct Hp as (q & Hq & Hnil). apply wp_bind. cbn [consume_server]. apply wp_bind, wp_get. rewrite Hq.
    apply wp_bind, wp_put, wp_bind. set (w2 := set_server_ops q w1). unfold run_server_operation. cbn [so_type so_client].
    apply wp_bind. eapply (wp_inMap w2); [exact Hc1|exact He1|]. rewrite Hcell.
    apply wp_bind. unfold destroyClient. apply wp_bind. eapply wp_deref_client; [exact Hc1|].
    apply wp_bind. eapply wp_deref_entity; [exact He1|]. apply wp_bind, wp_modify, wp_modify, wp_ret, wp_bind, wp_get.
    cbn [w_server_ops set_clients set_world_entities]. change (w_server_ops w2) with q.
    pose proof (lf_pop_contents (cap := Some 1024) q) as Hp. rewrite Hnil in Hp. cbn. rewrite Hp.
    apply wp_ret, wp_ret. cbn. split_and!; [done|done|apply lookup_delete_eq]. }
  apply wp_run in Hwp as ([] & w2 & Hrun & Hm2 & Ho2 & He2).
  unfold mbind, ST_bind. rewrite Hrun. unfold map_runScheduledOperations, mbind, ST_bind, get. rewrite Ho2, Hops.
  cbn [length run_operations]. unfold mbind, ST_bind, get. rewrite Ho2.
  pose proof (lf_pop_contents (w_operations w)) as Hp. rewrite Hops in Hp. destruct Hp as (q & -> & _).
  cbn [put]. unfold run_operation. rewrite Hadd, Hwho. unfold not_null, from_option, mbind, ST_bind.
  cbn. unfold run_add, enter, getOrCreate, mbind, ST_bind, Map_get, gets. cbn. rewrite Hm2, Hmap. cbn.
  unfold upd_entity, deref_entity, from_option, mbind, ST_bind, get. cbn. by rewrite He2.
Qed.
(** ** The heart beat *)

(** Turns of [update] whose works take the times [works]: a turn starts at
    [now], [diff] after the one before it, which slept for [prev]. The result
    is the time at which the next turn starts. *)
Fixpoint turns (works : list Z) (diff prev now : Z) : Z :=
  match works with
  | [] => now
  | work :: works =>
      let sleep := sleep_time diff prev in
      turns works (work + sleep) sleep (now + work + sleep)
  end.

(** The server keeps its beat: as long as every turn's work fits in 50
    ms, turns start exactly 50 ms apart but for the difference between the
    last work and the first, so no drift accumulates however many turns there
    are; and a turn that took longer than its sleep allows is followed by no
    sleep at all, never by a negative one. *)
Lemma heart_beat (works : list Z) (work prev now : Z)
    (Hworks : Forall (λ t, 0 ≤ t ≤ WORLD_HEART_BEAT)%Z (work :: works)) :
  turns works (work + prev) prev now =
    (now + WORLD_HEART_BEAT * Z.of_nat (length works) + List.last works work - work)%Z ∧
  (∀ diff p, (0 ≤ sleep_time diff p)%Z ∧ ((WORLD_HEART_BEAT + p < diff)%Z → sleep_time diff p = 0%Z)).
Proof.
  split.
  2: { intros diff p. unfold sleep_time. split; destruct (Z.leb_spec diff (WORLD_HEART_BEAT + p)); lia. }
  revert work prev now Hworks. induction works as [|t works IH]; intros work prev now Hworks.
  { cbn. lia. }
  apply Forall_cons_1 in Hworks as [Hw Ht]. cbn [turns].
  assert (sleep_time (work + prev) prev = WORLD_HEART_BEAT - work)%Z as ->.
  { unfold sleep_time. destruct (Z.leb_spec (work + prev) (WORLD_HEART_BEAT + prev)); lia. }
  rewrite IH by done. assert (List.last (t :: works) work = List.last works t) as ->.
  { clear. revert t. induction works as [|x works IH]; intros t; [done|]. cbn in *. by destruct works. }
  cbn [length]. lia.
Qed.
End server.

(** ** Two updaters *)

Section example.
#[local] Instance example_runtime : Runtime := reference true.
#[local] Instance example_laws : RuntimeLaws := reference_laws true.
#[local] Instance example_behaviour : Behaviour := idle true.

(** Two updaters join, at distance three; two turns of the server, and the
    update of the map of a third. *)
Definition two_updaters : ST World unit :=
  _ ← addTo_offset (mkOffset 0 0) 1 None;
  _ ← addTo_offset (mkOffset 3 0) 2 None;
  _ ← server_update (mret tt) 50 0;
  _ ← server_update (mret tt) 50 0;
  map_update 50.

(** The work of component [cid] contains the cell at [o]. *)
Definition worked_in (w : World) (cid : nat) (o : Offset) : bool :=
  match w_map w !! o with
  | Some p => bool_decide (p ∈ cells_of cid (k_cellsByCluster (w_cluster w)))
  | None => false
  end.

(** The components that a turn updates in parallel are not isolated from
    each other: with an updater at (0,0) and another at (3,0), the cells at
    (1,0) and (2,0) are neighbours, and yet one is updated by the work of
    component 0 and the other by the work of component 1. What an entity of
    one cell asks of the neighbouring cell races with that cell's update. *)
Theorem components_touch :
  let '(r, w) := two_updaters example_world in
  r = Ok tt ∧ distance (mkOffset 1 0) (mkOffset 2 0) = Ok 1%Z ∧
  worked_in w 0 (mkOffset 1 0) = true ∧ worked_in w 0 (mkOffset 2 0) = false ∧
  worked_in w 1 (mkOffset 1 0) = false ∧ worked_in w 1 (mkOffset 2 0) = true.
Proof. vm_compute. repeat split. Qed.
End example.
