(* ===== verification/Connection.v ===== *)
(** * Connections ([src/server/client.hpp], [src/server/client.cpp])

    What happens between the network and a client: [Client::scheduleRead] with
    the callbacks of its read and of its timer, [Client::close] with the I/O it
    cancels, and the end of a client. Of [boost::asio] the model keeps what its
    documentation promises: an operation in progress completes once, by a
    callback that is posted and runs later; cancelling posts the callbacks of
    the operations in progress with an error, and cannot take back those that
    are posted already; a read completes when its window is full, and touches
    the window until then. Callbacks run one at a time, between the steps of
    the main thread. [Server::handleRead] is the application's: a parameter. *)

From Stdlib Require Import ZArith Lia.
From stdpp Require Import base list gmap option numbers sets.
From S2P Require Import Prelude Float32 Offset Lockfree Packet World Reference Cell Cluster Map Server.

(** How an [async_read] ends, and the callbacks. *)
Inductive read_result :=
  | ReadDone (size : Z)
  | ReadEof
  | ReadError.                 (* operation_aborted, bad_descriptor *)

Inductive event :=
  | OnRead (r : read_result)
  | OnTimer (expired : bool).  (* false: operation_aborted *)

#[export] Instance read_result_eq_dec : EqDecision read_result.
Proof. solve_decision. Defined.
#[export] Instance event_eq_dec : EqDecision event.
Proof. solve_decision. Defined.

(** An [async_read] in progress: its window, and the bytes that came. *)
Record Reading := mkReading { r_offset : Z; r_length : Z; r_got : Z }.

(** The members of a [Client] that [World.Client] leaves out. *)
Record Connection := mkConnection {
  cn_packet : Packet;          (* *_packet *)
  cn_readTimes : Z;            (* uint8_t _readTimes *)
  cn_reads : list Reading;     (* on _socket *)
  cn_waits : nat;              (* async_waits in progress on _timer *)
  cn_timed : bool;             (* _timer has an expiry time *)
}.

Definition set_packet p (c : Connection) :=
  mkConnection p (cn_readTimes c) (cn_reads c) (cn_waits c) (cn_timed c).
Definition set_readTimes t (c : Connection) :=
  mkConnection (cn_packet c) t (cn_reads c) (cn_waits c) (cn_timed c).
Definition set_reads l (c : Connection) :=
  mkConnection (cn_packet c) (cn_readTimes c) l (cn_waits c) (cn_timed c).
Definition set_waits k (c : Connection) :=
  mkConnection (cn_packet c) (cn_readTimes c) (cn_reads c) k (cn_timed c).
Definition set_timed (c : Connection) :=
  mkConnection (cn_packet c) (cn_readTimes c) (cn_reads c) (cn_waits c) true.

(** The buffer of the packet is as the allocator leaves it: [junk]. *)
Definition Connection_new (junk : list Z) : Connection :=
  mkConnection (Packet_new junk) 0 [] 0 false.

(** What [handleRead] asks of the client. *)
Inductive request := ScheduleRead (bytesToRead : Z) (reset : bool) | CloseClient.

Section connection.
Context `{Behaviour}.

(** [Server::handleRead], from the number of reads and the packet: it may read
    from the packet. *)
Context (handleRead : positive → Z → Packet → Packet * list request).

Record Net := mkNet {
  n_world : World;
  n_connections : gmap positive Connection;
  n_posted : list (positive * event);      (* callbacks that wait to run *)
}.

Definition set_world w (n : Net) := mkNet w (n_connections n) (n_posted n).
Definition set_connections m (n : Net) := mkNet (n_world n) m (n_posted n).
Definition set_posted l (n : Net) := mkNet (n_world n) (n_connections n) l.

Local Notation N := (ST Net).

Definition in_world {A} (m : ST World A) : N A := λ n,
  let '(r, w) := m (n_world n) in (r, set_world w n).

Definition deref_connection (p : positive) : N Connection :=
  n ← get; from_option (UB Dangling) (n_connections n !! p).
Definition upd_connection (p : positive) (f : Connection → Connection) : N unit :=
  c ← deref_connection p; modify (λ n, set_connections (<[p := f c]> (n_connections n)) n).
Definition post (l : list (positive * event)) : N unit :=
  modify (λ n, set_posted (n_posted n ++ l) n).

(** ** The operations of asio *)

(** [deadline_timer::cancel], which [expires_from_now] begins with. *)
Definition timer_cancel (p : positive) : N unit :=
  c ← deref_connection p;
  _ ← post (replicate (cn_waits c) (p, OnTimer false));
  upd_connection p (set_waits 0).

Definition expires_from_now (p : positive) : N unit :=
  _ ← timer_cancel p; upd_connection p set_timed.

Definition async_wait (p : positive) : N unit :=
  upd_connection p (λ c, set_waits (S (cn_waits c)) c).

(** The reads of a socket that is closed. *)
Definition socket_close (p : positive) : N unit :=
  c ← deref_connection p;
  _ ← post (replicate (length (cn_reads c)) (p, OnRead ReadError));
  upd_connection p (set_reads []).

Definition async_read (p : positive) (window : Z * Z) : N unit :=
  cl ← in_world (deref_client p);
  if cl_open cl then upd_connection p (λ c, set_reads (cn_reads c ++ [mkReading window.1 window.2 0]) c)
  else post [(p, OnRead ReadError)].

(** ** [Client] *)

Definition scheduleRead (p : positive) (bytesToRead : Z) (reset : bool) : N unit :=
  _ ← timer_cancel p;
  _ ← (if reset then
         _ ← upd_connection p (set_readTimes 0);
         upd_connection p (λ c, set_packet (Packet.reset (cn_packet c)) c)
       else mret tt);
  c ← deref_connection p;
  _ ← async_read p (recvBuffer bytesToRead (cn_packet c));
  _ ← expires_from_now p;
  async_wait p.

(** [Client::close], with the I/O that [Server.close] leaves out. *)
Definition Client_close (p : positive) : N unit :=
  cl ← in_world (deref_client p);
  if bool_decide (cl_status cl = CLOSED) then mret tt
  else
    _ ← timer_cancel p;
    _ ← socket_close p;
    in_world (Server.close p).

(** [Client::send]: the bytes handed to the socket; [peek] of the opcode may
    throw. *)
Definition send : ST Packet (list Z) := _ ← peek_int 2 0; sendBuffer.

Definition run_request (p : positive) (r : request) : N unit :=
  match r with
  | ScheduleRead bytesToRead reset => scheduleRead p bytesToRead reset
  | CloseClient => Client_close p
  end.

(** The callback of [async_read]. *)
Definition on_read (p : positive) (r : read_result) : N unit :=
  match r with
  | ReadEof => Client_close p
  | ReadDone size =>
      _ ← upd_connection p (λ c, set_readTimes (u8 (cn_readTimes c + 1)) c);
      _ ← upd_connection p (λ c, set_packet (addSize (u16 size) (cn_packet c)) c);
      c ← deref_connection p;
      let '(packet, requests) := handleRead p (cn_readTimes c) (cn_packet c) in
      _ ← upd_connection p (set_packet packet);
      for_each (run_request p) requests
  | ReadError => mret tt
  end.

(** The callback of [async_wait]. *)
Definition on_timer (p : positive) (expired : bool) : N unit :=
  if expired then Client_close p else mret tt.

Definition on_event (p : positive) (e : event) : N unit :=
  match e with OnRead r => on_read p r | OnTimer b => on_timer p b end.

(** What the destructors of the socket and the timer post. *)
Definition Client_dtor (p : positive) (c : Connection) : list (positive * event) :=
  replicate (length (cn_reads c)) (p, OnRead ReadError) ++ replicate (cn_waits c) (p, OnTimer false).

(** The members of the clients that are gone go with them. *)
Definition sweep : N unit := modify (λ n,
  let alive (x : positive * Connection) := is_Some (w_clients (n_world n) !! x.1) in
  mkNet (n_world n) (filter alive (n_connections n))
    (n_posted n ++ (map_to_list (filter (λ x, ¬ alive x) (n_connections n)) ≫= λ x, Client_dtor x.1 x.2))).

(** ** The moves of the network and of the main thread *)

Inductive move :=
  | Connect (id : Z) (position : vec3) (junk : list Z)
  | Ask (p : positive) (r : request)           (* the main thread, of a client *)
  | Elsewhere (m : ST World unit)              (* the main thread, other work *)
  | Arrive (p : positive) (bs : list Z)        (* bytes, for a read in progress *)
  | Hangup (p : positive)                      (* the end of the stream *)
  | Expire (p : positive)                      (* 30 seconds have gone *)
  | Handle (i : nat).                          (* a posted callback runs *)

(** Bytes are written into the window of the read as they come. Two reads at a
    time are an error of the caller, of which asio promises nothing. *)
Definition arrive (p : positive) (bs : list Z) : N unit :=
  c ← deref_connection p;
  match cn_reads c with
  | [r] =>
      let got := (r_got r + Z.of_nat (length bs))%Z in
      if (r_length r <? got)%Z then mret tt
      else
        _ ← lift (store (r_offset r + r_got r) bs (cn_packet c)).1;
        _ ← upd_connection p (set_packet (store (r_offset r + r_got r) bs (cn_packet c)).2);
        if (got =? r_length r)%Z then
          _ ← upd_connection p (set_reads []); post [(p, OnRead (ReadDone got))]
        else upd_connection p (set_reads [mkReading (r_offset r) (r_length r) got])
  | _ => mret tt
  end.

Definition hangup (p : positive) : N unit :=
  c ← deref_connection p;
  match cn_reads c with
  | [] => mret tt
  | _ :: l => _ ← upd_connection p (set_reads l); post [(p, OnRead ReadEof)]
  end.

Definition expire (p : positive) : N unit :=
  c ← deref_connection p;
  _ ← upd_connection p (set_waits 0);
  post (replicate (cn_waits c) (p, OnTimer true)).

Definition handle (i : nat) : N unit :=
  n ← get;
  match n_posted n !! i with
  | None => mret tt
  | Some (p, e) => _ ← put (set_posted (delete i (n_posted n)) n); on_event p e
  end.

Definition connect (id : Z) (position : vec3) (junk : list Z) : N unit :=
  p ← in_world (newClient id position);
  modify (λ n, set_connections (<[p := Connection_new junk]> (n_connections n)) n).

Definition run_move (m : move) : N unit :=
  match m with
  | Connect id position junk => connect id position junk
  | Ask p r => run_request p r
  | Elsewhere m => _ ← in_world m; sweep
  | Arrive p bs => arrive p bs
  | Hangup p => hangup p
  | Expire p => expire p
  | Handle i => handle i
  end.

(** ** Steps *)

Lemma wp_deref_connection p c n Q :
  n_connections n !! p = Some c → Q c n → wp (deref_connection p) n Q.
Proof. intros Hc HQ. apply wp_bind, wp_get. by apply (wp_from_option _ _ c). Qed.

Lemma wp_upd_connection p f c n Q :
  n_connections n !! p = Some c → Q tt (set_connections (<[p := f c]> (n_connections n)) n) →
  wp (upd_connection p f) n Q.
Proof. intros Hc HQ. apply wp_bind. eapply wp_deref_connection; [done|]. by apply wp_modify. Qed.

Lemma wp_in_world {A} (m : ST World A) n (Q : A → Net → Prop) :
  wp m (n_world n) (λ a w, Q a (set_world w n)) → wp (in_world m) n Q.
Proof. unfold wp, in_world. by destruct (m (n_world n)) as [[a|e] w]. Qed.

Lemma client_of_eq p cl n : w_clients (n_world n) !! p = Some cl → in_world (deref_client p) n = (Ok cl, n).
Proof.
  intros Hcl. apply wp_eq, wp_in_world. eapply wp_deref_client; [done|]. by destruct n.
Qed.

(** The net with [c] for [p] and [l] posted. *)
Definition put_connection (p : positive) (c : Connection) (l : list (positive * event)) (n : Net) : Net :=
  mkNet (n_world n) (<[p := c]> (n_connections n)) (n_posted n ++ l).

Lemma timer_cancel_eq p c n :
  n_connections n !! p = Some c →
  timer_cancel p n = (Ok tt, put_connection p (set_waits 0 c) (replicate (cn_waits c) (p, OnTimer false)) n).
Proof.
  intros Hc. apply wp_eq. apply wp_bind. eapply wp_deref_connection; [done|]. apply wp_bind, wp_modify.
  by eapply wp_upd_connection.
Qed.

Lemma socket_close_eq p c n :
  n_connections n !! p = Some c →
  socket_close p n =
    (Ok tt, put_connection p (set_reads [] c) (replicate (length (cn_reads c)) (p, OnRead ReadError)) n).
Proof.
  intros Hc. apply wp_eq. apply wp_bind. eapply wp_deref_connection; [done|]. apply wp_bind, wp_modify.
  by eapply wp_upd_connection.
Qed.

Lemma put_connection_twice p c d l l' n :
  put_connection p d l' (put_connection p c l n) = put_connection p d (l ++ l') n.
Proof. unfold put_connection. cbn. by rewrite insert_insert_eq, app_assoc. Qed.

Lemma lookup_put p c l n : n_connections (put_connection p c l n) !! p = Some c.
Proof. apply lookup_insert_eq. Qed.

(** The connection after [scheduleRead], and what that posts. *)
Definition scheduled (bytesToRead : Z) (reset open : bool) (c : Connection) : Connection :=
  let packet := if reset then Packet.reset (cn_packet c) else cn_packet c in
  mkConnection packet (if reset then 0%Z else cn_readTimes c)
    (if open then cn_reads c ++ [mkReading (p_size packet) bytesToRead 0] else cn_reads c) 1 true.

Definition cancelled (p : positive) (open : bool) (c : Connection) : list (positive * event) :=
  replicate (cn_waits c) (p, OnTimer false) ++ (if open then [] else [(p, OnRead ReadError)]).

Lemma scheduleRead_eq p bytes reset c cl n :
  n_connections n !! p = Some c → w_clients (n_world n) !! p = Some cl →
  scheduleRead p bytes reset n =
    (Ok tt, put_connection p (scheduled bytes reset (cl_open cl) c) (cancelled p (cl_open cl) c) n).
Proof.
  intros Hc Hcl. unfold scheduleRead. unfold mbind at 1, ST_bind at 1. rewrite (timer_cancel_eq p c) by done.
  cbn beta iota. apply wp_eq, wp_bind. set (n1 := put_connection p _ _ n).
  set (c2 := set_packet (if reset then Packet.reset (cn_packet c) else cn_packet c)
    (set_readTimes (if reset then 0%Z else cn_readTimes c) (set_waits 0 c))).
  eapply (wp_mono _ _ (λ _ n2, n2 = put_connection p c2 (replicate (cn_waits c) (p, OnTimer false)) n)).
  { destruct reset.
    - apply wp_bind. eapply wp_upd_connection; [apply lookup_put|]. eapply wp_upd_connection; [apply lookup_insert_eq|].
      unfold put_connection, n1, set_connections. cbn. by rewrite !insert_insert_eq.
    - apply wp_ret. done. }
  intros [] n2 ->. set (n2 := put_connection p c2 _ n).
  apply wp_bind. eapply wp_deref_connection; [apply lookup_put|]. apply wp_bind. unfold async_read.
  apply wp_bind, wp_in_world. eapply wp_deref_client; [exact Hcl|].
  set (c3 := set_reads (cn_reads (scheduled bytes reset (cl_open cl) c)) c2).
  change (set_world (n_world n) n2) with n2.
  eapply (wp_mono _ _ (λ _ n3, n3 = put_connection p c3 (cancelled p (cl_open cl) c) n)).
  { unfold c3, cancelled. cbn [scheduled cn_reads]. destruct (cl_open cl).
    - apply (wp_upd_connection p _ c2); [apply lookup_insert_eq|]. unfold set_connections, n2, put_connection. cbn.
      by rewrite insert_insert_eq, app_nil_r.
    - apply wp_modify. unfold set_posted, n2, put_connection. cbn. by rewrite app_assoc. }
  intros [] n3 ->. apply wp_bind, wp_bind. eapply run_wp; [apply timer_cancel_eq, lookup_put|].
  eapply wp_upd_connection; [apply lookup_put|]. eapply wp_upd_connection; [apply lookup_insert_eq|].
  split; [done|]. unfold set_connections, put_connection. cbn. by rewrite !insert_insert_eq, app_nil_r.
Qed.

(** ** The invariant *)

(** What holds of a client and its connection; the timer of client [x] may be
    off for a moment. *)
Record guarded (x : option positive) (posted : list (positive * event)) (p : positive)
    (cl : Client) (c : Connection) : Prop := {
  gd_packet : packet_ok (cn_packet c);
  gd_times : (0 ≤ cn_readTimes c < 256)%Z;
  gd_waits : cn_waits c ≤ 1;
  gd_closed : cl_status cl = CLOSED → cl_open cl = false;
  gd_reads : cl_open cl = false → cn_reads c = [];
  gd_timer : x ≠ Some p → cl_status cl ≠ CLOSED → cn_timed c = true →
    cn_waits c = 1 ∨ (p, OnTimer true) ∈ posted;
}.

(** Clients and connections go together. *)
Definition net_ok (x : option positive) (n : Net) : Prop := ∀ p,
  match w_clients (n_world n) !! p, n_connections n !! p with
  | Some cl, Some c => guarded x (n_posted n) p cl c
  | None, None => True
  | _, _ => False
  end.

Lemma guarded_mono x posted posted' p cl c :
  posted ⊆ posted' → guarded x posted p cl c → guarded x posted' p cl c.
Proof. intros Hsub []. split; try done. intros. destruct gd_timer0; auto. Qed.

Lemma net_ok_connection x n p c :
  net_ok x n → n_connections n !! p = Some c →
  ∃ cl, w_clients (n_world n) !! p = Some cl ∧ guarded x (n_posted n) p cl c.
Proof. intros Hn Hc. specialize (Hn p). rewrite Hc in Hn. destruct (w_clients _ !! p); [eauto|done]. Qed.

Lemma net_ok_client x n p cl :
  net_ok x n → w_clients (n_world n) !! p = Some cl →
  ∃ c, n_connections n !! p = Some c ∧ guarded x (n_posted n) p cl c.
Proof. intros Hn Hc. specialize (Hn p). rewrite Hc in Hn. destruct (n_connections _ !! p); [eauto|done]. Qed.

(** One connection changes, and callbacks are posted. *)
Lemma net_ok_put x x' p cl c l n :
  net_ok x n → w_clients (n_world n) !! p = Some cl →
  (x = x' ∨ x = Some p) → guarded x' (n_posted n ++ l) p cl c → net_ok x' (put_connection p c l n).
Proof.
  intros Hn Hcl Hx Hg q. cbn. destruct (decide (q = p)) as [->|Hne]; [by rewrite Hcl, lookup_insert_eq|].
  rewrite lookup_insert_ne by done. specialize (Hn q). destruct (w_clients _ !! q), (n_connections n !! q); try done.
  apply (guarded_mono _ (n_posted n)); [set_solver|]. destruct Hn. split; try done.
  intros Hxq. apply gd_timer0. destruct Hx as [->| ->]; [done|congruence].
Qed.

Lemma put_connection_nil p c n :
  set_connections (<[p := c]> (n_connections n)) n = put_connection p c [] n.
Proof. unfold put_connection. by rewrite app_nil_r. Qed.

Lemma put_connection_self p c n : n_connections n !! p = Some c → put_connection p c [] n = n.
Proof. intros Hc. unfold put_connection. rewrite insert_id, app_nil_r by done. by destruct n. Qed.

Section preservation.
Let any : failure → Prop := λ _, True.

(** A computation that starts from a connection. *)
Lemma from_connection {A} p (f : Connection → N A) n Q :
  (∀ c, n_connections n !! p = Some c → wpe any (f c) n Q) → wpe any (c ← deref_connection p; f c) n Q.
Proof.
  intros HQ. unfold deref_connection, mbind, ST_bind, get, wpe, from_option in *.
  destruct (n_connections n !! p) as [c|]; [by apply HQ|done].
Qed.

Lemma upd_keeps x p f n :
  net_ok x n →
  (∀ cl c, n_connections n !! p = Some c → guarded x (n_posted n) p cl c → guarded x (n_posted n) p cl (f c)) →
  wpe any (upd_connection p f) n (λ _, net_ok x).
Proof.
  intros Hn Hf. apply from_connection. intros c Hc. destruct (net_ok_connection x n p c Hn Hc) as (cl & Hcl & Hg).
  apply wp_wpe, wp_modify. rewrite put_connection_nil. apply (net_ok_put x x p cl); [done|done|by left|].
  rewrite app_nil_r. by apply Hf.
Qed.

Lemma post_keeps x l n : net_ok x n → wp (post l) n (λ _, net_ok x).
Proof.
  intros Hn. apply wp_modify. intros p. specialize (Hn p). cbn.
  destruct (w_clients _ !! p), (n_connections _ !! p); try done.
  eapply guarded_mono; [|done]. set_solver.
Qed.

Lemma scheduleRead_keeps x p bytes reset n :
  net_ok x n → x = None ∨ x = Some p → wpe any (scheduleRead p bytes reset) n (λ _, net_ok None).
Proof.
  intros Hn Hx. destruct (n_connections n !! p) as [c|] eqn:Hc.
  2: { unfold wpe, scheduleRead, timer_cancel, deref_connection, mbind, ST_bind, get. by rewrite Hc. }
  destruct (net_ok_connection x n p c Hn Hc) as (cl & Hcl & Hg).
  unfold wpe. rewrite (scheduleRead_eq p bytes reset c cl n Hc Hcl).
  apply (net_ok_put x None p cl); [done|done|tauto|]. destruct Hg. split; cbn.
  - destruct reset; [|done]. destruct gd_packet0 as (? & ? & ? & ?). by unfold packet_ok.
  - destruct reset; [lia|done].
  - lia.
  - done.
  - intros Ho. rewrite Ho. by apply gd_reads0.
  - by left.
Qed.

(** Closing changes the client only. *)
Lemma close_clients p cl w :
  w_clients w !! p = Some cl → cl_status cl ≠ CLOSED →
  wpe any (Server.close p) w (λ _ w', w_clients w' = <[p := mkClient CLOSED (cl_entity cl) false]> (w_clients w)).
Proof.
  intros Hcl Hs. unfold Server.close. eapply wpe_wp_bind; [by eapply (wp_deref_client _ _ _ (λ c w', c = cl ∧ w' = w))|].
  intros c w1 [-> ->]. rewrite bool_decide_false by done. set (cl1 := mkClient (cl_status cl) (cl_entity cl) false).
  eapply wpe_wp_bind; [by eapply (wp_upd_client _ _ _ _ (λ _ w', w_clients w' = <[p := cl1]> (w_clients w)))|].
  intros [] w1 Hw1. apply wpe_bind. unfold wpe at 1, deref_entity, mbind at 1, ST_bind at 1, get, from_option.
  destruct (w_entities w1 !! cl_entity cl) as [en|]; [|done]. cbn beta iota. unfold mret at 1, ST_ret at 1.
  apply wpe_bind. eapply (wpe_mono _ _ _ (λ _ w2, w_clients w2 = w_clients w1)).
  { destruct (e_cell en) as [cell|]; [|done]. unfold removeFrom_cell, removeFrom_offset, map_push, deref_cell.
    unfold wpe, mbind, ST_bind, get, from_option. by destruct (w_cells w1 !! cell). }
  intros [] w2 Hw2. assert (w_clients w2 !! p = Some cl1) as Hp by (rewrite Hw2, Hw1; apply lookup_insert_eq).
  eapply wpe_wp_bind; [by eapply (wp_upd_client _ _ _ _ (λ _ w', w_clients w' =
    <[p := mkClient CLOSED (cl_entity cl1) (cl_open cl1)]> (w_clients w2)))|].
  intros [] w3 Hw3. apply wp_wpe, wp_modify. cbn. by rewrite Hw3, Hw2, Hw1, insert_insert_eq.
Qed.

Lemma wpe_in_world {A} (m : ST World A) n (Q : A → Net → Prop) :
  wpe any m (n_world n) (λ a w, Q a (set_world w n)) → wpe any (in_world m) n Q.
Proof. unfold wpe, in_world. by destruct (m (n_world n)) as [[a|e] w]. Qed.

Lemma close_keeps x p n :
  net_ok x n → x = None ∨ x = Some p → wpe any (Client_close p) n (λ _, net_ok None).
Proof.
  intros Hn Hx. unfold Client_close. destruct (w_clients (n_world n) !! p) as [cl|] eqn:Hcl.
  2: { unfold wpe, mbind, ST_bind, in_world, deref_client, get, from_option, mbind, ST_bind. by rewrite Hcl. }
  destruct (net_ok_client x n p cl Hn Hcl) as (c & Hc & Hg). apply wpe_bind, wpe_in_world.
  apply wp_wpe. eapply wp_deref_client; [done|]. replace (set_world (n_world n) n) with n by by destruct n.
  case_bool_decide as Hs.
  { apply wp_wpe, wp_ret. rewrite <-(put_connection_self p c n Hc). apply (net_ok_put x None p cl); [done|done|tauto|].
    rewrite app_nil_r. destruct Hg. by split. }
  eapply wpe_run_bind; [by apply timer_cancel_eq|]. eapply wpe_run_bind; [apply socket_close_eq, lookup_put|].
  rewrite put_connection_twice. apply wpe_in_world. eapply wpe_mono; [by eapply (close_clients p cl)|].
  cbn. intros [] w' Hw' q. cbn. rewrite Hw'. destruct (decide (q = p)) as [->|Hne].
  - rewrite !lookup_insert_eq. destruct Hg. split; try done. cbn. lia.
  - rewrite !lookup_insert_ne by done. specialize (Hn q).
    destruct (w_clients (n_world n) !! q), (n_connections n !! q); try done.
    apply (guarded_mono _ (n_posted n)); [set_solver|]. destruct Hn. split; try done.
    intros _. apply gd_timer0. destruct Hx as [->| ->]; congruence.
Qed.

Lemma request_keeps p r n : net_ok None n → wpe any (run_request p r) n (λ _, net_ok None).
Proof. intros Hn. destruct r; [apply (scheduleRead_keeps None); auto|apply (close_keeps None); auto]. Qed.

(** What an application must not do to a packet it reads. *)
Definition well_read : Prop := ∀ p t packet, packet_ok packet → packet_ok (handleRead p t packet).1.

Lemma on_event_keeps p e n :
  well_read → net_ok (if decide (e = OnTimer true) then Some p else None) n →
  wpe any (on_event p e) n (λ _, net_ok None).
Proof.
  intros Hw. destruct e as [[size| |]|[]]; cbn [on_event on_read on_timer]; intros Hn;
    try (apply (close_keeps _ _ _ Hn); by auto); try (by apply wp_wpe, wp_ret); [].
  apply wpe_bind. eapply wpe_mono; [apply upd_keeps; [exact Hn|]|].
  { intros cl c _ []. split; try done. cbn. apply (wrap_range 8). lia. }
  intros [] n1 Hn1. apply wpe_bind. eapply wpe_mono; [apply upd_keeps; [exact Hn1|]|].
  { intros cl c _ []. split; try done. destruct gd_packet0 as (? & ? & ? & ?).
    pose proof (wrap_range 16 (p_size (cn_packet c) + u16 size)). unfold packet_ok. cbn. lia. }
  intros [] n2 Hn2. apply from_connection. intros c Hc.
  destruct (handleRead p (cn_readTimes c) (cn_packet c)) as [packet reqs] eqn:Hh.
  apply wpe_bind. eapply wpe_mono; [apply upd_keeps; [exact Hn2|]|].
  { intros cl c' Hc'. assert (c' = c) as -> by congruence. intros []. split; try done. cbn.
    specialize (Hw p (cn_readTimes c) (cn_packet c) gd_packet0). by rewrite Hh in Hw. }
  intros [] n3 Hn3. apply (wpe_for_each any _ (net_ok None)); [done|]. intros r n' _. apply request_keeps.
Qed.

Lemma store_ok off bs packet : packet_ok packet → packet_ok (store off bs packet).2.
Proof.
  intros (Hl & Hp). unfold store, mbind, ST_bind, get. case_bool_decide as Hb; [|done].
  split; [|done]. cbn. unfold buffer_size in *. by rewrite length_splice by lia.
Qed.

Lemma upd_connection_eq p f c n :
  n_connections n !! p = Some c → upd_connection p f n = (Ok tt, put_connection p (f c) [] n).
Proof.
  intros Hc. apply wp_eq. eapply wp_upd_connection; [done|]. by rewrite put_connection_nil.
Qed.

Lemma post_put p c l l' n : post l' (put_connection p c l n) = (Ok tt, put_connection p c (l ++ l') n).
Proof. unfold post, modify, put_connection, set_posted. cbn. by rewrite app_assoc. Qed.

(** A step on a connection that is open as long as it reads. *)
Lemma io_keeps p c c' l n :
  net_ok None n → n_connections n !! p = Some c →
  packet_ok (cn_packet c') → cn_readTimes c' = cn_readTimes c → cn_timed c' = cn_timed c →
  (cn_reads c = [] → cn_reads c' = []) → cn_waits c' ≤ cn_waits c →
  (cn_waits c = cn_waits c' ∨ (p, OnTimer true) ∈ l ∨ cn_waits c = 0) →
  net_ok None (put_connection p c' l n).
Proof.
  intros Hn Hc Hp Ht Htd Hr Hw Hl. destruct (net_ok_connection None n p c Hn Hc) as (cl & Hcl & []).
  apply (net_ok_put None None p cl); [done|done|by left|]. split; [done|by rewrite Ht|lia|done|auto|].
  intros Hx Hs. rewrite Htd. intros Htm. destruct (gd_timer0 Hx Hs Htm); [|set_solver].
  destruct Hl as [?|[?|?]]; [left; lia|set_solver|lia].
Qed.

Lemma arrive_keeps p bs n : net_ok None n → wpe any (arrive p bs) n (λ _, net_ok None).
Proof.
  intros Hn. apply from_connection. intros c Hc. destruct (cn_reads c) as [|r [|? ?]] eqn:Hr; [done| |done].
  destruct (net_ok_connection None n p c Hn Hc) as (cl & Hcl & Hg).
  pose proof (store_ok (r_offset r + r_got r) bs _ (gd_packet _ _ _ _ _ Hg)) as Hst.
  cbv zeta. case_match; [done|]. apply wpe_bind. unfold wpe at 1, lift. destruct (store _ _ _).1; [|done].
  eapply wpe_run_bind; [by apply upd_connection_eq|]. case_match.
  - eapply wpe_run_bind; [apply upd_connection_eq, lookup_put|]. rewrite put_connection_twice.
    unfold wpe. rewrite post_put. apply (io_keeps p c); try done. by left.
  - unfold wpe. rewrite (upd_connection_eq _ _ _ _ (lookup_put _ _ _ _)), put_connection_twice.
    apply (io_keeps p c); try done; [cbn; by rewrite Hr|by left].
Qed.

Lemma hangup_keeps p n : net_ok None n → wpe any (hangup p) n (λ _, net_ok None).
Proof.
  intros Hn. apply from_connection. intros c Hc. destruct (cn_reads c) as [|r l] eqn:Hr; [done|].
  destruct (net_ok_connection None n p c Hn Hc) as (cl & Hcl & Hg).
  eapply wpe_run_bind; [by apply upd_connection_eq|]. unfold wpe. rewrite post_put.
  apply (io_keeps p c); try done; [apply Hg|by rewrite Hr|by left].
Qed.

Lemma expire_keeps p n : net_ok None n → wpe any (expire p) n (λ _, net_ok None).
Proof.
  intros Hn. apply from_connection. intros c Hc. destruct (net_ok_connection None n p c Hn Hc) as (cl & Hcl & Hg).
  eapply wpe_run_bind; [by apply upd_connection_eq|]. unfold wpe. rewrite post_put.
  apply (io_keeps p c); try done; [apply Hg|cbn; lia|].
  destruct (cn_waits c); [by right; right|]. right. left. cbn. by left.
Qed.

Lemma elem_of_delete {A} (l : list A) i x y : x ∈ l → l !! i = Some y → x ≠ y → x ∈ delete i l.
Proof.
  intros Hx Hy Hne. rewrite <-(take_drop_middle l i y Hy) in Hx. rewrite delete_take_drop. set_solver.
Qed.

Lemma handle_keeps i n : well_read → net_ok None n → wpe any (handle i) n (λ _, net_ok None).
Proof.
  intros Hw Hn. unfold handle. apply wpe_bind, wp_wpe, wp_get.
  destruct (n_posted n !! i) as [[p e]|] eqn:Hi; [|done]. apply wpe_bind, wp_wpe, wp_put.
  apply on_event_keeps; [done|]. intros q. specialize (Hn q). cbn.
  destruct (w_clients _ !! q) as [cl|], (n_connections _ !! q) as [c|]; try done. destruct Hn. split; try done.
  intros Hx Hs Ht. destruct (gd_timer0 ltac:(done) Hs Ht) as [|Hin]; [by left|right].
  eapply elem_of_delete; [done|exact Hi|]. intros [= <- <-]. by rewrite decide_True in Hx.
Qed.

Lemma connect_keeps id position junk n :
  length junk = buffer_size → net_ok None n → wpe any (connect id position junk) n (λ _, net_ok None).
Proof.
  intros Hj Hn. apply wpe_bind, wpe_in_world, wp_wpe. unfold newClient.
  apply wp_bind, wp_get, wp_bind, wp_put, wp_ret. set (p := fresh (dom (w_clients (n_world n)))).
  apply wp_wpe, wp_modify. intros q. cbn. destruct (decide (q = p)) as [->|Hne].
  - rewrite !lookup_insert_eq. split; try done. cbn. lia.
  - rewrite !lookup_insert_ne by done. apply Hn.
Qed.

(** What the main thread does elsewhere: clients may go, but are not opened,
    closed or made. *)
Definition clients_kept (w w' : World) : Prop := ∀ p cl', w_clients w' !! p = Some cl' →
  ∃ cl, w_clients w !! p = Some cl ∧ cl_open cl' = cl_open cl ∧ (cl_status cl' = CLOSED ↔ cl_status cl = CLOSED).

Definition keeps_clients (m : ST World unit) : Prop := ∀ w w', m w = (Ok tt, w') → clients_kept w w'.

Lemma elsewhere_keeps m n :
  keeps_clients m → net_ok None n → wpe any (_ ← in_world m; sweep) n (λ _, net_ok None).
Proof.
  intros Hm Hn. apply wpe_bind, wpe_in_world. unfold wpe at 1. destruct (m (n_world n)) as [[[]|e] w'] eqn:Hrun; [|done].
  specialize (Hm _ _ Hrun). apply wp_wpe, wp_modify. intros p. cbn. rewrite map_lookup_filter.
  specialize (Hn p). destruct (w_clients w' !! p) as [cl'|] eqn:Hcl'.
  - destruct (Hm p cl' Hcl') as (cl & Hcl & Ho & Hs). rewrite Hcl in Hn.
    destruct (n_connections n !! p) as [c|]; [|done]. cbn. rewrite option_guard_True by (cbn; rewrite Hcl'; eauto).
    apply (guarded_mono _ (n_posted n)); [set_solver|]. destruct Hn. split; rewrite ?Ho; try done.
    + intros. by apply gd_closed0, Hs.
    + intros Hx Hc. apply gd_timer0; [done|]. by intros ?%Hs.
  - destruct (n_connections n !! p) as [c|]; [|done]. cbn. rewrite option_guard_False; [done|].
    cbn. rewrite Hcl'. by intros [? ?].
Qed.

Definition allowed (m : move) : Prop :=
  match m with
  | Connect _ _ junk => length junk = buffer_size
  | Elsewhere m => keeps_clients m
  | _ => True
  end.

Lemma move_keeps m n : well_read → allowed m → net_ok None n → wpe any (run_move m) n (λ _, net_ok None).
Proof.
  intros Hw Hm Hn. destruct m; cbn in *;
    [by apply connect_keeps|by apply request_keeps|by apply elsewhere_keeps|by apply arrive_keeps
    |by apply hangup_keeps|by apply expire_keeps|by apply handle_keeps].
Qed.
End preservation.

(** The states that a server with its network reaches. *)
Definition Net_new : Net := mkNet World_new ∅ [].

Inductive net_reachable : Net → Prop :=
  | nr_new : net_reachable Net_new
  | nr_move m n n' : net_reachable n → allowed m → run_move m n = (Ok tt, n') → net_reachable n'.

Lemma net_reachable_ok n : well_read → net_reachable n → net_ok None n.
Proof.
  intros Hw Hn. induction Hn as [|m n n' _ IH Hm Hrun]; [by intros p|].
  pose proof (move_keeps m n Hw Hm IH) as Hk. unfold wpe in Hk. by rewrite Hrun in Hk.
Qed.

(** ** The timeout *)

Fixpoint run_moves (l : list move) : N unit :=
  match l with
  | [] => mret tt
  | m :: l => _ ← run_move m; run_moves l
  end.

Context `{!RuntimeLaws}.

(** The pointers that [close] follows are good. *)
Definition closable (w : World) (cl : Client) : Prop :=
  ∃ en, w_entities w !! cl_entity cl = Some en ∧ ∀ cell, e_cell en = Some cell → is_Some (w_cells w !! cell).

Lemma server_close_runs p cl w :
  w_clients w !! p = Some cl → closable w cl → ∃ w', Server.close p w = (Ok tt, w') ∧ closed p w'.
Proof.
  intros Hcl (en & Hen & Hcell). destruct (decide (cl_status cl = CLOSED)) as [Hs|Hs].
  { exists w. split; [apply close_closed|]; by exists cl. }
  pose proof (close_effects w p cl en Hcl Hen Hs Hcell) as Hwp.
  apply wp_run in Hwp as ([] & w' & Hrun & Hw' & _). exists w'. split; [done|].
  eexists. split; [rewrite Hw'; apply lookup_insert_eq|done].
Qed.

Lemma close_runs p cl c n :
  w_clients (n_world n) !! p = Some cl → n_connections n !! p = Some c → closable (n_world n) cl →
  ∃ n', Client_close p n = (Ok tt, n') ∧ closed p (n_world n').
Proof.
  intros Hcl Hc Hgood. destruct (server_close_runs p cl (n_world n) Hcl Hgood) as (w' & Hrun & Hw').
  unfold Client_close, mbind, ST_bind. rewrite (client_of_eq p cl n Hcl).
  case_bool_decide as Hs; [exists n; split; [done|by exists cl]|].
  rewrite (timer_cancel_eq p c) by done. rewrite (socket_close_eq p (set_waits 0 c)) by apply lookup_put.
  unfold in_world. cbn [n_world put_connection]. rewrite Hrun. by eexists.
Qed.

Lemma handle_event i p e n :
  n_posted n !! i = Some (p, e) → handle i n = on_event p e (set_posted (delete i (n_posted n)) n).
Proof. intros Hi. unfold handle, mbind, ST_bind, get. by rewrite Hi. Qed.

Lemma run_moves_cons m l n n' : run_move m n = (Ok tt, n') → run_moves (m :: l) n = run_moves l n'.
Proof. intros Hrun. cbn [run_moves]. unfold mbind, ST_bind. by rewrite Hrun. Qed.

(** The callback of the timer closes the client. *)
Lemma timer_closes i p cl c n :
  n_posted n !! i = Some (p, OnTimer true) →
  w_clients (n_world n) !! p = Some cl → n_connections n !! p = Some c → closable (n_world n) cl →
  ∃ n', handle i n = (Ok tt, n') ∧ closed p (n_world n').
Proof. intros Hi Hcl Hc Hgood. rewrite (handle_event i p (OnTimer true)) by done. by apply (close_runs p cl c). Qed.

(** C12. In every state that the server reaches with its network, a client that
    has asked for data and is not closed has its timeout in progress or expired
    with its callback posted, so that time and callbacks alone close it. A live
    client has one connection, at most one timeout in progress and, once
    closed, no read, whatever the order of bytes, ends of streams, timeouts,
    callbacks and what the main thread does. *)
Theorem net_guarded (n : Net) (p : positive) (cl : Client)
    (Hread : well_read) (Hn : net_reachable n) (Hcl : w_clients (n_world n) !! p = Some cl) :
  ∃ c, n_connections n !! p = Some c ∧ packet_ok (cn_packet c) ∧ cn_waits c ≤ 1 ∧
    (cl_status cl = CLOSED → cn_reads c = []) ∧
    (cl_status cl ≠ CLOSED → cn_timed c = true →
      (cn_waits c = 1 ∨ (p, OnTimer true) ∈ n_posted n) ∧
      (closable (n_world n) cl →
        ∃ l n', Forall (λ m, m = Expire p ∨ ∃ i, m = Handle i) l ∧
          run_moves l n = (Ok tt, n') ∧ closed p (n_world n'))).
Proof.
  destruct (net_ok_client None n p cl (net_reachable_ok n Hread Hn) Hcl) as (c & Hc & []).
  exists c. split_and!; [done|done|done|by intros ?%gd_closed0%gd_reads0|].
  intros Hs Ht. specialize (gd_timer0 ltac:(done) Hs Ht). split; [done|]. intros Hgood.
  destruct gd_timer0 as [Hw|(i & Hi)%list_elem_of_lookup_1].
  - set (n1 := put_connection p (set_waits 0 c) [(p, OnTimer true)] n).
    assert (run_move (Expire p) n = (Ok tt, n1)) as R1.
    { apply wp_eq. cbn. apply wp_bind. eapply wp_deref_connection; [done|]. apply wp_bind.
      eapply wp_upd_connection; [done|]. rewrite put_connection_nil. eapply run_wp; [apply post_put|].
      split; [done|]. by rewrite Hw. }
    destruct (timer_closes (length (n_posted n)) p cl (set_waits 0 c) n1) as (n2 & R2 & Hclosed); try done.
    { cbn. by apply list_lookup_middle. } { apply lookup_put. }
    exists [Expire p; Handle (length (n_posted n))], n2. split; [rewrite !Forall_cons; eauto 6|]. split; [|done].
    rewrite (run_moves_cons _ _ _ _ R1). by rewrite (run_moves_cons (Handle _) _ _ _ R2).
  - destruct (timer_closes i p cl c n) as (n2 & R2 & Hclosed); try done.
    exists [Handle i], n2. split; [rewrite Forall_singleton; eauto|]. split; [|done]. by rewrite (run_moves_cons (Handle _) _ _ _ R2).
Qed.

(** ** Callbacks that come late *)

(** The callbacks that do not use their client. *)
Definition harmless (e : event) : bool :=
  match e with OnRead ReadError | OnTimer false => true | _ => false end.

(** A callback that runs after its client has been destroyed. *)
Lemma late_callback i p e n :
  n_posted n !! i = Some (p, e) → n_connections n !! p = None → w_clients (n_world n) !! p = None →
  (run_move (Handle i) n).1 = if harmless e then Ok tt else Fail (UB Dangling).
Proof.
  intros Hi Hc Hcl. cbn [run_move]. rewrite (handle_event i p e) by done. set (n' := set_posted _ n).
  assert (∀ A (f : Client → N A), ((cl ← in_world (deref_client p); f cl) n').1 = Fail (UB Dangling)) as Hf.
  { intros A f. unfold mbind, ST_bind, in_world, deref_client, mbind, ST_bind, get, from_option. cbn. by rewrite Hcl. }
  destruct e as [[size| |]|[]]; cbn; try done; try apply Hf.
  unfold mbind, ST_bind, upd_connection, deref_connection, mbind, ST_bind, get, from_option. cbn. by rewrite Hc.
Qed.

(** What the destruction of a client posts is harmless. *)
Lemma dtor_harmless p c : Forall (λ x, harmless x.2 = true) (Client_dtor p c).
Proof. apply Forall_app. by split; apply Forall_replicate. Qed.

(** ** The operations of the server keep the clients *)

Lemma clients_kept_sub w w' : w_clients w' ⊆ w_clients w → clients_kept w w'.
Proof. intros Hsub p cl Hp. exists cl. split; [|done]. by eapply lookup_weaken. Qed.

Lemma run_server_operation_sub op w l w' :
  run_server_operation op w = (Ok l, w') → w_clients w' ⊆ w_clients w.
Proof.
  intros Hrun. unfold run_server_operation in Hrun. destruct (so_type op); [by injection Hrun as <- <-|].
  apply bind_ok_inv in Hrun as (b & w1 & R1 & Hrun).
  assert (w1 = w) as ->.
  { unfold inMap, deref_client, deref_entity, mbind, ST_bind, get, from_option in R1.
    destruct (w_clients w !! so_client op) as [c|]; [|done]. unfold mret, ST_ret in R1.
    destruct (w_entities w !! cl_entity c); [|done]. by injection R1 as <- <-. }
  destruct b; [by injection Hrun as <- <-|]. unfold destroyClient, deref_client, deref_entity, mbind, ST_bind, get,
    from_option in Hrun. destruct (w_clients w !! so_client op) as [c|]; [|done]. unfold mret, ST_ret in Hrun.
  destruct (w_entities w !! cl_entity c); [|done]. injection Hrun as <- <-. cbn. apply delete_subseteq.
Qed.

Lemma consume_server_sub fuel w pending l w' :
  consume_server fuel pending w = (Ok l, w') → w_clients w' ⊆ w_clients w.
Proof.
  revert w pending. induction fuel as [|fuel IH]; intros w pending Hrun; cbn [consume_server] in Hrun;
    unfold mbind at 1, ST_bind at 1, get in Hrun; destruct (lf_pop _) as [[op q]|]; try done;
    try by injection Hrun as <- <-.
  apply bind_ok_inv in Hrun as ([] & w1 & R1 & Hrun). injection R1 as <-.
  apply bind_ok_inv in Hrun as (k & w2 & R2 & Hrun). apply IH in Hrun. apply run_server_operation_sub in R2.
  by transitivity (w_clients w2).
Qed.

Lemma server_operations_keep : keeps_clients server_runScheduledOperations.
Proof.
  intros w w' Hrun. apply clients_kept_sub. unfold server_runScheduledOperations in Hrun.
  apply bind_ok_inv in Hrun as (w0 & w1 & R1 & Hrun). injection R1 as <- <-.
  apply bind_ok_inv in Hrun as (l & w1 & R1 & Hrun). rewrite push_operations in Hrun. injection Hrun as <-.
  by apply consume_server_sub in R1.
Qed.

(** ** Bytes *)

(** The connection of [scheduleRead(len, true)] after [bs] has come. *)
Definition reading (len : Z) (bs : list Z) (reads : list Reading) (c : Connection) : Connection :=
  mkConnection (set_buffer (splice 0 bs (p_buffer (cn_packet c))) (Packet.reset (cn_packet c))) 0 reads 1 true.

Lemma arrive_step p len bs b l c n :
  length (p_buffer (cn_packet c)) = buffer_size → (len ≤ Z.of_nat buffer_size)%Z →
  (Z.of_nat (length (bs ++ b)) ≤ len)%Z →
  let got := Z.of_nat (length (bs ++ b)) in
  arrive p b (put_connection p (reading len bs [mkReading 0 len (Z.of_nat (length bs))] c) l n) =
    (Ok tt, if (got =? len)%Z then put_connection p (reading len (bs ++ b) [] c) (l ++ [(p, OnRead (ReadDone got))]) n
            else put_connection p (reading len (bs ++ b) [mkReading 0 len got] c) l n).
Proof.
  intros Hbuf Hlen Hgot got. apply wp_eq, wp_bind. eapply wp_deref_connection; [apply lookup_put|].
  cbn [cn_reads reading r_got r_length r_offset]. cbv zeta. rewrite <-Nat2Z.inj_add, <-length_app. fold got.
  rewrite (proj2 (Z.ltb_ge len got)) by lia. rewrite Z.add_0_l.
  assert (store (Z.of_nat (length bs)) b (cn_packet (reading len bs [mkReading 0 len (Z.of_nat (length bs))] c)) =
    (Ok tt, cn_packet (reading len (bs ++ b) [] c))) as Hst.
  { unfold store, mbind, ST_bind, get. rewrite length_app in Hgot. unfold buffer_size in *.
    rewrite Nat2Z.id, bool_decide_true by lia.
    unfold put. do 2 f_equal. cbn [reading cn_packet set_buffer p_buffer]. unfold reading, set_buffer. cbn [cn_packet].
    f_equal. apply (splice_splice 0). lia. }
  unfold reading in *. cbn [cn_packet] in *. rewrite Hst. cbn [fst snd]. apply wp_bind, (wp_lift_ok _ tt); [done|].
  apply wp_bind. eapply run_wp; [apply upd_connection_eq, lookup_put|]. rewrite put_connection_twice.
  destruct (Z.eqb_spec got len).
  - apply wp_bind. eapply run_wp; [apply upd_connection_eq, lookup_put|]. rewrite put_connection_twice.
    eapply run_wp; [apply post_put|]. by rewrite !app_nil_r.
  - eapply run_wp; [apply upd_connection_eq, lookup_put|]. rewrite put_connection_twice. by rewrite !app_nil_r.
Qed.

Lemma arrive_idle p b c l n :
  cn_reads c = [] → arrive p b (put_connection p c l n) = (Ok tt, put_connection p c l n).
Proof.
  intros Hr. apply wp_eq, wp_bind. eapply wp_deref_connection; [apply lookup_put|]. by rewrite Hr.
Qed.

Lemma arrive_all p len bs chunks l c n rest :
  length (p_buffer (cn_packet c)) = buffer_size → (len ≤ Z.of_nat buffer_size)%Z →
  Z.of_nat (length (bs ++ concat chunks)) = len → (Z.of_nat (length bs) < len)%Z →
  run_moves ((Arrive p <$> chunks) ++ rest)
    (put_connection p (reading len bs [mkReading 0 len (Z.of_nat (length bs))] c) l n) =
  run_moves rest (put_connection p (reading len (bs ++ concat chunks) [] c) (l ++ [(p, OnRead (ReadDone len))]) n).
Proof.
  intros Hbuf Hmax. revert bs. induction chunks as [|b chunks IH]; intros bs Hlen Hless; cbn [concat] in *.
  { rewrite app_nil_r in Hlen. lia. }
  rewrite fmap_cons. cbn [app]. rewrite !app_assoc in *. rewrite !length_app in Hlen.
  eapply eq_trans; [eapply run_moves_cons, (arrive_step p len bs b); [done|done|rewrite length_app; lia]|].
  case_match eqn:Heq.
  - apply Z.eqb_eq in Heq. rewrite Heq. rewrite length_app in Heq.
    assert (concat chunks = []) as -> by (apply length_zero_iff_nil; lia). rewrite app_nil_r. clear IH Hlen Hless Heq.
    induction chunks as [|b' chunks IH]; [done|]. rewrite fmap_cons. cbn [app].
    by rewrite (run_moves_cons (Arrive p b') _ _ _ (arrive_idle p b' (reading len (bs ++ b) [] c) _ _ eq_refl)).
  - apply Z.eqb_neq in Heq. rewrite length_app in Heq. apply IH; rewrite !length_app; lia.
Qed.

Lemma run_moves_one m n : run_moves [m] n = run_move m n.
Proof. cbn. unfold mbind, ST_bind. by destruct (run_move m n) as [[[]|e] n']. Qed.

(** The callback of a read that is complete. *)
Lemma on_read_done p size c n :
  n_connections n !! p = Some c →
  on_read p (ReadDone size) n =
    let '(packet, requests) := handleRead p (u8 (cn_readTimes c + 1)) (addSize (u16 size) (cn_packet c)) in
    for_each (run_request p) requests
      (put_connection p (set_packet packet (set_readTimes (u8 (cn_readTimes c + 1)) c)) [] n).
Proof.
  intros Hc. unfold on_read, mbind, ST_bind. rewrite (upd_connection_eq p _ c) by done. cbn beta iota.
  rewrite (upd_connection_eq p _ _ _ (lookup_put _ _ _ _)), put_connection_twice.
  set (c1 := set_packet _ _). set (n1 := put_connection p c1 _ n).
  assert (deref_connection p n1 = (Ok c1, n1)) as -> by (apply wp_eq; by eapply wp_deref_connection; [apply lookup_put|]).
  cbn [c1 set_packet set_readTimes cn_readTimes cn_packet]. destruct (handleRead _ _ _) as [packet requests].
  unfold n1. by rewrite (upd_connection_eq p _ _ _ (lookup_put _ _ _ _)), put_connection_twice.
Qed.

(** A packet that begins with its opcode is sent as [sendBuffer] gives it. *)
Lemma send_buffer packet :
  (2 ≤ bufferLen packet)%Z → send packet = sendBuffer packet.
Proof.
  intros Hlen. assert (∃ v, peek_int 2 0 packet = (Ok v, packet)) as [v Hv].
  { eexists. unfold peek_int, mbind, ST_bind, get. cbv beta iota. rewrite (proj2 (Z.ltb_ge _ _)) by lia. reflexivity. }
  unfold send, mbind, ST_bind. by rewrite Hv.
Qed.

(** C13. When [scheduleRead(len, true)] has been called on an open client and
    [len] bytes have come, in pieces of any sizes, the callback gives
    [handleRead] the packet with exactly these bytes, as its first read, and
    does what [handleRead] asks; the timeout is in progress all along. *)
Theorem read_delivers (n : Net) (p : positive) (cl : Client) (c : Connection) (len : Z) (chunks : list (list Z))
    (Hcl : w_clients (n_world n) !! p = Some cl) (Hopen : cl_open cl = true)
    (Hc : n_connections n !! p = Some c) (Hidle : cn_reads c = []) (Hpacket : packet_ok (cn_packet c))
    (Hlen : (0 < len ≤ 1024)%Z) (Hchunks : Z.of_nat (length (concat chunks)) = len) :
  let posted := cancelled p true c in
  let '(packet, requests) := handleRead p 1 (receive (concat chunks) (Packet.reset (cn_packet c))).2 in
  run_moves (Ask p (ScheduleRead len true) :: (Arrive p <$> chunks) ++ [Handle (length (n_posted n ++ posted))]) n =
    for_each (run_request p) requests (put_connection p (mkConnection packet 1 [] 1 true) posted n).
Proof.
  intros posted. destruct (handleRead _ _ _) as [packet requests] eqn:Hh.
  eapply eq_trans; [eapply run_moves_cons, (scheduleRead_eq p len true c cl); done|]. rewrite Hopen. fold posted.
  assert (scheduled len true true c = reading len [] [mkReading 0 len (Z.of_nat (length (@nil Z)))] c) as ->.
  { unfold scheduled, reading. rewrite Hidle. cbn. f_equal. }
  eapply eq_trans; [apply arrive_all; [apply Hpacket|unfold buffer_size; lia|done|cbn; lia]|].
  cbn [app]. set (n1 := put_connection p _ _ n).
  assert (n_posted n1 !! length (n_posted n ++ posted) = Some (p, OnRead (ReadDone len))) as Hi.
  { cbn. rewrite app_assoc. by apply list_lookup_middle. }
  set (q := (receive (concat chunks) (Packet.reset (cn_packet c))).2) in *.
  assert (addSize (u16 len) (cn_packet (reading len (concat chunks) [] c)) = q) as Hq.
  { unfold q, receive, recvBuffer, store, mbind, ST_bind, get, put. cbn [fst Packet.reset p_size].
    destruct Hpacket as (Hbuf & _). rewrite bool_decide_true by (unfold buffer_size; cbn; lia). by rewrite Hchunks. }
  rewrite run_moves_one. cbn [run_move]. rewrite (handle_event _ _ _ _ Hi). cbn [on_event].
  assert (set_posted (delete (length (n_posted n ++ posted)) (n_posted n1)) n1 =
    put_connection p (reading len (concat chunks) [] c) posted n) as ->.
  { unfold n1, put_connection, set_posted. cbn. f_equal. rewrite app_assoc, delete_take_drop.
    rewrite take_app_length, drop_ge, app_nil_r; [done|]. rewrite !length_app. cbn. lia. }
  rewrite (on_read_done p len _ _ (lookup_put _ _ _ _)), Hq.
  change (u8 (cn_readTimes _ + 1)) with 1%Z. by rewrite Hh, put_connection_twice, app_nil_r.
Qed.
End connection.

(** ** Connections that run *)

Section example.
#[local] Instance example_runtime : Runtime := reference true.
#[local] Instance example_laws : RuntimeLaws := reference_laws true.
#[local] Instance example_behaviour : Behaviour := idle true.

(** An application that reads a header of four bytes again and again. *)
Definition headers (p : positive) (times : Z) (packet : Packet) : Packet * list request :=
  (packet, [ScheduleRead 4 true]).

Lemma headers_well_read : well_read headers.
Proof. by intros p t packet. Qed.

(** A client is accepted, and the server waits for its first bytes. *)
Definition accepted : list move :=
  [Connect 7 (Vec3 (f32_of_Z 0) (f32_of_Z 0) (f32_of_Z 0)) (replicate 1024 0%Z); Ask 1 (ScheduleRead 4 true)].

Definition waiting_net : Net := (run_moves headers accepted Net_new).2.

(** The states of a run that does not fail are reachable. *)
Lemma run_moves_reachable handleRead l n n' :
  Forall allowed l → net_reachable handleRead n → run_moves handleRead l n = (Ok tt, n') → net_reachable handleRead n'.
Proof.
  revert n. induction l as [|m l IH]; intros n Hl Hn Hrun; [by injection Hrun as <-|].
  apply Forall_cons_1 in Hl as [Hm Hl]. cbn in Hrun. apply bind_ok_inv in Hrun as ([] & n1 & R1 & Hrun).
  eapply (IH n1); [done| |done]. by eapply nr_move.
Qed.

Lemma accepted_runs : (run_moves headers accepted Net_new).1 = Ok tt.
Proof. by vm_compute. Qed.

Lemma accepted_allowed : Forall allowed accepted.
Proof. apply Forall_cons. split; [by vm_compute|]. by apply Forall_singleton. Qed.

Lemma waiting_reachable : net_reachable headers waiting_net.
Proof.
  apply (run_moves_reachable headers accepted Net_new); [exact accepted_allowed|exact (nr_new headers)|].
  rewrite <-accepted_runs. apply surjective_pairing.
Qed.

Lemma waiting_client : w_clients (n_world waiting_net) !! 1%positive = Some (mkClient INITIALIZED 1 true).
Proof. by vm_compute. Qed.

Lemma waiting_timed c : n_connections waiting_net !! 1%positive = Some c → cn_timed c = true.
Proof.
  intros Hc. assert (cn_timed <$> n_connections waiting_net !! 1%positive = Some true) as Ht by by vm_compute.
  rewrite Hc in Ht. by injection Ht.
Qed.

Lemma waiting_closable : closable (n_world waiting_net) (mkClient INITIALIZED 1 true).
Proof.
  exists (mkEntity 7 (Some 1%positive) None true (Vec3 (f32_of_Z 0) (f32_of_Z 0) (f32_of_Z 0)) None).
  split; [by vm_compute|discriminate].
Qed.

Lemma net_guarded_witness :
  ∃ l n', Forall (λ m, m = Expire 1 ∨ ∃ i, m = Handle i) l ∧
    run_moves headers l waiting_net = (Ok tt, n') ∧ closed 1 (n_world n').
Proof.
  destruct (net_guarded headers waiting_net 1 _ headers_well_read waiting_reachable waiting_client)
    as (c & Hc & _ & _ & _ & Hlive).
  exact (proj2 (Hlive ltac:(discriminate) (waiting_timed c Hc)) waiting_closable).
Defined.

(** The timeout expires while the main thread closes and destroys the client:
    its callback is posted already, and uses the client that is gone. *)
Example timeout_dangles :
  (run_moves headers
     (accepted ++ [Expire 1; Ask 1 CloseClient; Elsewhere server_runScheduledOperations; Handle 0]) Net_new).1 =
    Fail (UB Dangling).
Proof. by vm_compute. Qed.

(** So does a read that is complete. *)
Example read_dangles :
  (run_moves headers
     (accepted ++ [Arrive 1 [1; 0; 0; 0]%Z; Ask 1 CloseClient; Elsewhere server_runScheduledOperations; Handle 0])
     Net_new).1 = Fail (UB Dangling).
Proof. by vm_compute. Qed.

(** A client that sent its bytes in time is closed: the callback of the timer
    was posted before that of the read cancelled it. *)
Example timeout_too_late :
  let '(r, n) := run_moves headers (accepted ++ [Arrive 1 [1; 0; 0; 0]%Z; Expire 1; Handle 0; Handle 0]) Net_new in
  r = Ok tt ∧ cl_status <$> w_clients (n_world n) !! 1%positive = Some CLOSED.
Proof. by vm_compute. Qed.

(** The window of a read may be larger than the buffer of the packet. *)
Example read_overflows :
  (run_moves headers [Connect 8 (Vec3 (f32_of_Z 0) (f32_of_Z 0) (f32_of_Z 0)) (replicate 1024 0%Z);
     Ask 1 (ScheduleRead 1100 true); Arrive 1 (replicate 1100 1%Z)] Net_new).1 = Fail (UB OutOfBounds).
Proof. by vm_compute. Qed.

(** A header that comes in three pieces. *)
Lemma read_delivers_witness :
  (run_moves headers [Ask 1 (ScheduleRead 4 true); Arrive 1 [1]%Z; Arrive 1 []; Arrive 1 [2; 3; 4]%Z; Handle 1]
     (set_connections {[1%positive := Connection_new (replicate 1024 0%Z)]} waiting_net)).1 = Ok tt.
Proof.
  set (n := set_connections _ waiting_net). set (c := Connection_new (replicate 1024 0%Z)).
  assert (packet_ok (cn_packet c)) as Hp by (vm_compute; repeat split; discriminate).
  pose proof (read_delivers headers n 1 _ c 4 [[1]; []; [2; 3; 4]]%Z waiting_client eq_refl
    (lookup_insert_eq _ _ _) eq_refl Hp ltac:(lia) eq_refl) as Hd.
  exact (eq_trans (f_equal fst Hd) ltac:(by vm_compute)).
Defined.
End example.
