(* ===== verification/Work.v ===== *)
(** * Works ([src/executor/abstract_work.hpp], [src/executor/abstract_work.cpp])

    The works that an [Executor] runs, with what they own: a [ClientWork] has
    the packet of a client, which its destructor destroys; a [FutureWork] is
    ready when its future is; a [PackagedWork] carries values. A work that
    reads past the end of its packet closes its client
    ([Server::onWorkError]). The parameters of [Executor.v] are defined here,
    but for what the handlers do. Works, packets and futures live in heaps;
    the address of a work is not used twice. *)

From Stdlib Require Import ZArith Lia.
From stdpp Require Import base list gmap option numbers sets.
From S2P Require Import Prelude Float32 Offset Lockfree Executor Packet World Reference Cell Cluster Map Server.

Section work.
Context `{Behaviour}.

(** The functions of type [ExecutorWork], the values of futures and packages,
    and the tasks. *)
Context {F V P T : Type}.

Inductive WorkKind :=
  | ClientWork (packet : positive)
  | FutureWork (future : positive)
  | PackagedWork (package : P).

Record AbstractWork := mkWork {
  wk_handler : F;                    (* _handler *)
  wk_executor : option positive;     (* Client* _executor *)
  wk_kind : WorkKind;
}.

(** The server, and what its works refer to. A future has a value once its
    promise is kept; [get] takes it. *)
Record Shop := mkShop {
  sh_world : World;
  sh_works : gmap positive AbstractWork;
  sh_next : positive;                          (* the next address of a work *)
  sh_packets : gmap positive Packet;
  sh_futures : gmap positive (option V);
}.

Definition set_sh_world w (s : Shop) := mkShop w (sh_works s) (sh_next s) (sh_packets s) (sh_futures s).
Definition set_works m (s : Shop) := mkShop (sh_world s) m (sh_next s) (sh_packets s) (sh_futures s).
Definition set_packets m (s : Shop) := mkShop (sh_world s) (sh_works s) (sh_next s) m (sh_futures s).
Definition set_futures m (s : Shop) := mkShop (sh_world s) (sh_works s) (sh_next s) (sh_packets s) m.

Local Notation M := (ST Shop).
Local Notation request := (@Executor.request positive T).

Definition shop_world {A} (m : ST World A) : M A := λ s,
  let '(r, w) := m (sh_world s) in (r, set_sh_world w s).

Definition deref_work (j : positive) : M AbstractWork :=
  s ← get; from_option (UB Dangling) (sh_works s !! j).

(** The constructors. *)
Definition new_work (wk : AbstractWork) : M positive :=
  s ← get;
  _ ← put (mkShop (sh_world s) (<[sh_next s := wk]> (sh_works s)) (Pos.succ (sh_next s)) (sh_packets s) (sh_futures s));
  mret (sh_next s).

Definition new_ClientWork (handler : F) (executor : option positive) (packet : positive) : M positive :=
  new_work (mkWork handler executor (ClientWork packet)).
Definition new_FutureWork (handler : F) (executor : option positive) (future : positive) : M positive :=
  new_work (mkWork handler executor (FutureWork future)).
Definition new_PackagedWork (handler : F) (executor : option positive) (package : P) : M positive :=
  new_work (mkWork handler executor (PackagedWork package)).

(** [ready()], which [FutureWork] overrides. *)
Definition ready (j : positive) (s : Shop) : bool :=
  match sh_works s !! j with
  | Some (mkWork _ _ (FutureWork f)) =>
      match sh_futures s !! f with Some (Some _) => true | _ => false end
  | _ => true
  end.

(** [ClientWork::packet()], and a computation on it. *)
Definition on_packet {A} (j : positive) (m : ST Packet A) : M A :=
  wk ← deref_work j;
  match wk_kind wk with
  | ClientWork p => λ s,
      match sh_packets s !! p with
      | Some packet => let '(r, packet') := m packet in (r, set_packets (<[p := packet']> (sh_packets s)) s)
      | None => (Fail (UB Dangling), s)
      end
  | _ => fail Abort                    (* not a ClientWork: the call does not type *)
  end.

(** [FutureWork::get()]: it would wait for a value that is not there. *)
Definition future_get (j : positive) : M V :=
  wk ← deref_work j;
  match wk_kind wk with
  | FutureWork f =>
      s ← get;
      match sh_futures s !! f with
      | Some (Some v) => _ ← put (set_futures (delete f (sh_futures s)) s); mret v
      | _ => fail NoFuel
      end
  | _ => fail Abort
  end.

(** [PackagedWork::get()] *)
Definition package_of (j : positive) : M P :=
  wk ← deref_work j;
  match wk_kind wk with PackagedWork package => mret package | _ => fail Abort end.

(** [Packet::destroy()] *)
Definition packet_destroy (p : positive) : M unit :=
  s ← get;
  match sh_packets s !! p with
  | Some packet => _ ← lift (Packet_dtor packet).1; put (set_packets (delete p (sh_packets s)) s)
  | None => fail (UB Dangling)
  end.

(** The destructors, and [delete]. *)
Definition delete_work (j : positive) : M unit :=
  wk ← deref_work j;
  _ ← (match wk_kind wk with ClientWork p => packet_destroy p | _ => mret tt end);
  modify (λ s, set_works (delete j (sh_works s)) s).

(** [AbstractWork::triggerError] and [Server::onWorkError] *)
Definition onWorkError (j : positive) : M unit :=
  wk ← deref_work j;
  client ← from_option (UB NullDeref) (wk_executor wk);
  shop_world (close client).

(** What the handlers do: what they schedule, the work they return. *)
Context (invoke : F → positive → Shop → list request * outcome (option positive) * Shop).

Definition handler (j : positive) (s : Shop) : list request * outcome (option positive) * Shop :=
  match sh_works s !! j with
  | Some wk => invoke (wk_handler wk) j s
  | None => ([], Fail (UB Dangling), s)
  end.

(** ** Ownership *)

Definition live (s : Shop) (j : positive) : Prop := is_Some (sh_works s !! j).

(** Every [ClientWork] has a packet that is there, and is its own. *)
Record owned (s : Shop) : Prop := {
  ow_fresh j : live s j → (j < sh_next s)%positive;
  ow_packet j wk p : sh_works s !! j = Some wk → wk_kind wk = ClientWork p → is_Some (sh_packets s !! p);
  ow_single j j' wk wk' p :
    sh_works s !! j = Some wk → wk_kind wk = ClientWork p →
    sh_works s !! j' = Some wk' → wk_kind wk' = ClientWork p → j = j';
}.

(** What a handler may do: it succeeds, schedules tasks only, keeps the
    ownership, deletes no work, gives new ones new addresses, and returns a
    new one, if any. *)
Definition civil : Prop := ∀ j wk s, owned s → sh_works s !! j = Some wk → ready j s = true →
  ∃ reqs next s', invoke (wk_handler wk) j s = (reqs, Ok next, s') ∧ Forall is_task reqs ∧
    owned s' ∧ (∀ k, live s k → live s' k) ∧ (∀ k, live s' k → live s k ∨ (sh_next s ≤ k)%positive) ∧
    (sh_next s ≤ sh_next s')%positive ∧ ∀ k, next = Some k → (sh_next s ≤ k)%positive ∧ live s' k.

Lemma delete_work_ok j wk s :
  owned s → sh_works s !! j = Some wk →
  ∃ s', delete_work j s = (Ok tt, s') ∧ owned s' ∧ sh_works s' = delete j (sh_works s) ∧ sh_next s' = sh_next s ∧
    sh_packets s' = match wk_kind wk with ClientWork p => delete p (sh_packets s) | _ => sh_packets s end ∧
    sh_world s' = sh_world s.
Proof.
  intros [Hf Hp Hs] Hj. unfold delete_work, deref_work, mbind, ST_bind, get, from_option. rewrite Hj.
  assert (∀ packets, (∀ k wk' p, sh_works s !! k = Some wk' → k ≠ j → wk_kind wk' = ClientWork p → is_Some (packets !! p)) →
    owned (set_works (delete j (sh_works s)) (set_packets packets s))) as Ho.
  { intros packets Hpk. split; unfold live; cbn.
    - intros k [wk' Hk]. apply lookup_delete_Some in Hk as [_ Hk]. apply Hf. by exists wk'.
    - intros k wk' p Hk Hkind. apply lookup_delete_Some in Hk as [Hne Hk]. by apply (Hpk k wk').
    - intros k k' wk1 wk2 p Hk Hk1 Hk' Hk2. apply lookup_delete_Some in Hk as [_ Hk], Hk' as [_ Hk']. by eapply Hs. }
  unfold mret, ST_ret. destruct (wk_kind wk) as [p| |] eqn:Hkind.
  - destruct (Hp j wk p Hj Hkind) as [packet Hpacket].
    destruct (Packet_dtor_ok packet) as [opcode Hdtor].
    unfold packet_destroy, mbind, ST_bind, get, put. rewrite Hpacket, Hdtor. eexists. split; [done|].
    split; [|done]. apply Ho. intros k wk' p' Hk Hne Hk'. rewrite lookup_delete_ne; [by eapply Hp|].
    intros <-. apply Hne. by eapply Hs.
  - eexists. split; [done|]. split; [|done]. destruct s. apply Ho. intros. by eapply Hp.
  - eexists. split; [done|]. split; [|done]. destruct s. apply Ho. intros. by eapply Hp.
Qed.

(** A new work that has no packet. *)
Lemma new_work_ok wk s :
  owned s → (∀ p, wk_kind wk ≠ ClientWork p) →
  let '(r, s') := new_work wk s in
  r = Ok (sh_next s) ∧ owned s' ∧ sh_works s' = <[sh_next s := wk]> (sh_works s) ∧ sh_world s' = sh_world s ∧
  (sh_next s ≤ sh_next s')%positive ∧ (∀ k, live s k → live s' k ∧ sh_works s' !! k = sh_works s !! k) ∧
  (∀ k, live s' k → live s k ∨ (sh_next s ≤ k)%positive) ∧ live s' (sh_next s).
Proof.
  intros [Hf Hp Hs] Hkind. unfold new_work, mbind, ST_bind, get, put, mret, ST_ret. set (s' := mkShop _ _ _ _ _).
  assert (∀ k wk', sh_works s' !! k = Some wk' → k = sh_next s ∧ wk' = wk ∨ sh_works s !! k = Some wk') as Hm.
  { intros k wk' Hk. cbn in Hk. apply lookup_insert_Some in Hk as [[<- <-]|[_ ?]]; auto. }
  assert (∀ k, live s k → sh_works s' !! k = sh_works s !! k) as Hold.
  { intros k Hk%Hf. cbn. rewrite lookup_insert_ne; [done|lia]. }
  split_and!; [done| |done|done|cbn; lia| | |eexists; apply lookup_insert_eq].
  - split.
    + intros k [wk' [[-> _]|Hk]%Hm]; cbn; [lia|]. assert (k < sh_next s)%positive; [apply Hf; by exists wk'|lia].
    + intros k wk' p [[_ ->]|Hk]%Hm Hk'; [by apply Hkind in Hk'|]. by eapply Hp.
    + intros k k' wk1 wk2 p [[_ ->]|Hk]%Hm Hk1 [[_ ->]|Hk']%Hm Hk2; try (by apply Hkind in Hk1); try (by apply Hkind in Hk2).
      by eapply Hs.
  - intros k Hk. split; [|by apply Hold]. unfold live. by rewrite Hold.
  - intros k [wk' [[-> _]|Hk]%Hm]; [right; lia|left; by exists wk'].
Qed.

Local Notation serve := (serve ready handler delete_work).
Local Notation serve_all := (serve_all ready handler delete_work).
Local Notation serves := (serves ready handler delete_work).

(** What serving one work does. *)
Lemma serve_ok j s :
  civil → owned s → live s j →
  serves [j] s ∧ owned (serve j s).2 ∧ (sh_next s ≤ sh_next (serve j s).2)%positive ∧
  (∀ k, live s k → k ≠ j → live (serve j s).2 k) ∧
  (∀ k, live (serve j s).2 k → (live s k ∧ k ∉ gone ready j s) ∨ (sh_next s ≤ k)%positive) ∧
  NoDup (serve j s).1 ∧
  (∀ k, k ∈ (serve j s).1 → live (serve j s).2 k ∧ (k = j ∨ (sh_next s ≤ k)%positive)).
Proof.
  intros Hc Ho [wk Hj]. unfold Executor.serves, Executor.serve, gone. destruct (ready j s) eqn:Hr.
  - destruct (Hc j wk s Ho Hj Hr) as (reqs & next & s1 & Hrun & Hreqs & Ho1 & Hl1 & Hb1 & Hn1 & Hnext).
    assert (handler j s = (reqs, Ok next, s1)) as Hh by (unfold handler; by rewrite Hj).
    destruct (Hl1 j) as [wk1 Hj1]; [by exists wk|].
    destruct (delete_work_ok j wk1 s1 Ho1 Hj1) as (s2 & Hd & Ho2 & Hw2 & Hn2 & _).
    rewrite Hh, Hd. cbn [fst snd].
    assert (∀ k, live s1 k → k ≠ j → live s2 k) as Hl2.
    { intros k [wk' Hk] Hne. exists wk'. by rewrite Hw2, lookup_delete_ne. }
    split_and!; [|done|done|by rewrite Hn2|by auto| | |].
    + intros _. exists reqs, next, s1. by rewrite Hd.
    + intros k [wk' Hk]. rewrite Hw2 in Hk. apply lookup_delete_Some in Hk as [Hne Hk].
      destruct (Hb1 k) as [?|?]; [by exists wk'| |by right]. left. split; [done|]. by intros ->%list_elem_of_singleton.
    + destruct next; [apply NoDup_singleton|apply NoDup_nil_2].
    + intros k Hk. destruct next as [k'|]; [|by apply elem_of_nil in Hk].
      apply list_elem_of_singleton in Hk as ->. destruct (Hnext k' eq_refl) as [Hge Hl].
      split; [|by right]. apply Hl2; [done|]. intros ->. assert (j < sh_next s)%positive; [|lia].
      apply (ow_fresh s Ho). by exists wk.
  - cbn [fst snd]. split_and!; [done|done|done|lia|done| |apply NoDup_singleton|].
    { intros k Hk. left. split; [done|]. by intros ?%elem_of_nil. }
    intros k ->%list_elem_of_singleton. split; [by exists wk|by left].
Qed.

(** What serving the works of a queue does. *)
Lemma serve_all_ok js s :
  civil → owned s → NoDup js → Forall (live s) js →
  serves js s ∧ owned (serve_all js s).2 ∧ (sh_next s ≤ sh_next (serve_all js s).2)%positive ∧
  (∀ k, live s k → k ∉ js → live (serve_all js s).2 k) ∧
  (∀ k, live (serve_all js s).2 k → (live s k ∧ k ∉ gone_all ready handler delete_work js s) ∨ (sh_next s ≤ k)%positive) ∧
  NoDup (serve_all js s).1 ∧
  (∀ k, k ∈ (serve_all js s).1 → live (serve_all js s).2 k ∧ (k ∈ js ∨ (sh_next s ≤ k)%positive)).
Proof.
  intros Hc. revert s. induction js as [|j js IH]; intros s Ho Hnd Hl.
  { cbn. split_and!; [done|done|lia|done| |apply NoDup_nil_2|by intros k ?%elem_of_nil].
    intros k Hk. left. split; [done|]. by intros ?%elem_of_nil. }
  apply NoDup_cons in Hnd as [Hj Hnd]. apply Forall_cons_1 in Hl as [Hlj Hl].
  destruct (serve_ok j s Hc Ho Hlj) as ([Hs1 _] & Ho1 & Hn1 & Hk1 & Hb1 & Hd1 & Hr1).
  cbn [Executor.serves Executor.serve_all Executor.gone_all]. destruct (serve j s) as [l1 s1]. cbn [fst snd] in *.
  assert (Forall (live s1) js) as Hl1.
  { apply Forall_forall. intros k Hk. rewrite Forall_forall in Hl. apply Hk1; [by apply Hl|]. by intros ->. }
  destruct (IH s1 Ho1 Hnd Hl1) as (Hs2 & Ho2 & Hn2 & Hk2 & Hb2 & Hd2 & Hr2).
  destruct (serve_all js s1) as [l2 s2]. cbn [fst snd] in *.
  assert (∀ k, live s k → (k < sh_next s)%positive) as Hold by apply Ho.
  assert (∀ k, live s1 k → (k < sh_next s1)%positive) as Hold1 by apply Ho1.
  assert (∀ k, k ∈ l1 → k ∉ js) as Hnew.
  { intros k Hk Hin. destruct (Hr1 k Hk) as [_ [->|Hge]]; [done|].
    rewrite Forall_forall in Hl. specialize (Hold k (Hl k Hin)). lia. }
  split_and!; [exact Hs1|exact Hs2|done|lia| | | |].
  - intros k Hk [Hne Hnin]%not_elem_of_cons. by apply Hk2; [apply Hk1|].
  - intros k Hk. destruct (Hb2 k Hk) as [[Hk' Hng]|?]; [|right; lia].
    destruct (Hb1 k Hk') as [[Hks Hng']|?]; [left|by right]. split; [done|]. by intros [?|?]%elem_of_app.
  - apply NoDup_app. split_and!; [done| |done]. intros k Hk Hk'. destruct (Hr2 k Hk') as [_ [Hin|Hge]]; [by apply (Hnew k)|].
    destruct (Hr1 k Hk) as [Hlive _]. specialize (Hold1 k Hlive). lia.
  - intros k [Hk|Hk]%elem_of_app.
    + destruct (Hr1 k Hk) as [Hlive Hor]. split; [by apply Hk2; [|apply Hnew]|]. destruct Hor as [->|?]; [left; by left|by right].
    + destruct (Hr2 k Hk) as [Hlive [Hin|Hge]]; (split; [done|]); [left; by right|right; lia].
Qed.

(** ** Rounds *)

Context (run_task : T → Shop → list request * Shop) (now : Shop → Z).
Context `{Hlf : Lockfree positive} {cap : nat} `{!LockfreeLaws positive (Some cap)}.

Local Notation run_jobs := (run_jobs ready handler onWorkError delete_work).
Local Notation executeJobs := (executeJobs ready handler run_task onWorkError delete_work now).

(** The works of [n] turns of the executor, and the same on lists. *)
Fixpoint rounds (fuel n : nat) : ST (@Executor positive T Shop Hlf) unit :=
  match n with
  | O => mret tt
  | S n => success ← run_jobs fuel; if success : bool then rounds fuel n else mret tt
  end.

Fixpoint rounds_of (n : nat) (js : list positive) (s : Shop) : list positive * Shop :=
  match n with
  | O => (js, s)
  | S n => let '(l, s') := serve_all js s in rounds_of n l s'
  end.

(** C23. The executor serves works that own what they use, for any number of
    turns, without a failure: each turn serves the works of the queue in order,
    keeps those whose future is not ready, replaces the others by what they
    return, and deletes each with its packet exactly once. Every client's work
    has a packet of its own, and handlers keep that. After all turns the queue
    holds live works only, and what is in it is what serving lists one after
    the other gives. *)
Theorem works_rounds (fuel n : nat) (js : list positive) (x : @Executor positive T Shop Hlf)
    (Hc : civil) (Hq : lf_contents (_jobs x) = js) (Hcap : length js ≤ cap) (Hfuel : length js < fuel)
    (Hnd : NoDup js) (Ho : owned (e_world x)) (Hl : Forall (live (e_world x)) js)
    (Hfr : ∀ j, j ∈ e_freed x → (j < sh_next (e_world x))%positive ∧ ¬ live (e_world x) j) :
  ∃ x', rounds fuel n x = (Ok tt, x') ∧ lf_contents (_jobs x') = (rounds_of n js (e_world x)).1 ∧
    e_world x' = (rounds_of n js (e_world x)).2 ∧ owned (e_world x') ∧
    Forall (live (e_world x')) (lf_contents (_jobs x')).
Proof.
  revert js x Hq Hcap Hfuel Hnd Ho Hl Hfr. induction n as [|n IH]; intros js x Hq Hcap Hfuel Hnd Ho Hl Hfr.
  { exists x. cbn. by rewrite Hq. }
  destruct (serve_all_ok js (e_world x) Hc Ho Hnd Hl) as (Hs & Ho' & Hn & Hk & Hb & Hd & Hr).
  rewrite Forall_forall in Hl.
  destruct (run_jobs_fifo ready handler onWorkError delete_work js x) as (x1 & Hrun & Hq1 & Hw1 & Hf1); try done.
  { apply Forall_forall. intros j Hj Hin. by apply (Hfr j Hin), Hl. }
  cbn [rounds rounds_of]. destruct (serve_all js (e_world x)) as [l s1] eqn:Hall. cbn [fst snd] in *.
  pose proof (serve_all_length ready handler delete_work js (e_world x)) as Hlen. rewrite Hall in Hlen. cbn in Hlen.
  unfold mbind, ST_bind. rewrite (Hrun fuel Hfuel). rewrite <-Hw1 in *. apply (IH l x1); try done; try lia.
  - apply Forall_forall. intros k Hk'. by apply Hr.
  - intros j Hj%Hf1. assert (j < sh_next (e_world x))%positive as Hlt.
    { apply elem_of_app in Hj as [Hj%gone_all_elem|Hj]; [|by apply Hfr]. by apply (ow_fresh _ Ho), Hl. }
    split; [lia|]. intros [[Hlive Hng]|?]%Hb; [|lia]. apply elem_of_app in Hj as [?|Hj]; [done|]. by apply (Hfr j Hj).
Qed.

(** ** Errors *)

(** A handler that schedules nothing. *)
Definition runs (m : M (option positive)) (s : Shop) : list request * outcome (option positive) * Shop :=
  let '(r, s') := m s in ([], r, s').

(** Reading values that are not all in the packet changes nothing but its
    cursor, and throws. *)
Lemma on_packet_short {A} j wk p packet ts (k : list value → M A) s :
  sh_works s !! j = Some wk → wk_kind wk = ClientWork p → sh_packets s !! p = Some packet →
  readable packet → bytes_ok packet →
  (bufferLen packet < p_read packet + Z.of_nat (sum_list (least_size <$> ts)))%Z →
  ∃ packet', (vs ← on_packet j (map_each read_value ts); k vs) s =
    (Fail (Throw ReadOutOfBounds), set_packets (<[p := packet']> (sh_packets s)) s).
Proof.
  intros Hj Hkind Hp Hr Hb Hshort. pose proof (short_throws ts packet Hr Hb Hshort) as Hthrow.
  unfold on_packet, deref_work, mbind, ST_bind, get, from_option. rewrite Hj. unfold mret, ST_ret.
  rewrite Hkind, Hp. destruct (map_each read_value ts packet) as [r packet']. cbn in Hthrow. subst r. by exists packet'.
Qed.

Context `{!RuntimeLaws}.

(** C16. A malformed packet closes its client: when a handler reads values
    that do not fit into what is left of the packet, the turn ends without a
    failure, the client is closed and handed to the server once, the work and
    its packet are destroyed, and every other packet and work stays. The works
    behind it wait in the queue. *)
Theorem malformed_packet_closes (x : @Executor positive T Shop Hlf) (j client p : positive) (js : list positive)
    (wk : AbstractWork) (packet : Packet) (cl : Client) (en : Entity) (ts : list value_type)
    (k : list value → M (option positive))
    (Hq : lf_contents (_jobs x) = j :: js) (Hlive : j ∉ e_freed x) (Ho : owned (e_world x))
    (Hj : sh_works (e_world x) !! j = Some wk)
    (Hkind : wk_kind wk = ClientWork p) (Hexec : wk_executor wk = Some client)
    (Hp : sh_packets (e_world x) !! p = Some packet) (Hr : readable packet) (Hb : bytes_ok packet)
    (Hshort : (bufferLen packet < p_read packet + Z.of_nat (sum_list (least_size <$> ts)))%Z)
    (Hreads : invoke (wk_handler wk) j (e_world x) =
      runs (vs ← on_packet j (map_each read_value ts); k vs) (e_world x))
    (Hcl : w_clients (sh_world (e_world x)) !! client = Some cl) (Hopen : cl_status cl ≠ CLOSED)
    (Hen : w_entities (sh_world (e_world x)) !! cl_entity cl = Some en)
    (Hcell : ∀ cell, e_cell en = Some cell → is_Some (w_cells (sh_world (e_world x)) !! cell))
    (Hroom : length (lf_contents (w_server_ops (sh_world (e_world x)))) < 1024) :
  ∃ x', (∀ fuel, 0 < fuel → executeJobs fuel x = (Ok tt, x')) ∧ lf_contents (_jobs x') = js ∧
    sh_works (e_world x') = delete j (sh_works (e_world x)) ∧
    sh_packets (e_world x') = delete p (sh_packets (e_world x)) ∧
    w_clients (sh_world (e_world x')) =
      <[client := mkClient CLOSED (cl_entity cl) false]> (w_clients (sh_world (e_world x))) ∧
    lf_contents (w_server_ops (sh_world (e_world x'))) =
      lf_contents (w_server_ops (sh_world (e_world x))) ++ [mkServerOperation CLOSE client].
Proof.
  set (s := e_world x) in *.
  destruct (on_packet_short j wk p packet ts k s Hj Hkind Hp Hr Hb Hshort) as [packet' Hrun].
  set (s1 := set_packets (<[p := packet']> (sh_packets s)) s) in *.
  assert (handler j s = ([], Fail (Throw ReadOutOfBounds), s1)) as Hh.
  { unfold handler. rewrite Hj, Hreads. unfold runs. by rewrite Hrun. }
  pose proof (close_effects (sh_world s1) client cl en Hcl Hen Hopen Hcell) as Hwp.
  apply wp_run in Hwp as ([] & w2 & Hclose & Hclients & _ & Hops).
  set (s2 := set_sh_world w2 s1).
  assert (onWorkError j s1 = (Ok tt, s2)) as He.
  { unfold onWorkError, deref_work, mbind, ST_bind, get, from_option. cbn [s1 sh_works set_packets]. rewrite Hj.
    unfold mret, ST_ret. rewrite Hexec. unfold mret, ST_ret, shop_world. by rewrite Hclose. }
  assert (owned s2) as Ho2.
  { destruct Ho as [Hf Hpk Hs]. split; [done| |done]. intros j' wk' p' Hj' Hk'. cbn.
    destruct (decide (p' = p)) as [->|Hne]; [rewrite lookup_insert_eq; by eexists|].
    rewrite lookup_insert_ne by done. by eapply Hpk. }
  destruct (delete_work_ok j wk s2 Ho2 Hj) as (s3 & Hd & _ & Hw3 & _ & Hp3 & Hworld3).
  assert (ready j s = true) as Hready.
  { unfold ready. rewrite Hj. destruct wk as [f e []]; [done|discriminate|done]. }
  assert (errored handler onWorkError delete_work j s = (Ok tt, s3)) as Herr.
  { unfold errored, mbind, ST_bind. rewrite Hh. cbn [snd]. by rewrite He. }
  destruct (executeJobs_error ready handler run_task onWorkError delete_work now [] js j x)
    as (x' & Hx & Hjs & _ & Hworld).
  - exact Hq.
  - apply NoDup_singleton.
  - by apply Forall_singleton.
  - done.
  - split; [exact Hready|]. exists []. cbn. fold s. by rewrite Hh.
  - cbn. fold s. by rewrite Herr.
  - exists x'. cbn in Hworld. fold s in Hworld. rewrite Herr in Hworld. cbn in Hworld. rewrite Hworld.
    split; [exact Hx|]. split; [exact Hjs|]. rewrite Hkind in Hp3. split; [by rewrite Hw3|].
    split; [by rewrite Hp3; cbn; rewrite delete_insert_eq|]. rewrite Hworld3. cbn. split; [exact Hclients|].
    rewrite Hops. by apply lf_push_free.
Qed.
End work.

(** ** Works that run *)

Section example.
#[local] Instance example_runtime : Runtime := reference true.
#[local] Instance example_laws : RuntimeLaws := reference_laws true.
#[local] Instance example_behaviour : Behaviour := idle true.
#[local] Instance example_jobs : Lockfree positive := list_queue positive (Some 8).
#[local] Instance example_jobs_laws : LockfreeLaws positive (Some 8) := list_queue_laws positive (Some 8).

(** The functions: one reads a message of its packet, one takes its future and
    goes on with a package, one does nothing. *)
Inductive example_function := ReadMessage | TakeFuture | Nothing.

Local Notation shop := (@Shop example_runtime example_function Z Z).

Definition example_invoke (f : example_function) (j : positive) (s : shop) :
    list (@Executor.request positive unit) * outcome (option positive) * shop :=
  match f with
  | ReadMessage => runs (vs ← on_packet j (map_each read_value [TInt 2; TString]); mret None) s
  | TakeFuture => runs (v ← future_get j; k ← new_PackagedWork Nothing None v; mret (Some k)) s
  | Nothing => runs (mret None) s
  end.

Definition example_client : World := (newClient 7 (Vec3 (f32_of_Z 0) (f32_of_Z 0) (f32_of_Z 0)) World_new).2.

(** Two works of client 1, with a packet of one byte and a whole one, and one
    that waits for a future. *)
Definition example_shop : shop := {|
  sh_world := example_client;
  sh_works := {[1 := mkWork ReadMessage (Some 1) (ClientWork 1); 2 := mkWork ReadMessage (Some 1) (ClientWork 2);
                3 := mkWork TakeFuture None (FutureWork 1)]}%positive;
  sh_next := 4;
  sh_packets := {[1 := received_packet [9]%Z; 2 := received_packet [1; 0; 1; 0; 65]%Z]}%positive;
  sh_futures := {[1%positive := None]};
|}.

Definition example_executor (js : list positive) (s : shop) : @Executor positive unit shop example_jobs :=
  mkExecutor (js : @lf_queue positive example_jobs) [] ∅ 1 [] s.

(** The works are below 4, and use the packet of their number, if any. *)
Definition numbered (s : shop) (j : positive) (wk : @AbstractWork example_function Z) : bool :=
  bool_decide (j < 4)%positive &&
  match wk_kind wk with ClientWork p => bool_decide (p = j ∧ is_Some (sh_packets s !! p)) | _ => true end.

Lemma numbered_owned (s : shop) :
  map_Forall (λ j wk, numbered s j wk = true) (sh_works s) → sh_next s = 4%positive → owned s.
Proof.
  intros Hm Hn. assert (∀ j wk, sh_works s !! j = Some wk →
    (j < 4)%positive ∧ ∀ p, wk_kind wk = ClientWork p → p = j ∧ is_Some (sh_packets s !! p)) as Hw.
  { intros j wk Hj. pose proof (Hm j wk Hj) as Hk. unfold numbered in Hk. apply andb_true_iff in Hk as [Hlt Hk].
    apply bool_decide_eq_true in Hlt. split; [done|]. intros p Hp. rewrite Hp in Hk. by apply bool_decide_eq_true in Hk. }
  split.
  - intros j [wk Hj]. rewrite Hn. by apply (Hw j wk).
  - intros j wk p Hj Hk. by apply (Hw j wk).
  - intros j j' wk wk' p Hj Hk Hj' Hk'. destruct (Hw j wk Hj) as [_ H1], (Hw j' wk' Hj') as [_ H2].
    destruct (H1 p Hk) as [-> _]. by destruct (H2 j Hk').
Qed.

Lemma example_owned : owned example_shop.
Proof. apply numbered_owned; [apply (bool_decide_unpack _); by vm_compute|done]. Qed.

Lemma malformed_packet_closes_witness :
  ∃ x', executeJobs ready (handler example_invoke) (λ _ s, ([], s)) onWorkError delete_work (λ _, 0%Z) 1
      (example_executor [1; 2; 3]%positive example_shop) = (Ok tt, x') ∧
    lf_contents (_jobs x') = [2; 3]%positive.
Proof.
  assert (readable (received_packet [9]%Z)) as Hr by (apply (bool_decide_unpack _); by vm_compute).
  assert (bytes_ok (received_packet [9]%Z)) as Hb by (apply (bool_decide_unpack _); by vm_compute).
  destruct (malformed_packet_closes example_invoke (λ _ s, ([], s)) (λ _, 0%Z)
    (example_executor [1; 2; 3]%positive example_shop) 1 1 1 [2; 3]%positive
    (mkWork ReadMessage (Some 1%positive) (ClientWork 1)) (received_packet [9]%Z) (mkClient INITIALIZED 1 true)
    (mkEntity 7 (Some 1%positive) None true (Vec3 (f32_of_Z 0) (f32_of_Z 0) (f32_of_Z 0)) None)
    [TInt 2; TString] (λ _, mret None)) as (x' & Hx & Hjs & _).
  - reflexivity.
  - by intros ?%elem_of_nil.
  - exact example_owned.
  - reflexivity.
  - reflexivity.
  - reflexivity.
  - reflexivity.
  - exact Hr.
  - exact Hb.
  - by vm_compute.
  - reflexivity.
  - by vm_compute.
  - discriminate.
  - by vm_compute.
  - discriminate.
  - apply Nat.ltb_lt. by vm_compute.
  - exists x'. split; [apply Hx; lia|exact Hjs].
Defined.

(** A work keeps the address of its client, which may be gone when it runs. *)
Definition abandoned : shop := set_sh_world (((_ ← close 1; server_runScheduledOperations) example_client).2) example_shop.

Example work_outlives_client :
  ((_ ← close 1; server_runScheduledOperations) example_client).1 = Ok tt ∧
  (executeJobs ready (handler example_invoke) (λ _ s, ([], s)) onWorkError delete_work (λ _, 0%Z) 4
    (example_executor [1; 2; 3]%positive abandoned)).1 = Fail (UB Dangling).
Proof. by vm_compute. Qed.

(** Handlers that take their future if it is there, and read no packet. *)
Definition calm_invoke (f : example_function) (j : positive) (s : shop) :
    list (@Executor.request positive unit) * outcome (option positive) * shop :=
  match f with
  | TakeFuture => runs (k ← new_PackagedWork Nothing None 7%Z; mret (Some k)) s
  | _ => runs (mret None) s
  end.

Lemma calm_civil : civil calm_invoke.
Proof.
  intros j wk s Ho Hj _.
  assert (calm_invoke (wk_handler wk) j s = runs (mret None) s ∨
    calm_invoke (wk_handler wk) j s = runs (k ← new_PackagedWork Nothing None 7%Z; mret (Some k)) s) as [->| ->]
    by (destruct (wk_handler wk); auto).
  { do 3 eexists. split_and!; [reflexivity|constructor|done|done|by left|lia|done]. }
  pose proof (new_work_ok (mkWork Nothing None (PackagedWork 7%Z)) s Ho ltac:(done)) as Hn.
  unfold runs, new_PackagedWork, mbind, ST_bind. destruct (new_work _ s) as [r s'].
  destruct Hn as (-> & Ho' & _ & _ & Hle & Hl & Hb & Hlive).
  do 3 eexists. split_and!; [reflexivity|constructor|done|by intros k Hk; apply Hl|done|done|].
  intros k [= <-]. split; [lia|done].
Qed.

Lemma works_rounds_witness :
  ∃ x', rounds calm_invoke 4 2 (example_executor [1; 2; 3]%positive example_shop) = (Ok tt, x') ∧
    lf_contents (_jobs x') = [3]%positive.
Proof.
  destruct (works_rounds calm_invoke 4 2 [1; 2; 3]%positive (example_executor [1; 2; 3]%positive example_shop))
    as (x' & Hx & Hjs & _).
  - exact calm_civil.
  - reflexivity.
  - cbn. lia.
  - cbn. lia.
  - apply (bool_decide_unpack _). by vm_compute.
  - exact example_owned.
  - apply (bool_decide_unpack _). by vm_compute.
  - by intros j ?%elem_of_nil.
  - exists x'. split; [exact Hx|]. rewrite Hjs. by vm_compute.
Defined.
End example.
