(* ===== verification/Debug.v ===== *)
(** * The debug screen

    [debug/debug.hpp], [debug/reactive.hpp], [debug/reactive.cpp]: what is
    logged, the messages and the counters, and the screen that shows them once a
    second. The screen is the tree of components that the code builds; drawing
    it is left to the terminal library. The counters have no value until
    something is written to them: the constructor leaves them as they are. *)

From Stdlib Require Import ZArith Lia Ascii String.
From stdpp Require Import base list option gmap numbers.
From S2P Require Import Prelude Float32 Offset Hex Lockfree Physics QuadTree World Cell Cluster Map Server Cpu.

#[local] Open Scope Z_scope.

(** ** What is logged *)

Definition LOG_ALL : Z := 0xFFFFFFFF.
Definition LOG_LEVEL_DEBUG : Z := 1.
Definition LOG_LEVEL_INFO : Z := 2.
Definition LOG_LEVEL_WARNING : Z := 4.
Definition LOG_LEVEL_ERROR : Z := 8.
Definition LOG_CLUSTERS : Z := 0x4.
Definition LOG_CLIENT_LIFECYCLE : Z := 0x10.
Definition LOG_PACKET_LIFECYCLE : Z := 0x20.
Definition LOG_SERVER_LOOP : Z := 0x100.
Definition LOG_CELL_CHANGES : Z := 0x400.
Definition LOG_QUADTREE : Z := 0x2000.

(** [~] of a [uint32_t]. *)
Definition not32 (z : Z) : Z := Z.lxor z 0xFFFFFFFF.

Definition LOG_HANDLERS : Z :=
  Z.land (Z.land (Z.land LOG_ALL (not32 LOG_SERVER_LOOP)) (not32 LOG_QUADTREE)) (not32 LOG_CELL_CHANGES).
Definition LOG_LEVEL : Z := Z.lor (Z.lor (Z.lor LOG_LEVEL_DEBUG LOG_LEVEL_INFO) LOG_LEVEL_WARNING) LOG_LEVEL_ERROR.

(** ** Components of the screen *)

Inductive Component :=
  | Text (red : bool) (content : text)
  | StackLayout (children : list Component)
  | FlowLayout (children : list Component)
  | MaxWidth (width : Z) (c : Component)
  | Progress (progress : f32).

(** [std::to_string] of an integer of 64 bits. *)
Definition to_string (n : Z) : text := if n <? 0 then "-"%char :: decimal 20 (- n) else decimal 20 n.

Definition str (s : string) : Component := Text false (of_string s).
Definition num (n : Z) : Component := Text false (to_string n).

(** [std::string(4 - s.length(), ' ').append(s)], where the length is unsigned. *)
Definition pad (s : text) : outcome text :=
  if decide (length s ≤ 4)%nat then Ok (replicate (4 - length s) " "%char ++ s) else Fail (Throw LengthError).

(** [std::setfill('0') << std::setw(4) << std::hex] *)
Definition hex_digit (d : Z) : ascii := if d <? 10 then digit d else ascii_of_nat (Z.to_nat (87 + d)).
Fixpoint hexadecimal (fuel : nat) (n : Z) : text :=
  match fuel with
  | O => []
  | S fuel => hexadecimal fuel (n / 16) ++ [hex_digit (n mod 16)]
  end.

(** ** The screen *)

(** [new]: the members of type [uint16_t] that nothing has written have no
    value. *)
Record Reactive := mkReactive {
  LogLevel : Z;
  LogHandlers : Z;
  _lastUpdate : Z;                       (* nanoseconds *)
  _cpuUsage : f32;
  _messages : list text;
  _numAlivePackets : option Z;
  _packetCount : gmap Z Z;
  _pendingAcceptClient : option Z;
  _pendingCloseClient : option Z;
  _numClients : option Z;
  _cluster : option (Z * Z * Z * Z);     (* _numClusters, _numCells, _numStall, _numStallCandidates *)
}.

Definition set_LogLevel l (r : Reactive) :=
  mkReactive l (LogHandlers r) (_lastUpdate r) (_cpuUsage r) (_messages r) (_numAlivePackets r) (_packetCount r)
    (_pendingAcceptClient r) (_pendingCloseClient r) (_numClients r) (_cluster r).
Definition set_LogHandlers h (r : Reactive) :=
  mkReactive (LogLevel r) h (_lastUpdate r) (_cpuUsage r) (_messages r) (_numAlivePackets r) (_packetCount r)
    (_pendingAcceptClient r) (_pendingCloseClient r) (_numClients r) (_cluster r).
Definition set_lastUpdate t (r : Reactive) :=
  mkReactive (LogLevel r) (LogHandlers r) t (_cpuUsage r) (_messages r) (_numAlivePackets r) (_packetCount r)
    (_pendingAcceptClient r) (_pendingCloseClient r) (_numClients r) (_cluster r).
Definition set_cpuUsage u (r : Reactive) :=
  mkReactive (LogLevel r) (LogHandlers r) (_lastUpdate r) u (_messages r) (_numAlivePackets r) (_packetCount r)
    (_pendingAcceptClient r) (_pendingCloseClient r) (_numClients r) (_cluster r).
Definition set_messages l (r : Reactive) :=
  mkReactive (LogLevel r) (LogHandlers r) (_lastUpdate r) (_cpuUsage r) l (_numAlivePackets r) (_packetCount r)
    (_pendingAcceptClient r) (_pendingCloseClient r) (_numClients r) (_cluster r).
Definition set_packets a m (r : Reactive) :=
  mkReactive (LogLevel r) (LogHandlers r) (_lastUpdate r) (_cpuUsage r) (_messages r) a m
    (_pendingAcceptClient r) (_pendingCloseClient r) (_numClients r) (_cluster r).
Definition set_counts a c n (r : Reactive) :=
  mkReactive (LogLevel r) (LogHandlers r) (_lastUpdate r) (_cpuUsage r) (_messages r) (_numAlivePackets r) (_packetCount r)
    a c n (_cluster r).
Definition set_cluster_counts k (r : Reactive) :=
  mkReactive (LogLevel r) (LogHandlers r) (_lastUpdate r) (_cpuUsage r) (_messages r) (_numAlivePackets r) (_packetCount r)
    (_pendingAcceptClient r) (_pendingCloseClient r) (_numClients r) k.

#[local] Notation M := (ST Reactive).

(** [Reactive::Reactive], at the time [now]. *)
Definition Reactive_new (now : Z) : Reactive :=
  mkReactive LOG_LEVEL LOG_HANDLERS now (f32_of_Z 0) [] None ∅ None None None None.

Section screen.
(** [ndebug]: assertions and logging are compiled out; [counts] is the order in
    which an [unordered_map] is traversed. *)
Context (ndebug : bool) (counts : gmap Z Z → list (Z * Z)).

(** [_PP_IF_LOG] *)
Definition logs (lvl handler : Z) (r : Reactive) : bool :=
  negb ndebug && negb (Z.land lvl LOG_LEVEL =? 0) && negb (Z.land handler LOG_HANDLERS =? 0) &&
  negb (Z.land (LogLevel r) lvl =? 0) && negb (Z.land (LogHandlers r) handler =? 0).

(** ** Counters *)

(** [++] and [--] of a [uint16_t]. *)
Definition step (d : Z) (counter : option Z) : outcome (option Z) :=
  match counter with Some n => Ok (Some (u16 (n + d))) | None => Fail (UB Uninitialised) end.

Definition step_opcode (d opcode : Z) (m : gmap Z Z) : gmap Z Z := <[opcode := u16 (default 0 (m !! opcode) + d)]> m.

Definition onPacketCreated : M unit :=
  r ← get;
  alive ← lift (step 1 (_numAlivePackets r));
  modify (set_packets alive (_packetCount r)).

Definition onPacketWritten (opcode : Z) : M unit :=
  r ← get;
  if logs LOG_LEVEL_DEBUG LOG_PACKET_LIFECYCLE r
  then modify (set_packets (_numAlivePackets r) (step_opcode 1 opcode (_packetCount r)))
  else mret tt.

Definition onPacketDestroyed (opcode : Z) : M unit :=
  r ← get;
  alive ← lift (step (-1) (_numAlivePackets r));
  _ ← modify (set_packets alive (_packetCount r));
  if logs LOG_LEVEL_DEBUG LOG_PACKET_LIFECYCLE r && negb (opcode =? 0)
  then modify (set_packets alive (step_opcode (-1) opcode (_packetCount r)))
  else mret tt.

Definition onClientCreated : M unit :=
  r ← get;
  pending ← lift (step 1 (_pendingAcceptClient r));
  modify (set_counts pending (_pendingCloseClient r) (_numClients r)).

Definition onClientAccepted : M unit :=
  r ← get;
  clients ← lift (step 1 (_numClients r));
  pending ← lift (step (-1) (_pendingAcceptClient r));
  modify (set_counts pending (_pendingCloseClient r) clients).

Definition onClientClosed : M unit :=
  r ← get;
  closing ← lift (step 1 (_pendingCloseClient r));
  modify (set_counts (_pendingAcceptClient r) closing (_numClients r)).

Definition onClientDestroyed : M unit :=
  r ← get;
  closing ← lift (step (-1) (_pendingCloseClient r));
  clients ← lift (step (-1) (_numClients r));
  modify (set_counts (_pendingAcceptClient r) closing clients).

Definition onClusterUpdate (numClusters numCells numStall numStallCandidates : Z) : M unit :=
  modify (set_cluster_counts (Some (u16 numClusters, u16 numCells, u16 numStall, u16 numStallCandidates))).

(** ** Messages *)

(** [print], of a message that is already formatted; [memory]: [malloc] has
    returned a buffer. *)
Definition print (memory : bool) (msg : text) : M bool :=
  if memory then
    _ ← modify (λ r,
      let messages := _messages r ++ [msg] in
      set_messages (if (15 <? length messages)%nat then tail messages else messages) r);
    mret true
  else mret false.

(** ** Drawing *)

(** [alpha] *)
Definition alpha : f32 := (f32_of_Z 1 / f32_of_Z 10)%f32.

Definition smooth (cpu : f64) (usage : f32) : f32 :=
  f32_of_f64 (dadd (dmul (f64_of_f32 alpha) cpu)
    (dmul (dsub (f64_of_Z 1) (f64_of_f32 alpha)) (f64_of_f32 usage))).

(** The part of a turn that was work. *)
Definition busy (heartBeat diff prevSleep : Z) : f32 :=
  let progress := (f32_of_Z (heartBeat - prevSleep) / f32_of_Z heartBeat)%f32 in
  if heartBeat <? diff
  then let x := (f32_of_Z (diff - prevSleep) / f32_of_Z heartBeat)%f32 in
       if flt x (f32_of_Z 1) then x else f32_of_Z 1
  else progress.

(** A counter that is shown. *)
Definition shown (counter : option Z) : outcome Component :=
  match counter with Some n => Ok (num n) | None => Fail (UB Uninitialised) end.

Definition opcode_line (count : Z * Z) : Component :=
  FlowLayout [str "    ["; Text false (hexadecimal 4 count.1); str "]: "; num count.2].

Definition client_line (client : option Offset * Z) : option Component :=
  match client.1 with
  | Some o => Some (FlowLayout [str "    ["; num (off_q o); str ","; num (off_r o); str "]: "; num client.2])
  | None => None
  end.

Definition cell_line (cell : Offset * StallInformation) : Component :=
  let '(o, stall) := cell in
  FlowLayout [str "    ["; num (off_q o); str ","; num (off_r o); str "]: "; num (Z.quot (remaining stall) 1000);
    str " ("; num (if isOnCooldown stall then 1 else 0); str ")"].

(** [Reactive::update_impl]: the clients are those that have an entity, with the
    place it is at; the cells are those that stall. *)
Definition update_impl (cpu : f64) (ram : outcome Z) (clients : list (option Offset * Z))
    (cells : list (Offset * StallInformation)) (heartBeat diff prevSleep : Z) : M Component :=
  diffStr ← lift (pad (to_string (Z.min diff 1000)));
  sleepStr ← lift (pad (to_string prevSleep));
  let progress := busy heartBeat diff prevSleep in
  _ ← modify (λ r, set_cpuUsage (smooth cpu (_cpuUsage r)) r);
  kB ← lift ram;
  let ramUsage := to_string (Z.quot kB 1024) ++ of_string "MB" in
  r ← get;
  cpuNum ← lift (f32_to_int (_cpuUsage r));
  alive ← lift (shown (_numAlivePackets r));
  accepting ← lift (shown (_pendingAcceptClient r));
  playing ← lift (shown (_numClients r));
  closing ← lift (shown (_pendingCloseClient r));
  '(numClusters, numCells, numStall, numStallCandidates) ← from_option (UB Uninitialised) (_cluster r);
  mret (StackLayout (
    [FlowLayout [str "AuraServer debug information [CPU "; Text true (to_string cpuNum); str ", RAM ";
       Text true ramUsage; str "]"];
     FlowLayout [str "Diff: "; Text false diffStr; str "  "; MaxWidth (u32 heartBeat) (Progress progress); str "  ";
       str "Sleep: "; Text false sleepStr];
     str "Messages:"]
    ++ (Text false <$> _messages r)
    ++ [StackLayout [str " "; FlowLayout [str "Alive packets: "; alive]]]
    ++ (if logs LOG_LEVEL_DEBUG LOG_PACKET_LIFECYCLE r
        then opcode_line <$> filter (λ count, 0 < count.2) (counts (_packetCount r)) else [])
    ++ [FlowLayout [str "Clients (accepting/playing/closing): "; accepting; str "/"; playing; str "/"; closing]]
    ++ (if logs LOG_LEVEL_DEBUG LOG_CLIENT_LIFECYCLE r then omap client_line clients else [])
    ++ [FlowLayout [str "Map (clusters/cells/stall [candidates]): "; num numClusters; str "/"; num numCells; str "/";
         num numStall; str " ["; num numStallCandidates; str "]"]]
    ++ (if logs LOG_LEVEL_DEBUG LOG_CLUSTERS r
        then cell_line <$> filter (λ cell, isRegistered cell.2 = true) (take 10 cells) else []))).

(** [Reactive::update]: [key] is the key that was hit, if any. The result is the
    screen, when it is time for it. *)
Definition toggle (key : option ascii) : M unit :=
  match key with
  | Some c =>
      if decide (c = "c"%char) then modify (λ r, set_LogHandlers (Z.lxor (LogHandlers r) LOG_CLUSTERS) r)
      else if decide (c = "d"%char) then modify (λ r, set_LogLevel (Z.land (LogLevel r) (not32 LOG_LEVEL_DEBUG)) r)
      else mret tt
  | None => mret tt
  end.

Definition update (key : option ascii) (now : Z) (cpu : f64) (ram : outcome Z) (clients : list (option Offset * Z))
    (cells : list (Offset * StallInformation)) (heartBeat diff prevSleep : Z) : M (option Component) :=
  _ ← toggle key;
  r ← get;
  if Z.quot (now - _lastUpdate r) 1000000 <? 1000 then mret None
  else
    _ ← modify (set_lastUpdate now);
    screen ← update_impl cpu ram clients cells heartBeat diff prevSleep;
    mret (Some screen).

(** [print_now], and what a failed [LOG_ASSERT] does. *)
Definition print_now (memory : bool) (msg : text) (cpu : f64) (ram : outcome Z) (clients : list (option Offset * Z))
    (cells : list (Offset * StallInformation)) : M bool :=
  b ← print memory msg;
  if b : bool then _ ← update_impl cpu ram clients cells 0 0 0; mret true else mret false.

Definition log_assert (expr memory : bool) (msg : text) (cpu : f64) (ram : outcome Z) (clients : list (option Offset * Z))
    (cells : list (Offset * StallInformation)) : M unit :=
  if ndebug || expr then mret tt
  else _ ← print_now memory msg cpu ram clients cells; fail Abort.

(** ** What the counters count *)

(** How many clients are being accepted, play, and are being closed. *)
Record Clients := mkClients { accepting : nat; playing : nat; closing : nat }.

Inductive client_event := Created | Accepted | Closed | Gone.

(** The life of the clients, one step of one of them. *)
Inductive lives : client_event → Clients → Clients → Prop :=
  | lv_created a p c : lives Created (mkClients a p c) (mkClients (S a) p c)
  | lv_accepted a p c : lives Accepted (mkClients (S a) p c) (mkClients a (S p) c)
  | lv_closed a p c : lives Closed (mkClients a (S p) c) (mkClients a p (S c))
  | lv_gone a p c : lives Gone (mkClients a p (S c)) (mkClients a p c).

Definition on_event (ev : client_event) : M unit :=
  match ev with
  | Created => onClientCreated
  | Accepted => onClientAccepted
  | Closed => onClientClosed
  | Gone => onClientDestroyed
  end.

(** The counters say so, up to their width. *)
Record counted (k : Clients) (r : Reactive) : Prop := {
  ct_accepting : _pendingAcceptClient r = Some (u16 (Z.of_nat (accepting k)));
  ct_playing : _numClients r = Some (u16 (Z.of_nat (playing k + closing k)));
  ct_closing : _pendingCloseClient r = Some (u16 (Z.of_nat (closing k)));
}.

Lemma step_up n : step 1 (Some (u16 (Z.of_nat n))) = Ok (Some (u16 (Z.of_nat (S n)))).
Proof. cbn. do 2 f_equal. unfold u16, wrap. rewrite Zplus_mod_idemp_l. f_equal. lia. Qed.

Lemma step_down n : step (-1) (Some (u16 (Z.of_nat (S n)))) = Ok (Some (u16 (Z.of_nat n))).
Proof. cbn -[Z.of_nat]. do 2 f_equal. unfold u16, wrap. rewrite Zplus_mod_idemp_l. f_equal. lia. Qed.

(** The screen shows how many clients there are of each kind. *)
Lemma on_event_counted ev k k' r : counted k r → lives ev k k' → wp (on_event ev) r (λ _ r', counted k' r').
Proof.
  intros [Ha Hp Hc] Hl. destruct Hl as [a p c|a p c|a p c|a p c]; cbn -[Z.of_nat] in *; rewrite ?Nat.add_succ_r in *;
    unfold onClientCreated, onClientAccepted, onClientClosed, onClientDestroyed; apply wp_bind, wp_get; rewrite ?Ha, ?Hp, ?Hc;
    repeat (apply wp_bind; eapply wp_lift_ok; [apply step_up || apply step_down|]); apply wp_modify; split; cbn -[Z.of_nat];
    by rewrite ?Nat.add_succ_r, ?Ha, ?Hp, ?Hc.
Qed.

(** Any number of events, in any order the clients can live through. *)
Inductive history : list client_event → Clients → Clients → Prop :=
  | hs_nil k : history [] k k
  | hs_cons ev evs k k' k'' : lives ev k k' → history evs k' k'' → history (ev :: evs) k k''.

Lemma history_counted evs k k' r : counted k r → history evs k k' → wp (for_each on_event evs) r (λ _ r', counted k' r').
Proof.
  intros Hc Hh. revert r Hc. induction Hh as [k|ev evs k k' k'' Hl _ IH]; intros r Hc; [by apply wp_ret|].
  cbn. apply wp_bind. eapply wp_mono; [by eapply on_event_counted|]. intros [] r' Hr'. by apply IH.
Qed.

(** But the counters start without a value. *)
Lemma first_packet now : (onPacketCreated (Reactive_new now)).1 = Fail (UB Uninitialised).
Proof. done. Qed.

Lemma first_client now : (onClientCreated (Reactive_new now)).1 = Fail (UB Uninitialised).
Proof. done. Qed.

(** A packet that was received is counted when it goes, and was not when it
    came: its count is 65535 from then on, and it is shown as alive. *)
Lemma received_packet_count opcode alive r :
  opcode ≠ 0 → logs LOG_LEVEL_DEBUG LOG_PACKET_LIFECYCLE r = true → _numAlivePackets r = Some alive →
  _packetCount r !! opcode = None →
  wp (onPacketDestroyed opcode) r (λ _ r', _packetCount r' !! opcode = Some 65535).
Proof.
  intros Ho Hl Ha Hn. unfold onPacketDestroyed. apply wp_bind, wp_get. rewrite Ha. apply wp_bind. eapply wp_lift_ok; [done|].
  apply wp_bind, wp_modify. rewrite Hl, (proj2 (Z.eqb_neq _ _) Ho). apply wp_modify. cbn. unfold step_opcode.
  by rewrite Hn, lookup_insert_eq.
Qed.

(** ** Messages *)

(** The last [n] elements. *)
Definition last_of (n : nat) (l : list text) : list text := drop (length l - n) l.

(** Printing keeps the last fifteen messages. *)
Lemma print_last msgs r :
  (length (_messages r) ≤ 15)%nat →
  wp (for_each (λ msg, _ ← print true msg; mret tt) msgs) r (λ _ r',
    r' = set_messages (last_of 15 (_messages r ++ msgs)) r).
Proof.
  revert r. induction msgs as [|msg msgs IH]; intros r Hr.
  { apply wp_ret. rewrite app_nil_r. unfold last_of. rewrite (proj2 (Nat.sub_0_le _ _)) by done. by destruct r. }
  cbn [for_each]. apply wp_bind, wp_bind. unfold print. apply wp_bind, wp_modify, wp_ret, wp_ret.
  set (l := _messages r ++ [msg]). assert (length l = S (length (_messages r))) as Hl by (unfold l; rewrite length_app; cbn; lia).
  set (l' := if (15 <? length l)%nat then tail l else l).
  assert (last_of 15 (l' ++ msgs) = last_of 15 (_messages r ++ msg :: msgs)) as Heq.
  { replace (_messages r ++ msg :: msgs) with (l ++ msgs) by (unfold l; by rewrite <-app_assoc). unfold l', last_of.
    destruct (Nat.ltb_spec 15 (length l)); [|done]. destruct l as [|x l0] eqn:E; [done|]. cbn [tail app length] in *.
    rewrite !length_app. by replace (S (length l0 + length msgs) - 15)%nat with (S (length l0 + length msgs - 15)) by lia. }
  eapply wp_mono; [apply IH|].
  - cbn. unfold l'. destruct (Nat.ltb_spec 15 (length l)); [|lia]. destruct l; cbn in *; lia.
  - intros [] r' ->. change (_messages (set_messages l' r)) with l'. by rewrite Heq.
Qed.

(** ** The screen *)

(** Everything that is shown has a value. *)
Definition live (r : Reactive) : Prop :=
  is_Some (_numAlivePackets r) ∧ is_Some (_pendingAcceptClient r) ∧ is_Some (_pendingCloseClient r) ∧
  is_Some (_numClients r) ∧ is_Some (_cluster r).

Lemma length_decimal_below k fuel m :
  (0 ≤ m < 10 ^ Z.of_nat (S k))%Z → (length (decimal fuel m) ≤ S k)%nat.
Proof.
  revert k m. induction fuel as [|fuel IH]; intros k m Hm; [cbn; lia|]. cbn [decimal]. destruct (Z.ltb_spec m 10); [cbn; lia|].
  destruct k as [|k]; [cbn in Hm; lia|]. rewrite length_app. cbn [length].
  assert (length (decimal fuel (m / 10)) ≤ S k)%nat; [|lia]. apply IH.
  rewrite Nat2Z.inj_succ, Z.pow_succ_r in Hm by lia. split; [apply Z.div_pos; lia|apply Z.div_lt_upper_bound; lia].
Qed.

Lemma length_to_string n : (-999 ≤ n ≤ 9999)%Z → (length (to_string n) ≤ 4)%nat.
Proof.
  intros Hn. unfold to_string. destruct (Z.ltb_spec n 0).
  - cbn [length]. pose proof (length_decimal_below 2 20 (- n) ltac:(cbn; lia)). lia.
  - apply (length_decimal_below 3). cbn. lia.
Qed.

Lemma pad_ok n : (-999 ≤ n ≤ 9999)%Z → ∃ s, pad (to_string n) = Ok s ∧ length s = 4%nat.
Proof.
  intros Hn. pose proof (length_to_string n Hn) as Hl. unfold pad. rewrite decide_True by done. eexists. split; [done|].
  rewrite length_app, length_replicate. lia.
Qed.

Lemma screen_ok (r : Reactive) cpu kB usage clients cells heartBeat diff prevSleep :
  live r → -999 ≤ diff → 0 ≤ prevSleep ≤ 9999 → f32_to_int (smooth cpu (_cpuUsage r)) = Ok usage →
  wp (update_impl cpu (Ok kB) clients cells heartBeat diff prevSleep) r (λ screen r',
    r' = set_cpuUsage (smooth cpu (_cpuUsage r)) r ∧
    ∃ title times diffStr sleepStr rest, screen = StackLayout (
      [title; times; str "Messages:"] ++ (Text false <$> _messages r) ++ rest) ∧
      times = FlowLayout [str "Diff: "; Text false diffStr; str "  ";
        MaxWidth (u32 heartBeat) (Progress (busy heartBeat diff prevSleep)); str "  "; str "Sleep: "; Text false sleepStr] ∧
      length diffStr = 4%nat ∧ length sleepStr = 4%nat).
Proof.
  intros ([alive Ha] & [pending Hp] & [closing Hc] & [playing Hn] & [[[[k1 k2] k3] k4] Hk]) Hdiff Hsleep Husage.
  destruct (pad_ok (Z.min diff 1000)) as (diffStr & Hd & Hld); [lia|]. destruct (pad_ok prevSleep) as (sleepStr & Hs & Hls); [lia|].
  unfold update_impl. apply wp_bind. eapply wp_lift_ok; [exact Hd|]. apply wp_bind. eapply wp_lift_ok; [exact Hs|].
  apply wp_bind, wp_modify, wp_bind. eapply wp_lift_ok; [done|]. apply wp_bind, wp_get. cbn -[smooth busy f32_to_int].
  apply wp_bind. eapply wp_lift_ok; [exact Husage|]. rewrite Ha, Hp, Hc, Hn, Hk.
  do 4 (apply wp_bind; eapply wp_lift_ok; [done|]). apply wp_bind. eapply wp_from_option; [done|]. apply wp_ret.
  split; [done|]. eexists _, _, diffStr, sleepStr, _. split; [reflexivity|]. by split_and!.
Qed.
(** A sleep of more than four digits cannot be shown: [std::string] throws. *)
Lemma long_sleep r cpu ram clients cells heartBeat diff prevSleep :
  (-999 ≤ diff)%Z → (4 < length (to_string prevSleep))%nat →
  (update_impl cpu ram clients cells heartBeat diff prevSleep r).1 = Fail (Throw LengthError).
Proof.
  intros Hd Hl. destruct (pad_ok (Z.min diff 1000)) as (s & Hs & _); [lia|].
  unfold update_impl, lift, mbind, ST_bind. rewrite Hs. unfold pad. by rewrite decide_False by lia.
Qed.

Lemma toggle_ok key r : ∃ r', toggle key r = (Ok tt, r') ∧ _lastUpdate r' = _lastUpdate r ∧ _messages r' = _messages r ∧
  _cpuUsage r' = _cpuUsage r ∧ (live r → live r').
Proof.
  unfold toggle. destruct key as [c|]; [|by exists r]. case_decide; [by eexists|]. case_decide; by eexists.
Qed.

(** The sleep of a turn has two digits at most. *)
Lemma sleep_shown work prev : (0 ≤ work)%Z → (0 ≤ sleep_time (work + prev) prev ≤ WORLD_HEART_BEAT)%Z.
Proof. intros Hw. unfold sleep_time, WORLD_HEART_BEAT. destruct (Z.leb_spec (work + prev) (50 + prev)); lia. Qed.


(** The key that shows the clusters hides them again. *)
Lemma toggle_twice r : (_ ← toggle (Some "c"%char); toggle (Some "c"%char)) r = (Ok tt, r).
Proof.
  unfold toggle, modify, mbind, ST_bind. cbn -[LOG_CLUSTERS Z.lxor]. f_equal. unfold set_LogHandlers. cbn -[LOG_CLUSTERS Z.lxor].
  rewrite Z.lxor_assoc, Z.lxor_nilpotent, Z.lxor_0_r. by destruct r.
Qed.

(** A failed assertion ends the program, whether its message can be shown or
    not. *)
Lemma log_assert_aborts memory msg cpu kB usage clients cells r :
  ndebug = false → live r → f32_to_int (smooth cpu (_cpuUsage r)) = Ok usage →
  (log_assert false memory msg cpu (Ok kB) clients cells r).1 = Fail Abort.
Proof.
  intros Hn Hl Hu. unfold log_assert. rewrite Hn. cbn [orb].
  assert (∃ b r', print_now memory msg cpu (Ok kB) clients cells r = (Ok b, r')) as (b & r' & Hp).
  { destruct memory; [|by eexists _, _]. unfold print_now, print, modify, mbind, ST_bind. cbn -[update_impl last_of].
    match goal with |- context [update_impl _ _ _ _ _ _ _ ?r1] =>
      destruct (wp_run _ _ _ (screen_ok r1 cpu kB usage clients cells 0 0 0 Hl ltac:(lia) ltac:(lia) Hu)) as (screen & r' & -> & _) end.
    by eexists _, _. }
  unfold mbind, ST_bind. by rewrite Hp.
Qed.
End screen.

(** ** A screen *)

Section example.
Definition ex_messages : list text := [of_string "Client accepted"; of_string "New client 7"; of_string "Sending 0A05"].
Definition ex_screen : Reactive :=
  mkReactive LOG_LEVEL LOG_HANDLERS 0 (f32_of_Z 12) ex_messages (Some 3) {[0x0A05 := 2]} (Some 0) (Some 0) (Some 1) (Some (1, 7, 0, 0)).
Definition ex_counts : gmap Z Z → list (Z * Z) := map_to_list.

End example.
