(* ===== verification/Update.v ===== *)
(** * The update of a turn

    [Cluster::update] groups the touched cells by component and updates the
    entities of every cell; what an application does when one of its entities
    is updated is a parameter, under the law [Civil]: it keeps the world as
    updating finds it ([running]). The law holds of idle entities, and of those
    that walk ([Tick.v]). Nothing else that an update does can fail, but for an
    [int] that overflows when a quadtree splits. *)

From Stdlib Require Import ZArith Lia.
From stdpp Require Import base list gmap option numbers sets.
From S2P Require Import Prelude Float32 Offset Hex Lockfree Physics QuadTree World Cell Cluster Turn Map Grow Operate Life Places.
From S2P Require Import Server.

Section update.
Context `{Behaviour, !RuntimeLaws}.
Local Notation M := (ST World).

(** ** Worlds that are updated *)

(** The operations that wait for the server close clients that are flagged,
    each once. *)
Record closing (w : World) : Prop := {
  cs_closed p : p ∈ closes (lf_contents (w_server_ops w)) →
    ∃ c, w_clients w !! p = Some c ∧ cl_status c = CLOSED;
  cs_nodup : NoDup (closes (lf_contents (w_server_ops w)));
  cs_length : length (lf_contents (w_server_ops w)) ≤ 1024;
}.

(** No destruction waits. *)
Definition undestroyed (w : World) : Prop := Forall (λ op, mo_type op ≠ DESTROY) (lf_contents (w_operations w)).

(** Between the operations and the cleanup of a turn. The cells that are not
    grouped were created in this turn: nothing waits in them that could name an
    entity which goes. *)
Record running (elapsed : Z) (A : places) (L : list positive) (w : World) : Prop := {
  ru_sane :> sane A w;
  ru_cool : no_cooldown w;
  ru_keeping : keeping A L w;
  ru_guarded : guarded elapsed A w;
  ru_grouped : well_grouped w;
  ru_stall q : q ∈ k_stallCells (w_cluster w) → q ∈ grouped w;
  ru_far cid : k_num_components (w_cluster w) ≤ cid → cells_of cid (k_cellsByCluster (w_cluster w)) = [];
  ru_fresh p c : w_cells w !! p = Some c → p ∉ grouped w →
    c_requests c = [] ∧ ∀ e, e ∈ contents (rq_tree (c_quadTree c)) → is_Some (A !! e);
  ru_queue : undestroyed w;
  ru_closing : closing w;
}.

(** What stays when entities act: cells and entities live on, and the groups
    are the same. *)
Record steady (w w' : World) : Prop := {
  sy_cells p c : w_cells w !! p = Some c → ∃ c', w_cells w' !! p = Some c' ∧ c_offset c' = c_offset c;
  sy_entities e en : w_entities w !! e = Some en →
    ∃ en', w_entities w' !! e = Some en' ∧ e_id en' = e_id en ∧ e_client en' = e_client en;
  sy_groups : k_cellsByCluster (w_cluster w') = k_cellsByCluster (w_cluster w);
  sy_components : k_num_components (w_cluster w') = k_num_components (w_cluster w);
}.

#[export] Instance steady_order : PreOrder steady.
Proof.
  split; [intros w; split; eauto|]. intros w1 w2 w3 [Hc1 He1 Hg1 Hn1] [Hc2 He2 Hg2 Hn2]. split; [| |congruence..].
  - intros p c Hc. destruct (Hc1 p c Hc) as (c2 & Hp2 & Ho2), (Hc2 p c2 Hp2) as (c3 & Hp3 & Ho3). exists c3. split; [done|congruence].
  - intros e en He. destruct (He1 e en He) as (en2 & Hp2 & Hi2 & Hk2), (He2 e en2 Hp2) as (en3 & Hp3 & Hi3 & Hk3).
    exists en3. split_and!; [done|congruence..].
Qed.

Lemma steady_grouped w w' : steady w w' → grouped w' = grouped w.
Proof. intros Hs. unfold grouped. by rewrite (sy_groups _ _ Hs), (sy_components _ _ Hs). Qed.

(** What updating an entity is trusted to keep. *)
Class Civil (elapsed : Z) : Prop :=
  civil A L w e : running elapsed A L w → is_Some (A !! e) →
    wp (entity_update e elapsed) w (λ _ w', running elapsed A L w' ∧ steady w w').

(** ** Changes inside a cell *)

(** The cell is worked on: its place, its members and its requests stay, and
    the entities that its quadtree gains are somewhere. *)
Record serves (A : places) (c c' : Cell) : Prop := {
  sv_outline : (c_offset c', stall c') = (c_offset c, stall c);
  sv_entities : c_entities c' = c_entities c;
  sv_requests : c_requests c' = c_requests c;
  sv_queues : packed c → packed c';
  sv_tree : wf MaxQuadtreeDepth (λ _ _ _, True) 0 (rq_tree (c_quadTree c)) →
    wf MaxQuadtreeDepth (λ _ _ _, True) 0 (rq_tree (c_quadTree c'));
  sv_contents e : e ∈ contents (rq_tree (c_quadTree c')) → e ∈ contents (rq_tree (c_quadTree c)) ∨ is_Some (A !! e);
}.

#[export] Instance serves_order A : PreOrder (serves A).
Proof.
  split; [intros c; split; auto|]. intros c1 c2 c3 [Ho1 He1 Hr1 Hq1 Ht1 Hc1] [Ho2 He2 Hr2 Hq2 Ht2 Hc2].
  split; [congruence..|auto|auto|]. intros e He. destruct (Hc2 e He) as [He'|]; [auto|by right].
Qed.

(** What the cell [p] becomes does not matter to what is outside it. *)
Lemma insert_same {B} (f : Cell → B) w p c c' q :
  w_cells w !! p = Some c → f c' = f c → f <$> <[p := c']> (w_cells w) !! q = f <$> w_cells w !! q.
Proof.
  intros Hc Hf. destruct (decide (q = p)) as [->|Hne]; [|by rewrite lookup_insert_ne].
  rewrite lookup_insert_eq, Hc. cbn. by rewrite Hf.
Qed.

Lemma lookup_upd w p c' q d : w_cells (set_cells (<[p := c']> (w_cells w)) w) !! q = Some d →
  p = q ∧ c' = d ∨ p ≠ q ∧ w_cells w !! q = Some d.
Proof. apply lookup_insert_Some. Qed.

Lemma consistent_serves A w p c c' :
  consistent A w → w_cells w !! p = Some c → serves A c c' → consistent A (set_cells (<[p := c']> (w_cells w)) w).
Proof.
  intros [Hi Ht Hb Hg Hto Hq Htr Hs Hr] Hc [Hout He Hreq Hqu Htree _]. injection Hout as Ho Hst.
  split.
  - apply (inv_outline w); [done..|]. intros q. apply (insert_same outline w p c c'); [done|]. unfold outline. congruence.
  - apply (tracks_roster A w); [done..| |done]. intros q. apply (insert_same roster w p c c'); [done|]. unfold roster. congruence.
  - by destruct Hb.
  - intros q d [[<- <-]|[_ Hd]]%lookup_upd; [rewrite Ho; by eapply Hg|by eapply Hg].
  - intros q Hq' Hh. apply (Hto q).
    + by destruct Hq' as [d [[<- _]|[_ Hd]]%lookup_upd]; eexists.
    + rewrite <-Hh. symmetry. apply outline_hot, (insert_same outline w p c c'); [done|]. unfold outline. congruence.
  - intros q d [[<- <-]|[_ Hd]]%lookup_upd; [by eapply Hqu, Hq|by eapply Hq].
  - intros q d [[<- <-]|[_ Hd]]%lookup_upd; [by eapply Htree, Htr|by eapply Htr].
  - exact Hs.
  - intros q d [[<- <-]|[_ Hd]]%lookup_upd; [rewrite Hst; by eapply Hr|by eapply Hr].
Qed.

Lemma running_serves elapsed A L w p c c' :
  running elapsed A L w → w_cells w !! p = Some c → serves A c c' →
  running elapsed A L (set_cells (<[p := c']> (w_cells w)) w) ∧ steady w (set_cells (<[p := c']> (w_cells w)) w).
Proof.
  intros [Hsa Hn Hk Hg Hgr Hst Hfar Hfr Hq Hcl] Hc Hsv. pose proof Hsv as [[= Ho Hstc] He Hr _ _ Hcon]. split.
  - split; [| |by destruct Hk| |done|done|done| |done|by destruct Hcl].
    + split; [apply (consistent_serves A w p c); [apply Hsa|done..]|].
      intros q d [[<- <-]|[_ Hd]]%lookup_upd; [|by eapply (sa_fit _ _ Hsa)].
      destruct (sa_fit _ _ Hsa p c Hc) as [Hreq Hsnd]. split; [by rewrite Hr|].
      intros e [?|?]%Hcon; [by apply Hsnd|by apply (co_sound _ _ Hsa)].
    + intros q d [[<- <-]|[_ Hd]]%lookup_upd; [rewrite Hstc; by eapply Hn|by eapply Hn].
    + intros e o en HA Hen Hu o' Ho'. destruct (Hg e o en HA Hen Hu o' Ho') as (q & d & Hq' & Hd & Hcd & Hex).
      destruct (decide (q = p)) as [->|Hne].
      * exists p, c'. simplify_eq. unfold expires. rewrite Hstc. by cbn; rewrite lookup_insert_eq.
      * exists q, d. cbn. by rewrite lookup_insert_ne.
    + intros q d [[<- <-]|[_ Hd]]%lookup_upd; [|by apply Hfr]. intros Hnin.
      destruct (Hfr p c Hc Hnin) as [Hreq Hdom]. rewrite Hr. split; [done|]. intros e [?|?]%Hcon; [by apply Hdom|done].
  - split; [|by eauto|done|done]. intros q d Hd. cbn. destruct (decide (q = p)) as [->|Hne].
    + exists c'. rewrite lookup_insert_eq. split; [done|]. congruence.
    + exists d. by rewrite lookup_insert_ne.
Qed.

(** Sending is outside of the world that is modelled. *)
Lemma running_sent elapsed A L w s :
  running elapsed A L w → running elapsed A L (add_sent s w) ∧ steady w (add_sent s w).
Proof.
  intros [[[[] [] [] ? ? ? ? ? ?] ?] ? [] ? ? ? ? ? ? []]. split; [|by split; eauto].
  repeat (split; try done).
Qed.

(** ** Changes outside of the map *)

(** [en'] is the entity [en] somewhere else, or rotated. *)
Definition displaced (en en' : Entity) : Prop :=
  e_id en' = e_id en ∧ e_client en' = e_client en ∧ e_cell en' = e_cell en ∧ e_isUpdater en' = e_isUpdater en ∧
  ∀ b, e_boundingBox en = Some b → solid b → ∃ b', e_boundingBox en' = Some b' ∧ solid b'.

Lemma displaced_refl en : displaced en en.
Proof. split_and!; eauto. Qed.

(** Cells, map and cluster stay; entities are displaced, and may be created;
    operations are scheduled, but no destruction. *)
Record quiet (w w' : World) : Prop := {
  qt_cells : w_cells w' = w_cells w;
  qt_map : w_map w' = w_map w;
  qt_cluster : w_cluster w' = w_cluster w;
  qt_entities e en : w_entities w !! e = Some en → ∃ en', w_entities w' !! e = Some en' ∧ displaced en en';
  qt_created e en' : w_entities w' !! e = Some en' →
    (∃ en, w_entities w !! e = Some en ∧ displaced en en') ∨ w_entities w !! e = None ∧ e_cell en' = None;
  qt_ids e e' en en' : w_entities w' !! e = Some en → w_entities w' !! e' = Some en' → e_id en = e_id en' → e = e';
  qt_bonded : bonded w';
  qt_operations : ∃ ops, lf_contents (w_operations w') = lf_contents (w_operations w) ++ ops ∧
    Forall (λ op, mo_type op ≠ DESTROY) ops;
  qt_closing : closing w';
}.

Section quiet.
Context (A : places) (w w' : World) (Hq : quiet w w').

Lemma quiet_updater e : is_Some (w_entities w !! e) →
  (∃ en, w_entities w' !! e = Some en ∧ e_isUpdater en = true) ↔
  (∃ en, w_entities w !! e = Some en ∧ e_isUpdater en = true).
Proof using All.
  intros [en He]. destruct (qt_entities _ _ Hq e en He) as (en' & He' & _ & _ & _ & Hu & _).
  split; intros (x & Hx & Hxu); eexists; (split; [done|]); congruence.
Qed.

Lemma quiet_sound e : sound w e → sound w' e.
Proof using All.
  intros (en & b & He & Hb & Hs). destruct (qt_entities _ _ Hq e en He) as (en' & He' & _ & _ & _ & _ & Hbox).
  destruct (Hbox b Hb Hs) as (b' & ? & ?). by exists en', b'.
Qed.

Lemma quiet_client e : has_client (w_entities w) e → has_client (w_entities w') e.
Proof using All.
  intros (en & He & Hc). destruct (qt_entities _ _ Hq e en He) as (en' & He' & _ & Hcl & _). exists en'. by rewrite Hcl.
Qed.

Lemma quiet_home e : home w' e = home w e.
Proof using All.
  unfold home. rewrite (qt_cells _ _ Hq). destruct (w_entities w !! e) as [en|] eqn:He.
  - destruct (qt_entities _ _ Hq e en He) as (en' & -> & _ & _ & Hc & _). cbn. by rewrite Hc.
  - destruct (w_entities w' !! e) as [en'|] eqn:He'; [|done].
    destruct (qt_created _ _ Hq e en' He') as [(en & ? & _)|[_ Hc]]; [congruence|]. cbn. by rewrite Hc.
Qed.

Lemma tracks_entity e : tracks A w → is_Some (A !! e) → is_Some (w_entities w !! e).
Proof. intros Ht [o HA]. rewrite <-(tr_home _ _ Ht) in HA. apply home_some in HA as (en & _ & _ & ? & _). by exists en. Qed.

Lemma quiet_tracks : tracks A w → tracks A w'.
Proof using All.
  intros Ht. split.
  - intros e. by rewrite quiet_home, (tr_home _ _ Ht).
  - intros e en' p He' Hp. rewrite (qt_cells _ _ Hq). destruct (qt_created _ _ Hq e en' He') as [(en & He & _ & _ & Hc & _)|[_ ?]];
      [|congruence]. apply (tr_pointer _ _ Ht e en p); congruence.
  - intros o i e. assert (entities_at w' o = entities_at w o) as ->
      by (unfold entities_at, cell_at; by rewrite (qt_map _ _ Hq), (qt_cells _ _ Hq)).
    rewrite (tr_at _ _ Ht). split; intros [HA (en & He & Hi)]; (split; [done|]).
    + destruct (qt_entities _ _ Hq e en He) as (en' & ? & ? & _). exists en'. split; congruence.
    + destruct (tracks_entity e Ht) as [en0 He0]; [by exists o|].
      destruct (qt_entities _ _ Hq e en0 He0) as (en' & ? & ? & _). exists en0. split; congruence.
  - apply Hq.
Qed.

Lemma quiet_consistent : consistent A w → consistent A w'.
Proof using All.
  intros Hc. pose proof (qt_cells _ _ Hq) as Hcells. assert (∀ p, hot w' p = hot w p) as Hh by (intros p; by apply cells_hot).
  split; rewrite ?Hcells, ?(qt_cluster _ _ Hq); try apply Hc.
  - apply (inv_outline w); [apply Hc|apply Hq|apply Hq|]. intros p. by rewrite Hcells.
  - apply quiet_tracks, Hc.
  - apply Hq.
  - intros p Hp. rewrite Hh. by apply (co_touched _ _ Hc).
  - intros e He. by apply quiet_sound, (co_sound _ _ Hc).
Qed.

Lemma quiet_sane : sane A w → sane A w'.
Proof using All.
  intros Hs. split; [apply quiet_consistent, Hs|]. intros p c. rewrite (qt_cells _ _ Hq). intros Hc.
  destruct (sa_fit _ _ Hs p c Hc) as [Hreq Hcon]. split; [intros r Hr; by apply quiet_client, Hreq|].
  intros e He. by apply quiet_sound, Hcon.
Qed.

Lemma quiet_keeping L : tracks A w → keeping A L w → keeping A L w'.
Proof using All.
  intros Ht [Hops Hnd Hin]. split; rewrite ?(qt_cluster _ _ Hq); [done..|]. intros e. rewrite Hin.
  split; intros [HA Hu]; (split; [done|]); by apply (quiet_updater e (tracks_entity e Ht HA)).
Qed.

Lemma quiet_guarded elapsed : tracks A w → guarded elapsed A w → guarded elapsed A w'.
Proof using All.
  intros Ht Hg e o en' HA He' Hu'. destruct (proj1 (quiet_updater e (tracks_entity e Ht ltac:(by exists o)))) as (en & He & Hu);
    [by exists en'|]. unfold sheltered. rewrite (qt_map _ _ Hq), (qt_cells _ _ Hq). by apply (Hg e o en).
Qed.
End quiet.

Lemma running_quiet elapsed A L w w' :
  running elapsed A L w → quiet w w' → running elapsed A L w' ∧ steady w w'.
Proof.
  intros Hr Hq. pose proof (co_tracks _ _ Hr) as Ht. pose proof (qt_cells _ _ Hq) as Hcells. pose proof (qt_cluster _ _ Hq) as Hk.
  assert (grouped w' = grouped w) as Hg by (unfold grouped; by rewrite Hk).
  split.
  - split; rewrite ?Hg, ?Hk; try apply Hr; unfold no_cooldown; rewrite ?Hcells; try apply Hr.
    + by apply (quiet_sane A w); [|apply Hr].
    + by apply (quiet_keeping A w); [| |apply Hr].
    + by apply (quiet_guarded A w); [| |apply Hr].
    + destruct (ru_grouped _ _ _ _ Hr) as [Hnd Hin]. by split; rewrite Hg, ?Hk.
    + destruct (qt_operations _ _ Hq) as (ops & Hops & Hno). unfold undestroyed. rewrite Hops. apply Forall_app.
      split; [apply Hr|done].
    + apply Hq.
  - split; rewrite ?Hcells, ?Hk; [by eauto| |done|done]. intros e en He.
    destruct (qt_entities _ _ Hq e en He) as (en' & ? & ? & ? & _). by exists en'.
Qed.

(** Operations are scheduled. *)
Lemma operations_quiet A w q :
  consistent A w → closing w →
  (∃ ops, lf_contents q = lf_contents (w_operations w) ++ ops ∧ Forall (λ op, mo_type op ≠ DESTROY) ops) →
  quiet w (set_operations q w).
Proof.
  intros [_ Ht [] _ _ _ _ _ _] [] Hops. split; try done.
  - intros e en He. exists en. split; [done|apply displaced_refl].
  - intros e en He. left. exists en. split; [done|apply displaced_refl].
  - apply Ht.
Qed.

(** An entity is displaced. *)
Lemma displaced_quiet A w e en en' :
  consistent A w → closing w → w_entities w !! e = Some en → displaced en en' →
  quiet w (set_world_entities (<[e := en']> (w_entities w)) w).
Proof.
  intros [_ Ht [Hb1 Hb2] _ _ _ _ _ _] [] He Hd. pose proof Hd as (Hid & Hcl & _). set (m := <[e := en']> (w_entities w)).
  assert (∀ x d, w_entities w !! x = Some d → ∃ d', m !! x = Some d' ∧ displaced d d') as Hfwd.
  { intros x d Hx. unfold m. destruct (decide (x = e)) as [->|Hne]; [exists en'; rewrite lookup_insert_eq; by simplify_eq|].
    exists d. rewrite lookup_insert_ne by done. split; [done|apply displaced_refl]. }
  assert (∀ x d', m !! x = Some d' → ∃ d, w_entities w !! x = Some d ∧ displaced d d') as Hbwd.
  { intros x d' [[<- <-]|[_ Hx]]%lookup_insert_Some; [by exists en|]. exists d'. split; [done|apply displaced_refl]. }
  split; try done.
  - intros x d' Hx. left. by apply Hbwd.
  - intros x y d d' Hx Hy Heq. destruct (Hbwd x d Hx) as (d1 & Hx1 & Hi1 & _), (Hbwd y d' Hy) as (d2 & Hy2 & Hi2 & _).
    apply (tr_ids _ _ Ht x y d1 d2); congruence.
  - split.
    + intros x d' cl Hx Hdc. destruct (Hbwd x d' Hx) as (d & Hd' & _ & Hc & _). apply (Hb1 x d); congruence.
    + intros cl c Hc. destruct (Hb2 cl c Hc) as (d & Hd' & Hdc). destruct (Hfwd _ d Hd') as (d2 & ? & _ & ? & _).
      exists d2. split; [done|congruence].
  - exists []. by rewrite app_nil_r.
Qed.

(** ** The entities of a cell *)

(** The only failure that is left. *)
Definition overflow (f : failure) : Prop := f = UB IntOverflow.

(** [m] keeps the world as updating finds it. *)
Definition runs {B} (elapsed : Z) (A : places) (L : list positive) (w : World) (m : M B) : Prop :=
  wpe overflow m w (λ _ w', running elapsed A L w' ∧ steady w w').

Lemma runs_bind {B C} elapsed A L w (m : M B) (f : B → M C) :
  running elapsed A L w → runs elapsed A L w m →
  (∀ b w', running elapsed A L w' → steady w w' → runs elapsed A L w' (f b)) → runs elapsed A L w (m ≫= f).
Proof.
  intros _ Hm Hf. apply wpe_bind. eapply wpe_mono; [exact Hm|]. intros b w' [Hr Hs].
  eapply wpe_mono; [by apply Hf|]. intros c w'' [Hr' Hs']. split; [done|by etrans].
Qed.

Lemma runs_for_each {B} elapsed A L w (f : B → M unit) l :
  running elapsed A L w →
  (∀ b w', b ∈ l → running elapsed A L w' → steady w w' → runs elapsed A L w' (f b)) →
  runs elapsed A L w (for_each f l).
Proof.
  intros Hr Hf. apply wpe_for_each; [done|]. intros b w' Hb [Hr' Hs']. eapply wpe_mono; [by apply Hf|].
  intros _ w'' [Hr'' Hs'']. split; [done|by etrans].
Qed.

Lemma runs_ret {B} elapsed A L w (b : B) : running elapsed A L w → runs elapsed A L w (mret b).
Proof. done. Qed.

(** An entity that has a client is sent what is not null. *)
Lemma send_runs elapsed A L w e en client packet :
  running elapsed A L w → w_entities w !! e = Some en → e_client en = Some client → is_Some packet →
  runs elapsed A L w (send client packet).
Proof.
  intros Hr He Hcl [x ->]. destruct (bo_entity _ (co_bonded _ _ Hr) e en client He Hcl) as (c & Hc & _).
  apply wp_wpe. unfold send. apply wp_bind. eapply wp_deref_client; [done|]. apply wp_bind, wp_not_null, wp_modify.
  by apply running_sent.
Qed.

Lemma send_all_runs elapsed A L w e en client queue :
  running elapsed A L w → w_entities w !! e = Some en → e_client en = Some client →
  (∀ x, x ∈ queue → is_Some x) → runs elapsed A L w (for_each (send client) queue).
Proof.
  intros Hr He Hcl Hq. apply runs_for_each; [done|]. intros x w' Hx Hr' Hs.
  destruct (sy_entities _ _ Hs e en He) as (en' & He' & _ & Hcl'). eapply send_runs; [done|exact He'|congruence|auto].
Qed.

Lemma processRequests_runs elapsed A L w p e c :
  announced → running elapsed A L w → w_cells w !! p = Some c → runs elapsed A L w (processRequests p e).
Proof.
  intros [Hspawn Hdespawn] Hr Hc. unfold processRequests. eapply wpe_run_bind; [by apply run_deref_cell|].
  apply runs_for_each; [done|]. intros r w' Hin Hr' Hs. unfold serve_request.
  case_bool_decide; [by apply runs_ret|].
  destruct (sa_fit _ _ (ru_sane _ _ _ _ Hr) p c Hc) as [Hreq _]. destruct (Hreq r Hin) as (en & He & [client Hcl]).
  destruct (sy_entities _ _ Hs _ en He) as (en' & He' & _ & Hcl'). rewrite Hcl in Hcl'.
  eapply wpe_run_bind; [by apply run_deref_entity|]. rewrite Hcl'. eapply wpe_run_bind; [done|].
  eapply send_runs; [done|exact He'|done|]. by destruct (rq_type r).
Qed.

(** The rectangles of sound entities. *)
Lemma sound_rect w e : sound w e → ∃ r, rect_of w e = Ok r.
Proof.
  intros (en & b & He & Hb & Hsol). unfold rect_of, boundingBox. rewrite He, Hb. cbn.
  destruct (solid_asRect (e_position en) b Hsol) as (v & b' & ->). by eexists.
Qed.

Lemma quadtree_insert_runs elapsed A L w p c e :
  running elapsed A L w → w_cells w !! p = Some c → is_Some (A !! e) → runs elapsed A L w (quadtree_insert p e).
Proof.
  intros Hr Hc HA. unfold quadtree_insert. eapply wpe_run_bind; [by apply run_deref_cell|].
  eapply wpe_run_bind; [done|]. apply wpe_bind, wpe_lift.
  pose proof (radial_insert_ok MaxQuadrantEntities MaxQuadtreeDepth (rect_of w) (λ _ _ _, True) ltac:(done) e
    (c_quadTree c) (co_tree _ _ Hr p c Hc)) as Hins. unfold radially_inserted in Hins.
  destruct (radial_insert _ _ _ e (c_quadTree c)) as [t|f].
  - destruct Hins as (Hwf & Hcon & _ & _). apply wp_wpe. eapply wp_upd_cell; [exact Hc|].
    apply (running_serves elapsed A L w p c); [done..|]. split; try done. intros e'. cbn. rewrite Hcon. intros [->|?]%elem_of_cons; auto.
  - destruct Hins as [?|(e' & He' & Hf)]; [done|]. exfalso.
    assert (sound w e') as (r & Hr')%sound_rect; [|congruence].
    apply elem_of_cons in He' as [->|He']; [by apply (co_sound _ _ Hr)|]. by apply (sa_fit _ _ (ru_sane _ _ _ _ Hr) p c Hc).
Qed.

Lemma update_entity_runs elapsed A L w p c e queue :
  Civil elapsed → announced → running elapsed A L w → w_cells w !! p = Some c → A !! e = Some (c_offset c) →
  (∀ x, x ∈ queue → is_Some x) → runs elapsed A L w (update_entity p elapsed queue e).
Proof.
  intros Hciv Han Hr Hc HA Hq. pose proof HA as HA'. rewrite <-(tr_home _ _ (co_tracks _ _ Hr)) in HA'.
  apply home_some in HA' as (en & _ & _ & He & _). assert (is_Some (A !! e)) as HAe by by eexists.
  unfold update_entity. eapply wpe_run_bind; [by apply run_deref_entity|].
  eapply (runs_bind elapsed A L w); [done|by apply wp_wpe, Hciv|]. intros _ w1 Hr1 Hs1.
  destruct (sy_entities _ _ Hs1 e en He) as (en1 & He1 & _ & Hcl1).
  eapply runs_bind; [done| |].
  { destruct (e_client en) eqn:Hcl; [|by apply runs_ret]. eapply send_all_runs; [done|exact He1|congruence|done]. }
  intros _ w2 Hr2 Hs2. destruct (sy_cells _ _ (transitivity Hs1 Hs2) p c Hc) as (c2 & Hc2 & Ho2).
  eapply runs_bind; [done|by eapply processRequests_runs|]. intros _ w3 Hr3 Hs3.
  destruct (sy_cells _ _ Hs3 p c2 Hc2) as (c3 & Hc3 & Ho3).
  eapply runs_bind; [done|by eapply quadtree_insert_runs|]. intros _ w4 Hr4 Hs4.
  destruct (sy_cells _ _ Hs4 p c3 Hc3) as (c4 & Hc4 & Ho4).
  apply (wpe_wp_bind _ _ _ _ (λ l w', w' = w4 ∧ ∀ q, Some q ∈ l → is_Some (w_cells w4 !! q))).
  { eapply wp_getSiblings; [exact Hc4|by eapply (co_grid _ _ Hr4)|]. split; [done|].
    intros q (o & Ho & _)%list_elem_of_fmap. destruct (inv_map _ (co_inv _ _ Hr4) o q (eq_sym Ho)) as (d & ? & _). by exists d. }
  intros l ? [-> Hl]. apply runs_for_each; [done|]. intros [q|] w5 Hin Hr5 Hs5; [|by apply runs_ret].
  destruct (Hl q Hin) as [d Hd]. destruct (sy_cells _ _ Hs5 q d Hd) as (d5 & Hd5 & _).
  eapply wpe_run_bind; [by apply run_deref_cell|].
  destruct (sy_entities _ _ Hs2 e en1 He1) as (en2 & He2 & _). destruct (sy_entities _ _ Hs3 e en2 He2) as (en3 & He3 & _).
  destruct (sy_entities _ _ Hs4 e en3 He3) as (en4 & He4 & _). destruct (sy_entities _ _ Hs5 e en4 He4) as (en5 & He5 & _).
  eapply wpe_run_bind; [by apply run_deref_entity|].
  destruct (contains _ _); [by eapply quadtree_insert_runs|by apply runs_ret].
Qed.

(** The entities of a cell are at its place. *)
Lemma tracks_member A w p c e : inv w → tracks A w → w_cells w !! p = Some c →
  e ∈ rt_entities_in_order (c_entities c) → A !! e = Some (c_offset c).
Proof.
  intros Hi Ht Hc. rewrite rt_entities_perm. intros ([i e'] & -> & Hin%elem_of_map_to_list)%list_elem_of_fmap. cbn.
  apply (tr_at _ _ Ht (c_offset c) i e'). unfold entities_at.
  by rewrite (cell_at_eq w (c_offset c) p c (inv_cells _ Hi p c Hc) Hc).
Qed.

Lemma cell_update_runs elapsed A L w p c :
  Civil elapsed → announced → running elapsed A L w → w_cells w !! p = Some c → runs elapsed A L w (cell_update p elapsed).
Proof.
  intros Hciv Han Hr Hc. unfold cell_update. eapply wpe_run_bind; [by apply run_deref_cell|].
  eapply runs_bind; [done| |].
  { apply wp_wpe. eapply wp_upd_cell; [exact Hc|]. apply (running_serves elapsed A L w p c); [done..|]. split; auto. }
  intros _ w1 Hr1 Hs1. apply runs_for_each; [done|]. intros e w2 He Hr2 Hs2.
  destruct (sy_cells _ _ (transitivity Hs1 Hs2) p c Hc) as (c2 & Hc2 & Ho2).
  eapply update_entity_runs; [done..| |].
  - rewrite Ho2. eapply tracks_member; [apply Hr|apply Hr|done|done].
  - intros x Hx. eapply (co_queues _ _ Hr p c Hc Han). unfold current_queue in Hx. apply elem_of_app.
    destruct (c_first c); auto.
Qed.

(** ** The collisions of a cell *)

(** Two sound entities are tested. *)
Lemma physics_entity_same w p c e :
  w_cells w !! p = Some c → wf MaxQuadtreeDepth (λ _ _ _, True) 0 (rq_tree (c_quadTree c)) → sound w e →
  (∀ e', e' ∈ contents (rq_tree (c_quadTree c)) → sound w e') →
  wp (physics_entity p e) w (λ _ w', w' = w).
Proof.
  intros Hc Hwf He Hall. unfold physics_entity. apply wp_bind. eapply wp_deref_cell; [exact Hc|]. apply wp_bind, wp_get.
  destruct (sound_rect w e He) as [r Hr]. apply wp_bind. eapply wp_lift_ok; [exact Hr|].
  apply wp_for_each_in; [done|]. intros e2 w' He2 ->. case_bool_decide; [by apply wp_ret|].
  assert (sound w e2) as (en2 & b2 & Hen2 & Hb2 & Hs2).
  { apply Hall. eapply elem_of_submseteq; [exact He2|]. by apply (retrieve_ok _ _ r zero2 zero2 0 _ Hwf). }
  destruct He as (en & b & Hen & Hb & Hs). destruct (solid_collides (e_position en) b (e_position en2) b2 Hs Hs2) as [x Hx].
  apply wp_bind. eapply wp_lift_ok; [unfold boundingBox; by rewrite Hen, Hb|].
  apply wp_bind. eapply wp_lift_ok; [unfold boundingBox; by rewrite Hen2, Hb2|].
  apply wp_bind. eapply wp_lift_ok; [exact Hx|]. by apply wp_ret.
Qed.

Lemma cell_physics_same elapsed A w p c :
  sane A w → w_cells w !! p = Some c → wp (cell_physics p elapsed) w (λ _ w', w' = w).
Proof.
  intros Hsa Hc. unfold cell_physics. apply wp_bind. eapply wp_deref_cell; [exact Hc|].
  apply wp_for_each_in; [done|]. intros e w' He ->. eapply physics_entity_same; [exact Hc|by eapply (co_tree _ _ Hsa)| |].
  - apply (co_sound _ _ Hsa). exists (c_offset c). eapply tracks_member; [apply Hsa|apply Hsa|done|done].
  - by apply (sa_fit _ _ Hsa p c).
Qed.

(** ** The update of the cluster *)

Lemma each_component_runs elapsed A L w (f : positive → M unit) :
  running elapsed A L w →
  (∀ p w', p ∈ grouped w → running elapsed A L w' → steady w w' → runs elapsed A L w' (f p)) →
  runs elapsed A L w (each_component f).
Proof.
  intros Hr Hf. unfold each_component. eapply wpe_run_bind; [done|].
  apply runs_for_each; [done|]. intros cid w1 Hcid Hr1 Hs1. eapply wpe_run_bind; [done|].
  apply runs_for_each; [done|]. intros p w2 Hp Hr2 Hs2. apply Hf; [|done|by etrans].
  rewrite (sy_groups _ _ Hs1) in Hp. apply (grouped_in w cid); [done|]. apply elem_of_seq in Hcid. lia.
Qed.

Lemma grouped_live elapsed A L w w' p :
  running elapsed A L w → steady w w' → p ∈ grouped w → ∃ c, w_cells w' !! p = Some c.
Proof.
  intros Hr Hs Hp%(proj2 (ru_grouped _ _ _ _ Hr)). destruct (inv_live _ (co_inv _ _ Hr) p Hp) as (c & Hc & _).
  destruct (sy_cells _ _ Hs p c Hc) as (c' & ? & _). by exists c'.
Qed.

(** What the operations of a turn leave for the update. *)
Record updatable (elapsed : Z) (A : places) (L : list positive) (w : World) : Prop := {
  up_sane :> sane A w;
  up_cool : no_cooldown w;
  up_keeping : keeping A L w;
  up_guarded : guarded elapsed A w;
  up_stall : k_stallCells (w_cluster w) ⊆ k_current (w_cluster w);
  up_groups cid : cells_of cid (k_cellsByCluster (w_cluster w)) = [];
  up_queue : undestroyed w;
  up_closing : closing w;
  up_few : (Z.of_nat (rt_connected_components (k_graph (w_cluster w))).1 < 2 ^ 16)%Z;
}.

(** Only the groups change: every cell is in one of them. *)
Lemma groups_running elapsed A L w n m :
  let w' := set_cluster (set_components n m (w_cluster w)) w in
  updatable elapsed A L w → grouped w' ≡ₚ elements (k_current (w_cluster w)) →
  (∀ cid, n ≤ cid → cells_of cid m = []) → running elapsed A L w'.
Proof.
  intros w' [[[Hi [] [] ? Ht ? ? ? ?] ?] Hn [] ? Hst Hgr ? [] _] Hg Hfar.
  assert (∀ q, q ∈ grouped w' ↔ q ∈ k_current (w_cluster w)) as Hin by (intros q; by rewrite Hg, elem_of_elements).
  split; try done.
  - split; [|done]. split; try done. destruct Hi. by split.
  - split; [rewrite Hg; apply NoDup_elements|]. intros q. apply Hin.
  - intros q Hq. by apply Hin, Hst.
  - intros p c Hc Hnin. destruct Hnin. apply Hin, Ht; [by exists c|]. by apply no_cooldown_hot.
Qed.

(** Entities live on, with their clients. *)
Definition companions (w w' : World) : Prop := ∀ e en, w_entities w !! e = Some en →
  ∃ en', w_entities w' !! e = Some en' ∧ e_client en' = e_client en.

Lemma steady_companions w w' : steady w w' → companions w w'.
Proof. intros Hs e en He. destruct (sy_entities _ _ Hs e en He) as (en' & ? & _ & ?). by exists en'. Qed.

(** And so do the clients. *)
Lemma bonded_clients w w' p :
  bonded w → bonded w' → companions w w' → is_Some (w_clients w !! p) → is_Some (w_clients w' !! p).
Proof.
  intros Hb Hb' Hco [c Hc]. destruct (bo_client _ Hb p c Hc) as (en & He & Hen).
  destruct (Hco _ en He) as (en' & He' & Heq). destruct (bo_entity _ Hb' _ en' p He') as (c' & ? & _); [congruence|].
  by exists c'.
Qed.

Lemma cluster_update_companions elapsed A L w :
  Civil elapsed → announced → updatable elapsed A L w →
  wpe overflow (cluster_update elapsed) w (λ _ w', running elapsed A L w' ∧ companions w w').
Proof.
  intros Hciv Han Hup. pose proof (co_inv _ _ Hup) as Hi. unfold cluster_update.
  eapply wpe_run_bind; [done|]. case_bool_decide as Hempty.
  { pose proof (inv_vertices _ Hi) as Hv. rewrite Hempty, dom_empty_L in Hv.
    set (k := w_cluster w). assert (w = set_cluster (set_components (k_num_components k) (k_cellsByCluster k) k) w) as Heq
      by by destruct w as [? ? ? ? ? []].
    unfold wpe, mret, ST_ret. split; [|by intros e en He; exists en].
    rewrite Heq. apply groups_running; [done| |by intros; apply Hup].
    rewrite <-Hv, elements_empty. unfold grouped. cbn. unfold k. generalize (seq 0 (k_num_components (w_cluster w))).
    induction l as [|cid l IH]; [done|]. cbn. by rewrite (up_groups _ _ _ _ Hup). }
  eapply wpe_wp_bind; [apply group_cells_ok; [done|apply Hup|by eapply up_few]|]. intros [] w1 (m & -> & Hm).
  set (w1 := set_cluster _ w). assert (running elapsed A L w1) as Hr1.
  { apply groups_running; [done|by apply groups_perm|]. intros cid Hcid. rewrite Hm.
    destruct (filter _ _) as [|p l] eqn:E; [done|exfalso]. assert (p ∈ p :: l) as Hin by by left.
    rewrite <-E in Hin. apply list_elem_of_filter in Hin as [Hcomp Hp%(elem_of_vertex_cells w p Hi)].
    destruct (component_of_some w p Hi Hp) as (cid' & Hcid' & ?). rewrite Hcid' in Hcomp. simplify_eq. lia. }
  apply (wpe_mono overflow _ _ (λ _ w', running elapsed A L w' ∧ steady w1 w')).
  2: { intros _ w' [Hr Hs]. split; [done|]. exact (steady_companions _ _ Hs). }
  eapply runs_bind; [done| |].
  - apply each_component_runs; [done|]. intros p w2 Hp Hr2 Hs2.
    destruct (grouped_live elapsed A L w1 w2 p Hr1 Hs2 Hp) as [c Hc]. by eapply cell_update_runs.
  - intros _ w2 Hr2 Hs2. apply each_component_runs; [done|]. intros p w3 Hp Hr3 Hs3.
    destruct (grouped_live elapsed A L w2 w3 p Hr2 Hs3 Hp) as [c Hc].
    apply wp_wpe. eapply wp_mono; [eapply cell_physics_same; [apply Hr3|done]|]. by intros _ ? ->.
Qed.

Lemma cluster_update_running elapsed A L w :
  Civil elapsed → announced → updatable elapsed A L w →
  wpe overflow (cluster_update elapsed) w (λ _ w', running elapsed A L w').
Proof. intros ? ? ?. eapply wpe_mono; [by apply cluster_update_companions|]. by intros _ w' []. Qed.
End update.
