(* ===== verification/Tick.v ===== *)
(** * A turn of the server

    [Server::update] as a whole: the operations of the map are moves of the
    abstract machine of [Places.v]; the cells are updated ([Update.v]); clients
    that are closed and in no cell are destroyed, with their entities; the map
    cleans up ([Life.v]). What every turn finds ([settled]) it leaves for the
    next one. *)

From Stdlib Require Import ZArith Lia.
From stdpp Require Import base list gmap option numbers sets.
From S2P Require Import Prelude Float32 Offset Hex Lockfree Physics QuadTree World Cell Cluster Turn Map Grow Operate Life Places.
From S2P Require Import Server Update.

Section tick.
Context `{Behaviour, !RuntimeLaws}.
Local Notation M := (ST World).

(** ** The operations of the server *)

(** What [running] worlds are once clients have gone: cells that were updated
    may still name their entities, until they are swept. *)
Record ending (elapsed : Z) (A : places) (L : list positive) (w : World) : Prop := {
  ed_consistent :> consistent A w;
  ed_fit p c : w_cells w !! p = Some c → p ∉ grouped w → fit w c;
  ed_cool : no_cooldown w;
  ed_keeping : keeping A L w;
  ed_guarded : guarded elapsed A w;
  ed_grouped : well_grouped w;
  ed_stall q : q ∈ k_stallCells (w_cluster w) → q ∈ grouped w;
  ed_far cid : k_num_components (w_cluster w) ≤ cid → cells_of cid (k_cellsByCluster (w_cluster w)) = [];
  ed_queue : undestroyed w;
  ed_closing : closing w;
}.

(** The clients and entities that are left are those that were there, and
    clients keep their entities. *)
Record leaves (A : places) (w w' : World) : Prop := {
  lv_entity e en : w_entities w' !! e = Some en → w_entities w !! e = Some en;
  lv_client p c : w_clients w' !! p = Some c → w_clients w !! p = Some c;
  lv_placed e : is_Some (A !! e) → w_entities w' !! e = w_entities w !! e;
  lv_client_entity p c : w_clients w' !! p = Some c → w_entities w' !! cl_entity c = w_entities w !! cl_entity c;
  lv_entity_client e en p : w_entities w' !! e = Some en → e_client en = Some p → w_clients w' !! p = w_clients w !! p;
}.

Lemma bonded_own w : bonded w → own_entities w.
Proof.
  intros Hb p q c d Hp Hq Heq. destruct (bo_client _ Hb p c Hp) as (en & He & Hc), (bo_client _ Hb q d Hq) as (en' & He' & Hd).
  congruence.
Qed.

Lemma bonded_operable w : bonded w → closing w → Forall (operable w) (lf_contents (w_server_ops w)).
Proof.
  intros Hb Hcl. apply Forall_forall. intros op Hop Ht. destruct (cs_closed _ Hcl (so_client op)) as (c & Hc & _).
  { apply list_elem_of_fmap. exists op. split; [done|]. by apply list_elem_of_filter. }
  destruct (bo_client _ Hb _ c Hc) as (en & He & _). by exists c, en.
Qed.

Lemma outside_inv w op : outside w op = true → so_type op = CLOSE ∧
  ∃ c en, w_clients w !! so_client op = Some c ∧ w_entities w !! cl_entity c = Some en ∧ e_cell en = None.
Proof.
  unfold outside. destruct (so_type op); [done|]. destruct (w_clients w !! so_client op) as [c|]; [|done].
  destruct (w_entities w !! cl_entity c) as [en|] eqn:He; [|done]. destruct (e_cell en) eqn:Hc; [done|]. eauto 10.
Qed.

Lemma settles_leaves A w w' ops :
  tracks A w → bonded w → settles ops w w' → leaves A w w'.
Proof.
  intros Ht Hb [Hc He]. pose proof (bonded_own w Hb) as Hown.
  assert (∀ e en, w_entities w' !! e = Some en → ¬ leaving_entity w ops e) as Hne.
  { intros e en Hen Hl%(proj1 (He e)). congruence. }
  assert (∀ p c, w_clients w' !! p = Some c → ¬ leaving w ops p) as Hnc.
  { intros p c Hp Hl%(proj1 (Hc p)). congruence. }
  assert (∀ p c, w_clients w' !! p = Some c → w_clients w !! p = Some c) as Hback.
  { intros p c Hp. by rewrite <-(proj2 (Hc p) (Hnc p c Hp)). }
  split.
  - intros e en Hen. by rewrite <-(proj2 (He e) (Hne e en Hen)).
  - exact Hback.
  - intros e [o HA]. apply (proj2 (He e)). intros (p & c & (op & _ & Hout & <-) & Hp & <-).
    destruct (outside_inv w op Hout) as (_ & c' & en & Hc' & Hen & Hcell). simplify_eq.
    rewrite <-(tr_home _ _ Ht), (home_nowhere w _ en) in HA by done. done.
  - intros p c Hp. apply (proj2 (He _)). intros (q & d & Hl & Hq & Heq).
    assert (p = q) as -> by (by apply (Hown p q c d); [apply Hback|..]). by apply (Hnc q c).
  - intros e en p Hen Hcl. apply (proj2 (Hc p)). intros Hl. apply (Hne e en Hen).
    assert (w_entities w !! e = Some en) as Hen0 by by rewrite <-(proj2 (He e) (Hne e en Hen)).
    destruct (bo_entity _ Hb e en p Hen0 Hcl) as (c & Hp & <-). by exists p, c.
Qed.

Lemma leaves_sound A w w' e : leaves A w w' → is_Some (A !! e) → sound w e → sound w' e.
Proof.
  intros Hl HA (en & b & He & ?). exists en, b. split; [by rewrite (lv_placed _ _ _ Hl)|done].
Qed.

Lemma leaves_tracks A w w' : leaves A w w' → w_cells w' = w_cells w → w_map w' = w_map w → tracks A w → tracks A w'.
Proof.
  intros Hl Hc Hm Ht. split.
  - intros e. rewrite <-(tr_home _ _ Ht). unfold home. rewrite Hc.
    destruct (w_entities w' !! e) as [en|] eqn:He; [by rewrite (lv_entity _ _ _ Hl e en He)|].
    destruct (A !! e) as [o|] eqn:HA; [by rewrite <-(lv_placed _ _ _ Hl), He by by eexists|].
    pose proof (tr_home _ _ Ht e) as Hh. rewrite HA in Hh. unfold home in Hh. by rewrite Hh.
  - intros e en p He. rewrite Hc. apply (tr_pointer _ _ Ht e en p). by apply Hl.
  - intros o i e. assert (entities_at w' o = entities_at w o) as -> by (unfold entities_at, cell_at; by rewrite Hm, Hc).
    rewrite (tr_at _ _ Ht). split; intros [HA He]; (split; [done|]); by rewrite (lv_placed _ _ _ Hl e) in * by by eexists.
  - intros e e' en en' He He'. apply (tr_ids _ _ Ht); by apply Hl.
Qed.

Lemma leaves_bonded A w w' : leaves A w w' → bonded w → bonded w'.
Proof.
  intros Hl Hb. split.
  - intros e en cl He Hcl. rewrite (lv_entity_client _ _ _ Hl e en cl He Hcl). apply (bo_entity _ Hb e en); [by apply Hl|done].
  - intros cl c Hc. rewrite (lv_client_entity _ _ _ Hl cl c Hc). by apply (bo_client _ Hb), Hl.
Qed.

(** The closings that are left: of clients whose entities are in the map. *)
Lemma settles_closing w w' :
  let ops := lf_contents (w_server_ops w) in
  closing w → lf_contents (w_server_ops w') = filter (kept w) ops → settles ops w w' → closing w'.
Proof.
  intros ops [Hcl Hnd Hlen] Hops [Hc _].
  assert (closes (filter (kept w) ops) `sublist_of` closes ops) as Hsub.
  { unfold closes. apply fmap_sublist. clear. induction ops as [|op ops IH]; [done|].
    rewrite filter_cons. destruct (decide (kept w op)).
    - rewrite !filter_cons. case_decide; [by constructor|done].
    - rewrite (filter_cons _ op ops). case_decide; [by constructor|done]. }
  split; rewrite Hops.
  - intros p Hp. destruct (Hcl p) as (c & Hp' & Hs); [by eapply sublist_subseteq|]. exists c. split; [|done].
    rewrite (proj2 (Hc p)); [done|]. intros (op & Hin & Hout & <-).
    apply list_elem_of_fmap in Hp as (op' & Heq & Hop'). apply list_elem_of_filter in Hop' as [Ht Hop'].
    apply list_elem_of_filter in Hop' as [Hk _]. destruct (outside_inv w op Hout) as (Ht' & _).
    unfold kept in Hk. rewrite Ht in Hk. unfold outside in Hout, Hk. rewrite Ht in Hk. rewrite Ht', Heq in Hout.
    rewrite Hout in Hk. done.
  - by eapply sublist_NoDup.
  - pose proof (length_filter (kept w) ops). fold ops in Hlen. lia.
Qed.

Lemma frames_inv w w' : frames w w' → inv w → inv w'.
Proof. intros (Hc & Hm & _ & Hk) Hi. apply (inv_outline w); [done..|]. intros p. by rewrite Hc. Qed.

Lemma frames_sheltered elapsed w w' o : frames w w' → sheltered elapsed w o → sheltered elapsed w' o.
Proof. intros (Hc & Hm & _) Hs. unfold sheltered. by rewrite Hc, Hm. Qed.

Lemma server_operations_ending elapsed A L w :
  running elapsed A L w → wp server_runScheduledOperations w (λ _ w', ending elapsed A L w').
Proof.
  intros Hr. pose proof (ru_closing _ _ _ _ Hr) as Hcl. pose proof (co_bonded _ _ Hr) as Hb.
  eapply wp_mono.
  { apply server_operations_ok; [by apply bonded_operable|apply Hcl|by apply bonded_own|apply Hcl]. }
  intros [] w' (Hops & Hset & Hf). pose proof (settles_leaves A w w' _ (co_tracks _ _ Hr) Hb Hset) as Hl.
  pose proof Hf as (Hc & Hm & Hq & Hk).
  assert (∀ p, hot w' p = hot w p) as Hhot by (intros p; by apply cells_hot).
  assert (grouped w' = grouped w) as Hg by (unfold grouped; by rewrite Hk).
  assert (∀ e, is_Some (A !! e) → sound w' e) as Hs.
  { intros e HA. apply (leaves_sound A w); [done..|]. by apply (co_sound _ _ Hr). }
  split; unfold undestroyed; rewrite ?Hg, ?Hk, ?Hq.
  - split; rewrite ?Hc, ?Hk; try apply Hr; [| | | |done].
    + eapply frames_inv; [done|apply Hr].
    + eapply leaves_tracks; [done..|apply Hr].
    + by eapply leaves_bonded.
    + intros p Hp. rewrite Hhot. by apply (co_touched _ _ Hr).
  - intros p c. rewrite Hc. intros Hp Hnin. destruct (ru_fresh _ _ _ _ Hr p c Hp Hnin) as [Hreq Hcon].
    split; [rewrite Hreq; by intros r ?%elem_of_nil|auto].
  - intros p c. rewrite Hc. apply (ru_cool _ _ _ _ Hr).
  - destruct (ru_keeping _ _ _ _ Hr) as [Hops' Hnd Hin]. split; rewrite ?Hk; [done..|]. intros e. rewrite Hin.
    split; intros [HA He]; (split; [done|]); by rewrite (lv_placed _ _ _ Hl e HA) in *.
  - intros e o en HA He Hu. apply (frames_sheltered elapsed w); [done|]. apply (ru_guarded _ _ _ _ Hr e o en); [done| |done].
    by apply Hl.
  - destruct (ru_grouped _ _ _ _ Hr) as [Hnd Hin]. split; rewrite ?Hg, ?Hk; done.
  - apply Hr.
  - apply Hr.
  - apply Hr.
  - by eapply settles_closing.
Qed.

(** ** The end of a turn *)

Lemma undestroyed_doomed w : undestroyed w → doomed (lf_contents (w_operations w)) = [].
Proof.
  unfold undestroyed, doomed, destroys. induction 1 as [|op ops Hop _ IH]; [done|]. cbn.
  by destruct (mo_type op).
Qed.

(** What a keeper reaches, by where it is. *)
Lemma reach1_home w e o : home w e = Some o → reach1 w e = around w o.
Proof. intros (en & p & c & He & Hp & Hc & <-)%home_some. by apply (reach1_placed w e en p c). Qed.

Lemma elem_of_reach A L w q : tracks A w → (∀ e, e ∈ L → is_Some (A !! e)) →
  q ∈ reach w L ↔ ∃ e o, e ∈ L ∧ A !! e = Some o ∧ q ∈ around w o.
Proof.
  intros Ht HL. unfold reach. rewrite elem_of_union_list. split.
  - intros (X & (e & -> & He)%list_elem_of_fmap & Hq). destruct (HL e He) as [o HA]. exists e, o.
    pose proof HA as Hh. rewrite <-(tr_home _ _ Ht) in Hh. by rewrite (reach1_home w e o) in Hq.
  - intros (e & o & He & HA & Hq). exists (reach1 w e). split; [apply list_elem_of_fmap; by exists e|].
    rewrite (reach1_home w e o); [done|]. by rewrite (tr_home _ _ Ht).
Qed.

Lemma keeping_in A L w e : keeping A L w → e ∈ L → is_Some (A !! e).
Proof. intros Hk He. by apply (ke_in _ _ _ Hk) in He as [? _]. Qed.

Lemma ending_endable elapsed A L w : (0 ≤ elapsed)%Z → ending elapsed A L w → endable elapsed L w.
Proof.
  intros Hel He. pose proof (co_tracks _ _ He) as Ht. pose proof (ed_keeping _ _ _ _ He) as Hk.
  split; try apply He.
  - intros q c Hc Hr. split; [done|]. by eapply (co_remaining _ _ He).
  - intros e HeL. destruct (keeping_in _ _ _ _ Hk HeL) as [o HA]. rewrite <-(tr_home _ _ Ht) in HA.
    apply home_some in HA as (en & p & c & Hen & Hp & Hc & _). exists en, p, c. split_and!; [done..|]. by eapply (co_grid _ _ He).
  - intros q c Hq Hc. apply (elem_of_reach A L w q Ht) in Hq as (e & o & HeL & HA & Hq); [|intros e; by apply (keeping_in A L w)].
    destruct (proj1 (ke_in _ _ _ Hk e) HeL) as [_ (en & Hen & Hu)]. by apply (sheltered_unexpired elapsed w o (ed_guarded _ _ _ _ He e o en HA Hen Hu) q c).
Qed.

(** What every turn finds: DESTROYs wait for the cells on cooldown, and for no
    others; the cluster is idle, and the cells around its keepers are alive. *)
Record settled (A : places) (w : World) : Prop := {
  se_sane :> sane A w;
  se_sealed : sealed w;
  se_doomed q : q ∈ doomed (lf_contents (w_operations w)) ↔ hot w q = true;
  se_nodup : NoDup (doomed (lf_contents (w_operations w)));
  se_destroy : Forall (λ op, mo_type op = DESTROY → valid_op w op) (lf_contents (w_operations w));
  se_keeping : keeping A (k_keepers (w_cluster w)) w;
  se_idle : lf_contents (k_operations (w_cluster w)) = [];
  se_near e o o' : e ∈ k_keepers (w_cluster w) → A !! e = Some o → o' = o ∨ adjacent o o' →
    ∃ p, w_map w !! o' = Some p ∧ unstalled w p;
  se_groups cid : cells_of cid (k_cellsByCluster (w_cluster w)) = [];
  se_stall : k_stallCells (w_cluster w) ⊆ k_current (w_cluster w);
  se_closing : closing w;
}.

Section cleanup.
Context (elapsed : Z) (A : places) (L : list positive) (w w' : World).
Context (Hel : (0 ≤ elapsed)%Z) (Hed : ending elapsed A L w) (He : ended elapsed L w w').

Lemma ended_cell q c' : w_cells w' !! q = Some c' →
  ∃ c st, w_cells w !! q = Some c ∧ c' = set_stall st (tidied w q c) ∧ c_offset c' = c_offset c ∧
    c_entities c' = c_entities c ∧ fate elapsed w L w' q c c'.
Proof using All.
  intros Hc'. destruct (en_cells _ _ _ _ He q) as [st Hst]. rewrite Hc' in Hst.
  destruct (w_cells w !! q) as [c|] eqn:Hc; [|done]. injection Hst as ->. exists c, st.
  destruct (en_fate _ _ _ _ He q c Hc) as (c2 & Hc2 & Hf). simplify_eq. destruct (tidied_same w q c) as [Ho HE]. done.
Qed.

(** The cells that end their time are those on cooldown. *)
Lemma ended_hot q : hot w' q = true ↔ ∃ c, w_cells w !! q = Some c ∧ expires elapsed c = true.
Proof using All.
  pose proof (ending_endable elapsed A L w Hel Hed) as Hend. destruct (w_cells w !! q) as [c|] eqn:Hc.
  - destruct (en_fate _ _ _ _ He q c Hc) as (c' & Hc' & Hf). rewrite (hot_cell _ _ _ Hc'). unfold fate in Hf.
    case_decide as Hr.
    { destruct Hf as (_ & _ & c2 & Hc2 & _ & Hcd). simplify_eq. rewrite Hcd. split; [done|].
      intros (c3 & [= <-] & Hex). by rewrite (eb_kept _ _ _ Hend q c) in Hex. }
    destruct (isRegistered (stall c)) eqn:Hreg.
    + destruct (expires elapsed c) eqn:Hex; destruct Hf as [-> _]; cbn; [naive_solver|]. split; [done|].
      intros (c3 & [= <-] & ?). congruence.
    + assert (expires elapsed c = false) as Hex by (unfold expires; by rewrite Hreg).
      assert (isOnCooldown (stall c') = false) as ->.
      { case_decide; [by destruct Hf as [-> _]|]. subst c'. by apply (ed_cool _ _ _ _ Hed q). }
      split; [done|]. intros (c3 & [= <-] & ?). congruence.
  - split; [|by intros (? & ? & _)]. unfold hot. destruct (w_cells w' !! q) as [c'|] eqn:Hc'; [|done].
    destruct (ended_cell q c' Hc') as (c & _ & ? & _). congruence.
Qed.

Lemma ended_tracks : tracks A w'.
Proof using All.
  apply (tracks_roster A w); [apply Hed|apply He| |intros e; by rewrite (en_entities _ _ _ _ He)].
  intros p. destruct (en_cells _ _ _ _ He p) as [st ->]. destruct (w_cells w !! p) as [c|]; [|done]. cbn.
  destruct (tidied_same w p c) as [Ho HE]. unfold roster. cbn. by rewrite Ho, HE.
Qed.

(** What a swept cell is left with. *)
Lemma ended_tidied q c :
  wf MaxQuadtreeDepth (λ _ _ _, True) 0 (rq_tree (c_quadTree c)) →
  wf MaxQuadtreeDepth (λ _ _ _, True) 0 (rq_tree (c_quadTree (tidied w q c))) ∧
  (∀ x, x ∈ c_queue1 (tidied w q c) ++ c_queue2 (tidied w q c) → x ∈ c_queue1 c ++ c_queue2 c) ∧
  (q ∈ grouped w → c_requests (tidied w q c) = [] ∧ contents (rq_tree (c_quadTree (tidied w q c))) = []).
Proof using All.
  intros Hwf. destruct (retrieve_ok _ _ (Vec4 zero2.1 zero2.1 zero2.1 zero2.1) zero2 zero2 0 _ Hwf) as (_ & _ & Hwf' & Hnil).
  unfold tidied, swept, clearQueues. case_decide; [|done]. destruct (c_first c); cbn; (split_and!; [done| |done]); set_solver.
Qed.

Lemma ended_consistent : consistent A w'.
Proof using All.
  split.
  - apply He.
  - exact ended_tracks.
  - destruct (co_bonded _ _ Hed) as [? ?]. split; rewrite (en_entities _ _ _ _ He), (en_clients _ _ _ _ He); done.
  - intros p c' Hc'. destruct (ended_cell p c' Hc') as (c & st & Hc & _ & -> & _). by eapply (co_grid _ _ Hed).
  - intros p [c' Hc'] Hh. destruct (ended_cell p c' Hc') as (c & st & Hc & _ & _ & _ & Hf). unfold fate in Hf.
    case_decide; [apply Hf|]. destruct (isRegistered (stall c)).
    + destruct (expires elapsed c); [|apply Hf]. destruct Hf as [Hs _]. rewrite (hot_cell _ _ _ Hc'), Hs in Hh. done.
    + case_decide as Hcur; [apply Hf|]. destruct Hcur. apply (co_touched _ _ Hed); [by exists c|].
      by apply no_cooldown_hot, Hed.
  - intros p c' Hc' Han x Hx. destruct (ended_cell p c' Hc') as (c & st & Hc & -> & _).
    apply (co_queues _ _ Hed p c Hc Han). by apply (ended_tidied p c (co_tree _ _ Hed p c Hc)).
  - intros p c' Hc'. destruct (ended_cell p c' Hc') as (c & st & Hc & -> & _).
    apply (ended_tidied p c (co_tree _ _ Hed p c Hc)).
  - intros e HA. destruct (co_sound _ _ Hed e HA) as (en & b & ?). exists en, b. by rewrite (en_entities _ _ _ _ He).
  - intros p c' Hc' Hr. destruct (ended_cell p c' Hc') as (c & st & Hc & _ & _ & _ & Hf). unfold fate in Hf.
    case_decide; [destruct Hf as (_ & _ & c2 & Hc2 & Hr2 & _); congruence|]. destruct (isRegistered (stall c)) eqn:Hreg.
    + destruct (expires elapsed c); destruct Hf as [Hs _]; rewrite Hs in *; [done|]. cbn.
      pose proof (co_remaining _ _ Hed p c Hc Hreg). lia.
    + case_decide; [destruct Hf as [-> _]; cbn; unfold stall_time; lia|]. subst c'. by eapply (co_remaining _ _ Hed).
Qed.

Lemma ended_fit p c' : w_cells w' !! p = Some c' → fit w' c'.
Proof using All.
  intros Hc'. destruct (ended_cell p c' Hc') as (c & st & Hc & -> & _).
  destruct (ended_tidied p c (co_tree _ _ Hed p c Hc)) as (_ & _ & Hnil). unfold fit, sound. rewrite (en_entities _ _ _ _ He).
  change (c_requests (set_stall st (tidied w p c))) with (c_requests (tidied w p c)).
  change (c_quadTree (set_stall st (tidied w p c))) with (c_quadTree (tidied w p c)).
  destruct (decide (p ∈ grouped w)) as [Hg|Hg].
  - destruct (Hnil Hg) as [-> ->]. split; by intros ? ?%elem_of_nil.
  - unfold tidied. rewrite decide_False by done. by apply (ed_fit _ _ _ _ Hed p c).
Qed.

Lemma ended_doomed : ∃ l, NoDup l ∧ (∀ q, q ∈ l ↔ hot w' q = true) ∧
  doomed (lf_contents (w_operations w')) = l ∧
  Forall (λ op, mo_type op = DESTROY → valid_op w' op) (lf_contents (w_operations w')).
Proof using All.
  destruct (en_destroys _ _ _ _ He) as (l & Hnd & Hl & Hops). exists l. split; [done|].
  assert (∀ q, q ∈ l ↔ hot w' q = true) as Hhot by (intros q; by rewrite Hl, ended_hot). split; [done|].
  rewrite Hops. split.
  - unfold doomed. rewrite omap_app. fold (doomed (lf_contents (w_operations w))).
    rewrite (undestroyed_doomed w (ed_queue _ _ _ _ Hed)). cbn. clear Hops Hnd Hhot.
    assert (∀ q, q ∈ l → ∃ c, w_cells w !! q = Some c) as Hlive by (intros q (c & ? & _)%Hl; by exists c). clear Hl.
    induction l as [|q l IH]; [done|]. destruct (Hlive q) as [c Hc]; [by left|].
    cbn. unfold destruction at 1. rewrite Hc. cbn. f_equal. apply IH. intros q' Hq'. apply Hlive. by right.
  - apply Forall_app. split.
    + eapply Forall_impl; [exact (ed_queue _ _ _ _ Hed)|]. by intros op Hop Ht.
    + apply Forall_forall. intros op (q & Hq & Hd)%list_elem_of_omap _. unfold destruction in Hd.
      apply Hhot in Hq. destruct (w_cells w !! q) as [c|] eqn:Hc; [|done]. injection Hd as <-.
      destruct (en_fate _ _ _ _ He q c Hc) as (c' & Hc' & _). destruct (ended_cell q c' Hc') as (c2 & _ & Hc2 & _ & Ho & _).
      simplify_eq. exists q, c'. split_and!; [done..|]. by rewrite <-(hot_cell _ _ _ Hc').
Qed.

Lemma ended_settled : settled A w'.
Proof using All.
  destruct ended_doomed as (l & Hnd & Hl & Hd & Hv). pose proof (en_keepers _ _ _ _ He) as Hk.
  pose proof (ed_keeping _ _ _ _ Hed) as HkL. pose proof (co_tracks _ _ Hed) as Ht.
  assert (∀ q c, w_cells w !! q = Some c → q ∈ reach w L → unstalled w' q) as Hnear.
  { intros q c Hc Hq. destruct (en_fate _ _ _ _ He q c Hc) as (c' & _ & Hf). unfold fate in Hf.
    rewrite decide_True in Hf by done. apply Hf. }
  split.
  - split; [exact ended_consistent|exact ended_fit].
  - intros q (c & Hc & Hex)%ended_hot Hin. destruct (en_fate _ _ _ _ He q c Hc) as (c' & Hc' & Hf). unfold fate in Hf.
    case_decide as Hr; [by apply (Hnear q c)|]. assert (isRegistered (stall c) = true) as Hreg
      by (unfold expires in Hex; by apply andb_true_iff in Hex as [? _]).
    rewrite Hreg, Hex in Hf. by destruct Hf.
  - intros q. by rewrite Hd.
  - by rewrite Hd.
  - done.
  - destruct HkL as [_ HL Hin]. split; rewrite ?Hk, ?(en_queue _ _ _ _ He); [done..|].
    intros e. by rewrite (en_entities _ _ _ _ He).
  - apply He.
  - intros e o o'. rewrite Hk, (en_map _ _ _ _ He). intros HeL HA Ho'.
    destruct (proj1 (ke_in _ _ _ HkL e) HeL) as [_ (en & Hen & Hu)].
    destruct (ed_guarded _ _ _ _ Hed e o en HA Hen Hu o' Ho') as (p & c & Hp & Hc & _). exists p. split; [done|].
    apply (Hnear p c Hc), (elem_of_reach A L w p Ht); [intros e'; by apply (keeping_in A L w)|].
    exists e, o. split_and!; [done..|]. apply elem_of_around. by exists o'.
  - apply He.
  - apply He.
  - destruct (ed_closing _ _ _ _ Hed). by split; rewrite (en_server _ _ _ _ He), ?(en_clients _ _ _ _ He).
Qed.
End cleanup.


Lemma map_cleanup_settled elapsed A L w :
  (0 ≤ elapsed)%Z → ending elapsed A L w → wp (map_cleanup elapsed) w (λ _ w', settled A w').
Proof.
  intros Hel Hed. eapply wp_mono; [by eapply map_cleanup_ended, ending_endable|].
  intros [] w' He. by eapply ended_settled.
Qed.

(** ** The turn *)

(** The operations that wait are moves of the machine, from [A] to [A'], which
    are away from the border of the grid, from cells on cooldown, and, where
    they bring an updater, from cells that end their time in this turn; there
    are no more of them than the queue of the cluster holds, and no more
    components than a [uint16_t] counts. *)
Record ready (elapsed : Z) (A A' : places) (w : World) : Prop := {
  rd_elapsed : (0 ≤ elapsed)%Z;
  rd_moves : relocates (lf_contents (w_operations w)) A = Some A';
  rd_valid : Forall (λ op, mo_type op ≠ DESTROY → valid_move w op ∧ admissible elapsed w op) (lf_contents (w_operations w));
  rd_room : length (lf_contents (w_operations w)) ≤ 4096;
  rd_few w1 : map_runScheduledOperations w = (Ok tt, w1) →
    (Z.of_nat (rt_connected_components (k_graph (w_cluster w1))).1 < 2 ^ 16)%Z;
}.

(** What the works of the executor are trusted to keep. *)
Definition orderly (elapsed : Z) (jobs : M unit) : Prop :=
  ∀ A L w, running elapsed A L w → wp jobs w (λ _ w', running elapsed A L w').

Lemma orderly_ret elapsed : orderly elapsed (mret tt).
Proof. by intros A L w. Qed.

Lemma settled_guarded elapsed A w : settled A w → guarded elapsed A w.
Proof.
  intros Hse e o en HA He Hu o' Ho'. destruct (se_near _ _ Hse e o o') as (p & Hp & _ & c & Hc & Hcalm); [|done..|].
  - apply (se_keeping _ _ Hse). split; [by eexists|by exists en].
  - exists p, c. split_and!; [done..| |]; by apply calm_unexpired.
Qed.

Lemma settled_moving elapsed A A' w :
  settled A w → ready elapsed A A' w → moving elapsed A' (lf_contents (w_operations w)) w.
Proof.
  intros Hse [_ Hm Hv Hroom _]. pose proof (se_destroy _ _ Hse) as Hd. rewrite Forall_forall in Hv, Hd. split.
  - split_and!; [apply Hse|apply Hse| |apply Hse]. apply Forall_forall. intros op Hin.
    specialize (Hv op Hin). specialize (Hd op Hin). unfold valid_op in *.
    destruct (mo_type op); [by apply Hv..|by apply Hd].
  - apply Forall_forall. intros op Hin e en Ht. apply (Hv op Hin); [by rewrite Ht|done].
  - rewrite (se_idle _ _ Hse). cbn. lia.
  - exists A, (k_keepers (w_cluster w)). split_and!; [done|apply Hse|apply Hse|by apply settled_guarded].
Qed.

Lemma map_operations_companions elapsed A A' w :
  settled A w → ready elapsed A A' w →
  wp map_runScheduledOperations w (λ _ w', (∃ L, updatable elapsed A' L w') ∧ companions w w').
Proof.
  intros Hse Hrd. pose proof (map_operations_moving elapsed A' w (settled_moving _ _ _ _ Hse Hrd)) as Hwp.
  apply wp_run in Hwp as ([] & w1 & Hrun & Hnil & Hop & L & Hsa & Hk & Hg).
  eapply run_wp; [exact Hrun|]. split.
  2: { intros e en He. destruct (stripped_some _ _ _ _ (op_stripped _ _ _ Hop e) He) as (en' & He' & Heq).
    exists en'. split; [done|]. by injection Heq. }
  exists L. split; [done| |done|done| | | | |by apply Hrd].
  - intros p c Hc. rewrite <-(hot_cell _ _ _ Hc). destruct (hot w1 p) eqn:Hh; [|done].
    apply (op_hot _ _ _ Hop) in Hh as [Hh HD]. exfalso. by apply HD, elem_of_list_to_set, (se_doomed _ _ Hse).
  - etrans; [apply Hop|]. etrans; [apply Hse|apply Hop].
  - intros cid. rewrite (op_groups _ _ _ Hop). apply Hse.
  - unfold undestroyed. rewrite Hnil. constructor.
  - destruct (se_closing _ _ Hse). by split; rewrite (op_server _ _ _ Hop), ?(op_clients _ _ _ Hop).
Qed.

Lemma map_operations_updatable elapsed A A' w :
  settled A w → ready elapsed A A' w →
  wp map_runScheduledOperations w (λ _ w', ∃ L, updatable elapsed A' L w').
Proof. intros ? ?. eapply wp_mono; [by apply (map_operations_companions elapsed A A')|]. by intros _ w' []. Qed.

Lemma server_update_turns jobs elapsed prev A A' w :
  Civil elapsed → orderly elapsed jobs → announced → settled A w → ready elapsed A A' w →
  wpe overflow (server_update jobs elapsed prev) w (λ sleep w', settled A' w' ∧ sleep = sleep_time elapsed prev).
Proof.
  intros Hcivil Hjobs Hannounced Hsettled Hready. unfold server_update, map_update. apply wpe_bind.
  eapply wpe_wp_bind; [by apply (map_operations_updatable elapsed A A')|]. intros [] w1 [L Hup].
  eapply wpe_mono; [by apply (cluster_update_running elapsed A' L)|]. intros [] w2 Hr2.
  eapply wpe_wp_bind; [by apply (Hjobs A' L)|]. intros [] w3 Hr3.
  eapply wpe_wp_bind; [by apply (server_operations_ending elapsed A' L)|]. intros [] w4 Hed.
  eapply wpe_wp_bind; [apply (map_cleanup_settled elapsed A' L); [apply Hready|done]|]. by intros [] w5 Hse.
Qed.

(** C1. In a settled world a turn of the server runs, executes the waiting
    operations, leaves a settled world again, and moves the entities from the
    places [A] to the places [A'] that the operations lead to, which is a step
    of the machine of [Places.v]. It updates every cell, runs the works, settles
    the clients and cleans up. The one failure that is left is an [int] that
    overflows where a quadtree splits. What the application does in its virtual
    functions and works is trusted to keep the world as updating finds it. *)
Theorem server_update_refines (jobs : M unit) (elapsed prev : Z) (A A' : places) (w : World)
    (Hcivil : Civil elapsed) (Hjobs : orderly elapsed jobs) (Hannounced : announced)
    (Hsettled : settled A w) (Hready : ready elapsed A A' w) :
  match server_update jobs elapsed prev w with
  | (Ok sleep, w') => settled A' w' ∧ sleep = sleep_time elapsed prev
  | (Fail f, _) => f = UB IntOverflow
  end.
Proof. by apply (server_update_turns jobs elapsed prev A A' w). Qed.

(** The world as it is created. *)
Lemma World_new_settled : settled ∅ World_new.
Proof.
  assert (lf_contents (w_operations World_new) = []) as Hq by apply (lf_empty_contents (cap := None)).
  assert (lf_contents (k_operations (w_cluster World_new)) = []) as Hk by apply (lf_empty_contents (cap := Some 4096)).
  assert (lf_contents (w_server_ops World_new) = []) as Hs by apply (lf_empty_contents (cap := Some 1024)).
  assert (∀ p, hot World_new p = false) as Hh by done.
  assert (inv World_new) as Hi.
  { split; cbn; try done; try set_solver; [by rewrite rt_order_empty|]. intros u v. rewrite rt_edges_empty. by intros ?%elem_of_nil. }
  split; rewrite ?Hq, ?Hk; try done.
  - split; [|done]. split; try done.
    + split; [done|done| |done]. intros o i e. split; [done|by intros [? _]].
    + by intros p [c Hc].
    + by intros e [o Ho].
  - intros q. rewrite Hh. split; [by intros ?%elem_of_nil|done].
  - constructor.
  - split; [by rewrite Hk|constructor|]. intros e. split; [by intros ?%elem_of_nil|]. by intros [[? ?] _].
  - split; rewrite ?Hs; [by intros p ?%elem_of_nil|constructor|cbn; lia].
Qed.
End tick.
