(* ===== verification/Walk.v ===== *)
(** * Entities that move in a turn

    What a [MotionMaster] does while the cells are updated ([Motion.v]): the
    position of its entity changes, which may create cells and schedule a
    crossing, its box is rotated, packets are broadcast to the neighbours. All
    of it keeps the world as updating finds it; so entities that walk meet the
    law that [Update.v] asks of an application. *)

From Stdlib Require Import ZArith Lia.
From stdpp Require Import base list gmap option numbers sets.
From S2P Require Import Prelude Float32 Packet Offset Hex Lockfree Physics QuadTree Bezier World Cell Cluster Turn Map Grow Operate.
From S2P Require Import Life Places Motion Server Update.

Section walk.
Context `{Behaviour, !RuntimeLaws}.
Local Notation M := (ST World).

(** ** Growing *)

Lemma tracks_grows A w w' : tracks A w → inv w → inv w' → grows w w' → tracks A w'.
Proof.
  intros Ht Hi Hi' Hgr. pose proof (grows_operated w w' Hi' Hgr) as Hop. pose proof (gr_entities _ _ Hgr) as He.
  assert (∀ e en, w_entities w !! e = Some en → home w' e = home w e ∧
    ∀ p, e_cell en = Some p → is_Some (w_cells w' !! p)) as Hhome.
  { intros e en Hen. apply (operated_home A ∅ w w' e en); [done..|by rewrite He|set_solver]. }
  split.
  - intros e. rewrite <-(tr_home _ _ Ht). destruct (w_entities w !! e) as [en|] eqn:Hen; [by eapply Hhome|].
    unfold home. by rewrite He, Hen.
  - intros e en p. rewrite He. intros Hen. by apply (Hhome e en).
  - intros o i e. rewrite (grows_entities_at w w') by done. rewrite He. apply (tr_at _ _ Ht).
  - rewrite He. apply Ht.
Qed.

(** The cells that are not grouped, as [running] has them. *)
Definition fresh_cells (A : places) (w : World) : Prop :=
  ∀ p c, w_cells w !! p = Some c → p ∉ grouped w →
    c_requests c = [] ∧ ∀ e, e ∈ contents (rq_tree (c_quadTree c)) → is_Some (A !! e).

Lemma running_grows elapsed A L w w' :
  running elapsed A L w → inv w' → grows w w' → fresh_cells A w' → running elapsed A L w' ∧ steady w w'.
Proof.
  intros Hr Hi' Hgr Hfr. pose proof (grows_operated w w' Hi' Hgr) as Hop. pose proof (co_inv _ _ Hr) as Hi.
  assert (steady w w') as Hs.
  { split; [|by rewrite (gr_entities _ _ Hgr); eauto|apply Hgr|apply Hgr].
    intros p c Hc. destruct (gr_cells _ _ Hgr p c Hc) as (c' & ? & ? & _). by exists c'. }
  pose proof (steady_grouped w w' Hs) as Hg. split; [|done]. split.
  - eapply sane_operated; [apply Hr|exact Hop|by eapply tracks_grows; [apply Hr|..]|apply (co_sound _ _ Hr)].
  - intros p c Hc. rewrite <-(hot_cell _ _ _ Hc), (gr_hot _ _ Hgr). by apply no_cooldown_hot, Hr.
  - destruct (ru_keeping _ _ _ _ Hr) as [Hops Hnd Hin].
    split; rewrite ?(gr_k_operations _ _ Hgr), ?(gr_keepers _ _ Hgr), ?(gr_entities _ _ Hgr); done.
  - intros e o en HA. rewrite (gr_entities _ _ Hgr). intros He Hu. eapply operated_sheltered; [done|done|].
    by eapply (ru_guarded _ _ _ _ Hr).
  - destruct (ru_grouped _ _ _ _ Hr) as [Hnd Hin]. split; rewrite Hg; [done|]. intros q Hq. by apply (gr_current _ _ Hgr), Hin.
  - intros q Hq. rewrite Hg. by apply (ru_stall _ _ _ _ Hr), (gr_stall _ _ Hgr).
  - rewrite (gr_groups _ _ Hgr), (gr_components _ _ Hgr). apply Hr.
  - exact Hfr.
  - unfold undestroyed. rewrite (gr_operations _ _ Hgr). apply Hr.
  - destruct (ru_closing _ _ _ _ Hr). by split; rewrite (gr_server _ _ Hgr), ?(gr_clients _ _ Hgr).
Qed.

(** Looking a cell up, which may be created. *)
Lemma getOrCreate_running elapsed A L w o :
  running elapsed A L w → in_grid o →
  wp (getOrCreate o) w (λ p w', w_map w' !! o = Some p ∧ grows w w' ∧ running elapsed A L w' ∧ steady w w').
Proof.
  intros Hr Ho. pose proof (co_inv _ _ Hr) as Hi. destruct (w_map w !! o) as [p|] eqn:Hm.
  { eapply wp_getOrCreate_old; [done|]. split_and!; [done|apply grows_refl|done|done]. }
  eapply wp_mono; [by apply getOrCreate_new; [|apply no_cooldown_clear, Hr|..]|].
  intros p w' (-> & Hi' & Hev & Hcur & _). set (p := rt_alloc (dom (w_cells w))) in *.
  assert (grows w w') as Hgr by (eapply new_cell_grows; [done|done|apply rt_alloc_fresh|done|done]).
  split; [rewrite (ev_map _ _ Hev); apply lookup_insert_eq|]. split; [done|].
  apply running_grows; [done..|]. intros q c' Hc' Hnin.
  assert (q ∉ grouped w) as Hnin'.
  { unfold grouped in *. by rewrite (gr_groups _ _ Hgr), (gr_components _ _ Hgr) in Hnin. }
  destruct (evolves_cell_inv _ _ _ _ Hev Hc') as (c & Hc & _ & Hcc).
  assert (c_requests c' = c_requests c ∧ c_quadTree c' = c_quadTree c) as [-> ->] by by destruct Hcc as [->| ->].
  cbn in Hc. apply lookup_insert_Some in Hc as [[_ <-]|[_ Hc]]; [|by apply (ru_fresh _ _ _ _ Hr q)].
  split; [done|]. by intros e ?%elem_of_nil.
Qed.

(** ** Moving *)

Lemma running_displaced elapsed A L w e en en' :
  running elapsed A L w → w_entities w !! e = Some en → displaced en en' →
  running elapsed A L (set_world_entities (<[e := en']> (w_entities w)) w) ∧
  steady w (set_world_entities (<[e := en']> (w_entities w)) w).
Proof. intros Hr He Hd. apply running_quiet; [done|]. apply (displaced_quiet A w e en); [apply Hr..|done|done]. Qed.

(** Where an entity that is somewhere points to. *)
Lemma running_at elapsed A L w e o :
  running elapsed A L w → A !! e = Some o →
  ∃ en p c, w_entities w !! e = Some en ∧ e_cell en = Some p ∧ w_cells w !! p = Some c ∧ c_offset c = o.
Proof. intros Hr HA. apply home_some. by rewrite (tr_home _ _ (co_tracks _ _ Hr)). Qed.

Lemma crossing_undestroyed from o e old new : Forall (λ op, mo_type op ≠ DESTROY) (crossing from o e old new).
Proof. unfold crossing. case_decide; by repeat constructor. Qed.

(** A move is told to the map. *)
Lemma onMove_running elapsed A L w e en from o :
  running elapsed A L w → A !! e = Some from → w_entities w !! e = Some en →
  offsetOf (v3x (e_position en)) (v3z (e_position en)) = Ok o → in_grid o →
  wp (onMove e) w (λ _ w', running elapsed A L w' ∧ steady w w' ∧ w_entities w' = w_entities w ∧ ∃ old new,
    lf_contents (w_operations w') = lf_contents (w_operations w) ++ crossing from o e old new).
Proof.
  intros Hr HA He Hpos Ho. destruct (running_at _ _ _ _ _ _ Hr HA) as (en' & cell & c & He' & Hcell & Hc & Hco). simplify_eq.
  eapply wp_mono.
  { eapply (onMove_ok w e cell en c o); try done; [apply Hr|apply no_cooldown_clear, Hr]. }
  intros [] w' (new & w1 & q & Hrun & Hi1 & -> & Hm & Hq).
  destruct (wp_run _ _ _ (getOrCreate_running elapsed A L w o Hr Ho)) as (p & w2 & Hrun2 & _ & Hgr & Hr1 & Hs1).
  rewrite Hrun in Hrun2. injection Hrun2 as <- <-.
  destruct (running_quiet elapsed A L w1 (set_operations q w1) Hr1) as [Hr2 Hs2].
  { apply (operations_quiet A); [apply Hr1..|]. exists (crossing (c_offset c) o e cell new).
    split; [by rewrite (gr_operations _ _ Hgr)|apply crossing_undestroyed]. }
  split_and!; [done|by transitivity w1|apply (gr_entities _ _ Hgr)|]. by exists cell, new.
Qed.

(** What acting for the entity [e] does: the world is kept, the entity is at
    [position], and what is scheduled is its crossing to another cell. *)
Definition acts (elapsed : Z) (A : places) (L : list positive) (w : World) (e : positive) (position : option vec3)
    (w' : World) : Prop :=
  running elapsed A L w' ∧ steady w w' ∧ e_position <$> w_entities w' !! e = position ∧
  ∃ ops, lf_contents (w_operations w') = lf_contents (w_operations w) ++ ops ∧ Forall (λ op, mo_entity op = Some e) ops.

Lemma crossing_entity from o e old new : Forall (λ op, mo_entity op = Some e) (crossing from o e old new).
Proof. unfold crossing. case_decide; by repeat constructor. Qed.

Lemma entity_moves elapsed A L w e p o :
  running elapsed A L w → is_Some (A !! e) → offsetOf (v3x p) (v3z p) = Ok o → in_grid o →
  wp (_ ← upd_entity e (λ e, mkEntity (e_id e) (e_client e) (e_cell e) (e_isUpdater e) p (e_boundingBox e)); onMove e) w
    (λ _ w', acts elapsed A L w e (Some p) w').
Proof.
  intros Hr [from HA] Hpos Ho. destruct (running_at _ _ _ _ _ _ Hr HA) as (en & cell & c & He & Hcell & Hc & Hco).
  apply wp_bind. eapply wp_upd_entity; [exact He|].
  set (en' := mkEntity _ _ _ _ _ _). destruct (running_displaced elapsed A L w e en en' Hr He) as [Hr1 Hs1]; [split_and!; eauto|].
  eapply wp_mono; [eapply (onMove_running elapsed A L _ e en' from o); [done|done|apply lookup_insert_eq|done|done]|].
  intros [] w' (Hr2 & Hs2 & Hents & old & new & Hq). split_and!; [done|by etrans| |].
  - rewrite Hents. cbn. by rewrite lookup_insert_eq.
  - exists (crossing from o e old new). split; [exact Hq|apply crossing_entity].
Qed.

(** ** Broadcasting *)

(** Only cells change. *)
Definition broadcasts (elapsed : Z) (A : places) (L : list positive) (w w' : World) : Prop :=
  running elapsed A L w' ∧ steady w w' ∧ w_entities w' = w_entities w ∧ w_operations w' = w_operations w.

Lemma broadcasts_trans elapsed A L w1 w2 w3 :
  broadcasts elapsed A L w1 w2 → broadcasts elapsed A L w2 w3 → broadcasts elapsed A L w1 w3.
Proof.
  intros (_ & Hs1 & He1 & Ho1) (Hr2 & Hs2 & He2 & Ho2). split_and!; [done|by transitivity w2|congruence|congruence].
Qed.

Lemma cell_broadcast_running elapsed A L w p x :
  running elapsed A L w → is_Some (w_cells w !! p) →
  wp (cell_broadcast p (Some x)) w (λ _ w', broadcasts elapsed A L w w').
Proof.
  intros Hr [c Hc]. eapply wp_upd_cell; [exact Hc|].
  destruct (running_serves elapsed A L w p c (enqueue (Some x) c)) as [Hr1 Hs1]; [done..| |by split_and!].
  unfold enqueue. destruct (0 <? c_clientsCount c)%Z; [|done].
  destruct (c_first c); split; auto; intros Hp Ha y; specialize (Hp Ha y); cbn;
    rewrite !elem_of_app, list_elem_of_singleton in *; intuition (subst; eauto).
Qed.

(** The neighbours of an updater exist. *)
Lemma broadcast_running elapsed A L w e en cell x :
  running elapsed A L w → e ∈ L → w_entities w !! e = Some en → e_cell en = Some cell →
  wp (broadcastToSiblings cell (Some x)) w (λ _ w', broadcasts elapsed A L w w').
Proof.
  intros Hr HL He Hcell. apply (ke_in _ _ _ (ru_keeping _ _ _ _ Hr)) in HL as [[o HA] (en2 & He2 & Hu)].
  destruct (running_at _ _ _ _ _ _ Hr HA) as (en3 & cell' & c & He3 & Hcell' & Hc & <-).
  assert (en3 = en) as -> by congruence. assert (en2 = en) as -> by congruence. assert (cell' = cell) as -> by congruence.
  unfold broadcastToSiblings. apply wp_bind. eapply wp_mono; [by apply (cell_broadcast_running elapsed A L)|].
  intros [] w1 Hb1. pose proof Hb1 as (Hr1 & Hs1 & _). destruct (sy_cells _ _ Hs1 cell c Hc) as (c1 & Hc1 & Ho1).
  apply wp_bind. eapply wp_getSiblings; [exact Hc1|by eapply (co_grid _ _ Hr1)|].
  apply (wp_mono _ _ (λ _ w', broadcasts elapsed A L w1 w')); [|intros _ w'; by apply broadcasts_trans].
  apply wp_for_each_in; [by split_and!|]. intros s w2 (o' & -> & Ho')%list_elem_of_fmap Hb2. pose proof Hb2 as (Hr2 & Hs2 & _).
  apply elem_of_siblings in Ho'. rewrite Ho1 in Ho'.
  destruct (sy_entities _ _ Hs1 e en He) as (en1 & He1 & _).
  assert (sheltered elapsed w1 (c_offset c)) as Hsh.
  { destruct (proj1 (ke_in _ _ _ (ru_keeping _ _ _ _ Hr1) e)) as [_ (en4 & He4 & Hu4)].
    - apply (ke_in _ _ _ (ru_keeping _ _ _ _ Hr)). split; [by eexists|by exists en].
    - by apply (ru_guarded _ _ _ _ Hr1 e (c_offset c) en4). }
  destruct (Hsh o') as (q & d & -> & Hd & _); [by right|].
  destruct (sy_cells _ _ Hs2 q d Hd) as (d2 & Hd2 & _). apply wp_bind, wp_not_null.
  eapply wp_mono; [apply (cell_broadcast_running elapsed A L); [done|by exists d2]|].
  intros [] w3. by apply broadcasts_trans.
Qed.

(** ** The events of a motion *)

(** Moves stay on the grid; only updaters broadcast. *)
Definition feasible (L : list positive) (e : positive) (ev : event) : Prop :=
  match ev with
  | OnMove p => ∃ o, offsetOf (v3x p) (v3z p) = Ok o ∧ in_grid o
  | Rotate _ => True
  | Broadcast _ => e ∈ L
  end.

Lemma rotate_box_solid angle b : solid b → solid (rotate_box angle b).
Proof. destruct b as [r|c]; [|done]. intros [Hlen _]. by apply rotate_solid. Qed.

(** Where an event, or several, leave an entity that was at [p]. *)
Definition event_position (p : option vec3) (ev : event) : option vec3 :=
  match ev with OnMove q => Some q | _ => p end.

Lemma run_event_acts elapsed A L w address e ev :
  running elapsed A L w → is_Some (A !! e) → feasible L e ev →
  wp (run_event address e ev) w (λ _ w', acts elapsed A L w e (event_position (e_position <$> w_entities w !! e) ev) w').
Proof.
  intros Hr HA Hf. pose proof HA as [o HAo]. destruct (running_at _ _ _ _ _ _ Hr HAo) as (en & cell & c & He & Hcell & Hc & Hco).
  unfold run_event. apply wp_bind. eapply wp_deref_entity; [exact He|]. destruct ev as [p|angle|x]; cbn in Hf |- *.
  - destruct Hf as (o' & Hpos & Ho'). by apply (entity_moves elapsed A L w e p o').
  - destruct (co_sound _ _ Hr e HA) as (en' & b & He' & Hb & Hsol). simplify_eq. rewrite Hb.
    eapply wp_upd_entity; [exact He|].
    match goal with |- acts _ _ _ _ _ _ (set_world_entities (<[e := ?en2]> _) _) =>
      destruct (running_displaced elapsed A L w e en en2 Hr He) as [Hr1 Hs1] end.
    { split_and!; try done. intros b' Hb' _. simplify_eq. eexists. split; [done|]. by apply rotate_box_solid. }
    split_and!; [done|done|cbn; by rewrite lookup_insert_eq, He|]. exists []. by rewrite app_nil_r.
  - rewrite Hcell. apply wp_bind, wp_not_null. eapply wp_mono; [by apply (broadcast_running elapsed A L w e en)|].
    intros [] w' (Hr1 & Hs1 & Hents & Hops). split_and!; [done|done|by rewrite Hents|]. exists []. by rewrite Hops, app_nil_r.
Qed.

Lemma run_events_acts elapsed A L w address e events :
  running elapsed A L w → is_Some (A !! e) → Forall (feasible L e) events →
  wp (for_each (run_event address e) events) w (λ _ w',
    acts elapsed A L w e (foldl event_position (e_position <$> w_entities w !! e) events) w').
Proof.
  intros Hr HA Hf. revert w Hr. induction Hf as [|ev events Hev _ IH]; intros w Hr; cbn [for_each foldl].
  { apply wp_ret. split_and!; [done|done|done|]. exists []. by rewrite app_nil_r. }
  apply wp_bind. eapply wp_mono; [by apply run_event_acts|]. intros [] w1 (Hr1 & Hs1 & <- & ops1 & Hops1 & Hall1).
  eapply wp_mono; [by apply IH|]. intros [] w2 (Hr2 & Hs2 & Hp2 & ops2 & Hops2 & Hall2).
  split_and!; [done|by transitivity w1|done|]. exists (ops1 ++ ops2). rewrite Hops2, Hops1, <-app_assoc.
  split; [done|]. by apply Forall_app.
Qed.

(** C4. The update of an entity in the middle of a turn: its works are run, and
    it moves. Whatever its [MotionMaster] does, with moves that stay on the grid
    and, of updaters, packets for the neighbours, nothing fails; the entity is
    left at its last move, cells that it walks to are created, and what moving
    schedules is about this entity alone; the world is as the rest of the turn
    needs it. *)
Theorem entity_update_spec (elapsed : Z) (A : places) (L : list positive) (w w1 : World) (jobs : M unit)
    (address : Packet → positive) (e : positive) (en : Entity) (junk junk' : list Z) (draws : Draws)
    (events : list event) (m m' : MotionMaster)
    (HA : is_Some (A !! e)) (Hjobs : jobs w = (Ok tt, w1)) (Hw : running elapsed A L w1) (Hs : steady w w1)
    (He : w_entities w !! e = Some en)
    (Hm : motion_update (e_id en) junk junk' draws elapsed m = Ok (events, m'))
    (Hevents : Forall (feasible L e) events) :
  wp (MapAwareEntity_update jobs address e junk junk' draws elapsed m) w (λ r w', r = m' ∧
    running elapsed A L w' ∧ steady w w' ∧
    e_position <$> w_entities w' !! e = foldl event_position (e_position <$> w_entities w1 !! e) events ∧
    ∃ ops, lf_contents (w_operations w') = lf_contents (w_operations w1) ++ ops ∧
      Forall (λ op, mo_entity op = Some e) ops).
Proof.
  destruct (sy_entities _ _ Hs e en He) as (en1 & He1 & Hid & _).
  unfold MapAwareEntity_update. apply wp_bind. eapply run_wp; [exact Hjobs|]. unfold entity_motion.
  apply wp_bind. eapply wp_deref_entity; [exact He1|]. apply wp_bind. eapply wp_lift_ok; [by rewrite Hid|].
  apply wp_bind. eapply wp_mono; [by apply (run_events_acts elapsed A L)|].
  intros [] w' (Hr & Hs' & Hacts). split_and!; [done|done|by transitivity w1|apply Hacts..].
Qed.

(** ** Boxes *)

(** A box is set up once; nothing that the turn relies on changes. *)
Lemma setupBoundingBox_runs elapsed A L w e en vertices :
  running elapsed A L w → w_entities w !! e = Some en → e_boundingBox en = None →
  wp (setupBoundingBox e vertices) w (λ _ w', running elapsed A L w' ∧ steady w w' ∧
    ∃ en', w_entities w' !! e = Some en' ∧ e_boundingBox en' = Some (RECT (RectBoundingBox_new vertices))).
Proof.
  intros Hr He Hb. unfold setupBoundingBox. apply wp_bind. eapply wp_deref_entity; [exact He|].
  apply wp_bind, wp_assert; [by rewrite bool_decide_true|]. eapply wp_upd_entity; [exact He|].
  match goal with |- context [<[e := ?en2]>] => destruct (running_displaced elapsed A L w e en en2 Hr He) as [Hr' Hs] end.
  { split_and!; try done. intros b Hb'. congruence. }
  split_and!; [done|done|]. eexists. split; [apply lookup_insert_eq|done].
Qed.

Lemma setupBoundingBox_twice w e en vertices :
  rt_ndebug = false → w_entities w !! e = Some en → is_Some (e_boundingBox en) →
  (setupBoundingBox e vertices w).1 = Fail Abort.
Proof.
  intros Hn He [b Hb]. unfold setupBoundingBox, deref_entity, mbind, ST_bind, get, from_option. rewrite He.
  unfold mret, ST_ret, assert_. by rewrite Hn, bool_decide_false by by rewrite Hb.
Qed.

(** Until its first rotation the box has no extent: its rectangle is read from
    members that have no value. *)
Lemma setup_extent position vertices :
  asRect position (RECT (RectBoundingBox_new vertices)) = Fail (UB Uninitialised).
Proof. done. Qed.

Lemma setup_solid angle vertices :
  4 ≤ length vertices → solid (rotate_box angle (RECT (RectBoundingBox_new vertices))).
Proof. exact (rotate_solid angle (RectBoundingBox_new vertices)). Qed.
End walk.

(** ** Walkers *)

Section walkers.
Context `{Runtime, !RuntimeLaws} (address : Packet → positive) (script : positive → Z → list event).

(** Entities whose updates are scripted. *)
Definition walkers : Behaviour := {| entity_update e elapsed := for_each (run_event address e) (script e elapsed) |}.

Lemma walkers_civil elapsed :
  (∀ e, Forall (feasible [] e) (script e elapsed)) → @Civil _ walkers elapsed.
Proof.
  intros Hs A L w e Hr HA. eapply wp_mono; [eapply (@run_events_acts _ walkers _); [done|done|]|by intros [] w' (? & ? & _)]. eapply Forall_impl; [apply Hs|].
  intros []; cbn; [done|done|by intros ?%elem_of_nil].
Qed.
End walkers.
