(* ===== verification/Reach.v ===== *)
(** * The worlds that the server reaches

    Between the turns of the server an application schedules additions and
    removals, creates and displaces entities; clients are accepted and closed.
    From the world as it is created, whatever happens, every turn that is ready
    runs, and every world is [settled]. *)

From Stdlib Require Import ZArith Lia.
From stdpp Require Import base list gmap option numbers sets.
From S2P Require Import Prelude Float32 Offset Hex Lockfree Physics QuadTree World Cell Cluster Turn Map Grow Operate Life Places.
From S2P Require Import Server Update Tick.

Section reach.
Context `{Behaviour, !RuntimeLaws}.
Local Notation M := (ST World).

Lemma settled_quiet A w w' : settled A w → quiet w w' → settled A w'.
Proof.
  intros Hse Hq. pose proof (co_tracks _ _ Hse) as Ht. pose proof (qt_cells _ _ Hq) as Hcells. pose proof (qt_cluster _ _ Hq) as Hk.
  destruct (qt_operations _ _ Hq) as (ops & Hops & Hno). assert (∀ p, hot w' p = hot w p) as Hh by (intros p; by apply cells_hot).
  assert (doomed (lf_contents (w_operations w')) = doomed (lf_contents (w_operations w))) as Hd.
  { rewrite Hops. unfold doomed. rewrite omap_app. assert (omap destroys ops = []) as ->; [|by rewrite app_nil_r].
    clear -Hno. unfold destroys. induction Hno as [|op ops Hop _ IH]; [done|]. cbn. by destruct (mo_type op). }
  split; rewrite ?Hd, ?Hk; try apply Hse.
  - by apply (quiet_sane A w); [|apply Hse].
  - intros p. rewrite Hh, Hk. apply Hse.
  - intros q. rewrite Hh. apply Hse.
  - rewrite Hops. apply Forall_app. split.
    + eapply Forall_impl; [apply (se_destroy _ _ Hse)|]. intros op Hop Hty. specialize (Hop Hty).
      unfold valid_op in *. rewrite Hty in *. by rewrite Hcells.
    + eapply Forall_impl; [exact Hno|]. by intros op Hop Hty.
  - apply (quiet_keeping A w); [done|done|apply Hse].
  - unfold unstalled. rewrite (qt_map _ _ Hq), Hcells, Hk. apply (se_near _ _ Hse).
  - apply Hq.
Qed.

(** ** The operations of the server *)

Lemma closing_push w q op :
  closing w → lf_contents q = lf_contents (w_server_ops w) →
  (so_type op = CLOSE → so_client op ∉ closes (lf_contents (w_server_ops w)) ∧
    ∃ c, w_clients w !! so_client op = Some c ∧ cl_status c = CLOSED) →
  closing (set_server_ops (lf_push op q).2 w).
Proof.
  intros Hcl Hq Hop. destruct (decide (length (lf_contents q) < 1024)) as [Hfree|Hfull].
  - assert (lf_contents (lf_push op q).2 = lf_contents (w_server_ops w) ++ [op]) as Heq
      by (rewrite <-Hq; by apply (lf_push_free (cap := Some 1024))).
    destruct Hcl as [Hcl Hnd Hlen]. split; cbn; rewrite Heq; [| |rewrite length_app; cbn; rewrite Hq in Hfree; lia];
      unfold closes in *; rewrite filter_app, fmap_app.
    + intros p [Hp|Hp]%elem_of_app; [by apply Hcl|]. rewrite filter_cons in Hp.
      case_decide as Hty; [|by apply elem_of_nil in Hp]. apply list_elem_of_singleton in Hp as ->. by apply Hop.
    + rewrite filter_cons. case_decide as Hty; cbn; [|by rewrite app_nil_r]. apply NoDup_app.
      split; [done|]. split; [|apply NoDup_singleton]. intros p Hp ->%list_elem_of_singleton. by destruct (Hop Hty).
  - assert (lf_contents (lf_push op q).2 = lf_contents (w_server_ops w)) as Heq
      by (rewrite <-Hq; by apply (lf_push_full (cap := Some 1024))).
    destruct Hcl. by split; cbn; rewrite Heq.
Qed.

(** The clients change, but not whose they are. *)
Lemma clients_quiet A w q m s :
  consistent A w →
  (∃ ops, lf_contents q = lf_contents (w_operations w) ++ ops ∧ Forall (λ op, mo_type op ≠ DESTROY) ops) →
  (∀ p, cl_entity <$> m !! p = cl_entity <$> w_clients w !! p) →
  let w' := set_server_ops s (set_clients m (set_operations q w)) in closing w' → quiet w w'.
Proof.
  intros [_ Ht [Hb1 Hb2] _ _ _ _ _ _] Hops Hm w' Hcl. split; try done.
  - intros e en He. exists en. split; [done|apply displaced_refl].
  - intros e en He. left. exists en. split; [done|apply displaced_refl].
  - apply Ht.
  - split.
    + intros e en p He Hp. destruct (Hb1 e en p He Hp) as (c & Hc & <-).
      destruct (fmap_same _ _ _ (Hm p) c Hc) as (c' & ? & ?). by exists c'.
    + intros p c' Hc'. destruct (fmap_same _ _ _ (eq_sym (Hm p)) c' Hc') as (c & Hc & <-). by apply Hb2.
Qed.

Lemma close_quiet A w client :
  consistent A w → closing w → is_Some (w_clients w !! client) → wp (close client) w (λ _ w', quiet w w').
Proof.
  intros Hco Hcl [c Hc]. destruct (bo_client _ (co_bonded _ _ Hco) client c Hc) as (en & He & _).
  destruct (decide (cl_status c = CLOSED)) as [Hst|Hst].
  { eapply run_wp; [apply close_closed; by exists c|]. apply (operations_quiet A w (w_operations w)) in Hcl; [by destruct w|done|].
    exists []. by rewrite app_nil_r. }
  unfold close. apply wp_bind. eapply wp_deref_client; [done|]. rewrite bool_decide_false by done.
  apply wp_bind. eapply wp_upd_client; [done|]. set (w1 := set_clients _ w).
  apply wp_bind. eapply wp_deref_entity; [exact He|]. apply wp_bind.
  eapply (wp_mono _ _ (λ _ w2, ∃ q, w2 = set_operations q w1 ∧
    ∃ ops, lf_contents q = lf_contents (w_operations w) ++ ops ∧ Forall (λ op, mo_type op ≠ DESTROY) ops)).
  { destruct (e_cell en) as [p|] eqn:Hp.
    - destruct (tr_pointer _ _ (co_tracks _ _ Hco) _ en p He Hp) as [d Hd]. unfold removeFrom_cell. apply wp_bind.
      eapply wp_deref_cell; [exact Hd|]. unfold removeFrom_offset, map_push. apply wp_modify. eexists. split; [done|].
      eexists. split; [by apply (lf_push_free (cap := None))|by repeat constructor].
    - apply wp_ret. exists (w_operations w). split; [done|]. exists []. by rewrite app_nil_r. }
  intros [] w2 (q & -> & Hops). apply wp_bind. eapply wp_upd_client; [apply lookup_insert_eq|].
  unfold handleClose, server_push. apply wp_modify. cbn. rewrite insert_insert_eq.
  apply (clients_quiet A w q _ _ Hco Hops).
  - intros p. destruct (decide (p = client)) as [->|Hne]; [by rewrite lookup_insert_eq, Hc|by rewrite lookup_insert_ne].
  - apply (closing_push (set_clients _ (set_operations q w))); [|done|].
    + destruct Hcl as [Hcl ? ?]. split; try done. intros p Hp. cbn. destruct (decide (p = client)) as [->|Hne];
        [eexists; by rewrite lookup_insert_eq|rewrite lookup_insert_ne by done; by apply Hcl].
    + intros _. split; [|cbn; eexists; by rewrite lookup_insert_eq]. intros Hin.
      destruct (cs_closed _ Hcl client Hin) as (c' & ? & ?). congruence.
Qed.

(** ** New entities *)

(** A new entity, which may come with its client. *)
Lemma born_quiet A w e en cls s :
  consistent A w → w_entities w !! e = None → e_cell en = None →
  (∀ e' en', w_entities w !! e' = Some en' → e_id en' ≠ e_id en) →
  (∀ p c, cls !! p = Some c → w_clients w !! p = Some c ∨ w_clients w !! p = None ∧ cl_entity c = e ∧ e_client en = Some p) →
  w_clients w ⊆ cls → (∀ p, e_client en = Some p → ∃ c, cls !! p = Some c ∧ cl_entity c = e) →
  let w' := set_server_ops s (set_clients cls (set_world_entities (<[e := en]> (w_entities w)) w)) in closing w' → quiet w w'.
Proof.
  intros [_ Ht [Hb1 Hb2] _ _ _ _ _ _] He Hcell Hid Hold Hsub Hnew w' Hcl.
  assert (∀ x d, w_entities w !! x = Some d → w_entities w' !! x = Some d) as Hkeep.
  { intros x d Hx. cbn. rewrite lookup_insert_ne; [done|congruence]. }
  assert (∀ x d, w_entities w' !! x = Some d → x = e ∧ d = en ∨ w_entities w !! x = Some d) as Hback.
  { intros x d Hx. cbn in Hx. apply lookup_insert_Some in Hx as [[<- <-]|[_ Hx]]; auto. }
  split; try done.
  - intros x d Hx. exists d. split; [by apply Hkeep|apply displaced_refl].
  - intros x d [[-> ->]|Hx]%Hback; [by right|]. left. exists d. split; [done|apply displaced_refl].
  - intros x y d d' [[-> ->]|Hx]%Hback [[-> ->]|Hy]%Hback Heq; [done| | |by apply (tr_ids _ _ Ht x y d d')].
    + destruct (Hid y d' Hy). congruence.
    + destruct (Hid x d Hx). congruence.
  - split.
    + intros x d p [[-> ->]|Hx]%Hback Hp; [by apply Hnew|]. destruct (Hb1 x d p Hx Hp) as (c & Hc & Hce).
      exists c. split; [by eapply lookup_weaken|done].
    + intros p c [Hc|(_ & <- & Hp)]%Hold.
      * destruct (Hb2 p c Hc) as (d & Hd & ?). exists d. split; [by apply Hkeep|done].
      * exists en. split; [apply lookup_insert_eq|done].
  - exists []. by rewrite app_nil_r.
Qed.

(** The identifier is not taken. *)
Definition unused (w : World) (id : Z) : Prop := ∀ e en, w_entities w !! e = Some en → e_id en ≠ id.

Definition accept (id : Z) (position : vec3) : M unit := client ← newClient id position; on_accept client.

Lemma accept_quiet A w id position :
  consistent A w → closing w → unused w id → wp (accept id position) w (λ _ w', quiet w w').
Proof.
  intros Hco Hcl Hid. unfold accept, newClient. apply wp_bind, wp_bind, wp_get, wp_bind, wp_put, wp_ret.
  unfold on_accept, server_push. apply wp_modify.
  set (client := fresh (dom (w_clients w))). set (e := fresh (dom (w_entities w))).
  assert (w_clients w !! client = None) as Hc by apply not_elem_of_dom, is_fresh.
  assert (w_entities w !! e = None) as He by apply not_elem_of_dom, is_fresh.
  apply (born_quiet A); try done.
  - intros p c Hp. apply lookup_insert_Some in Hp as [[<- <-]|[_ Hp]]; [by right|by left].
  - by apply insert_subseteq.
  - intros p [= <-]. eexists. split; [apply lookup_insert_eq|done].
  - apply (closing_push (set_clients _ (set_world_entities _ w))); [|done|done].
    destruct Hcl as [Hcl ? ?]. split; try done. intros p Hp. destruct (Hcl p Hp) as (c & Hpc & ?). exists c. cbn.
    rewrite lookup_insert_ne; [done|congruence].
Qed.

Lemma create_quiet A w e en :
  consistent A w → closing w → w_entities w !! e = None → e_cell en = None → e_client en = None → unused w (e_id en) →
  quiet w (set_world_entities (<[e := en]> (w_entities w)) w).
Proof.
  intros Hco Hcl He Hcell Hec Hid. apply (born_quiet A w e en (w_clients w) (w_server_ops w)); try done; [by left|congruence|].
  by destruct Hcl.
Qed.

(** ** What happens between turns *)

Inductive happens (w w' : World) : Prop :=
  | hp_add o e old : addTo_offset o e old w = (Ok tt, w') → happens w w'
  | hp_remove o e to : removeFrom_offset o e to w = (Ok tt, w') → happens w w'
  | hp_create e en :
      w_entities w !! e = None → e_cell en = None → e_client en = None → unused w (e_id en) →
      w' = set_world_entities (<[e := en]> (w_entities w)) w → happens w w'
  | hp_displace e en en' :
      w_entities w !! e = Some en → displaced en en' →
      w' = set_world_entities (<[e := en']> (w_entities w)) w → happens w w'
  | hp_accept id position : unused w id → accept id position w = (Ok tt, w') → happens w w'
  | hp_close client : is_Some (w_clients w !! client) → close client w = (Ok tt, w') → happens w w'.

Lemma push_quiet A w op w' :
  consistent A w → closing w → mo_type op ≠ DESTROY → map_push op w = (Ok tt, w') → quiet w w'.
Proof.
  intros Hco Hcl Hop Hrun. injection Hrun as <-. apply (operations_quiet A); [done|done|]. exists [op].
  split; [by apply (lf_push_free (cap := None))|by repeat constructor].
Qed.

Lemma happens_quiet A w w' : consistent A w → closing w → happens w w' → quiet w w'.
Proof.
  intros Hco Hcl [o e old Hrun|o e to Hrun|e en He Hc Hcl' Hid ->|e en en' He Hd ->|id pos Hid Hrun|client Hc Hrun].
  - by eapply push_quiet; [..|exact Hrun].
  - by eapply push_quiet; [..|exact Hrun].
  - by apply (create_quiet A).
  - by apply (displaced_quiet A w e en).
  - pose proof (accept_quiet A w id pos Hco Hcl Hid) as Hq. unfold wp in Hq. by rewrite Hrun in Hq.
  - pose proof (close_quiet A w client Hco Hcl Hc) as Hq. unfold wp in Hq. by rewrite Hrun in Hq.
Qed.

(** Works may do the same in a turn. *)
Lemma running_happens elapsed A L w w' : running elapsed A L w → happens w w' → running elapsed A L w'.
Proof. intros Hr Hh. apply (running_quiet elapsed A L w); [done|]. eapply happens_quiet; [apply Hr|apply Hr|done]. Qed.

(** The worlds of the executions, and where the entities are in them. *)
Inductive reachable : places → World → Prop :=
  | re_new : reachable ∅ World_new
  | re_happens A w w' : reachable A w → happens w w' → reachable A w'
  | re_turn A A' w w' jobs elapsed prev sleep :
      reachable A w → orderly elapsed jobs → ready elapsed A A' w →
      server_update jobs elapsed prev w = (Ok sleep, w') → reachable A' w'.

(** C2. Every world the server reaches is settled: cells, map, cluster, clients
    and entities are consistent, and exactly the cells on cooldown wait for
    their destruction, once each. The server starts empty; between its turns
    operations are scheduled, entities are created and moved, clients accepted
    and closed, in any order. And from such a world every turn that is ready
    runs, to a world that is reachable again. *)
Theorem reachable_settled (A : places) (w : World)
    (Hcivil : ∀ elapsed, Civil elapsed) (Hannounced : announced) (Hw : reachable A w) :
  settled A w ∧ ∀ jobs elapsed prev A', orderly elapsed jobs → ready elapsed A A' w →
    match server_update jobs elapsed prev w with
    | (Ok _, w') => reachable A' w'
    | (Fail f, _) => f = UB IntOverflow
    end.
Proof.
  assert (settled A w) as Hs.
  { induction Hw as [|A w w' _ Hs Hh|A A' w w' jobs elapsed prev sleep _ Hs Hj Hr Hrun].
    - apply World_new_settled.
    - eapply settled_quiet; [done|]. eapply happens_quiet; [apply Hs|apply Hs|done].
    - pose proof (server_update_turns jobs elapsed prev A A' w (Hcivil elapsed) Hj Hannounced Hs Hr) as Ht.
      unfold wpe in Ht. rewrite Hrun in Ht. apply Ht. }
  split; [done|]. intros jobs elapsed prev A' Hj Hr.
  pose proof (server_update_turns jobs elapsed prev A A' w (Hcivil elapsed) Hj Hannounced Hs Hr) as Ht. unfold wpe in Ht.
  destruct (server_update jobs elapsed prev w) as [[sleep|f] w'] eqn:Hrun; [by eapply re_turn|exact Ht].
Qed.
End reach.
