(* ===== verification/SlowMap.v ===== *)
(** * The map with clusters of slow radius ([src/map-slow-radius/])

    An earlier design of the map, which the build leaves out. A cell that
    entities enter becomes the centre of a cluster with its neighbours; a
    cluster is updated ring by ring around its centre ([propagate]) until a
    ring has no cell of it; clusters that meet are merged by an operation of
    the next run. Rings are cached. The coordinates are those of [Offset.v]
    and [Hex.v]; cells are keyed by the hash of their offset. *)

From Stdlib Require Import ZArith Lia.
From Stdlib Require Import Floats.SpecFloat.
From stdpp Require Import base list gmap option numbers sets.
From S2P Require Import Prelude Float32 Offset Hex Lockfree.

(** ** Data *)

Inductive SlowMapOperationType := ADD_ENTITY_CREATE | REMOVE_ENTITY | DESTROY.

Record SlowMapOperation := mkSlowMapOperation {
  so_type : SlowMapOperationType;
  so_offset : Offset;
  so_entity : positive;
}.

Inductive SlowClusterOperationType := MERGE | RING_INVALIDATION.

Record SlowClusterOperation := mkSlowClusterOperation {
  sc_type : SlowClusterOperationType;
  sc_cluster1 : positive;
  sc_cluster2 : option positive;
  sc_radius : Z;                         (* int32_t *)
}.

Record ClusterCenter := mkCenter { center : positive; mergeSignaled : bool }.

Record SlowCell := mkSlowCell {
  s_offset : Offset;
  s_siblingsDone : bool;
  s_data : gmap Z positive;
  s_playerData : gmap Z positive;
  s_cluster : option positive;
}.

Definition SlowCell_new (offset : Offset) : SlowCell := mkSlowCell offset false ∅ ∅ None.

Definition set_slow_done (c : SlowCell) :=
  mkSlowCell (s_offset c) true (s_data c) (s_playerData c) (s_cluster c).
Definition set_slow_entities d p (c : SlowCell) :=
  mkSlowCell (s_offset c) (s_siblingsDone c) d p (s_cluster c).
Definition set_slow_cluster k (c : SlowCell) :=
  mkSlowCell (s_offset c) (s_siblingsDone c) (s_data c) (s_playerData c) k.

(** What the sources do not define: the queues, the addresses of new objects,
    the order of traversal of [unordered_map]s, and the application's entities. *)
Class SlowRuntime := {
  sr_map_queue :: Lockfree SlowMapOperation;
  sr_cluster_queue :: Lockfree SlowClusterOperation;
  sr_alloc : gset positive → positive;
  sr_in_order : gmap Z positive → list positive;
  sr_is_client : positive → bool;
  sr_id : positive → Z;                  (* uint32_t *)
}.

Section world.
Context `{SlowRuntime}.

Record SlowWorld := mkSlowWorld {
  sw_cells : gmap positive SlowCell;
  sw_map : gmap Z positive;                             (* _cells, by hash *)
  sw_operations : QueueWithSize SlowMapOperation;
  sw_centers : gmap positive ClusterCenter;
  sw_unique : list positive;                            (* _uniqueClusters *)
  sw_cache : gmap (positive * Z) (list (option positive));
  sw_cluster_ops : QueueWithSize SlowClusterOperation;
  sw_fetchCurrent : Z;
}.

Definition SlowWorld_new : SlowWorld :=
  mkSlowWorld ∅ ∅ QueueWithSize_new ∅ [] ∅ QueueWithSize_new 0.

Definition set_sw_cells m (w : SlowWorld) :=
  mkSlowWorld m (sw_map w) (sw_operations w) (sw_centers w) (sw_unique w) (sw_cache w) (sw_cluster_ops w) (sw_fetchCurrent w).
Definition set_sw_map m (w : SlowWorld) :=
  mkSlowWorld (sw_cells w) m (sw_operations w) (sw_centers w) (sw_unique w) (sw_cache w) (sw_cluster_ops w) (sw_fetchCurrent w).
Definition set_sw_operations q (w : SlowWorld) :=
  mkSlowWorld (sw_cells w) (sw_map w) q (sw_centers w) (sw_unique w) (sw_cache w) (sw_cluster_ops w) (sw_fetchCurrent w).
Definition set_sw_centers m (w : SlowWorld) :=
  mkSlowWorld (sw_cells w) (sw_map w) (sw_operations w) m (sw_unique w) (sw_cache w) (sw_cluster_ops w) (sw_fetchCurrent w).
Definition set_sw_unique l (w : SlowWorld) :=
  mkSlowWorld (sw_cells w) (sw_map w) (sw_operations w) (sw_centers w) l (sw_cache w) (sw_cluster_ops w) (sw_fetchCurrent w).
Definition set_sw_cache m (w : SlowWorld) :=
  mkSlowWorld (sw_cells w) (sw_map w) (sw_operations w) (sw_centers w) (sw_unique w) m (sw_cluster_ops w) (sw_fetchCurrent w).
Definition set_sw_cluster_ops q (w : SlowWorld) :=
  mkSlowWorld (sw_cells w) (sw_map w) (sw_operations w) (sw_centers w) (sw_unique w) (sw_cache w) q (sw_fetchCurrent w).
Definition set_sw_fetchCurrent n (w : SlowWorld) :=
  mkSlowWorld (sw_cells w) (sw_map w) (sw_operations w) (sw_centers w) (sw_unique w) (sw_cache w) (sw_cluster_ops w) n.

Local Notation M := (ST SlowWorld).

Definition slow_cell (p : positive) : M SlowCell :=
  w ← get; from_option (UB Dangling) (sw_cells w !! p).
Definition upd_slow_cell (p : positive) (f : SlowCell → SlowCell) : M unit :=
  c ← slow_cell p; modify (λ w, set_sw_cells (<[p := f c]> (sw_cells w)) w).
Definition slow_center (k : positive) : M ClusterCenter :=
  w ← get; from_option (UB Dangling) (sw_centers w !! k).

(** ** Cells *)

(** [Map::get] *)
Definition slow_get (o : Offset) : M (option positive) := gets (λ w, sw_map w !! hash o).

(** [Cell::ring] *)
Definition slow_ring (cell : positive) (radius : Z) : M (list (option positive)) :=
  c ← slow_cell cell;
  os ← lift (ring_coords (Z.to_nat radius) (s_offset c));
  map_each slow_get os.

(** [upperHalfSiblings] and [lowerHalfSiblings] *)
Definition half_dirs (upper : bool) : list Direction :=
  if upper then [(0, -1); (1, -1); (1, 0)]%Z else [(0, 1); (-1, 1); (-1, 0)]%Z.
Definition half_siblings (upper : bool) (cell : positive) (deviation : Z) : M (list (option positive)) :=
  c ← slow_cell cell;
  os ← lift (shift_all (s_offset c) ((λ d, (d.1 * deviation, d.2 * deviation)%Z) <$> half_dirs upper));
  map_each slow_get os.
End world.

(** What the application's entities do. *)
Class SlowBehaviour `{SlowRuntime} := {
  sb_update : positive → Z → ST SlowWorld unit;
  sb_onAdded : positive → positive → ST SlowWorld unit;
  sb_onRemoved : positive → positive → ST SlowWorld unit;
}.

Section slow.
Context `{SlowBehaviour}.
Local Notation M := (ST SlowWorld).

(** [Cell::update]: the players, then the others. *)
Definition slow_cell_update (cell : positive) (elapsed : Z) : M unit :=
  c ← slow_cell cell;
  _ ← for_each (λ e, sb_update e elapsed) (sr_in_order (s_playerData c));
  c ← slow_cell cell;
  for_each (λ e, sb_update e elapsed) (sr_in_order (s_data c)).

(** ** The cluster *)

(** [Cluster::getRing] *)
Definition getRing (cell : positive) (radius : Z) (invalidate recreate : bool) : M (list (option positive)) :=
  w ← get;
  match sw_cache w !! (cell, radius), invalidate with
  | Some l, false => mret l
  | _, _ =>
      if recreate then
        l ← slow_ring cell radius;
        _ ← modify (λ w, set_sw_cache (<[(cell, radius) := l]> (sw_cache w)) w);
        mret l
      else
        _ ← modify (λ w, set_sw_cache (delete (cell, radius) (sw_cache w)) w);
        mret []
  end.

(** The calls of one ring: how many returned true. *)
Fixpoint call_ring (fnc : positive → M bool) (nodes : list (option positive)) (callCount : Z) : M Z :=
  match nodes with
  | [] => mret callCount
  | None :: nodes => call_ring fnc nodes callCount
  | Some node :: nodes =>
      b ← fnc node;
      call_ring fnc nodes (if b : bool then u32 (callCount + 1) else callCount)
  end.

(** The [do]-[while] loop of [propagate]. *)
Fixpoint call_rings (fuel : nat) (cell : positive) (fnc : positive → M bool) (radius : Z) : M Z :=
  match fuel with
  | O => fail NoFuel
  | S fuel =>
      let radius := u16 (radius + 1) in
      nodes ← getRing cell radius false true;
      callCount ← call_ring fnc nodes 0;
      if (0 <? callCount)%Z then call_rings fuel cell fnc radius else mret radius
  end.

Definition propagate (fuel : nat) (cell : positive) (fnc : positive → M bool) : M Z :=
  _ ← fnc cell; call_rings fuel cell fnc 0.

Definition push_cluster_op (op : SlowClusterOperation) : M unit :=
  modify (λ w, set_sw_cluster_ops (qs_push op (sw_cluster_ops w)).2 w).

(** What [update] calls on every node it reaches from [cluster]. *)
Definition update_node (cluster : positive) (elapsed : Z) (node : positive) : M bool :=
  c ← slow_cell node;
  if bool_decide (s_cluster c = Some cluster) then _ ← slow_cell_update node elapsed; mret true
  else
    k ← from_option (UB NullDeref) (s_cluster c);
    other ← slow_center k;
    this ← slow_center cluster;
    _ ← (if negb (mergeSignaled other) && negb (mergeSignaled this) then
           _ ← push_cluster_op (mkSlowClusterOperation MERGE k (Some cluster) 0);
           modify (λ w, set_sw_centers (<[cluster := mkCenter (center this) true]> (sw_centers w)) w)
         else mret tt);
    mret false.

Definition slow_update (fuel : nat) (elapsed : Z) : M unit :=
  w ← get;
  _ ← for_each (λ cluster,
        k ← slow_center cluster; _ ← propagate fuel (center k) (update_node cluster elapsed); mret tt)
      (sw_unique w);
  modify (λ w, set_sw_fetchCurrent (u32 (sw_fetchCurrent w + 1)) w).

(** What merging calls on every node it reaches. *)
Definition reassign (cluster2 cluster1 : positive) (node : positive) : M bool :=
  c ← slow_cell node;
  if bool_decide (s_cluster c = Some cluster2)
  then _ ← upd_slow_cell node (set_slow_cluster (Some cluster1)); mret true
  else mret false.

Fixpoint erase_one (x : positive) (l : list positive) : list positive :=
  match l with [] => [] | y :: l => if decide (y = x) then l else y :: erase_one x l end.

Definition slow_merge (fuel : nat) (cluster1 cluster2 : positive) : M unit :=
  w ← get;
  if bool_decide (cluster1 ∈ sw_unique w) && bool_decide (cluster2 ∈ sw_unique w) then
    _ ← slow_center cluster1;
    k2 ← slow_center cluster2;
    _ ← propagate fuel (center k2) (reassign cluster2 cluster1);
    modify (λ w, set_sw_unique (erase_one cluster2 (sw_unique w)) w)
  else mret tt.

Definition slow_cluster_operation (fuel : nat) (op : SlowClusterOperation) : M unit :=
  match sc_type op with
  | MERGE => match sc_cluster2 op with Some c2 => slow_merge fuel (sc_cluster1 op) c2 | None => mret tt end
  | RING_INVALIDATION =>
      k ← slow_center (sc_cluster1 op);
      _ ← getRing (center k) (u16 (sc_radius op)) true false;
      mret tt
  end.

Fixpoint slow_cluster_operations (fuel rings : nat) : M unit :=
  w ← get;
  match qs_pop (sw_cluster_ops w) with
  | None => mret tt
  | Some (op, q) =>
      match fuel with
      | O => fail NoFuel
      | S fuel =>
          _ ← put (set_sw_cluster_ops q w);
          _ ← slow_cluster_operation rings op;
          slow_cluster_operations fuel rings
      end
  end.

(** [Cluster::add]: [node] is the centre of a new cluster. *)
Definition slow_add (node : positive) (siblings : list positive) : M unit :=
  w ← get;
  let k := sr_alloc (dom (sw_centers w)) in
  _ ← put (set_sw_centers (<[k := mkCenter node false]> (sw_centers w))
            (set_sw_unique (sw_unique w ++ [k]) w));
  _ ← upd_slow_cell node (set_slow_cluster (Some k));
  _ ← for_each (λ s, upd_slow_cell s (set_slow_cluster (Some k))) siblings;
  c ← slow_cell node;
  for_each (λ d : Z,
    dist ← lift (distance (s_offset c) (s_offset c));
    radius ← lift (i32 (dist + d));
    push_cluster_op (mkSlowClusterOperation RING_INVALIDATION k None radius)) [-1; 0; 1]%Z.

(** ** The map *)

(** [getOrCreate(offset, false)] *)
Definition slow_find (offset : Offset) : M positive :=
  c ← slow_get offset;
  match c with
  | Some cell => mret cell
  | None =>
      w ← get;
      let cell := sr_alloc (dom (sw_cells w)) in
      _ ← put (set_sw_map (<[hash offset := cell]> (sw_map w))
                (set_sw_cells (<[cell := SlowCell_new offset]> (sw_cells w)) w));
      mret cell
  end.

Definition slow_createSiblings (cell : positive) : M (list positive) :=
  c ← slow_cell cell;
  os ← lift (siblings_coords (s_offset c));
  map_each slow_find os.

Definition slow_getOrCreate (offset : Offset) (siblings : bool) : M positive :=
  cell ← slow_find offset;
  c ← slow_cell cell;
  _ ← (if siblings && negb (s_siblingsDone c) then
         l ← slow_createSiblings cell;
         _ ← slow_add cell l;
         upd_slow_cell cell set_slow_done
       else mret tt);
  mret cell.

Definition slow_addTo (offset : Offset) (e : positive) : M unit :=
  modify (λ w, set_sw_operations (qs_push (mkSlowMapOperation ADD_ENTITY_CREATE offset e) (sw_operations w)).2 w).

(** [offsetOf] of integers: [slopeX] is the constant [cos(15 * M_PI / 180.0) *
    cellSize] as the compiler evaluates it, [cellSize] is 9. *)
Definition slow_offsetOf (slopeX : f64) (x y : Z) : outcome Offset :=
  q ← f32_to_int (SFdiv 53 1024 (binary_normalize 53 1024 x 0 false) slopeX);
  mret (mkOffset q (Z.quot y 9)).

Definition slow_addTo2D (slopeX : f64) (x y : Z) (e : positive) : M unit :=
  o ← lift (slow_offsetOf slopeX x y); slow_addTo o e.

Definition slow_map_operation (op : SlowMapOperation) : M unit :=
  let e := so_entity op in
  match so_type op with
  | ADD_ENTITY_CREATE =>
      cell ← slow_getOrCreate (so_offset op) true;
      _ ← upd_slow_cell cell (λ c,
        let add m := match m !! sr_id e with Some _ => m | None => <[sr_id e := e]> m end in
        if sr_is_client e then set_slow_entities (s_data c) (add (s_playerData c)) c
        else set_slow_entities (add (s_data c)) (s_playerData c) c);
      sb_onAdded e cell
  | REMOVE_ENTITY =>
      c ← slow_get (so_offset op);
      match c with
      | None => mret tt
      | Some cell =>
          _ ← upd_slow_cell cell (λ c,
            if sr_is_client e then set_slow_entities (s_data c) (delete (sr_id e) (s_playerData c)) c
            else set_slow_entities (delete (sr_id e) (s_data c)) (s_playerData c) c);
          sb_onRemoved e cell
      end
  | DESTROY => mret tt
  end.

Fixpoint slow_map_operations (fuel : nat) : M unit :=
  w ← get;
  match qs_pop (sw_operations w) with
  | None => mret tt
  | Some (op, q) =>
      match fuel with
      | O => fail NoFuel
      | S fuel =>
          _ ← put (set_sw_operations q w);
          _ ← slow_map_operation op;
          slow_map_operations fuel
      end
  end.

(** ** Destruction *)

(** [Cluster::~Cluster]: the centres that are in [_uniqueClusters] are deleted,
    once each; the operations that wait are not, only their queue. *)
Definition delete_center (k : positive) : M unit :=
  _ ← slow_center k; modify (λ w, set_sw_centers (delete k (sw_centers w)) w).

Definition slow_Cluster_dtor : M unit :=
  w ← get;
  _ ← for_each delete_center (sw_unique w);
  modify (λ w, set_sw_unique [] (set_sw_cache ∅ w)).

(** [Map::~Map]: the pool goes with the cells that are in it. *)
Definition slow_Map_dtor : M unit :=
  _ ← modify (set_sw_cells ∅);
  _ ← slow_Cluster_dtor;
  modify (set_sw_map ∅).

Lemma delete_centers_ok l w :
  NoDup l → (∀ k, k ∈ l → is_Some (sw_centers w !! k)) →
  ∃ m, for_each delete_center l w = (Ok tt, set_sw_centers m w) ∧
    ∀ k, m !! k = if decide (k ∈ l) then None else sw_centers w !! k.
Proof.
  revert w. induction l as [|k l IH]; intros w Hnd Hl.
  { exists (sw_centers w). split; [by destruct w|done]. }
  apply NoDup_cons in Hnd as [Hk Hnd]. destruct (Hl k) as [c Hc]; [by left|].
  set (w1 := set_sw_centers (delete k (sw_centers w)) w).
  destruct (IH w1 Hnd) as (m & Hrun & Hm).
  { intros k' Hk'. cbn. rewrite lookup_delete_ne by (intros ->; done). apply Hl. by right. }
  exists m. split.
  - cbn [for_each]. unfold mbind, ST_bind, delete_center at 1, slow_center, mbind, ST_bind, get, from_option.
    rewrite Hc. unfold mret, ST_ret, modify. exact Hrun.
  - intros k'. rewrite Hm. cbn. destruct (decide (k' = k)) as [->|Hne].
    + rewrite lookup_delete_eq. rewrite (decide_True (P := k ∈ k :: l)) by by left. by destruct (decide _).
    + rewrite lookup_delete_ne by done. destruct (decide (k' ∈ l)) as [?|Hn], (decide (k' ∈ k :: l)) as [Hin|Hnin];
        try done; [destruct Hnin; by right|apply elem_of_cons in Hin as [?|?]; done].
Qed.

(** What the destructor of the map leaves behind: the centres that merges took
    out of [_uniqueClusters]. *)
Lemma slow_Map_dtor_leaks w :
  NoDup (sw_unique w) → (∀ k, k ∈ sw_unique w → is_Some (sw_centers w !! k)) →
  ∃ w', slow_Map_dtor w = (Ok tt, w') ∧ sw_cells w' = ∅ ∧ sw_map w' = ∅ ∧
    ∀ k, sw_centers w' !! k = if decide (k ∈ sw_unique w) then None else sw_centers w !! k.
Proof.
  intros Hnd Hl. destruct (delete_centers_ok (sw_unique w) (set_sw_cells ∅ w) Hnd Hl) as (m & Hrun & Hm).
  exists (set_sw_map ∅ (set_sw_unique [] (set_sw_cache ∅ (set_sw_centers m (set_sw_cells ∅ w))))).
  split; [|done]. unfold slow_Map_dtor, slow_Cluster_dtor, mbind, ST_bind, get, modify. cbn [sw_unique set_sw_cells].
  unfold modify in Hrun. by rewrite Hrun.
Qed.
End slow.

(** The row of cells 0 takes the coordinates of two: division truncates. *)
Lemma slow_offsetOf_row_0 slopeX x y : (- 9 < y < 9)%Z → slow_offsetOf slopeX x y = slow_offsetOf slopeX x 0.
Proof.
  intros Hy. assert (y `quot` 9 = 0)%Z as Hq by (apply Z.quot_small_iff; lia).
  unfold slow_offsetOf. by rewrite Hq.
Qed.
