(* ===== verification/SlowMerge.v ===== *)
(** * Merging and creating clusters of slow radius

    Theorems about [SlowMap.v]. [slow_coherent] says that the map and the heap of
    cells are inverse of each other. Merging a cluster relabels the cells of it
    that are nearer to its centre than the first ring without one, and ends;
    when the cluster is connected that is all of it. Creating a cell with its
    siblings makes them a new cluster. The rings that are cached around other
    centres are never invalidated ([invalidation_own], [merged_ring_stale]). *)

From Stdlib Require Import ZArith Lia.
From stdpp Require Import base list gmap option numbers sets relations.
From S2P Require Import Prelude Offset Hex Lockfree SlowMap.

(** ** Merging *)

Section merge.
Context `{SlowBehaviour}.
Context (k1 k2 : positive).

(** What [reassign k2 k1] does to the cells of a ring. *)
Definition relabel (c : SlowCell) : SlowCell :=
  if bool_decide (s_cluster c = Some k2) then set_slow_cluster (Some k1) c else c.

Definition relabel_node (cells : gmap positive SlowCell) (node : option positive) : gmap positive SlowCell :=
  match node with Some p => alter relabel p cells | None => cells end.

Definition relabel_nodes (nodes : list (option positive)) (cells : gmap positive SlowCell) : gmap positive SlowCell :=
  foldl relabel_node cells nodes.

Definition has_k2 (cells : gmap positive SlowCell) (node : option positive) : Prop :=
  ∃ p c, node = Some p ∧ cells !! p = Some c ∧ s_cluster c = Some k2.

Lemma relabel_offset c : s_offset (relabel c) = s_offset c.
Proof. unfold relabel. by case_bool_decide. Qed.

Lemma relabel_idemp c : relabel (relabel c) = relabel c.
Proof.
  unfold relabel. destruct (decide (s_cluster c = Some k2)) as [Hc|Hc].
  - rewrite !(bool_decide_true (s_cluster c = _)) by done. case_bool_decide as Hk; [|done].
    by destruct c.
  - by rewrite !(bool_decide_false (s_cluster c = _)).
Qed.

Lemma reassign_run w p c :
  sw_cells w !! p = Some c →
  reassign k2 k1 p w = (Ok (bool_decide (s_cluster c = Some k2)), set_sw_cells (alter relabel p (sw_cells w)) w).
Proof.
  intros Hp. unfold reassign, upd_slow_cell, slow_cell. unfold mbind, ST_bind, get. rewrite Hp. cbn.
  case_bool_decide as Hc; cbn; [rewrite Hp; cbn|]; do 3 f_equal.
  - apply map_eq. intros i. destruct (decide (i = p)) as [->|Hi].
    + rewrite lookup_insert_eq, lookup_alter_eq, Hp. cbn. unfold relabel. by rewrite bool_decide_true.
    + by rewrite lookup_insert_ne, lookup_alter_ne.
  - rewrite alter_id; [by destruct w|]. intros c' Hc'. simplify_eq. unfold relabel. by rewrite bool_decide_false.
Qed.

Lemma relabel_nodes_lookup nodes cells p :
  relabel_nodes nodes cells !! p = (if decide (Some p ∈ nodes) then relabel else id) <$> cells !! p.
Proof.
  revert cells. induction nodes as [|node nodes IH]; intros cells; cbn [relabel_nodes foldl].
  { by rewrite decide_False, option_fmap_id by apply not_elem_of_nil. }
  fold (relabel_nodes nodes (relabel_node cells node)). rewrite IH. clear IH. destruct node as [q|]; cbn.
  - destruct (decide (p = q)) as [->|Hq].
    + rewrite lookup_alter_eq, (decide_True (P := Some q ∈ Some q :: nodes)) by (apply elem_of_cons; by left).
      destruct (cells !! q) as [c|]; cbn; [|done]. case_decide; cbn; by rewrite ?relabel_idemp.
    + rewrite lookup_alter_ne by done.
      by rewrite (decide_ext (Some p ∈ Some q :: nodes) (Some p ∈ nodes)) by (rewrite elem_of_cons; naive_solver).
  - by rewrite (decide_ext (Some p ∈ None :: nodes) (Some p ∈ nodes)) by (rewrite elem_of_cons; naive_solver).
Qed.

Lemma call_ring_reassign nodes n w :
  (∀ p, Some p ∈ nodes → is_Some (sw_cells w !! p)) → (0 ≤ n)%Z → (n + Z.of_nat (length nodes) < 2 ^ 32)%Z →
  ∃ n', call_ring (reassign k2 k1) nodes n w = (Ok n', set_sw_cells (relabel_nodes nodes (sw_cells w)) w) ∧
        (n ≤ n')%Z ∧ (n < n' ↔ Exists (has_k2 (sw_cells w)) nodes)%Z.
Proof.
  revert n w. induction nodes as [|[p|] nodes IH]; intros n w Hlive Hn Hlen; cbn [call_ring relabel_nodes foldl length] in *.
  - exists n. split_and!; [by destruct w|lia|rewrite Exists_nil; lia].
  - destruct (Hlive p) as [c Hc]; [apply elem_of_cons; by left|].
    unfold mbind, ST_bind. rewrite (reassign_run _ _ c) by done.
    set (w' := set_sw_cells (alter relabel p (sw_cells w)) w).
    destruct (IH (if bool_decide (s_cluster c = Some k2) then u32 (n + 1) else n) w') as (n' & -> & Hle & Hiff).
    { intros q Hq. subst w'. destruct w; cbn in *. rewrite lookup_alter_is_Some. apply Hlive, elem_of_cons. by right. }
    { case_bool_decide; [|done]. by apply wrap_range. }
    { case_bool_decide; [rewrite wrap_small by lia|]; lia. }
    exists n'. split; [by destruct w|]. rewrite Exists_cons. case_bool_decide as Hk.
    + rewrite wrap_small in Hle by lia. split; [lia|]. split; [|lia]. intros _. left. by exists p, c.
    + rewrite Hiff. split; [done|]. replace (sw_cells w') with (sw_cells w).
      * split; [auto|]. intros [(? & ? & ? & ? & ?)|]; [simplify_eq|done].
      * subst w'. destruct w; cbn in *. rewrite alter_id; [done|].
        intros ? ?. simplify_eq. unfold relabel. by rewrite bool_decide_false.
  - destruct (IH n w) as (n' & -> & Hle & Hiff); [intros q Hq; apply Hlive, elem_of_cons; by right|done|lia|].
    exists n'. split_and!; [done|done|]. rewrite Hiff, Exists_cons. split; [auto|]. by intros [(? & ? & ? & _)|].
Qed.

(** The map and the cells are inverse of each other. *)
Record slow_coherent (w : SlowWorld) : Prop := {
  mapped_live h p : sw_map w !! h = Some p → ∃ c, sw_cells w !! p = Some c ∧ hash (s_offset c) = h;
  live_mapped p c : sw_cells w !! p = Some c → sw_map w !! hash (s_offset c) = Some p ∧ in_grid (s_offset c);
}.

Definition cell_dist (o : Offset) (c : SlowCell) : nat := Z.to_nat (hex_dist o (s_offset c)).

(** The ring of radius [r] around [o], and a cache that has no other one. *)
Definition nodes_at (w : SlowWorld) (o : Offset) (r : nat) : list (option positive) :=
  (λ p, sw_map w !! hash p) <$> ring_rays r o.
#[local] Arguments nodes_at : simpl never.

Definition fresh_rings (w : SlowWorld) (cell : positive) (o : Offset)
    (m : gmap (positive * Z) (list (option positive))) : Prop :=
  ∀ r l, m !! (cell, Z.of_nat r) = Some l → l = nodes_at w o r.

Lemma elem_of_nodes_at w o r p :
  slow_coherent w → in_grid o → r ≠ 0 → (Z.of_nat r < 2 ^ 16)%Z →
  Some p ∈ nodes_at w o r ↔ ∃ c, sw_cells w !! p = Some c ∧ cell_dist o c = r.
Proof.
  intros Hw Ho Hr Hlt. unfold nodes_at, cell_dist. rewrite list_elem_of_fmap. split.
  - intros (p' & Hp & Hin%elem_of_ring_rays); [|done].
    destruct (mapped_live _ Hw _ p (eq_sym Hp)) as (c & Hc & Hh). exists c. split; [done|].
    destruct (live_mapped _ Hw _ _ Hc) as [_ Hg].
    enough (s_offset c = p') as -> by lia.
    apply (hash_decodes p'); [|by split; apply in_i32_spec; unfold in_grid in Hg; lia|done].
    unfold hex_dist, hex_norm, in_grid in *. split; apply in_i32_spec; lia.
  - intros (c & Hc & Hd). exists (s_offset c). destruct (live_mapped _ Hw _ _ Hc) as [Hm _].
    split; [done|]. apply elem_of_ring_rays; [done|]. pose proof (hex_dist_nonneg o (s_offset c)). lia.
Qed.

Lemma map_each_slow_get os w : map_each slow_get os w = (Ok ((λ p, sw_map w !! hash p) <$> os), w).
Proof.
  induction os as [|o os IH]; [done|].
  cbn [map_each]. unfold mbind, ST_bind, slow_get at 1, gets at 1. by rewrite IH.
Qed.

(** The world when the cells nearer than [n] have been relabelled. *)
Definition merged (w : SlowWorld) (o : Offset) (n : nat) m : SlowWorld :=
  set_sw_cache m (set_sw_cells ((λ c, if decide (cell_dist o c < n) then relabel c else c) <$> sw_cells w) w).

Lemma getRing_merged w cell c0 n m r :
  sw_cells w !! cell = Some c0 → in_grid (s_offset c0) → (Z.of_nat r < 2 ^ 16)%Z →
  fresh_rings w cell (s_offset c0) m →
  ∃ m', getRing cell (Z.of_nat r) false true (merged w (s_offset c0) n m) =
          (Ok (nodes_at w (s_offset c0) r), merged w (s_offset c0) n m') ∧
        fresh_rings w cell (s_offset c0) m'.
Proof.
  intros Hc Ho Hr Hm. set (o := s_offset c0) in *. unfold getRing, mbind, ST_bind, get. cbn.
  destruct (m !! (cell, Z.of_nat r)) as [l|] eqn:E.
  { exists m. by rewrite (Hm _ _ E). }
  unfold slow_ring, slow_cell, mbind, ST_bind, get, lift. cbn.
  rewrite lookup_fmap, Hc. cbn.
  assert (s_offset (if decide (cell_dist o c0 < n) then relabel c0 else c0) = o) as ->.
  { case_decide; by rewrite ?relabel_offset. }
  rewrite Nat2Z.id, ring_coords_rays by done. rewrite map_each_slow_get. cbn. eexists. split; [done|].
  intros r' l. rewrite lookup_insert_Some. intros [[[= Heq] <-]|[_ Hl]]; [|by apply Hm].
  by rewrite (Nat2Z.inj _ _ Heq).
Qed.

(** A ring without a cell of [k2]. *)
Definition ring_free (w : SlowWorld) (o : Offset) (r : nat) : Prop :=
  ∀ p c, sw_cells w !! p = Some c → cell_dist o c = r → s_cluster c ≠ Some k2.

Lemma merged_next w o r m :
  slow_coherent w → in_grid o → (Z.of_nat (S r) < 2 ^ 16)%Z →
  set_sw_cells (relabel_nodes (nodes_at w o (S r)) (sw_cells (merged w o (S r) m))) (merged w o (S r) m) =
  merged w o (S (S r)) m.
Proof.
  intros Hw Ho Hr. unfold merged, set_sw_cells, set_sw_cache. cbn -[relabel_nodes nodes_at]. f_equal.
  apply map_eq. intros p. rewrite relabel_nodes_lookup, !lookup_fmap. destruct (sw_cells w !! p) as [c|] eqn:Hc; [|done].
  cbn. f_equal.
  assert (Some p ∈ nodes_at w o (S r) ↔ cell_dist o c = S r) as Hin.
  { rewrite elem_of_nodes_at by done. naive_solver. }
  rewrite (decide_ext _ (cell_dist o c = S r)) by done. repeat case_decide; try lia; done.
Qed.

Lemma merged_free w o r m : ring_free w o r → merged w o (S r) m = merged w o r m.
Proof.
  intros Hfree. unfold merged, set_sw_cells, set_sw_cache. cbn. f_equal. apply map_eq. intros p.
  rewrite !lookup_fmap. destruct (sw_cells w !! p) as [c|] eqn:Hc; [|done]. cbn. f_equal.
  repeat case_decide; try lia; [done| |done].
  unfold relabel. rewrite bool_decide_false; [done|]. apply (Hfree p); [done|lia].
Qed.

Lemma ring_count w o r m n' :
  slow_coherent w → in_grid o → (Z.of_nat (S r) < 2 ^ 16)%Z →
  (0 < n' ↔ Exists (has_k2 (sw_cells (merged w o (S r) m))) (nodes_at w o (S r)))%Z →
  (0 < n')%Z ↔ ¬ ring_free w o (S r).
Proof.
  intros Hw Ho Hr ->. rewrite Exists_exists. split.
  - intros (node & Hin & p & c & -> & Hc & Hk) Hfree.
    cbn in Hc. rewrite lookup_fmap in Hc. destruct (sw_cells w !! p) as [c'|] eqn:Hp; [|done].
    apply elem_of_nodes_at in Hin as (c'' & Hp' & Hd); [|done..]. simplify_eq/=.
    rewrite decide_False in Hk by lia. by apply (Hfree p c'').
  - intros Hnot. destruct (decide (Exists (λ pc, cell_dist o pc.2 = S r ∧ s_cluster pc.2 = Some k2) (map_to_list (sw_cells w))))
      as [Hex|Hno].
    + apply Exists_exists in Hex as ([p c] & Hpc%elem_of_map_to_list & Hd & Hk). cbn in *.
      exists (Some p). split; [apply elem_of_nodes_at; eauto|]. exists p, c. split_and!; [done| |done].
      cbn. rewrite lookup_fmap, Hpc. cbn. by rewrite decide_False by lia.
    + destruct Hnot. intros p c Hc Hd Hk. apply Hno, Exists_exists. exists (p, c).
      split; [by apply elem_of_map_to_list|done].
Qed.

Lemma call_rings_reassign w cell c0 n :
  slow_coherent w → sw_cells w !! cell = Some c0 → (Z.of_nat n < 2 ^ 16)%Z →
  ring_free w (s_offset c0) n → (∀ i, 1 ≤ i < n → ¬ ring_free w (s_offset c0) i) →
  ∀ fuel r m, S r ≤ n → n ≤ r + fuel → fresh_rings w cell (s_offset c0) m →
  ∃ m', call_rings fuel cell (reassign k2 k1) (Z.of_nat r) (merged w (s_offset c0) (S r) m) =
          (Ok (Z.of_nat n), merged w (s_offset c0) n m') ∧ fresh_rings w cell (s_offset c0) m'.
Proof.
  intros Hw Hcell Hn Hfree Hbusy. set (o := s_offset c0) in *.
  assert (in_grid o) as Ho by apply (live_mapped _ Hw _ _ Hcell).
  intros fuel. induction fuel as [|fuel IH]; intros r m Hr Hfuel Hm; [lia|]. cbn [call_rings].
  rewrite wrap_small by lia. replace (Z.of_nat r + 1)%Z with (Z.of_nat (S r)) by lia.
  unfold mbind at 1, ST_bind at 1.
  destruct (getRing_merged w cell c0 (S r) m (S r)) as (m1 & Hget & Hm1); [done|done|lia|done|].
  fold o in Hget. rewrite Hget.
  destruct (call_ring_reassign (nodes_at w o (S r)) 0 (merged w o (S r) m1)) as (n' & Hcall & _ & Hiff).
  { intros p (c & Hc & _)%elem_of_nodes_at; [|done|done|done|lia]. cbn. rewrite lookup_fmap, Hc. by eexists. }
  { done. }
  { unfold nodes_at. rewrite length_fmap, length_ring_rays. lia. }
  apply ring_count in Hiff; [|done|done|lia].
  unfold mbind, ST_bind. rewrite Hcall, merged_next by (done || lia).
  destruct (decide (n = S r)) as [->|Hne].
  - exists m1. split; [|done]. assert (n' ≤ 0)%Z as ->%Z.ltb_ge by (apply Z.le_ngt; by intros Hlt%Hiff%(λ f, f Hfree)).
    by rewrite merged_free.
  - rewrite (proj2 (Z.ltb_lt _ _)) by (apply Hiff, Hbusy; lia). apply IH; [lia|lia|done].
Qed.

Lemma first_gap w o :
  ∃ n, (1 ≤ n ≤ S (size (sw_cells w))) ∧ ring_free w o n ∧ (∀ i, 1 ≤ i < n → ¬ ring_free w o i).
Proof.
  set (cells := filter (λ pc, s_cluster pc.2 = Some k2) (map_to_list (sw_cells w))).
  assert (∀ p c, (p, c) ∈ cells ↔ sw_cells w !! p = Some c ∧ s_cluster c = Some k2) as Hcells.
  { intros p c. subst cells. by rewrite list_elem_of_filter, elem_of_map_to_list, (comm (∧)). }
  destruct (least_missing ((λ pc, cell_dist o pc.2) <$> cells)) as (n & [Hn Hle] & Hmiss & Hbusy).
  exists n. split_and!.
  - done.
  - etrans; [exact Hle|]. rewrite length_fmap, <-length_map_to_list.
    apply le_n_S, length_filter.
  - intros p c Hc Hd Hk. apply Hmiss, list_elem_of_fmap. exists (p, c). by rewrite Hcells.
  - intros i Hi Hfree. specialize (Hbusy i Hi). apply list_elem_of_fmap in Hbusy as ([p c] & Hd & [Hc Hk]%Hcells).
    by apply (Hfree p c).
Qed.

(** The cells of [k2] that neighbours of [k2] join to [o]. *)
Definition connected (w : SlowWorld) (o : Offset) : Prop :=
  ∀ p c, sw_cells w !! p = Some c → s_cluster c = Some k2 →
    rtc (λ a b, adjacent a b ∧ ∃ p' c', sw_cells w !! p' = Some c' ∧ s_cluster c' = Some k2 ∧ s_offset c' = b)
        o (s_offset c).

Lemma connected_near w o n :
  connected w o → 1 ≤ n → ring_free w o n →
  ∀ p c, sw_cells w !! p = Some c → s_cluster c = Some k2 → cell_dist o c < n.
Proof.
  intros Hconn Hn Hfree p c Hc Hk. specialize (Hconn p c Hc Hk). unfold cell_dist.
  revert Hconn. generalize (s_offset c). clear p c Hc Hk. apply rtc_ind_r.
  - rewrite (proj2 (hex_dist_0 o o)); [lia|done].
  - intros a b _ (Hab%adjacent_dist & p & c & Hc & Hk & <-) Hlt.
    pose proof (hex_dist_triangle o a (s_offset c)). pose proof (hex_dist_nonneg o a).
    enough (cell_dist o c ≠ n) by (unfold cell_dist in *; lia). intros Hd. by apply (Hfree p c).
Qed.

End merge.

(** ** Creating *)

Class SlowLaws `{SlowRuntime} := {
  sl_fresh X : sr_alloc X ∉ X;
  sl_cluster_queue :: LockfreeLaws SlowClusterOperation None;
}.

Section create.
Context `{SlowBehaviour, !SlowLaws}.

(** The cells and the map grow by cells of offsets in [P], and nothing else
    changes. *)
Record slow_grows (P : Offset → Prop) (w w' : SlowWorld) : Prop := {
  sg_coherent : slow_coherent w → slow_coherent w';
  sg_cells : sw_cells w ⊆ sw_cells w';
  sg_new p c : sw_cells w' !! p = Some c →
    sw_cells w !! p = Some c ∨ P (s_offset c) ∧ c = SlowCell_new (s_offset c);
  sg_eq : w' = set_sw_map (sw_map w') (set_sw_cells (sw_cells w') w);
}.

#[export] Instance slow_grows_preorder P : PreOrder (slow_grows P).
Proof.
  split.
  - intros w. split; [done|done|auto|by destruct w].
  - intros w1 w2 w3 [C1 S1 N1 E1] [C2 S2 N2 E2]. split; [auto|by etrans| |].
    { intros p c [Hc|Hc]%N2; [by apply N1|by right]. }
    rewrite E2. rewrite E1. by destruct w3, w1.
Qed.

(** The cell [p] of [w] is the one of offset [o]. *)
Definition cell_at (w : SlowWorld) (o : Offset) (p : positive) : Prop :=
  ∃ c, sw_cells w !! p = Some c ∧ s_offset c = o.

Lemma cell_at_grows P w w' o p : slow_grows P w w' → cell_at w o p → cell_at w' o p.
Proof. intros [_ Hsub _ _] (c & Hc & Ho). exists c. split; [by eapply lookup_weaken|done]. Qed.

Lemma in_grid_i32 o : in_grid o → off_i32 o.
Proof. unfold in_grid. intros. split; apply in_i32_spec; lia. Qed.

Lemma slow_find_spec P o w :
  slow_coherent w → in_grid o → P o → wp (slow_find o) w (λ p w', slow_grows P w w' ∧ cell_at w' o p).
Proof.
  intros Hw Ho HP. unfold slow_find, slow_get. do 2 wp_step.
  destruct (sw_map w !! hash o) as [p|] eqn:Hp.
  { apply wp_ret. split; [done|]. destruct (mapped_live _ Hw _ _ Hp) as (c & Hc & Hh). exists c. split; [done|].
    apply (hash_decodes o); [by apply in_grid_i32|apply in_grid_i32, (live_mapped _ Hw _ _ Hc)|done]. }
  wp_step. wp_step. wp_step. wp_step. apply wp_ret.
  set (p := sr_alloc (dom (sw_cells w))).
  assert (sw_cells w !! p = None) as Hnew by (apply not_elem_of_dom, sl_fresh).
  split; [split|].
  - intros _. split; cbn.
    + intros h q [[<- <-]|[Hh Hq]]%lookup_insert_Some; [exists (SlowCell_new o); by rewrite lookup_insert_eq|].
      destruct (mapped_live _ Hw _ _ Hq) as (c & Hc & <-). exists c. rewrite lookup_insert_ne; [done|congruence].
    + intros q c [[<- <-]|[Hne Hc]]%lookup_insert_Some; [by rewrite lookup_insert_eq|].
      destruct (live_mapped _ Hw _ _ Hc) as [Hm Hg]. split; [|done]. rewrite lookup_insert_ne; [done|].
      intros Heq. rewrite Heq in Hp. congruence.
  - cbn. by apply insert_subseteq.
  - cbn. intros q c [[<- <-]|[_ Hc]]%lookup_insert_Some; auto.
  - by destruct w.
  - exists (SlowCell_new o). cbn. by rewrite lookup_insert_eq.
Qed.

Lemma slow_find_all P os w :
  slow_coherent w → Forall (λ o, in_grid o ∧ P o) os →
  wp (map_each slow_find os) w (λ ps w', slow_grows P w w' ∧ Forall2 (cell_at w') os ps).
Proof.
  intros Hw Hos. revert w Hw. induction Hos as [|o os [Ho HP] _ IH]; intros w Hw; cbn [map_each].
  { apply wp_ret. split; [done|constructor]. }
  wp_step. eapply wp_mono; [by apply slow_find_spec|]. intros p w1 [Hg1 Hp].
  wp_step. eapply wp_mono; [by apply IH, Hg1|]. intros ps w2 [Hg2 Hps]. apply wp_ret.
  split; [by etrans|]. constructor; [by eapply cell_at_grows|done].
Qed.

Lemma cell_at_unique w o p q : slow_coherent w → cell_at w o p → cell_at w o q → p = q.
Proof.
  intros Hw (c & Hc & <-) (c' & Hc' & Heq).
  apply (live_mapped _ Hw) in Hc as [Hc _], Hc' as [Hc' _]. congruence.
Qed.

(** The cells of [ps] join the cluster [k]. *)
Definition join (k : positive) (ps : list positive) (cells : gmap positive SlowCell) : gmap positive SlowCell :=
  foldl (λ cells p, alter (set_slow_cluster (Some k)) p cells) cells ps.

Lemma join_lookup k ps cells p :
  join k ps cells !! p = (if decide (p ∈ ps) then set_slow_cluster (Some k) else id) <$> cells !! p.
Proof.
  revert cells. induction ps as [|q ps IH]; intros cells; cbn [join foldl].
  { by rewrite decide_False, option_fmap_id by apply not_elem_of_nil. }
  fold (join k ps (alter (set_slow_cluster (Some k)) q cells)). rewrite IH. clear IH.
  destruct (decide (p = q)) as [->|Hq].
  - rewrite lookup_alter_eq, (decide_True (P := q ∈ q :: ps)) by (apply elem_of_cons; by left).
    destruct (cells !! q) as [c|]; cbn; [|done]. by case_decide.
  - rewrite lookup_alter_ne by done.
    by rewrite (decide_ext (p ∈ q :: ps) (p ∈ ps)) by (rewrite elem_of_cons; naive_solver).
Qed.

Lemma upd_slow_cell_run f p w :
  is_Some (sw_cells w !! p) → upd_slow_cell p f w = (Ok tt, set_sw_cells (alter f p (sw_cells w)) w).
Proof.
  intros [c Hc]. unfold upd_slow_cell, slow_cell, mbind, ST_bind, get. rewrite Hc.
  assert (<[p := f c]> (sw_cells w) = alter f p (sw_cells w)) as <-; [|done].
  apply map_eq. intros q. destruct (decide (q = p)) as [->|Hq].
  - by rewrite lookup_insert_eq, lookup_alter_eq, Hc.
  - by rewrite lookup_insert_ne, lookup_alter_ne.
Qed.

Lemma join_run k ps w :
  (∀ p, p ∈ ps → is_Some (sw_cells w !! p)) →
  for_each (λ s, upd_slow_cell s (set_slow_cluster (Some k))) ps w = (Ok tt, set_sw_cells (join k ps (sw_cells w)) w).
Proof.
  revert w. induction ps as [|p ps IH]; intros w Hlive; cbn [for_each]; [by destruct w|].
  unfold mbind, ST_bind. rewrite upd_slow_cell_run by (apply Hlive, elem_of_cons; by left). rewrite IH.
  - by destruct w.
  - intros q Hq. destruct w; cbn. rewrite lookup_alter_is_Some. apply Hlive, elem_of_cons. by right.
Qed.

Definition invalidation (k : positive) (radius : Z) : SlowClusterOperation :=
  mkSlowClusterOperation RING_INVALIDATION k None radius.

Lemma slow_add_run node siblings c w :
  sw_cells w !! node = Some c → in_grid (s_offset c) → (∀ p, p ∈ siblings → is_Some (sw_cells w !! p)) →
  let k := sr_alloc (dom (sw_centers w)) in
  slow_add node siblings w =
    (Ok tt, set_sw_cluster_ops (foldl (λ q r, (qs_push (invalidation k r) q).2) (sw_cluster_ops w) [-1; 0; 1]%Z)
      (set_sw_cells (join k (node :: siblings) (sw_cells w))
        (set_sw_centers (<[k := mkCenter node false]> (sw_centers w)) (set_sw_unique (sw_unique w ++ [k]) w)))).
Proof.
  intros Hc Ho Hlive k. unfold slow_add, mbind, ST_bind, get, put. fold k.
  rewrite upd_slow_cell_run by (cbn; eauto). cbn [for_each]. rewrite join_run.
  2: { intros p Hp. cbn. rewrite lookup_alter_is_Some. auto. }
  unfold slow_cell at 1, mbind, ST_bind, get. cbn.
  assert (join k siblings (alter (set_slow_cluster (Some k)) node (sw_cells w)) !! node =
            Some (set_slow_cluster (Some k) c)) as ->.
  { rewrite join_lookup, lookup_alter_eq, Hc. cbn. by case_decide. }
  cbn. unfold mbind, ST_bind, lift. rewrite distance_ok by done. cbn.
  rewrite (proj2 (hex_dist_0 _ _)) by done. done.
Qed.
End create.

Section create_spec.
Context `{SlowBehaviour, !SlowLaws}.

Lemma invalidations_contents k q rs :
  qs_contents (foldl (λ q r, (qs_push (invalidation k r) q).2) q rs) = qs_contents q ++ (invalidation k <$> rs).
Proof.
  revert q. induction rs as [|r rs IH]; intros q; cbn [foldl]; [by rewrite app_nil_r|].
  rewrite IH, qs_push_contents. by rewrite <-app_assoc.
Qed.

(** Changes of cells that keep their offsets keep the coherence. *)
Lemma coherent_cells w w' :
  sw_map w' = sw_map w → (∀ p, s_offset <$> sw_cells w' !! p = s_offset <$> sw_cells w !! p) →
  slow_coherent w → slow_coherent w'.
Proof.
  intros Hmap Heq [Hm Hl]. split; rewrite ?Hmap.
  - intros h p Hp. destruct (Hm _ _ Hp) as (c & Hc & <-). specialize (Heq p). rewrite Hc in Heq.
    apply fmap_Some in Heq as (c' & Hc' & Ho). exists c'. by rewrite Ho.
  - intros p c Hc. specialize (Heq p). rewrite Hc in Heq. symmetry in Heq.
    apply fmap_Some in Heq as (c' & Hc' & ->). by apply Hl.
Qed.

#[local] Arguments siblings_coords : simpl never.
#[local] Arguments sibling_dirs : simpl never.

(** What [getOrCreate] does to a cell whose siblings are not done. *)
Lemma slow_getOrCreate_run (o : Offset) (w : SlowWorld) :
  slow_coherent w → interior o →
  (∀ p c, sw_cells w !! p = Some c → s_offset c = o → s_siblingsDone c = false) →
  let k := sr_alloc (dom (sw_centers w)) in
  ∃ cell ps w2, slow_grows (λ p, hex_dist o p ≤ 1)%Z w w2 ∧ cell_at w2 o cell ∧
    Forall2 (cell_at w2) (off_add o <$> sibling_dirs) ps ∧
    slow_getOrCreate o true w =
      (Ok cell, set_sw_cells (alter set_slow_done cell (join k (cell :: ps) (sw_cells w2)))
        (set_sw_cluster_ops (foldl (λ q r, (qs_push (invalidation k r) q).2) (sw_cluster_ops w) [-1; 0; 1]%Z)
          (set_sw_centers (<[k := mkCenter cell false]> (sw_centers w)) (set_sw_unique (sw_unique w ++ [k]) w2)))).
Proof.
  intros Hw Ho Hnew k. set (P p := (hex_dist o p ≤ 1)%Z).
  assert (P o) as HP by (unfold P; rewrite (proj2 (hex_dist_0 o o)); done).
  destruct (wp_run _ _ _ (slow_find_spec P o w Hw (proj1 Ho) HP)) as (cell & w1 & Hfind & Hg1 & Hat1).
  assert (slow_coherent w1) as Hw1 by by apply Hg1.
  assert (Forall (λ o, in_grid o ∧ P o) (off_add o <$> sibling_dirs)) as Hos.
  { apply Forall_forall. intros p Hp%elem_of_siblings. split; [by apply Ho|].
    apply adjacent_dist in Hp. unfold P. lia. }
  destruct (wp_run _ _ _ (slow_find_all P _ w1 Hw1 Hos)) as (ps & w2 & Hsib & Hg2 & Hat2).
  exists cell, ps, w2. split_and!; [by etrans|by eapply cell_at_grows|done|].
  destruct Hat1 as (c1 & Hc1 & Hc1o).
  assert (s_siblingsDone c1 = false) as Hdone.
  { destruct (sg_new _ _ _ Hg1 _ _ Hc1) as [Hc|[_ ->]]; [by eapply Hnew|done]. }
  assert (sw_cells w2 !! cell = Some c1) as Hc2 by by eapply lookup_weaken, sg_cells.
  unfold slow_getOrCreate, mbind, ST_bind. rewrite Hfind. unfold slow_cell, mbind, ST_bind, get. rewrite Hc1. cbn.
  rewrite Hdone. cbn. unfold slow_createSiblings, slow_cell, mbind, ST_bind, get, lift. rewrite Hc1. cbn.
  rewrite Hc1o. rewrite siblings_coords_ok by exact (proj1 Ho). rewrite Hsib, (slow_add_run _ _ c1).
  - rewrite upd_slow_cell_run.
    + rewrite (sg_eq _ _ _ Hg2), (sg_eq _ _ _ Hg1). done.
    + cbn -[join]. rewrite join_lookup, Hc2. cbn. eauto.
  - done.
  - rewrite Hc1o. exact (proj1 Ho).
  - intros p Hp. apply list_elem_of_lookup in Hp as [i Hi].
    destruct (Forall2_lookup_r _ _ _ _ _ Hat2 Hi) as (? & _ & c & Hc & _). by eexists.
Qed.

Lemma near_cells w o cell ps :
  slow_coherent w → cell_at w o cell → Forall2 (cell_at w) (off_add o <$> sibling_dirs) ps →
  ∀ q c, sw_cells w !! q = Some c → q ∈ cell :: ps ↔ (hex_dist o (s_offset c) ≤ 1)%Z.
Proof.
  intros Hw Hat Hps q c Hc. rewrite elem_of_cons. split.
  - intros [->|Hq].
    + destruct Hat as (c' & Hc' & <-). simplify_eq. rewrite (proj2 (hex_dist_0 _ _)); [lia|done].
    + apply list_elem_of_lookup in Hq as [i Hi].
      destruct (Forall2_lookup_r _ _ _ _ _ Hps Hi) as (p & Hp & c' & Hc' & <-). simplify_eq.
      apply list_elem_of_lookup_2, elem_of_siblings, adjacent_dist in Hp. lia.
  - intros Hd. pose proof (hex_dist_nonneg o (s_offset c)).
    destruct (decide (hex_dist o (s_offset c) = 0)%Z) as [Heq|Hne].
    + left. apply hex_dist_0 in Heq. apply (cell_at_unique w o); [done|by exists c|done].
    + right. assert (s_offset c ∈ off_add o <$> sibling_dirs) as [i Hi]%list_elem_of_lookup.
      { apply elem_of_siblings, adjacent_dist. lia. }
      destruct (Forall2_lookup_l _ _ _ _ _ Hps Hi) as (p & Hp & Hat').
      rewrite (cell_at_unique w (s_offset c) q p); [by eapply list_elem_of_lookup_2|done|by exists c|done].
Qed.

(** C34. [getOrCreate(offset, true)] of a cell whose siblings are not done: the
    cell and its six neighbours exist afterwards, the cell is done, and they are
    exactly the cells that changed or appeared; they form a new cluster whose centre is the cell, even
    those that were in another cluster. No entity is lost, the map stays
    coherent, and three ring invalidations are scheduled, of the new cluster. *)
Theorem slow_getOrCreate_spec (o : Offset) (w : SlowWorld)
    (Hw : slow_coherent w) (Ho : interior o)
    (Hnew : ∀ p c, sw_cells w !! p = Some c → s_offset c = o → s_siblingsDone c = false) :
  let k := sr_alloc (dom (sw_centers w)) in
  ∃ cell w', slow_getOrCreate o true w = (Ok cell, w') ∧ slow_coherent w' ∧
    (∃ c, sw_cells w' !! cell = Some c ∧ s_offset c = o ∧ s_siblingsDone c = true) ∧
    sw_centers w' = <[k := mkCenter cell false]> (sw_centers w) ∧
    sw_unique w' = sw_unique w ++ [k] ∧ sw_cache w' = sw_cache w ∧
    qs_contents (sw_cluster_ops w') = qs_contents (sw_cluster_ops w) ++ (invalidation k <$> [-1; 0; 1]%Z) ∧
    (∀ p, adjacent o p → ∃ q, cell_at w' p q) ∧
    (∀ q c, sw_cells w' !! q = Some c →
       if decide (hex_dist o (s_offset c) ≤ 1)%Z then s_cluster c = Some k else sw_cells w !! q = Some c) ∧
    (∀ q c, sw_cells w !! q = Some c → ∃ c', sw_cells w' !! q = Some c' ∧
       s_offset c' = s_offset c ∧ s_data c' = s_data c ∧ s_playerData c' = s_playerData c).
Proof.
  intros k. destruct (slow_getOrCreate_run o w Hw Ho Hnew) as (cell & ps & w2 & Hg & Hat & Hps & Hrun). fold k in Hrun.
  assert (slow_coherent w2) as Hw2 by by apply Hg.
  assert (∀ q c, sw_cells w2 !! q = Some c → q ∈ cell :: ps ↔ (hex_dist o (s_offset c) ≤ 1)%Z) as Hnear
    by by apply near_cells.
  set (cells := alter set_slow_done cell (join k (cell :: ps) (sw_cells w2))) in *.
  assert (∀ q, cells !! q = (λ c, (if decide (q = cell) then set_slow_done else id)
                (if decide (hex_dist o (s_offset c) ≤ 1)%Z then set_slow_cluster (Some k) c else c)) <$> sw_cells w2 !! q) as Hcells.
  { intros q. subst cells. destruct (sw_cells w2 !! q) as [c|] eqn:Hc.
    - assert (join k (cell :: ps) (sw_cells w2) !! q =
                Some (if decide (hex_dist o (s_offset c) ≤ 1)%Z then set_slow_cluster (Some k) c else c)) as Hj.
      { rewrite join_lookup, Hc. cbn. f_equal. pose proof (Hnear q c Hc). repeat case_decide; naive_solver. }
      destruct (decide (q = cell)) as [->|Hq].
      + by rewrite lookup_alter_eq, Hj.
      + by rewrite lookup_alter_ne, Hj.
    - destruct (decide (q = cell)) as [->|Hq].
      + by rewrite lookup_alter_eq, join_lookup, Hc.
      + by rewrite lookup_alter_ne, join_lookup, Hc. }
  assert (∀ q c, sw_cells w2 !! q = Some c → ∃ c', cells !! q = Some c' ∧ s_offset c' = s_offset c ∧
            s_data c' = s_data c ∧ s_playerData c' = s_playerData c) as Hkept.
  { intros q c Hc. rewrite Hcells, Hc. cbn -[decide]. eexists. split; [done|]. by repeat case_decide. }
  assert (∀ p q, cell_at w2 p q → ∃ c, cells !! q = Some c ∧ s_offset c = p) as Hat'.
  { intros p q (c & Hc & <-). destruct (Hkept q c Hc) as (c' & Hc' & Ho' & _). eauto. }
  exists cell. eexists. split; [exact Hrun|]. clear Hrun. split_and!.
  - apply (coherent_cells w2); [done| |done]. intros q. cbn. rewrite Hcells.
    destruct (sw_cells w2 !! q); cbn -[decide]; [|done]. f_equal. by repeat case_decide.
  - destruct Hat as (c & Hc & <-). cbn -[decide]. rewrite Hcells, Hc. cbn -[decide]. eexists. split; [done|].
    rewrite (decide_True (P := cell = cell)) by done. split; [by case_decide|done].
  - done.
  - done.
  - by rewrite (sg_eq _ _ _ Hg).
  - apply invalidations_contents.
  - intros p Hp%elem_of_siblings. apply list_elem_of_lookup in Hp as [i Hi].
    destruct (Forall2_lookup_l _ _ _ _ _ Hps Hi) as (q & _ & Hq). exists q. by apply Hat'.
  - cbn. intros q c. rewrite Hcells. destruct (sw_cells w2 !! q) as [c2|] eqn:Hc2; [|done]. cbn -[decide].
    intros [= <-]. destruct (decide (q = cell)) as [->|Hne]; cbn -[decide].
    + pose proof (proj1 (Hnear cell c2 Hc2) ltac:(apply elem_of_cons; by left)).
      by rewrite (decide_True (P := (hex_dist o (s_offset c2) ≤ 1)%Z)), decide_True.
    + destruct (decide (hex_dist o (s_offset c2) ≤ 1)%Z) as [Hd|Hd]; cbn -[decide].
      * by rewrite decide_True.
      * rewrite decide_False by done. destruct (sg_new _ _ _ Hg _ _ Hc2) as [?|[? _]]; done.
  - intros q c Hc. apply Hkept. by eapply lookup_weaken, sg_cells.
Qed.
End create_spec.

(** ** Invalidations

    An invalidation that [add] schedules deletes a ring of the new cluster's own
    centre: rings cached around other centres keep the holes that the new cells
    fill. *)

Lemma invalidation_own `{SlowBehaviour} n k r w b :
  sw_centers w !! k = Some b →
  slow_cluster_operation n (invalidation k r) w =
    (Ok tt, set_sw_cache (delete (center b, u16 r) (sw_cache w)) w).
Proof.
  intros Hk. unfold slow_cluster_operation, slow_center, getRing, mbind, ST_bind, get. cbn.
  rewrite Hk. cbn. by destruct (sw_cache w !! _).
Qed.

(** ** A runtime to run the model on *)

#[export] Instance slow_reference : SlowRuntime := {|
  sr_map_queue := list_queue _ None;
  sr_cluster_queue := list_queue _ None;
  sr_alloc X := fresh X;
  sr_in_order m := (map_to_list m).*2;
  sr_is_client _ := false;
  sr_id e := Zpos e;
|}.

#[export] Instance slow_reference_laws : SlowLaws.
Proof. split; [intros X; apply is_fresh|apply list_queue_laws]. Qed.

#[export] Instance slow_idle : SlowBehaviour := {|
  sb_update _ _ := mret tt;
  sb_onAdded _ _ := mret tt;
  sb_onRemoved _ _ := mret tt;
|}.

Definition coherent_check (w : SlowWorld) : bool :=
  bool_decide (map_Forall (λ h p, Some h = hash ∘ s_offset <$> sw_cells w !! p) (sw_map w)) &&
  bool_decide (map_Forall (λ p c, sw_map w !! hash (s_offset c) = Some p ∧ in_grid (s_offset c)) (sw_cells w)).

Lemma coherent_checked w : coherent_check w = true → slow_coherent w.
Proof.
  unfold coherent_check. intros [H1%bool_decide_eq_true H2%bool_decide_eq_true]%andb_true_iff.
  split; [|exact H2]. intros h p Hp. specialize (H1 h p Hp). cbn in H1. symmetry in H1.
  apply fmap_Some in H1 as (c & Hc & ->). by exists c.
Qed.

Definition slow_origin : Offset := mkOffset 0 0.

(** Two clusters of one cell each that meet. *)
Definition slow_example : SlowWorld :=
  let c q k := mkSlowCell (mkOffset q 0) true ∅ ∅ (Some k) in
  mkSlowWorld {[1%positive := c 0%Z 1%positive; 2%positive := c 1%Z 2%positive]}
    {[hash (mkOffset 0 0) := 1%positive; hash (mkOffset 1 0) := 2%positive]} QueueWithSize_new
    {[1%positive := mkCenter 1 false; 2%positive := mkCenter 2 true]} [1; 2]%positive ∅ QueueWithSize_new 0.


Lemma slow_getOrCreate_spec_witness :
  ∃ cell w', slow_getOrCreate slow_origin true SlowWorld_new = (Ok cell, w') ∧ slow_coherent w' ∧
    sw_unique w' = [1%positive].
Proof.
  assert (interior slow_origin) as Ho.
  { split; [|intros o' Hadj%adjacent_dist]; unfold in_grid, hex_dist, hex_norm, slow_origin in *; cbn in *; lia. }
  destruct (slow_getOrCreate_spec slow_origin SlowWorld_new (coherent_checked SlowWorld_new eq_refl) Ho)
    as (cell & w' & Hrun & Hw & _ & _ & Hu & _).
  - intros p c Hc. cbn in Hc. by rewrite lookup_empty in Hc.
  - exists cell, w'. split; [exact Hrun|]. split; [exact Hw|exact Hu].
Defined.

(** A cluster is made at the origin and updated; another is made three cells
    away and updated, and the two are merged. The second ring of the first
    centre is still cached as empty, so that the updates of the merged cluster
    end before it reaches the cells that it got. *)
Definition merge_run : ST SlowWorld unit :=
  _ ← slow_getOrCreate slow_origin true;
  _ ← slow_cluster_operations 9 99; _ ← slow_update 99 50;
  _ ← slow_getOrCreate (mkOffset 3 0) true;
  _ ← slow_cluster_operations 9 99; _ ← slow_update 99 50;
  slow_cluster_operations 9 99.

Example merged_ring_stale :
  let '(o, w) := merge_run SlowWorld_new in
  o = Ok tt ∧ sw_unique w = [1%positive] ∧ center <$> sw_centers w !! 1%positive = Some 1%positive ∧
  sw_cache w !! (1%positive, 2%Z) = Some (replicate 12 None) ∧
  ∃ p c, sw_map w !! hash (mkOffset 2 0) = Some p ∧ sw_cells w !! p = Some c ∧ s_cluster c = Some 1%positive.
Proof.
  assert (bool_decide (let '(o, w) := merge_run SlowWorld_new in
    o = Ok tt ∧ sw_unique w = [1%positive] ∧ center <$> sw_centers w !! 1%positive = Some 1%positive ∧
    sw_cache w !! (1%positive, 2%Z) = Some (replicate 12 None) ∧
    (p ← sw_map w !! hash (mkOffset 2 0); c ← sw_cells w !! p; s_cluster c) = Some 1%positive) = true) as Hb
    by by vm_compute.
  apply bool_decide_eq_true in Hb. revert Hb. destruct (merge_run SlowWorld_new) as [o w].
  intros (-> & -> & -> & -> & Hc). split_and!; [done..|].
  apply bind_Some in Hc as (p & Hp & (c & Hc & Hk)%bind_Some). eauto.
Qed.
