(* ===== verification/Examples.v ===== *)
(** * The theorems about the world, on worlds

    Concrete worlds of the runtime of [Reference.v], and the theorems of
    [Cell.v], [Cluster.v], [Map.v] and [Server.v] applied to them: each
    hypothesis holds of a world that the program reaches. *)

From Stdlib Require Import ZArith Lia.
From stdpp Require Import base list gmap option numbers sets.
From S2P Require Import Prelude Float32 Offset Hex Lockfree Physics QuadTree World Reference Cell Cluster Turn Map Grow Operate Life Server.

#[local] Instance ex_runtime : Runtime := reference true.
#[local] Instance ex_laws : RuntimeLaws := reference_laws true.
#[local] Instance ex_behaviour : Behaviour := idle true.

(** ** The empty map *)

Definition origin : Offset := mkOffset 0 0.

Lemma example_world_inv : inv example_world.
Proof. split; cbn; try done; try set_solver. Qed.

Lemma example_world_clear r o : clear r example_world o.
Proof. apply no_cooldown_clear. intros p c. cbn. by rewrite lookup_empty. Qed.

Lemma origin_interior : interior origin.
Proof.
  split; [by vm_compute|]. intros o' (d & Hd & ->).
  repeat (apply elem_of_cons in Hd as [-> | Hd]; [by vm_compute|]). by apply elem_of_nil in Hd.
Qed.

(** ** One cell *)

(** Entity 1 stands in the cell at the origin. *)
Definition one_cell : World := (enter origin 1 example_world).2.

Lemma one_cell_operated : operated ∅ example_world one_cell.
Proof.
  pose proof (enter_ok example_world origin 1 (example_entity 1 None true)
                example_world_inv (example_world_clear _ _) (proj1 origin_interior) eq_refl) as Hwp.
  apply wp_run in Hwp as (p & w & Hrun & Hop & _). unfold one_cell. by rewrite Hrun.
Qed.

Definition one_cell_inv : inv one_cell := op_inv _ _ _ one_cell_operated.

Lemma one_cell_clear r o : clear r one_cell o.
Proof. eapply operated_clear; [exact example_world_inv|exact one_cell_operated|apply example_world_clear]. Qed.

(** The cell is the first one that was allocated. *)
Definition cell_1 : positive := 1.

Definition the_cell : Cell := default (Cell_new origin) (w_cells one_cell !! cell_1).
Definition entity_1 : Entity := set_cell (Some cell_1) (example_entity 1 None true).

Lemma one_cell_map : w_map one_cell !! origin = Some cell_1.
Proof. by vm_compute. Qed.
Lemma one_cell_cell : w_cells one_cell !! cell_1 = Some the_cell.
Proof. by vm_compute. Qed.
Lemma one_cell_entity : w_entities one_cell !! 1%positive = Some entity_1.
Proof. by vm_compute. Qed.

(** ** The map *)

Lemma getOrCreate_spec_witness :
  inv one_cell ∧ in_grid (mkOffset 1 0) ∧ w_map one_cell !! mkOffset 1 0 = None ∧
  wp (getOrCreate (mkOffset 1 0)) one_cell (λ p w', p ∈ k_current (w_cluster w') ∧ linked w' p cell_1).
Proof.
  split; [exact one_cell_inv|]. split; [by vm_compute|]. split; [by vm_compute|].
  eapply wp_mono; [apply (getOrCreate_spec one_cell (mkOffset 1 0)); [exact one_cell_inv|apply one_cell_clear|by vm_compute]|].
  cbn beta. intros p w' [_ Hw]. destruct (w_map one_cell !! mkOffset 1 0) eqn:E; [by vm_compute in E|].
  destruct Hw as (_ & _ & _ & Hcur & Hnb). split; [done|]. apply (Hnb origin); [|exact one_cell_map].
  exists (-1, 0)%Z. split; [|done]. unfold directions. set_solver.
Defined.

Lemma run_add_spec_witness :
  inv example_world ∧ interior origin ∧
  wp (run_add origin 1 None) example_world (λ _ w', inv w' ∧ entities_at w' origin = {[1%Z := 1%positive]} ∧
    is_Some (w_map w' !! mkOffset 1 0)).
Proof.
  split; [exact example_world_inv|]. split; [exact origin_interior|].
  eapply wp_mono; [apply (run_add_spec example_world origin 1 (example_entity 1 None true) None);
    [exact example_world_inv|exact origin_interior|apply example_world_clear|done|done]|].
  cbn beta. intros _ w' (Hg & He & _ & _ & _ & Hs). split; [done|]. split; [by rewrite He|].
  apply Hs; [done|]. exists (1, 0)%Z. split; [|done]. unfold directions. set_solver.
Defined.

Lemma run_remove_spec_witness :
  inv one_cell ∧ interior origin ∧ entities_at one_cell origin = {[1%Z := 1%positive]} ∧
  wp (run_remove origin 1 None) one_cell (λ _ w', inv w' ∧ entities_at w' origin = ∅).
Proof.
  split; [exact one_cell_inv|]. split; [exact origin_interior|]. split; [by vm_compute|].
  eapply wp_mono; [apply (run_remove_spec one_cell origin 1 entity_1 None);
    [exact one_cell_inv|exact origin_interior|apply one_cell_clear|exact one_cell_entity|done]|].
  cbn beta. rewrite one_cell_map. intros _ w' (Hg & He & _). split; [done|]. rewrite He. by vm_compute.
Defined.

(** Entities 1 and 2 wait to be added to the map, with their neighbours. *)
Definition two_waiting : World :=
  ((_ ← addTo_offset origin 1 None; addTo_offset (mkOffset 3 0) 2 None) example_world).2.

Lemma map_runScheduledOperations_fifo_witness :
  length (lf_contents (w_operations two_waiting)) = 2 ∧
  (map_runScheduledOperations two_waiting).1 = Ok tt ∧
  let '(r, w') := map_runScheduledOperations two_waiting in
  executes (lf_contents (w_operations two_waiting)) two_waiting r w'.
Proof.
  split; [by vm_compute|]. split; [by vm_compute|]. apply map_runScheduledOperations_fifo.
Defined.

Lemma translate_interior q : (-1000 < q < 1000)%Z → interior (mkOffset q 0).
Proof.
  intros Hq. split; [split; cbn; lia|]. intros o' (d & Hd & ->). unfold directions in Hd.
  repeat (apply elem_of_cons in Hd as [-> | Hd]; [split; cbn; lia|]). by apply elem_of_nil in Hd.
Qed.

Lemma two_waiting_operations : lf_contents (w_operations two_waiting) =
  [mkMapOperation ADD_ENTITY origin (Some 1%positive) None;
   mkMapOperation ADD_ENTITY (mkOffset 3 0) (Some 2%positive) None].
Proof. by vm_compute. Qed.

(** Beside them, the cell at (9,0) is on cooldown and waits for its
    destruction. *)
Definition hot_cell_9 : Cell := set_stall (mkStall false true 0) (Cell_new (mkOffset 9 0)).
Definition tick_world : World :=
  set_operations [mkMapOperation DESTROY (mkOffset 9 0) None (Some 9%positive);
                  mkMapOperation ADD_ENTITY origin (Some 1%positive) None;
                  mkMapOperation ADD_ENTITY (mkOffset 3 0) (Some 2%positive) None]
    (set_cells {[9%positive := hot_cell_9]} (set_map {[mkOffset 9 0 := 9%positive]} example_world)).

Lemma tick_world_inv : inv tick_world.
Proof.
  split; cbn; try done; try set_solver.
  - intros o p [<- <-]%lookup_singleton_Some. by exists hot_cell_9.
  - intros p c [<- <-]%lookup_singleton_Some. by rewrite lookup_singleton_eq.
  - by intros p c [<- <-]%lookup_singleton_Some.
Qed.

Lemma tick_world_clear q : (-1 ≤ q ≤ 5)%Z → clear 2 tick_world (mkOffset q 0).
Proof.
  intros Hq o' p Hd Ho. cbn in Ho. apply lookup_singleton_Some in Ho as [<- <-].
  unfold hex_dist, hex_norm in Hd. cbn in Hd. lia.
Qed.

Lemma tick_world_executable : executable tick_world (lf_contents (w_operations tick_world)).
Proof.
  split_and!; [exact tick_world_inv|by intros p _ Hp; set_solver| |by vm_compute; apply NoDup_singleton].
  constructor; [|constructor; [|constructor; [|done]]].
  - by exists 9%positive, hot_cell_9.
  - split_and!; [exact origin_interior|apply tick_world_clear; lia|by exists 1%positive, (example_entity 1 None true)|done|done].
  - split_and!; [apply translate_interior; lia|apply tick_world_clear; lia|by exists 2%positive, (example_entity 2 None true)|done|done].
Qed.

Lemma map_tick_refines_witness :
  executable tick_world (lf_contents (w_operations tick_world)) ∧
  wp map_runScheduledOperations tick_world (λ _ w',
    entities_at w' origin = {[1%Z := 1%positive]} ∧ entities_at w' (mkOffset 3 0) = {[2%Z := 2%positive]} ∧
    entities_at w' (mkOffset 9 0) = ∅ ∧ hot tick_world 9 = true ∧ hot w' 9 = false).
Proof.
  split; [exact tick_world_executable|].
  eapply wp_mono; [apply (map_tick_refines tick_world tick_world_executable)|].
  intros [] w' (_ & _ & _ & Hhot & HE). rewrite !HE. split_and!; try by vm_compute.
  destruct (hot w' 9) eqn:Hh; [|done]. apply Hhot in Hh as [_ Hnin]. exfalso. apply Hnin. by left.
Defined.

(** Entity 1 has walked out of the cell at the origin. *)
Definition walked : Entity :=
  mkEntity 1 None (Some cell_1) true (Vec3 (f32_of_Z 100) (f32_of_Z 0) (f32_of_Z 0)) (Some round_box).
Definition walked_away : World := set_world_entities (<[1%positive := walked]> (w_entities one_cell)) one_cell.

Lemma walked_away_inv : inv walked_away.
Proof. split; apply one_cell_inv. Qed.
Lemma walked_away_clear r o : clear r walked_away o.
Proof. exact (one_cell_clear r o). Qed.

Lemma onMove_schedules_witness :
  inv walked_away ∧
  wp (onMove 1) walked_away (λ _ w', inv w' ∧ ∃ p, w_map w' !! mkOffset 1 0 = Some p ∧
    lf_contents (w_operations w') =
      [mkMapOperation REMOVE_ENTITY origin (Some 1%positive) (Some p);
       mkMapOperation ADD_ENTITY (mkOffset 1 0) (Some 1%positive) (Some cell_1)]).
Proof.
  split; [exact walked_away_inv|].
  eapply wp_mono; [apply (onMove_schedules walked_away 1 cell_1 walked the_cell (mkOffset 1 0));
    [exact walked_away_inv|apply walked_away_clear|done|done|exact one_cell_cell|by vm_compute|by vm_compute]|].
  cbn beta. intros _ w' (Hg & p & Hp & Hops). split; [done|]. exists p. split; [done|].
  rewrite Hops. by vm_compute.
Defined.

(** ** The cluster *)

(** The cell at the origin and one of its neighbours. *)
Definition two_cells : World := (getOrCreate (mkOffset 1 0) one_cell).2.

Lemma two_cells_inv : inv two_cells.
Proof.
  assert (wp (getOrCreate (mkOffset 1 0)) one_cell (λ _ w', inv w')) as Hwp.
  { eapply wp_mono; [apply getOrCreate_ok; [exact one_cell_inv|apply one_cell_clear|by vm_compute]|]. by intros p w' (_ & ? & _). }
  apply wp_run in Hwp as (p & w & Hrun & Hi'). unfold two_cells. by rewrite Hrun.
Qed.

Lemma group_cells_partition_witness :
  inv two_cells ∧ elements (k_current (w_cluster two_cells)) ≡ₚ [1; 2]%positive ∧
  wp group_cells two_cells (λ _ w',
    let m := k_cellsByCluster (w_cluster w') in
    concat ((λ cid, cells_of cid m) <$> seq 0 (k_num_components (w_cluster w'))) ≡ₚ [1; 2]%positive).
Proof.
  assert (elements (k_current (w_cluster two_cells)) ≡ₚ [1; 2]%positive) as He.
  { assert (elements (k_current (w_cluster two_cells)) = [2; 1]%positive ∨
            elements (k_current (w_cluster two_cells)) = [1; 2]%positive) as [-> | ->]
      by (first [left; by vm_compute|right; by vm_compute]); [apply Permutation_swap|done]. }
  split; [exact two_cells_inv|]. split; [exact He|].
  eapply wp_mono; [apply (group_cells_partition two_cells); [exact two_cells_inv| |by vm_compute]|].
  - intros cid. replace (k_cellsByCluster (w_cluster two_cells)) with (∅ : gmap nat (list positive)) by by vm_compute.
    done.
  - cbn beta. intros _ w' [Hp _]. exact (transitivity Hp He).
Defined.

Lemma stall_two_minutes_witness :
  Forall (λ e, 0 ≤ e)%Z [50; 70]%Z ∧
  stall_after [50; 70]%Z (mkStall true false stall_time) = mkStall true false 119880.
Proof.
  assert (Forall (λ e, 0 ≤ e)%Z [50; 70]%Z) as Hes by (repeat constructor; lia).
  split; [exact Hes|]. exact (stall_two_minutes [50; 70]%Z Hes).
Defined.

(** The cell at the origin has waited for its two minutes. *)
Definition on_cooldown : Cell := set_stall (mkStall false true 0) the_cell.
Definition cooled_down : World := set_cells {[cell_1 := on_cooldown]} one_cell.

Lemma touch_pending_destroy_witness :
  isOnCooldown (stall on_cooldown) = true ∧
  ((_ ← process_stall 0 cell_1; touch cell_1 false) cooled_down).1 = Fail (UB EraseEnd).
Proof.
  split; [done|]. exact (touch_pending_destroy cooled_down cell_1 on_cooldown 0 eq_refl eq_refl).
Defined.

(** KEEP and UNKEEP of entity 1 wait. *)
Definition kept_and_unkept : World := ((_ ← cluster_add 1; cluster_remove 1) example_world).2.

Lemma keepers_multiset_witness :
  (run_cluster_operations 2 kept_and_unkept).1 = Ok tt ∧
  match run_cluster_operations 2 kept_and_unkept with
  | (Ok _, w') => lf_contents (k_operations (w_cluster w')) = [] ∧
      ∀ e, occ e (k_keepers (w_cluster w')) + scheduled UNKEEP e [mkClusterOperation KEEP 1; mkClusterOperation UNKEEP 1]
           = occ e (k_keepers (w_cluster kept_and_unkept)) +
             scheduled KEEP e [mkClusterOperation KEEP 1; mkClusterOperation UNKEEP 1]
  | (Fail f, _) => False
  end.
Proof.
  assert ((run_cluster_operations 2 kept_and_unkept).1 = Ok tt) as Hr by by vm_compute.
  split; [exact Hr|].
  pose proof (keepers_multiset kept_and_unkept
    [mkClusterOperation KEEP 1; mkClusterOperation UNKEEP 1] 2 ltac:(by vm_compute) ltac:(done)) as Hk.
  destruct (run_cluster_operations 2 kept_and_unkept) as [[[]|f] w']; [exact Hk|done].
Defined.

(** Three cells were updated. The entity of the first becomes a keeper; the
    second stalls and has 40 ms left; the third is not touched any more. *)
Definition cell_9 : Cell := set_stall (mkStall true false 40) (Cell_new (mkOffset 9 0)).
Definition cell_20 : Cell := Cell_new (mkOffset 20 0).

Definition ending : World :=
  set_cells {[cell_1 := the_cell; 2%positive := cell_9; 3%positive := cell_20]}
    (set_map {[origin := cell_1; mkOffset 9 0 := 2%positive; mkOffset 20 0 := 3%positive]}
      (set_cluster (set_k_operations [mkClusterOperation KEEP 1]
        (set_components 3 {[0 := [cell_1]; 1 := [2%positive]; 2 := [3%positive]]}
          (set_graph (3, []) {[cell_1 := 0; 2%positive := 1; 3%positive := 2]}
            (set_buffers {[cell_1; 2%positive; 3%positive]} ∅ (set_stallCells {[2%positive]} Cluster_new))))) one_cell)).

Lemma ending_cells p c : w_cells ending !! p = Some c →
  p = cell_1 ∧ c = the_cell ∨ p = 2%positive ∧ c = cell_9 ∨ p = 3%positive ∧ c = cell_20.
Proof.
  unfold ending. cbn -[the_cell]. rewrite !lookup_insert_Some, lookup_singleton_Some. naive_solver.
Qed.

Lemma ending_vertices p v : k_vertices (w_cluster ending) !! p = Some v →
  p = cell_1 ∧ v = 0 ∨ p = 2%positive ∧ v = 1 ∨ p = 3%positive ∧ v = 2.
Proof.
  unfold ending. cbn -[the_cell]. rewrite !lookup_insert_Some, lookup_singleton_Some. naive_solver.
Qed.

Lemma ending_inv : inv ending.
Proof.
  split.
  - unfold ending. cbn -[the_cell]. intros o p. rewrite !lookup_insert_Some, lookup_singleton_Some.
    intros [[<- <-]|[_ [[<- <-]|[_ [<- <-]]]]]; [exists the_cell|exists cell_9|exists cell_20]; done.
  - intros p c [[-> ->]|[[-> ->]|[-> ->]]]%ending_cells; by vm_compute.
  - by vm_compute.
  - intros p Hp. change (p ∈ ({[cell_1; 2%positive; 3%positive]} : gset positive)) in Hp.
    rewrite !elem_of_union, !elem_of_singleton in Hp.
    destruct Hp as [[->| ->]| ->]; [exists the_cell|exists cell_9|exists cell_20]; by vm_compute.
  - intros p q v [[-> ->]|[[-> ->]|[-> ->]]]%ending_vertices Hq%ending_vertices; naive_solver.
  - intros p v [[-> ->]|[[-> ->]|[-> ->]]]%ending_vertices; vm_compute; lia.
  - by vm_compute.
  - intros u v He. by apply elem_of_nil in He.
  - intros p c [[-> ->]|[[-> ->]|[-> ->]]]%ending_cells Hr; by vm_compute in Hr.
  - intros p Hp. assert (p ∈ ({[2%positive]} : gset positive)) as ->%elem_of_singleton by exact Hp. by exists cell_9.
Qed.

Lemma ending_world_endable : endable 50 [1%positive] ending.
Proof.
  split.
  - exact ending_inv.
  - intros p c [[-> ->]|[[-> ->]|[-> ->]]]%ending_cells; by vm_compute.
  - intros p c [[-> ->]|[[-> ->]|[-> ->]]]%ending_cells; by vm_compute.
  - assert (grouped ending = [cell_1; 2; 3]%positive) as Hg by by vm_compute. split; rewrite Hg.
    + by apply (bool_decide_unpack _).
    + intros q Hq. change (q ∈ ({[cell_1; 2%positive; 3%positive]} : gset positive)). set_solver.
  - intros q Hq. assert (q ∈ ({[2%positive]} : gset positive)) as ->%elem_of_singleton by exact Hq.
    by apply (bool_decide_unpack _); vm_compute.
  - intros p c [[-> ->]|[[-> ->]|[-> ->]]]%ending_cells _; vm_compute; split; done.
  - intros cid Hle. change (3 ≤ cid) in Hle. unfold cells_of, ending. cbn.
    by rewrite !lookup_insert_ne, lookup_singleton_ne by lia.
  - by vm_compute.
  - intros e ->%list_elem_of_singleton. exists entity_1, cell_1, the_cell. split_and!; by vm_compute.
  - intros q c Hq Hc. assert (q = cell_1) as ->.
    { assert (reach ending [1%positive] = {[cell_1]}) as Hr by (apply (bool_decide_unpack _); by vm_compute).
      rewrite Hr in Hq. by apply elem_of_singleton in Hq. }
    apply ending_cells in Hc as [[_ ->]|[[? _]|[? _]]]; [by vm_compute|done|done].
Qed.

Lemma map_cleanup_spec_witness :
  wp (map_cleanup 50) ending (λ _ w', k_keepers (w_cluster w') = [1%positive] ∧
    cell_1 ∈ k_current (w_cluster w') ∧
    (∃ c', w_cells w' !! 3%positive = Some c' ∧ stall c' = mkStall true false stall_time) ∧
    lf_contents (w_operations w') = [mkMapOperation DESTROY (mkOffset 9 0) None (Some 2%positive)]).
Proof.
  eapply wp_mono; [apply (map_cleanup_spec 50 ending [1%positive] ending_world_endable)|].
  intros [] w' (_ & Hk & _ & _ & Hfate & l & Hnd & Hl & Hops). split; [exact Hk|]. split; [|split].
  - destruct (Hfate cell_1 the_cell eq_refl) as (c' & _ & _ & _ & Hf). unfold fate in Hf.
      rewrite decide_True in Hf by (apply (bool_decide_unpack _); by vm_compute). apply Hf.
  - destruct (Hfate 3%positive cell_20 eq_refl) as (c' & Hc' & _ & _ & Hf). exists c'. split; [exact Hc'|].
      unfold fate in Hf. rewrite decide_False in Hf by (apply (bool_decide_unpack _); by vm_compute).
      cbn [stall cell_20 Cell_new isRegistered] in Hf.
      rewrite decide_True in Hf by (apply (bool_decide_unpack _); by vm_compute). apply Hf.
  - assert (l = [2%positive]) as ->; [|exact Hops].
      apply Permutation_singleton_r, NoDup_Permutation; [exact Hnd|apply NoDup_singleton|].
      intros q. rewrite list_elem_of_singleton, Hl. split.
    + intros (c & [[-> ->]|[[-> ->]|[-> ->]]]%ending_cells & Hex); by vm_compute in Hex.
    + intros ->. exists cell_9. split; reflexivity.
Defined.

(** ** A cell *)

(** A cell with one client. *)
Definition watched : Cell := set_entities ∅ 1 (Cell_new origin).


(** ** The server *)

Definition client_3 : Client := mkClient INITIALIZED 3 true.
Definition entity_3 : Entity := example_entity 3 (Some 1%positive) true.

Lemma close_once_witness :
  cl_status client_3 ≠ CLOSED ∧
  ∃ w', close 1 example_world = (Ok tt, w') ∧ close 1 w' = (Ok tt, w') ∧
    lf_contents (w_server_ops w') = [mkServerOperation CLOSE 1].
Proof.
  split; [done|].
  destruct (close_once example_world 1 client_3 entity_3) as (w' & H1 & H2 & _ & _ & H3);
    [done|done|done|done|cbn; lia|]. by exists w'.
Defined.

(** Client 1 is closed and waits for its destruction. *)
Definition closing : World := (close 1 example_world).2.

Lemma closing_world : lf_contents (w_server_ops closing) = [mkServerOperation CLOSE 1] ∧
  w_clients closing = {[1%positive := mkClient CLOSED 3 false]} ∧
  w_entities closing !! 3%positive = Some entity_3.
Proof. by vm_compute. Qed.

Lemma server_operations_spec_witness :
  ∃ w', server_runScheduledOperations closing = (Ok tt, w') ∧
    w_clients w' !! 1%positive = None ∧ w_entities w' !! 3%positive = None ∧ lf_contents (w_server_ops w') = [].
Proof.
  destruct closing_world as (Hops & Hcl & Hen).
  destruct (server_operations_spec closing) as (w' & Hrun & Hq & Hc & He); try rewrite Hops.
  - constructor; [|done]. intros _. exists (mkClient CLOSED 3 false), entity_3. by rewrite Hcl.
  - apply NoDup_singleton.
  - intros p q c d Hp Hq _. rewrite Hcl in Hp, Hq. apply lookup_singleton_Some in Hp as [<- _], Hq as [<- _]. done.
  - cbn. lia.
  - assert (leaving closing (lf_contents (w_server_ops closing)) 1) as Hl.
    { exists (mkServerOperation CLOSE 1). rewrite Hops. split; [by left|]. split; [by vm_compute|done]. }
    exists w'. split; [done|]. split; [by apply Hc|]. split; [|rewrite Hq, Hops; by vm_compute].
    apply He. exists 1%positive, (mkClient CLOSED 3 false). split; [exact Hl|]. by rewrite Hcl.
Defined.

(** The entity of client 1 waits to be added to the cell at the origin. *)
Definition joining : World := (addTo_offset origin 3 None one_cell).2.

Lemma close_while_adding_witness :
  lf_contents (w_operations joining) = [mkMapOperation ADD_ENTITY origin (Some 3%positive) None] ∧
  ((_ ← close 1; _ ← server_runScheduledOperations; map_runScheduledOperations) joining).1 = Fail (UB Dangling).
Proof.
  assert (lf_contents (w_operations joining) = [mkMapOperation ADD_ENTITY origin (Some 3%positive) None]) as Hops
    by by vm_compute.
  split; [exact Hops|].
  apply (close_while_adding joining 1 cell_1 client_3 entity_3
    (mkMapOperation ADD_ENTITY origin (Some 3%positive) None) []); try done; by vm_compute.
Defined.

Lemma heart_beat_witness : turns [10; 50; 20]%Z 30 0 1000 = 1140%Z.
Proof.
  apply (heart_beat [10; 50; 20]%Z 30 0 1000). unfold WORLD_HEART_BEAT. repeat constructor; lia.
Defined.
