(* ===== verification/Scenario.v ===== *)
(** * An entity walks

    An execution of the server on the runtime of [Reference.v]: an updater is
    created and added at the origin; in the turn that adds it, it walks into the
    next cell; the next turn executes the crossing. The theorems about turns
    apply to it. *)

From Stdlib Require Import ZArith Lia.
From stdpp Require Import base list gmap option numbers sets.
From S2P Require Import Prelude Float32 Packet Offset Hex Lockfree Physics QuadTree Bezier World Reference Cell Cluster Turn Map Grow.
From S2P Require Import Operate Life Places Motion Server Update Tick Walk Reach Examples.

(** Where the walker goes: the centre of the cell at (1,0). *)
Definition next_cell : Offset := mkOffset 1 0.
Definition destination : vec3 := let '(x, z) := center next_cell in Vec3 x (f32_of_Z 0) z.

Definition walk (e : positive) (elapsed : Z) : list event := [Rotate (f32_of_Z 1); OnMove destination].

#[local] Instance sc_runtime : Runtime := reference true.
#[local] Instance sc_laws : RuntimeLaws := reference_laws true.
#[local] Instance sc_behaviour : Behaviour := walkers (λ _, 1%positive) walk.

Lemma walk_feasible L e elapsed : Forall (feasible L e) (walk e elapsed).
Proof. repeat constructor. exists next_cell. by vm_compute. Qed.

Lemma walk_civil elapsed : Civil elapsed.
Proof. apply walkers_civil. intros e. apply walk_feasible. Qed.

Lemma reference_announced : announced.
Proof. split; intros e; by eexists. Qed.

(** ** The first turn *)

Definition walker : Entity := example_entity 1 None true.
Definition created : World := set_world_entities {[1%positive := walker]} World_new.
Definition scheduled_world : World := (addTo_offset origin 1 None created).2.

Lemma scheduled_happens : happens World_new created ∧ happens created scheduled_world.
Proof.
  split; [apply (hp_create _ _ 1 walker); try done|by apply (hp_add _ _ origin 1 None)].
Qed.

Lemma scheduled_settled : settled ∅ scheduled_world.
Proof.
  destruct scheduled_happens as [H1 H2]. pose proof World_new_settled as Hs.
  pose proof (settled_quiet _ _ _ Hs (happens_quiet _ _ _ Hs (se_closing _ _ Hs) H1)) as Hs1.
  exact (settled_quiet _ _ _ Hs1 (happens_quiet _ _ _ Hs1 (se_closing _ _ Hs1) H2)).
Qed.

Lemma scheduled_operations :
  lf_contents (w_operations scheduled_world) = [mkMapOperation ADD_ENTITY origin (Some 1%positive) None].
Proof. by vm_compute. Qed.

Definition at_origin : places := {[1%positive := origin]}.

Lemma scheduled_ready : ready 50 ∅ at_origin scheduled_world.
Proof.
  split; rewrite ?scheduled_operations; [done|by vm_compute| |cbn; lia|].
  - constructor; [|done]. intros _. split.
    + split_and!; [exact origin_interior|by intros o' p _ Hp|by exists 1%positive, walker|done|done].
    + intros e en _ [= <-] [= <-]. split; [by exists walker, round_box|]. intros _ q c (o & Ho & _)%elem_of_around. done.
  - intros w1 Hrun. replace w1 with (map_runScheduledOperations scheduled_world).2 by by rewrite Hrun. by vm_compute.
Qed.

Lemma server_update_refines_witness :
  settled ∅ scheduled_world ∧ ready 50 ∅ at_origin scheduled_world ∧
  ∃ w', server_update (mret tt) 50 0 scheduled_world = (Ok 0%Z, w') ∧ settled at_origin w'.
Proof.
  split; [exact scheduled_settled|]. split; [exact scheduled_ready|].
  pose proof (server_update_refines (mret tt) 50 0 ∅ at_origin scheduled_world (walk_civil 50) (orderly_ret 50)
    reference_announced scheduled_settled scheduled_ready) as Ht.
  assert ((server_update (mret tt) 50 0 scheduled_world).1 = Ok 0%Z) as Hok by by vm_compute.
  destruct (server_update (mret tt) 50 0 scheduled_world) as [r w']. cbn in Hok. subst r. exists w'.
  split; [reflexivity|apply Ht].
Defined.

(** ** The second turn *)

Definition walking_world : World := (server_update (mret tt) 50 0 scheduled_world).2.

Lemma first_turn : server_update (mret tt) 50 0 scheduled_world = (Ok 0%Z, walking_world).
Proof.
  assert ((server_update (mret tt) 50 0 scheduled_world).1 = Ok 0%Z) as Hok by by vm_compute.
  unfold walking_world. destruct (server_update (mret tt) 50 0 scheduled_world) as [r w']. cbn in Hok |- *. by rewrite Hok.
Qed.

Definition at_next : places := {[1%positive := next_cell]}.

(** The crossing to the next cell waits. *)
Lemma walking_operations :
  lf_contents (w_operations walking_world) =
    [mkMapOperation REMOVE_ENTITY origin (Some 1%positive) (Some 4%positive);
     mkMapOperation ADD_ENTITY next_cell (Some 1%positive) (Some 1%positive)].
Proof. by vm_compute. Qed.

Definition idle_cell (c : Cell) : Prop := isOnCooldown (stall c) = false ∧ expires 50 c = false.

#[local] Instance idle_cell_dec c : Decision (idle_cell c).
Proof. unfold idle_cell. apply _. Defined.

Lemma walking_idle p c : w_cells walking_world !! p = Some c → idle_cell c.
Proof.
  assert (map_Forall (λ _ c, idle_cell c) (w_cells walking_world)) as H; [|by apply H].
  apply (bool_decide_unpack _). by vm_compute.
Qed.

Lemma walking_cool : no_cooldown walking_world.
Proof. intros p c Hc. by apply (walking_idle p). Qed.

Definition walking_entity : Entity :=
  default walker (w_entities walking_world !! 1%positive).

Lemma walking_settled : settled at_origin walking_world.
Proof.
  pose proof (server_update_turns (mret tt) 50 0 ∅ at_origin scheduled_world (walk_civil 50) (orderly_ret 50)
    reference_announced scheduled_settled scheduled_ready) as Ht.
  unfold wpe in Ht. rewrite first_turn in Ht. apply Ht.
Qed.

(** The old and the new cell are neighbours, and no cell is about to go. *)
Lemma walking_move ty o q d :
  interior o → w_cells walking_world !! q = Some d → adjacent (c_offset d) o →
  let op := mkMapOperation ty o (Some 1%positive) (Some q) in valid_move walking_world op ∧ admissible 50 walking_world op.
Proof.
  intros Ho Hq Hadj op. assert (w_entities walking_world !! 1%positive = Some walking_entity) as He by by vm_compute.
  split; [split_and!|].
  - exact Ho.
  - apply no_cooldown_clear, walking_cool.
  - exists 1%positive, walking_entity. split; [reflexivity|exact He].
  - intros q' _. apply no_cooldown_hot, walking_cool.
  - intros p [= <-]. exists d. split; [exact Hq|exact Hadj].
  - intros e en _ [= <-] _. split; [|intros _ p c _ Hc; by apply (walking_idle p)].
    assert (is_Some (at_origin !! 1%positive)) as Hat by by eexists.
    exact (co_sound _ _ walking_settled 1%positive Hat).
Qed.

Lemma walking_ready : ready 50 at_origin at_next walking_world.
Proof.
  split; rewrite ?walking_operations; [done|by vm_compute| |cbn; lia|].
  - apply Forall_cons. split; [|apply Forall_cons; split; [|constructor]]; intros _.
    + eapply walking_move; [exact origin_interior|by vm_compute|]. exists (-1, 0)%Z. split; [|done]. unfold directions. set_solver.
    + eapply walking_move; [by apply (translate_interior 1)|by vm_compute|]. exists (1, 0)%Z. split; [|done]. unfold directions. set_solver.
  - intros w Hrun. replace w with (map_runScheduledOperations walking_world).2 by by rewrite Hrun. by vm_compute.
Qed.

Lemma scheduled_reachable : reachable ∅ scheduled_world.
Proof. destruct scheduled_happens as [H1 H2]. eapply re_happens; [eapply re_happens; [apply re_new|exact H1]|exact H2]. Qed.

Lemma walking_reachable : reachable at_origin walking_world.
Proof. eapply re_turn; [exact scheduled_reachable|apply (orderly_ret 50)|exact scheduled_ready|exact first_turn]. Qed.

(** The turn that executes the crossing. *)
Lemma reachable_settled_witness :
  reachable at_origin walking_world ∧
  ∃ w', server_update (mret tt) 50 0 walking_world = (Ok 0%Z, w') ∧ reachable at_next w'.
Proof.
  split; [exact walking_reachable|].
  destruct (reachable_settled at_origin walking_world walk_civil reference_announced walking_reachable) as [_ Hturn].
  specialize (Hturn (mret tt) 50%Z 0%Z at_next (orderly_ret 50) walking_ready).
  assert ((server_update (mret tt) 50 0 walking_world).1 = Ok 0%Z) as Hok by by vm_compute.
  destruct (server_update (mret tt) 50 0 walking_world) as [r w']. cbn in Hok. subst r. by exists w'.
Defined.

(** ** A new path *)

(** In the middle of the first turn the walker sets out on a random path: the
    packets that announce it go to the neighbours, it turns, and it moves. *)
Definition updated_world : World := (cluster_update 50 (map_runScheduledOperations scheduled_world).2).2.

Lemma updated_running : ∃ L, running 50 at_origin L updated_world.
Proof.
  pose proof (map_operations_updatable 50 ∅ at_origin scheduled_world scheduled_settled scheduled_ready) as Hup.
  apply wp_run in Hup as ([] & w1 & Hrun & L & Hup). exists L.
  pose proof (cluster_update_running 50 at_origin L w1 (walk_civil 50) reference_announced Hup) as Hcu.
  assert ((cluster_update 50 (map_runScheduledOperations scheduled_world).2).1 = Ok tt) as Hok by by vm_compute.
  unfold updated_world. rewrite Hrun in Hok |- *. cbn [snd] in Hok |- *. unfold wpe in Hcu.
  destruct (cluster_update 50 w1) as [r w2]. cbn [fst] in Hok. by subst r.
Qed.

Definition path_draws : Draws :=
  let f := f32_of_Z in let d := f64_of_f32 (f 0%Z) in mkDraws 2 (f 24%Z, f 0%Z) (f 8%Z) (f 8%Z) (d, d).
Definition setting_out : MotionMaster := set_position destination (set_generator (Some RandomMovement_new) MotionMaster_new).
Definition path_events : list event :=
  match motion_update 1 [] [] path_draws 50 setting_out with Ok (events, _) => events | Fail _ => [] end.

Definition path_end : vec3 := match last path_events with Some (OnMove p) => p | _ => destination end.

Lemma path_events_ok : ∃ m, motion_update 1 [] [] path_draws 50 setting_out = Ok (path_events, m).
Proof.
  assert (match motion_update 1 [] [] path_draws 50 setting_out with Ok _ => true | Fail _ => false end = true) as Hok
    by by vm_compute.
  unfold path_events. destruct (motion_update 1 [] [] path_draws 50 setting_out) as [[events m]|f]; [by exists m|done].
Qed.

Definition is_broadcast (ev : event) : bool := match ev with Broadcast _ => true | _ => false end.

Lemma path_events_shape : ∃ x y a, path_events = [Broadcast x; Broadcast y; Rotate a; OnMove path_end].
Proof. do 3 eexists. by vm_compute. Qed.

Lemma path_feasible L : 1%positive ∈ L → Forall (feasible L 1) path_events.
Proof.
  intros HL. destruct path_events_shape as (x & y & a & ->).
  repeat constructor; [done..|]. exists next_cell. split; by vm_compute.
Qed.

Lemma updated_entity :
  ∃ en, w_entities updated_world !! 1%positive = Some en ∧ e_id en = 1%Z ∧ e_isUpdater en = true.
Proof.
  assert ((λ en, (e_id en, e_isUpdater en)) <$> w_entities updated_world !! 1%positive = Some (1%Z, true)) as Hen by by vm_compute.
  apply fmap_Some in Hen as (en & He & [= Hid Hu]). exists en.
  split; [exact He|]. split; [exact (eq_sym Hid)|exact (eq_sym Hu)].
Qed.

Lemma entity_update_spec_witness :
  ∃ L w' m', running 50 at_origin L updated_world ∧
    MapAwareEntity_update (mret tt) (λ _, 1%positive) 1 [] [] path_draws 50 setting_out updated_world = (Ok m', w') ∧
    running 50 at_origin L w' ∧ e_position <$> w_entities w' !! 1%positive = Some path_end.
Proof.
  destruct updated_running as [L Hr], updated_entity as (en & He & Hid & Hu).
  assert (is_Some (at_origin !! 1%positive)) as HA by by eexists. assert (1%positive ∈ L) as HL.
  { apply (ke_in _ _ _ (ru_keeping _ _ _ _ Hr)). split; [exact HA|]. exists en. split; [exact He|exact Hu]. }
  assert (steady updated_world updated_world) as Hsteady by apply steady_order.
  destruct path_events_ok as [m Hm]. rewrite <-Hid in Hm.
  pose proof (entity_update_spec 50 at_origin L updated_world updated_world (mret tt) (λ _, 1%positive) 1 en [] [] path_draws path_events setting_out m
    HA eq_refl Hr Hsteady He Hm (path_feasible L HL)) as Hwp.
  apply wp_run in Hwp as (m' & w' & Hrun & _ & Hr' & _ & Hpos & _). exists L, w', m'.
  split; [exact Hr|]. split; [exact Hrun|]. split; [exact Hr'|]. rewrite Hpos.
  destruct path_events_shape as (x & y & a & ->). reflexivity.
Defined.
