(* ===== verification/Jobs.v ===== *)
(** * A turn with its works

    [Server::update] with the executor that it is: [Tick.v] takes what the
    executor does as a law, here its works are run. Handlers and tasks may do
    what an application may do between turns ([happens]), and a handler may
    read past the end of its packet, which closes its client. The works of a
    turn whose clients are there never make it fail. *)

From Stdlib Require Import ZArith Lia.
From stdpp Require Import base list gmap option numbers sets relations.
From S2P Require Import Prelude Float32 Offset Lockfree Packet World Reference Cell Cluster Turn Map Grow Operate Life Places.
From S2P Require Import Server Update Tick Walk Reach Executor Work Examples Scenario.

Section jobs.
Context `{Behaviour, !RuntimeLaws}.
Context {F V P T : Type}.
Local Notation Shop := (@Shop _ F V P).
Local Notation request := (@Executor.request positive T).

Context (invoke : F → positive → Shop → list request * outcome (option positive) * Shop).
Context (run_task : T → Shop → list request * Shop) (now : Shop → Z).
Context `{Hlf : Lockfree positive} {cap : nat} `{!LockfreeLaws positive (Some cap)}.

Local Notation Staff := (@Executor positive T Shop Hlf).
Local Notation call := (call (handler invoke) onWorkError).
Local Notation job_loop := (job_loop Work.ready (handler invoke) onWorkError delete_work).
Local Notation run_jobs := (run_jobs Work.ready (handler invoke) onWorkError delete_work).
Local Notation executeJobs := (executeJobs Work.ready (handler invoke) run_task onWorkError delete_work now).
Local Notation task_loop := (task_loop run_task now).

Definition in_server {A} (m : ST World A) : ST Staff A := Executor.outside (shop_world m).

(** [Server::update] *)
Definition server_turn (fuel : nat) (elapsed prev : Z) : ST Staff Z :=
  _ ← in_server (map_update elapsed);
  _ ← executeJobs fuel;
  _ ← in_server server_runScheduledOperations;
  _ ← in_server (map_cleanup elapsed);
  mret (sleep_time elapsed prev).

(** ** What the works are *)

(** A work's client is there. *)
Definition employed (s : Shop) : Prop := ∀ j wk client,
  sh_works s !! j = Some wk → wk_executor wk = Some client → is_Some (w_clients (sh_world s) !! client).

(** What a handler may do: it does what may happen between turns, schedules
    tasks only, keeps the ownership and its own work; it returns a new work, if
    any, or throws [ReadOutOfBounds] when it has a client. *)
Definition mannered : Prop := ∀ j wk s, owned s → sh_works s !! j = Some wk → Work.ready j s = true →
  let '(reqs, res, s') := invoke (wk_handler wk) j s in
  Forall is_task reqs ∧ rtc happens (sh_world s) (sh_world s') ∧
  owned s' ∧ sh_works s' !! j = Some wk ∧ (sh_next s ≤ sh_next s')%positive ∧
  (∀ k, live s k → live s' k) ∧ (∀ k, live s' k → live s k ∨ (sh_next s ≤ k)%positive) ∧
  (∀ k wk' client, sh_works s' !! k = Some wk' → wk_executor wk' = Some client →
    is_Some (w_clients (sh_world s') !! client) ∨
    ∃ k0 wk0, sh_works s !! k0 = Some wk0 ∧ wk_executor wk0 = Some client) ∧
  match res with
  | Ok next => ∀ k, next = Some k → (sh_next s ≤ k)%positive ∧ live s' k
  | Fail f => f = Throw ReadOutOfBounds ∧ is_Some (wk_executor wk)
  end.

(** Tasks schedule nothing. *)
Definition tame : Prop := ∀ t s, ∃ w', run_task t s = ([], set_sh_world w' s) ∧ rtc happens (sh_world s) w'.

(** The executor, and the works [ks] that wait in it or are set aside. *)
Record crew (ks : list positive) (x : Staff) : Prop := {
  cr_nodup : NoDup ks;
  cr_live k : k ∈ ks → live (e_world x) k;
  cr_owned : owned (e_world x);
  cr_employed : employed (e_world x);
  cr_freed j : j ∈ e_freed x → (j < sh_next (e_world x))%positive ∧ ¬ live (e_world x) j;
  cr_tasks : tasks_ok x;
  cr_heap : heap_ok x;
}.

Lemma crew_perm ks ks' x : ks ≡ₚ ks' → crew ks x → crew ks' x.
Proof. intros Hp []. split; try done; [by rewrite <-Hp|]. intros k. rewrite <-Hp. auto. Qed.

(** The world of the executor changes, its clients stay. *)
Lemma crew_world ks x w :
  crew ks x → (∀ p, is_Some (w_clients (sh_world (e_world x)) !! p) → is_Some (w_clients w !! p)) →
  crew ks (set_world (set_sh_world w (e_world x)) x).
Proof.
  intros [] Hc. destruct cr_owned0 as [Hf Hp Hs]. split; try done. intros j wk client Hj Hcl. cbn.
  by apply Hc, (cr_employed0 j wk).
Qed.

Lemma crew_jobs ks x q : crew ks x → crew ks (set_jobs q x).
Proof. intros []. by split. Qed.

(** A work is deleted. *)
Lemma free_ok ks j x :
  crew (j :: ks) x → ∃ x', free_job delete_work j x = (Ok tt, x') ∧ crew ks x' ∧ _jobs x' = _jobs x ∧
    sh_world (e_world x') = sh_world (e_world x).
Proof.
  intros [Hnd Hl Ho He Hf Ht Hh]. apply NoDup_cons in Hnd as [Hj Hnd]. destruct (Hl j) as [wk Hwk]; [by left|].
  destruct (delete_work_ok j wk (e_world x) Ho Hwk) as (s & Hd & Ho' & Hw & Hn & _ & Hworld).
  exists (set_freed (j :: e_freed x) (set_world s x)). split; [|split; [|done]].
  { unfold free_job, Executor.outside, mbind, ST_bind. by rewrite Hd. }
  assert (∀ k, live s k ↔ live (e_world x) k ∧ k ≠ j) as Hlive.
  { intros k. unfold live. rewrite Hw. split.
    - intros [wk' Hk]. apply lookup_delete_Some in Hk as [? Hk]. split; [by exists wk'|done].
    - intros [[wk' Hk] Hne]. exists wk'. by rewrite lookup_delete_ne. }
  split; [done| |done| | |done|done]; cbn.
  - intros k Hk. apply Hlive. split; [apply Hl; by right|]. by intros ->.
  - intros k wk' client Hk Hc. rewrite Hworld. rewrite Hw in Hk. apply lookup_delete_Some in Hk as [_ Hk]. by eapply He.
  - intros k [->|Hk]%elem_of_cons; rewrite Hn, Hlive.
    + split; [apply (ow_fresh _ Ho); by exists wk|tauto].
    + destruct (Hf k Hk). tauto.
Qed.

(** ** What happens keeps the clients *)

Section world.
Context (elapsed : Z) (A : places) (L : list positive).

Lemma happens_running w w' :
  running elapsed A L w → happens w w' →
  running elapsed A L w' ∧ ∀ p, is_Some (w_clients w !! p) → is_Some (w_clients w' !! p).
Proof.
  intros Hr Hh. destruct (running_quiet elapsed A L w w' Hr) as [Hr' Hs].
  { eapply happens_quiet; [apply Hr|apply Hr|done]. }
  split; [done|]. intros p. apply bonded_clients; [apply Hr|apply Hr'|by apply steady_companions].
Qed.

Lemma rtc_happens_running w w' :
  running elapsed A L w → rtc happens w w' →
  running elapsed A L w' ∧ ∀ p, is_Some (w_clients w !! p) → is_Some (w_clients w' !! p).
Proof.
  intros Hr Hh. induction Hh as [w|w w1 w' Hh _ IH]; [by auto|].
  destruct (happens_running w w1 Hr Hh) as [Hr1 Hc1]. destruct (IH Hr1) as [Hr' Hc']. auto.
Qed.

(** A client that is there can be closed. *)
Lemma close_happens p w :
  running elapsed A L w → is_Some (w_clients w !! p) → ∃ w', Server.close p w = (Ok tt, w') ∧ happens w w'.
Proof.
  intros Hr Hp. pose proof (close_quiet A w p ltac:(apply Hr) ltac:(apply Hr) Hp) as Hwp.
  apply wp_run in Hwp as ([] & w' & Hrun & _). exists w'. split; [done|]. by apply (hp_close w w' p).
Qed.
End world.

(** ** The works of a turn *)

(** Scheduling tasks. *)
Lemma run_requests_ok reqs (x : Staff) :
  Forall is_task reqs → tasks_ok x → heap_ok x →
  ∃ x', for_each run_request reqs x = (Ok tt, x') ∧ _jobs x' = _jobs x ∧ e_freed x' = e_freed x ∧
    e_world x' = e_world x ∧ tasks_ok x' ∧ heap_ok x'.
Proof.
  intros Hr. revert x. induction Hr as [|r reqs Hr _ IH]; intros x Ht Hh; [by exists x|].
  destruct r as [|t when]; [done|].
  assert (heap_ok (with_task t when (e_world x) x)) as Hh'.
  { intros p [st Hp]. cbn in Hp |- *. apply lookup_insert_Some in Hp as [[<- _]|[_ Hp]]; [lia|].
    assert (p < e_next x)%positive; [apply Hh; by exists st|lia]. }
  destruct (IH (with_task t when (e_world x) x)) as (x' & Hrun & Hj & Hf & Hw & Hok); [by apply with_task_ok|done|].
  exists x'. split_and!; [|by rewrite Hj|by rewrite Hf|by rewrite Hw|apply Hok|apply Hok].
  cbn [for_each]. unfold mbind, ST_bind. exact Hrun.
Qed.

(** A call, and what is left: the work, and the one it returns. *)
Lemma call_ok elapsed A L j ks (x : Staff) :
  mannered → running elapsed A L (sh_world (e_world x)) → crew (j :: ks) x → Work.ready j (e_world x) = true →
  ∃ success next x', call j x = (Ok (success, next), x') ∧ _jobs x' = _jobs x ∧
    running elapsed A L (sh_world (e_world x')) ∧ crew (j :: option_list next ++ ks) x'.
Proof.
  intros Hm Hr [Hnd Hl Ho He Hf Ht Hh] Hready. destruct (Hl j) as [wk Hj]; [by left|].
  specialize (Hm j wk (e_world x) Ho Hj Hready). unfold Executor.call, mbind, ST_bind, get.
  assert (handler invoke j (e_world x) = invoke (wk_handler wk) j (e_world x)) as Hhd by (unfold handler; by rewrite Hj).
  rewrite Hhd. destruct (invoke (wk_handler wk) j (e_world x)) as [[reqs res] s'].
  destruct Hm as (Hreqs & Hhap & Ho' & Hj' & Hn' & Hl' & Hb' & Hemp & Hres).
  destruct (rtc_happens_running elapsed A L _ _ Hr Hhap) as [Hr' Hc'].
  unfold modify at 1. set (x1 := set_world s' x).
  destruct (run_requests_ok reqs x1 Hreqs Ht Hh) as (x2 & -> & Hjobs2 & Hf2 & Hw2 & Ht2 & Hh2).
  change (e_world x1) with s' in Hw2. change (_jobs x1) with (_jobs x) in Hjobs2. change (e_freed x1) with (e_freed x) in Hf2.
  assert (crew (j :: ks) x2) as Hcrew.
  { split; rewrite ?Hw2, ?Hf2; [done| |done| | |done|done].
    - intros k Hk. by apply Hl', Hl.
    - intros k wk' client Hk Hcl. destruct (Hemp k wk' client Hk Hcl) as [?|(k0 & wk0 & Hk0 & Hcl0)]; [done|].
      by apply Hc', (He k0 wk0).
    - intros k Hk. destruct (Hf k Hk) as [Hlt Hdead]. split; [lia|]. intros [?|?]%Hb'; [done|lia]. }
  destruct res as [next|f].
  - exists true, next, x2. rewrite Hw2. split_and!; [done|done|done|]. destruct next as [k|]; [|done].
    destruct (Hres k eq_refl) as [Hge Hlive]. apply (crew_perm (k :: j :: ks)); [apply Permutation_swap|].
    destruct Hcrew. split; try done.
    + apply NoDup_cons. split; [|done]. intros Hin%Hl. apply (ow_fresh _ Ho) in Hin. lia.
    + intros k' [->|Hk']%elem_of_cons; [by rewrite Hw2|auto].
  - destruct Hres as [-> [client Hclient]].
    assert (is_Some (w_clients (sh_world s') !! client)) as Hc.
    { apply Hc', (He j wk); done. }
    destruct (close_happens elapsed A L client (sh_world s') Hr' Hc) as (w & Hclose & Hhw).
    destruct (happens_running elapsed A L _ _ Hr' Hhw) as [Hr'' Hc''].
    exists false, None, (set_world (set_sh_world w (e_world x2)) x2). rewrite Hw2. split; [|split; [done|split; [done|]]].
    + unfold Executor.outside, onWorkError, deref_work, mbind, ST_bind, get, from_option. rewrite Hw2, Hj'.
      unfold mret at 1, ST_ret at 1. cbn beta iota. rewrite Hclient. unfold mret at 1, ST_ret at 1, shop_world. by rewrite Hclose.
    + cbn. rewrite <-Hw2. apply crew_world; [done|]. rewrite Hw2. exact Hc''.
Qed.

(** The loop over the works, from any queue. *)
Lemma job_loop_ok elapsed A L js l (x : Staff) :
  mannered → lf_contents (_jobs x) = js → running elapsed A L (sh_world (e_world x)) → crew (js ++ l) x →
  ∃ success js' l' x', (∀ fuel, length js < fuel → job_loop fuel l x = (Ok (success, l'), x')) ∧
    lf_contents (_jobs x') = js' ∧ (success = true → js' = []) ∧ length js' + length l' ≤ length js + length l ∧
    running elapsed A L (sh_world (e_world x')) ∧ crew (js' ++ l') x'.
Proof.
  intros Hm. revert l x. induction js as [|j js IH]; intros l x Hq Hr Hc.
  { exists true, [], l, x. split_and!; try done. intros [|fuel] Hfuel; [lia|]. cbn [Executor.job_loop].
    unfold mbind, ST_bind, get. by rewrite (lf_pop_empty _ Hq). }
  destruct (lf_pop_cons _ _ _ Hq) as (q & Hpop & Hq'). set (x1 := set_jobs q x).
  assert (j ∉ e_freed x) as Hnf by (intros Hin; apply (cr_freed _ _ Hc) in Hin as [_ Hin]; apply Hin, (cr_live _ _ Hc); by left).
  assert (∀ fuel, job_loop (S fuel) l x =
    (if Work.ready j (e_world x) then
       '(success, next) ← call j; _ ← free_job delete_work j;
       if success : bool then job_loop fuel (l ++ option_list next) else mret (false, l)
     else job_loop fuel (l ++ [j])) x1) as Hstep.
  { intros fuel. cbn [Executor.job_loop]. unfold mbind at 1, ST_bind at 1, get at 1. rewrite Hpop.
    unfold mbind at 1, ST_bind at 1, put at 1. by rewrite bool_decide_false. }
  destruct (Work.ready j (e_world x)) eqn:Hready.
  - destruct (call_ok elapsed A L j (js ++ l) x1 Hm Hr (crew_jobs _ _ _ Hc) Hready)
      as (success & next & x2 & Hcall & Hj2 & Hr2 & Hc2).
    destruct (free_ok _ _ _ Hc2) as (x3 & Hfree & Hc3 & Hj3 & Hw3).
    rewrite Hj2 in Hj3. change (_jobs x1) with q in Hj3. rewrite <-Hw3 in Hr2.
    assert (crew (js ++ l ++ option_list next) x3) as Hc4.
    { eapply crew_perm; [|exact Hc3]. by rewrite (Permutation_app_comm (option_list next)), <-app_assoc. }
    destruct success.
    + destruct (IH (l ++ option_list next) x3) as (b & js' & l' & x' & Hrun & Hjs' & Hb & Hlen & Hr' & Hc'); [by rewrite Hj3|done|done|].
      exists b, js', l', x'. split_and!; [|done|done| |done|done].
      * intros [|fuel] Hfuel; [cbn in Hfuel; lia|]. rewrite Hstep. unfold mbind, ST_bind. rewrite Hcall, Hfree.
        apply Hrun. cbn in Hfuel. lia.
      * rewrite length_app in Hlen. cbn [length]. destruct next; cbn in Hlen; lia.
    + exists false, js, l, x3. split_and!; [|by rewrite Hj3|done|cbn; lia|done|].
      * intros [|fuel] Hfuel; [cbn in Hfuel; lia|]. rewrite Hstep. unfold mbind, ST_bind. by rewrite Hcall, Hfree.
      * destruct Hc4. split; try done.
        { rewrite app_assoc in cr_nodup0. by apply NoDup_app in cr_nodup0 as [? _]. }
        { intros k Hk. apply cr_live0. set_solver. }
  - destruct (IH (l ++ [j]) x1) as (b & js' & l' & x' & Hrun & Hjs' & Hb & Hlen & Hr' & Hc'); [done|done| |].
    { apply crew_jobs. eapply crew_perm; [|exact Hc]. cbn. by rewrite Permutation_cons_append, <-app_assoc. }
    exists b, js', l', x'. split_and!; [|done|done| |done|done].
    + intros [|fuel] Hfuel; [cbn in Hfuel; lia|]. rewrite Hstep. apply Hrun. cbn in Hfuel. lia.
    + rewrite length_app in Hlen. cbn in *. lia.
Qed.

(** The loop over the tasks. *)
Lemma task_loop_ok elapsed A L ks (x : Staff) :
  tame → running elapsed A L (sh_world (e_world x)) → crew ks x →
  ∃ x', (∀ fuel, length (_scheduledTasks x) < fuel → task_loop fuel x = (Ok tt, x')) ∧ _jobs x' = _jobs x ∧
    running elapsed A L (sh_world (e_world x')) ∧ crew ks x'.
Proof.
  intros Htame. remember (length (_scheduledTasks x)) as n eqn:Hn. revert x Hn.
  induction n as [n IH] using lt_wf_ind. intros x -> Hr Hc. pose proof (cr_tasks _ _ Hc) as Hok.
  destruct (top_spec x Hok) as [[Hnil Htop]|(p & st & Htop & Hp & Hst & _)].
  { exists x. split_and!; try done. intros [|fuel] Hfuel; [lia|]. cbn [Executor.task_loop].
    unfold mbind at 1, ST_bind at 1. by rewrite Htop. }
  destruct (Z.ltb_spec (s_when st) (now (e_world x))) as [Hdue|Hlate].
  2: { exists x. split_and!; try done. intros [|fuel] Hfuel; [lia|]. cbn [Executor.task_loop].
    unfold mbind at 1, ST_bind at 1. rewrite Htop. unfold mbind, ST_bind, get.
    by rewrite (proj2 (Z.ltb_ge _ _)) by lia. }
  destruct (Htame (s_task st) (e_world x)) as (w & Hrun & Hhap).
  destruct (rtc_happens_running elapsed A L _ _ Hr Hhap) as [Hr' Hcl].
  set (x1 := task_done run_task p st x).
  assert (length (_scheduledTasks x1) < length (_scheduledTasks x)) as Hless.
  { pose proof (Permutation_length (filter_ne_perm p _ (proj1 Hok) Hp)) as Hlen. cbn in Hlen |- *. lia. }
  assert (e_world x1 = set_sh_world w (e_world x)) as Hw1 by (cbn; by rewrite Hrun).
  destruct (IH _ Hless x1 eq_refl) as (x' & Hx' & Hj' & Hrr & Hcc).
  { by rewrite Hw1. }
  { pose proof (crew_world ks x w Hc Hcl) as [Hnd Hl Ho He Hf Ht Hh]. split; rewrite ?Hw1; try done.
    - by apply task_done_ok.
    - intros q [st' Hq]. cbn in Hq. apply lookup_delete_Some in Hq as [_ Hq]. apply Hh. by exists st'. }
  exists x'. split_and!; [|by rewrite Hj'|done|done]. intros [|fuel] Hfuel; [lia|].
  rewrite (task_loop_step run_task now x fuel p st); [apply Hx'; lia|done|done|done|done|by rewrite Hrun].
Qed.

(** The executor runs, from any queue that is not above its capacity. *)
Lemma executeJobs_ok elapsed A L js (x : Staff) :
  mannered → tame → lf_contents (_jobs x) = js → length js ≤ cap →
  running elapsed A L (sh_world (e_world x)) → crew js x →
  ∃ bound x', (∀ fuel, bound ≤ fuel → executeJobs fuel x = (Ok tt, x')) ∧
    running elapsed A L (sh_world (e_world x')) ∧ crew (lf_contents (_jobs x')) x' ∧
    length (lf_contents (_jobs x')) ≤ cap.
Proof.
  intros Hm Ht Hq Hcap Hr Hc.
  destruct (job_loop_ok elapsed A L js [] x) as (b & js' & l' & x1 & Hloop & Hq1 & Hb & Hlen & Hr1 & Hc1);
    [done|done|done|by rewrite app_nil_r|]. cbn in Hlen.
  destruct b.
  - rewrite (Hb eq_refl) in *. cbn [app] in Hc1.
    set (x2 := set_jobs (push_all l' (_jobs x1)) x1).
    assert (lf_contents (_jobs x2) = l') as Hq2.
    { cbn. rewrite (push_all_contents (cap := Some cap)), Hq1; [done|]. rewrite Hq1. cbn in *. lia. }
    destruct (task_loop_ok elapsed A L l' x2) as (x' & Htasks & Hq' & Hr' & Hc'); [done|done|by apply crew_jobs|].
    exists (S (length js + length (_scheduledTasks x2))), x'. rewrite Hq', Hq2. split_and!; [|done|done|cbn in *; lia].
    intros fuel Hfuel. unfold Executor.executeJobs, Executor.run_jobs, mbind, ST_bind.
    rewrite Hloop by lia. cbn beta iota. rewrite reschedule_all. cbn beta iota. unfold mret at 1, ST_ret at 1.
    cbn beta iota. fold x2. apply Htasks. lia.
  - exists (S (length js)), x1. rewrite Hq1. split_and!; [|done| |lia].
    + intros fuel Hfuel. unfold Executor.executeJobs, Executor.run_jobs, mbind, ST_bind. by rewrite Hloop by lia.
    + destruct Hc1. split; try done; [by apply NoDup_app in cr_nodup0 as [? _]|]. intros k Hk. apply cr_live0. set_solver.
Qed.

(** ** The turn *)

(** A step of the world, in the server. *)
Lemma wpe_in_server {A} E (m : ST World A) (x : Staff) (Q : A → World → Prop) :
  wpe E m (sh_world (e_world x)) Q →
  wpe E (in_server m) x (λ a x', Q a (sh_world (e_world x')) ∧
    x' = set_world (set_sh_world (sh_world (e_world x')) (e_world x)) x).
Proof.
  unfold wpe, in_server, Executor.outside, shop_world. destruct (m (sh_world (e_world x))) as [[a|f] w]; [|done].
  intros HQ. by split.
Qed.

(** C3. A turn of the server runs with the works and the tasks of its executor:
    handlers may do whatever may happen between turns, and read past the end of
    their packets, and yet the turn of a settled world does not fail, the world
    is settled again with the entities where the operations lead them, and every
    work that is queued is alive and owns its packet. The clients of the works
    are there when the turn begins; the one failure that is left is an [int]
    that overflows where a quadtree splits. *)
Theorem server_turn_runs (elapsed prev : Z) (A A' : places) (js : list positive) (x : Staff)
    (Hcivil : Civil elapsed) (Hannounced : announced) (Hmannered : mannered) (Htame : tame)
    (Hsettled : settled A (sh_world (e_world x))) (Hready : Tick.ready elapsed A A' (sh_world (e_world x)))
    (Hq : lf_contents (_jobs x) = js) (Hcap : length js ≤ cap) (Hcrew : crew js x) :
  ∃ bound, ∀ fuel, bound ≤ fuel →
    match server_turn fuel elapsed prev x with
    | (Ok sleep, x') =>
        settled A' (sh_world (e_world x')) ∧ sleep = sleep_time elapsed prev ∧
        owned (e_world x') ∧ Forall (live (e_world x')) (lf_contents (_jobs x')) ∧
        length (lf_contents (_jobs x')) ≤ cap
    | (Fail f, _) => f = UB IntOverflow
    end.
Proof.
  set (w := sh_world (e_world x)) in *.
  assert (wpe overflow (map_update elapsed) w (λ _ w2, (∃ L, running elapsed A' L w2) ∧ companions w w2)) as Hmap.
  { unfold map_update.
    eapply wpe_wp_bind; [by apply (map_operations_companions elapsed A A')|]. intros [] w1 [[L Hup] Hco1].
    eapply wpe_mono; [by apply (cluster_update_companions elapsed A' L)|]. intros [] w2 [Hr Hco2].
    split; [by exists L|]. intros e en He. destruct (Hco1 e en He) as (en1 & He1 & Heq1).
    destruct (Hco2 e en1 He1) as (en2 & He2 & Heq2). exists en2. split; [done|congruence]. }
  apply wpe_in_server in Hmap. unfold server_turn. unfold mbind at 1, ST_bind at 1. unfold wpe in Hmap.
  destruct (in_server (map_update elapsed) x) as [[[]|f] x1]; [|exists 0; intros; exact Hmap].
  destruct Hmap as [[[L Hr1] Hco] Hx1]. set (w1 := sh_world (e_world x1)) in *.
  assert (crew js x1) as Hc1.
  { rewrite Hx1. apply crew_world; [done|]. intros p. apply bonded_clients; [apply Hsettled|apply Hr1|done]. }
  assert (lf_contents (_jobs x1) = js) as Hq1 by by rewrite Hx1.
  destruct (executeJobs_ok elapsed A' L js x1 Hmannered Htame Hq1 Hcap Hr1 Hc1) as (bound & x2 & Hexec & Hr2 & Hc2 & Hcap2).
  exists bound. intros fuel Hfuel. unfold mbind at 1, ST_bind at 1. rewrite (Hexec fuel Hfuel).
  assert (wpe overflow (_ ← in_server server_runScheduledOperations; _ ← in_server (map_cleanup elapsed);
    mret (sleep_time elapsed prev)) x2 (λ sleep x', settled A' (sh_world (e_world x')) ∧
      sleep = sleep_time elapsed prev ∧ ∃ w', x' = set_world (set_sh_world w' (e_world x2)) x2)) as Hend.
  { apply wpe_bind. eapply wpe_mono; [apply wpe_in_server, wp_wpe; by apply (server_operations_ending elapsed A' L)|].
    intros [] x3 [Hed Hx3]. apply wpe_bind.
    eapply wpe_mono; [apply wpe_in_server, wp_wpe, (map_cleanup_settled elapsed A' L); [apply Hready|exact Hed]|].
    intros [] x4 [Hse Hx4]. split; [done|]. split; [done|]. exists (sh_world (e_world x4)). etrans; [exact Hx4|]. by rewrite Hx3. }
  unfold wpe in Hend. destruct ((_ ← in_server server_runScheduledOperations; _ ← in_server (map_cleanup elapsed);
    mret (sleep_time elapsed prev)) x2) as [[sleep|f] x']; [|exact Hend].
  destruct Hend as (Hse & -> & w' & Hx'). split; [done|]. split; [done|]. rewrite Hx'. cbn.
  destruct Hc2 as [_ Hl2 [Hf2 Hp2 Hs2] _ _ _ _]. split; [by split|]. split; [|done].
  apply Forall_forall. intros k Hk. by apply Hl2.
Qed.
End jobs.

(** ** A turn with works

    The walker of [Scenario.v] is added; meanwhile a client has been accepted,
    whose work reads past the end of its packet; a future is not there yet. *)

Section example.
#[local] Instance jb_runtime : Runtime := reference true.
#[local] Instance jb_laws : RuntimeLaws := reference_laws true.
#[local] Instance jb_behaviour : Behaviour := walkers (λ _, 1%positive) walk.
#[local] Instance jb_queue : Lockfree positive := list_queue positive (Some 8).
#[local] Instance jb_queue_laws : LockfreeLaws positive (Some 8) := list_queue_laws positive (Some 8).

Local Notation shop := (@Shop jb_runtime bool Z Z).

(** The functions: one throws, if its work has a client; the other goes on with
    a package. *)
Definition gate (f : bool) (j : positive) (s : shop) : list (@Executor.request positive unit) * outcome (option positive) * shop :=
  match sh_works s !! j with
  | Some (mkWork _ (Some _) _) => if f then ([], Fail (Throw ReadOutOfBounds), s) else runs (mret None) s
  | _ => runs (k ← new_PackagedWork false None 7%Z; mret (Some k)) s
  end.

Lemma gate_mannered : mannered gate.
Proof.
  intros j wk s Ho Hj _. unfold gate. rewrite Hj.
  assert (∀ (s' : shop) k wk' c, sh_works s' !! k = Some wk' → wk_executor wk' = Some c →
    is_Some (w_clients (sh_world s) !! c) ∨ ∃ k0 wk0, sh_works s' !! k0 = Some wk0 ∧ wk_executor wk0 = Some c) as Hemp
    by (intros s' k wk' c Hk Hc; right; by exists k, wk').
  destruct wk as [f [client|] kind]; cbn [wk_handler].
  - destruct f; split_and!; try done; try (by apply rtc_refl); try lia; try apply Hemp; by left.
  - pose proof (new_work_ok (mkWork false None (PackagedWork 7%Z)) s Ho ltac:(done)) as Hn.
    unfold runs, new_PackagedWork, mbind, ST_bind. destruct (new_work _ s) as [r s'].
    destruct Hn as (-> & Ho' & Hw & Hworld & Hle & Hl & Hb & Hlive). unfold mret, ST_ret. cbn beta iota. rewrite Hworld.
    split_and!; [constructor|apply rtc_refl|done| |done|by intros k Hk; apply Hl|done| |].
    + rewrite (proj2 (Hl j ltac:(by eexists))). done.
    + intros k wk' c Hk Hc. rewrite Hw in Hk. apply lookup_insert_Some in Hk as [[_ <-]|[_ Hk]]; [done|]. by eapply Hemp.
    + intros k [= <-]. split; [lia|done].
Qed.

Definition jobs_world : World := (accept 9 destination scheduled_world).2.

Lemma jobs_accepts : accept 9 destination scheduled_world = (Ok tt, jobs_world).
Proof.
  assert ((accept 9 destination scheduled_world).1 = Ok tt) as Hok by by vm_compute.
  rewrite <-Hok. apply surjective_pairing.
Qed.

Lemma jobs_unused : unused scheduled_world 9.
Proof.
  assert (map_Forall (λ _ en, e_id en ≠ 9%Z) (w_entities scheduled_world)) as Hall
    by (apply (bool_decide_unpack _); by vm_compute).
  intros e en He. exact (Hall e en He).
Qed.

Lemma jobs_happens : happens scheduled_world jobs_world.
Proof. exact (hp_accept _ _ 9 destination jobs_unused jobs_accepts). Qed.

Lemma jobs_settled : settled ∅ jobs_world.
Proof.
  pose proof scheduled_settled as Hs.
  exact (settled_quiet _ _ _ Hs (happens_quiet _ _ _ Hs (se_closing _ _ Hs) jobs_happens)).
Qed.

Lemma jobs_operations :
  lf_contents (w_operations jobs_world) = [mkMapOperation ADD_ENTITY origin (Some 1%positive) None].
Proof. by vm_compute. Qed.

Lemma jobs_walker : w_entities jobs_world !! 1%positive = Some walker.
Proof. by vm_compute. Qed.

Lemma jobs_ready : Tick.ready 50 ∅ at_origin jobs_world.
Proof.
  split; rewrite ?jobs_operations; [done|by vm_compute| |cbn; lia|].
  - constructor; [|done]. intros _. split.
    + split_and!; [exact origin_interior|by intros o' p _ Hp| |done|done].
      exists 1%positive, walker. split; [done|exact jobs_walker].
    + intros e en _ [= <-] Ht. rewrite jobs_walker in Ht. injection Ht as <-. split.
      * exists walker, round_box. split; [exact jobs_walker|done].
      * intros _ q c (o & Ho & _)%elem_of_around. done.
  - intros w1 Hrun. replace w1 with (map_runScheduledOperations jobs_world).2 by by rewrite Hrun. by vm_compute.
Qed.

(** The works in the queue: of the client, of the future, with a package. *)
Definition jobs_shop : shop := {|
  sh_world := jobs_world;
  sh_works := {[1 := mkWork true (Some 1) (ClientWork 1); 2 := mkWork false None (FutureWork 1);
                3 := mkWork false None (PackagedWork 5%Z)]}%positive;
  sh_next := 4;
  sh_packets := {[1 := received_packet [9]%Z]}%positive;
  sh_futures := {[1%positive := None]};
|}.

Definition jobs_executor : @Executor positive unit shop jb_queue :=
  mkExecutor ([2; 3; 1]%positive : @lf_queue positive jb_queue) [] ∅ 1 [] jobs_shop.

Lemma jobs_works (k : positive) wk :
  sh_works jobs_shop !! k = Some wk →
  (k < 4)%positive ∧ (∀ p, wk_kind wk = ClientWork p → k = 1%positive ∧ p = 1%positive) ∧
  ∀ client, wk_executor wk = Some client → client = 1%positive.
Proof.
  cbn. intros Hk. apply lookup_insert_Some in Hk as [[<- <-]|[_ Hk]]; [by split_and!; intros; simplify_eq/=|].
  apply lookup_insert_Some in Hk as [[<- <-]|[_ Hk]]; [by split_and!; intros; simplify_eq/=|].
  apply lookup_singleton_Some in Hk as [<- <-]. by split_and!; intros; simplify_eq/=.
Qed.

Lemma jobs_client : is_Some (w_clients jobs_world !! 1%positive).
Proof. apply (bool_decide_unpack _). by vm_compute. Qed.

Lemma jobs_crew : crew [2; 3; 1]%positive jobs_executor.
Proof.
  split.
  - apply (bool_decide_unpack _). by vm_compute.
  - assert (Forall (λ k, is_Some (sh_works jobs_shop !! k)) [2; 3; 1]%positive) as Hall
      by (apply (bool_decide_unpack _); by vm_compute). rewrite Forall_forall in Hall. exact Hall.
  - split.
    + intros k [wk Hk]. exact (proj1 (jobs_works k wk Hk)).
    + intros k wk p Hk Hkind. destruct (proj1 (proj2 (jobs_works k wk Hk)) p Hkind) as [_ ->]. cbn.
      rewrite lookup_singleton_eq. by eexists.
    + intros k k' wk wk' p Hk Hkind Hk' Hkind'.
      destruct (proj1 (proj2 (jobs_works k wk Hk)) p Hkind) as [-> _].
      by destruct (proj1 (proj2 (jobs_works k' wk' Hk')) p Hkind') as [-> _].
  - intros k wk client Hk Hc. rewrite (proj2 (proj2 (jobs_works k wk Hk)) client Hc). exact jobs_client.
  - by intros k ?%elem_of_nil.
  - split; [by apply NoDup_nil_2|by intros k ?%elem_of_nil].
  - intros k [st Hk]. cbn [jobs_executor e_heap] in Hk. by rewrite lookup_empty in Hk.
Qed.

Lemma jobs_tame : tame (λ (_ : unit) (s : shop), ([], s)).
Proof. intros t s. exists (sh_world s). split; [by destruct s|apply rtc_refl]. Qed.

Lemma server_turn_runs_witness :
  settled ∅ jobs_world ∧
  ∃ bound, ∀ fuel, bound ≤ fuel →
    match server_turn gate (λ _ s, ([], s)) (λ _, 0%Z) fuel 50 0 jobs_executor with
    | (Ok _, x') => settled at_origin (sh_world (e_world x'))
    | (Fail f, _) => f = UB IntOverflow
    end.
Proof.
  split; [exact jobs_settled|].
  destruct (server_turn_runs gate (λ _ s, ([], s)) (λ _, 0%Z) (cap := 8) 50 0 ∅ at_origin [2; 3; 1]%positive jobs_executor
    (walk_civil 50) reference_announced gate_mannered jobs_tame jobs_settled jobs_ready eq_refl
    ltac:(cbn; lia) jobs_crew) as [bound Hturn].
  exists bound. intros fuel Hfuel. specialize (Hturn fuel Hfuel).
  destruct (server_turn _ _ _ _ _ _ _) as [[sleep|f] x']; [exact (proj1 Hturn)|exact Hturn].
Defined.

(** It does not fail: the client is closed and destroyed, with its work. The
    works that the round set aside before are lost ([executeJobs_error]). *)
Lemma jobs_turn :
  let '(r, x') := server_turn gate (λ _ s, ([], s)) (λ _, 0%Z) 8 50 0 jobs_executor in
  r = Ok 0%Z ∧ w_clients (sh_world (e_world x')) = ∅ ∧ e_freed x' = [1; 3]%positive ∧ lf_contents (_jobs x') = [].
Proof. by vm_compute. Qed.
End example.
